(** * QtQuickVcp service discovery: a shallow embedding of
      [src/service/servicediscovery.cpp]

    The engine is a single-threaded Qt object.  Its member maps, the heap of
    [ServiceDiscoveryItem] objects it allocates and the lookup backend it
    owns are modelled as one explicit state record; every member function
    becomes a function on that record.  Dereferencing a null pointer
    ([m_jdns], or an item pointer that a map lookup defaulted to
    [nullptr]) is undefined behaviour in the source and is the [NullDeref]
    outcome here. *)

From Stdlib Require Import ZArith List String Ascii Bool Arith Lia.
Import ListNotations.

Set Implicit Arguments.

(* ================================================================== *)
(** ** QMap: Qt's ordered map, as a key-sorted association list        *)
(* ================================================================== *)

(** [QMapIterator] walks a snapshot of the map in ascending key order and
    several member functions stop at the first matching entry, so the map
    is kept as the list of its entries. *)

Class QKey (K : Type) := {
  key_eqb : K -> K -> bool;
  key_ltb : K -> K -> bool;
  key_eqb_eq : forall a b, key_eqb a b = true <-> a = b
}.

#[export] Instance QKey_Z : QKey Z :=
  {| key_eqb := Z.eqb; key_ltb := Z.ltb; key_eqb_eq := Z.eqb_eq |}.

#[export] Instance QKey_string : QKey string :=
  {| key_eqb := String.eqb; key_ltb := String.ltb;
     key_eqb_eq := String.eqb_eq |}.

Module QMap.
Section Ops.
Context {K V : Type} {KK : QKey K}.

Definition t := list (K * V).

Definition empty : t := [].

(** [QMap::value(key)], with [None] where Qt returns a default-constructed
    value. *)
Fixpoint value (m : t) (k : K) : option V :=
  match m with
  | [] => None
  | (k', v) :: m' => if key_eqb k' k then Some v else value m' k
  end.

Definition contains (m : t) (k : K) : bool :=
  match value m k with Some _ => true | None => false end.

(** [QMap::remove(key)] *)
Definition remove (m : t) (k : K) : t :=
  filter (fun e => negb (key_eqb (fst e) k)) m.

Fixpoint place (k : K) (v : V) (m : t) : t :=
  match m with
  | [] => [(k, v)]
  | (k', v') :: m' =>
      if key_ltb k' k then (k', v') :: place k v m'
      else (k, v) :: (k', v') :: m'
  end.

(** [QMap::insert(key, value)]: an existing entry for [key] is replaced. *)
Definition insert (m : t) (k : K) (v : V) : t := place k v (remove m k).

Definition keys (m : t) : list K := map fst m.
End Ops.
Arguments t : clear implicits.
End QMap.

(* ================================================================== *)
(** ** The Qt string operations the engine calls                       *)
(* ================================================================== *)

Module Qt.

(** [QByteArray::indexOf(const char* )]: position of the first occurrence,
    -1 when there is none. *)
Definition indexOf (s sub : string) : Z :=
  match String.index 0 sub s with
  | Some n => Z.of_nat n
  | None => (-1)%Z
  end.

(** [QByteArray::left(len)]: the whole array when [len >= size()], the empty
    array when [len < 0], the first [len] bytes otherwise. *)
Definition left (s : string) (len : Z) : string :=
  if (Z.of_nat (String.length s) <=? len)%Z then s
  else if (len <? 0)%Z then EmptyString
  else substring 0 (Z.to_nat len) s.

End Qt.

(* ================================================================== *)
(** ** QRegExp in [QRegExp::WildcardUnix] syntax, case sensitive       *)
(* ================================================================== *)

(** Modelled from the spec: Qt's [QRegExp] is a library class outside the
    repository.  The pattern syntax is that of the spec's section 4.6 (the
    Unix-style wildcards [*], [?] and [[...]], with a backslash escaping a
    wildcard); [contains] is the search [QString::contains(QRegExp)] and
    [QStringList::filter(QRegExp)] perform, which succeeds when the pattern
    matches somewhere in the subject; [exactMatch] is the anchored match of
    the whole subject. *)
Module QRegExp.

Inductive token :=
| Lit (c : ascii)
| AnyChar
| AnySeq
| CharSet (negated : bool) (ranges : list (ascii * ascii)).

Definition is_char (a b : ascii) : bool := Ascii.eqb a b.

Inductive mode :=
| Normal
| InSet (negated first : bool) (acc : list (ascii * ascii)).

(** Wildcard pattern to tokens; [None] for a pattern with an unterminated
    bracket expression, which matches nothing.  Inside a bracket expression
    [first] is true while no member has been read (a closing bracket is then
    a member), and [a-b] is a range. *)
Fixpoint tokenize (m : mode) (s : string) : option (list token) :=
  match m, s with
  | Normal, EmptyString => Some []
  | Normal, String c rest =>
      if is_char c "*" then option_map (cons AnySeq) (tokenize Normal rest)
      else if is_char c "?" then
        option_map (cons AnyChar) (tokenize Normal rest)
      else if is_char c "\" then
        match rest with
        | EmptyString => Some [Lit c]
        | String d rest' =>
            if is_char d "*" || is_char d "?" || is_char d "["
               || is_char d "]"
            then option_map (cons (Lit d)) (tokenize Normal rest')
            else option_map (cons (Lit c)) (tokenize Normal rest)
        end
      else if is_char c "[" then
        match rest with
        | String d rest' =>
            if is_char d "^" then tokenize (InSet true true []) rest'
            else tokenize (InSet false true []) rest
        | EmptyString => None
        end
      else option_map (cons (Lit c)) (tokenize Normal rest)
  | InSet _ _ _, EmptyString => None
  | InSet neg first acc, String c rest =>
      if is_char c "]" && negb first
      then option_map (cons (CharSet neg (rev acc))) (tokenize Normal rest)
      else
        match rest with
        | String d (String e rest') =>
            if is_char d "-" && negb (is_char e "]")
            then tokenize (InSet neg false ((c, e) :: acc)) rest'
            else tokenize (InSet neg false ((c, c) :: acc)) rest
        | _ => tokenize (InSet neg false ((c, c) :: acc)) rest
        end
  end.

Definition tokens (pattern : string) : option (list token) :=
  tokenize Normal pattern.

Definition in_range (c : ascii) (r : ascii * ascii) : bool :=
  (nat_of_ascii (fst r) <=? nat_of_ascii c)%nat
  && (nat_of_ascii c <=? nat_of_ascii (snd r))%nat.

Definition tokMatches (t : token) (c : ascii) : bool :=
  match t with
  | Lit a => is_char a c
  | AnyChar => true
  | AnySeq => false
  | CharSet neg rs => xorb neg (existsb (in_range c) rs)
  end.

(** Some prefix of [s] matches the token list. *)
Fixpoint matchHere (p : list token) (s : string) : bool :=
  match p with
  | [] => true
  | AnySeq :: p' =>
      (fix skip (s : string) : bool :=
         matchHere p' s
         || match s with
            | EmptyString => false
            | String _ s' => skip s'
            end) s
  | t :: p' =>
      match s with
      | EmptyString => false
      | String c s' => tokMatches t c && matchHere p' s'
      end
  end.

(** The whole of [s] matches the token list. *)
Fixpoint matchAll (p : list token) (s : string) : bool :=
  match p with
  | [] => match s with EmptyString => true | _ => false end
  | AnySeq :: p' =>
      (fix skip (s : string) : bool :=
         matchAll p' s
         || match s with
            | EmptyString => false
            | String _ s' => skip s'
            end) s
  | t :: p' =>
      match s with
      | EmptyString => false
      | String c s' => tokMatches t c && matchAll p' s'
      end
  end.

Fixpoint searchFrom (p : list token) (s : string) : bool :=
  matchHere p s
  || match s with
     | EmptyString => false
     | String _ s' => searchFrom p s'
     end.

(** [QString::contains(QRegExp(pattern, Qt::CaseSensitive,
    QRegExp::WildcardUnix))] *)
Definition contains (pattern subject : string) : bool :=
  match tokens pattern with
  | Some p => searchFrom p subject
  | None => false
  end.

(** [QRegExp(pattern, Qt::CaseSensitive, QRegExp::WildcardUnix)
    .exactMatch(subject)] *)
Definition exactMatch (pattern subject : string) : bool :=
  match tokens pattern with
  | Some p => matchAll p subject
  | None => false
  end.

End QRegExp.


(* ================================================================== *)
(** ** Data model                                                      *)
(* ================================================================== *)

(** Modelled from the spec: the lookup backend [QJDns] (the spec's section 6,
    declared in [qjdns.h]).  Record types carry their DNS type codes; a
    default-constructed [QJDns::Type], which [QMap::value] returns for a
    missing key, is 0 and names no record type.  [queryStart] hands out a
    query id the handle has not used before; the calls the engine makes are
    kept in [calls]. *)
Module QJDns.

Definition A : Z := 1.
Definition Ptr : Z := 12.
Definition Txt : Z := 16.
Definition Aaaa : Z := 28.
Definition Srv : Z := 33.
Definition defaultType : Z := 0.

Inductive Mode := Unicast | Multicast.

Record AnswerRecord := mkRecord {
  owner : string;
  name : string;
  ttl : Z;
  texts : list string;
  port : Z;
  address : string
}.

(** [QJDns::Response::answerRecords] *)
Definition Response := list AnswerRecord.

Inductive Call :=
| QueryStart (name : string) (type : Z) (id : Z)
| QueryCancel (id : Z)
| SetNameServers (servers : list (string * Z)).

Record Handle := mkHandle {
  mode : Mode;
  next_id : Z;
  calls : list Call
}.

End QJDns.

(** Pointers to heap-allocated [ServiceDiscoveryItem] objects. *)
Definition ptr := nat.

(** Modelled from the spec: the class [ServiceDiscoveryItem] (the spec's
    Instance record, declared in [servicediscoveryitem.h]) with the accessors
    the engine calls. *)
Module Item.

Record t := mk {
  name : string;
  type : string;
  txtRecords : list string;
  hostName : string;
  hostAddress : string;
  port : Z;
  outstandingRequests : list Z;
  updated : bool;
  errorCount : Z
}.

(** [new ServiceDiscoveryItem(this)] *)
Definition blank : t :=
  mk EmptyString EmptyString [] EmptyString EmptyString 0 [] false 0.

Definition setName (x : string) (i : t) : t :=
  mk x (type i) (txtRecords i) (hostName i) (hostAddress i) (port i)
     (outstandingRequests i) (updated i) (errorCount i).
Definition setType (x : string) (i : t) : t :=
  mk (name i) x (txtRecords i) (hostName i) (hostAddress i) (port i)
     (outstandingRequests i) (updated i) (errorCount i).
Definition setTxtRecords (x : list string) (i : t) : t :=
  mk (name i) (type i) x (hostName i) (hostAddress i) (port i)
     (outstandingRequests i) (updated i) (errorCount i).
Definition setHostName (x : string) (i : t) : t :=
  mk (name i) (type i) (txtRecords i) x (hostAddress i) (port i)
     (outstandingRequests i) (updated i) (errorCount i).
Definition setHostAddress (x : string) (i : t) : t :=
  mk (name i) (type i) (txtRecords i) (hostName i) x (port i)
     (outstandingRequests i) (updated i) (errorCount i).
Definition setPort (x : Z) (i : t) : t :=
  mk (name i) (type i) (txtRecords i) (hostName i) (hostAddress i) x
     (outstandingRequests i) (updated i) (errorCount i).
Definition setOutstanding (x : list Z) (i : t) : t :=
  mk (name i) (type i) (txtRecords i) (hostName i) (hostAddress i) (port i)
     x (updated i) (errorCount i).
Definition setUpdated (x : bool) (i : t) : t :=
  mk (name i) (type i) (txtRecords i) (hostName i) (hostAddress i) (port i)
     (outstandingRequests i) x (errorCount i).
Definition setErrorCount (x : Z) (i : t) : t :=
  mk (name i) (type i) (txtRecords i) (hostName i) (hostAddress i) (port i)
     (outstandingRequests i) (updated i) x.

(** The set of outstanding query ids, kept without repetition. *)
Definition addOutstandingRequest (id : Z) (i : t) : t :=
  if existsb (Z.eqb id) (outstandingRequests i) then i
  else setOutstanding (outstandingRequests i ++ [id]) i.
Definition removeOutstandingRequest (id : Z) (i : t) : t :=
  setOutstanding (filter (fun x => negb (Z.eqb x id)) (outstandingRequests i))
                 i.
Definition hasOutstandingRequests (i : t) : bool :=
  match outstandingRequests i with [] => false | _ => true end.
Definition increaseErrorCount (i : t) : t :=
  setErrorCount (errorCount i + 1) i.
Definition resetErrorCount (i : t) : t := setErrorCount 0 i.

End Item.

(** Modelled from the spec: [ServiceDiscoveryFilter] (the spec's Filter). *)
Module Filter.
Record t := mk {
  name : string;
  txtRecords : list string
}.
Definition any : t := mk EmptyString [].
End Filter.

(** Modelled from the spec: [ServiceDiscoveryQuery] (the spec's UserQuery);
    [items] is the list [setItems] last stored. *)
Module Query.
Record t := mk {
  serviceType : string;
  queryType : Z;
  filter : Filter.t;
  items : list ptr
}.
Definition setItems (l : list ptr) (q : t) : t :=
  mk (serviceType q) (queryType q) (filter q) l.
End Query.

(** A [Service] holds queries, a [ServiceList] holds services. *)
Definition Service := list Query.t.
Definition ServiceList := list Service.

Inductive LookupMode := MulticastDNS | UnicastDNS.

(** [NameServer]: host address (null when unresolved) and port. *)
Record NameServer := mkNameServer {
  ns_hostAddress : option string;
  ns_port : Z
}.

(** The members of [ServiceDiscovery] the resolver and the lifecycle
    controller use, the heap of items, and whether the unicast timer runs. *)
Record State := mkState {
  m_componentCompleted : bool;
  m_running : bool;
  m_networkReady : bool;
  m_lookupReady : bool;
  m_lookupMode : LookupMode;
  m_unicastErrorThreshold : Z;
  m_filter : Filter.t;
  m_serviceLists : list ServiceList;
  m_nameServers : list NameServer;
  systemNameServers : list (string * Z);
  m_serviceItemsMap : QMap.t string (list ptr);
  m_serviceTypeMap : QMap.t string Z;
  m_queryIdTypeMap : QMap.t Z Z;
  m_queryIdServiceMap : QMap.t Z string;
  m_queryIdItemMap : QMap.t Z ptr;
  m_jdns : option QJDns.Handle;
  m_unicastLookupTimer : bool;
  heap : list Item.t
}.

Definition set_componentCompleted (x : bool) (s : State) : State :=
  {| m_componentCompleted := x;
     m_running := m_running s;
     m_networkReady := m_networkReady s;
     m_lookupReady := m_lookupReady s;
     m_lookupMode := m_lookupMode s;
     m_unicastErrorThreshold := m_unicastErrorThreshold s;
     m_filter := m_filter s;
     m_serviceLists := m_serviceLists s;
     m_nameServers := m_nameServers s;
     systemNameServers := systemNameServers s;
     m_serviceItemsMap := m_serviceItemsMap s;
     m_serviceTypeMap := m_serviceTypeMap s;
     m_queryIdTypeMap := m_queryIdTypeMap s;
     m_queryIdServiceMap := m_queryIdServiceMap s;
     m_queryIdItemMap := m_queryIdItemMap s;
     m_jdns := m_jdns s;
     m_unicastLookupTimer := m_unicastLookupTimer s;
     heap := heap s |}.

Definition set_running (x : bool) (s : State) : State :=
  {| m_componentCompleted := m_componentCompleted s;
     m_running := x;
     m_networkReady := m_networkReady s;
     m_lookupReady := m_lookupReady s;
     m_lookupMode := m_lookupMode s;
     m_unicastErrorThreshold := m_unicastErrorThreshold s;
     m_filter := m_filter s;
     m_serviceLists := m_serviceLists s;
     m_nameServers := m_nameServers s;
     systemNameServers := systemNameServers s;
     m_serviceItemsMap := m_serviceItemsMap s;
     m_serviceTypeMap := m_serviceTypeMap s;
     m_queryIdTypeMap := m_queryIdTypeMap s;
     m_queryIdServiceMap := m_queryIdServiceMap s;
     m_queryIdItemMap := m_queryIdItemMap s;
     m_jdns := m_jdns s;
     m_unicastLookupTimer := m_unicastLookupTimer s;
     heap := heap s |}.

Definition set_networkReady (x : bool) (s : State) : State :=
  {| m_componentCompleted := m_componentCompleted s;
     m_running := m_running s;
     m_networkReady := x;
     m_lookupReady := m_lookupReady s;
     m_lookupMode := m_lookupMode s;
     m_unicastErrorThreshold := m_unicastErrorThreshold s;
     m_filter := m_filter s;
     m_serviceLists := m_serviceLists s;
     m_nameServers := m_nameServers s;
     systemNameServers := systemNameServers s;
     m_serviceItemsMap := m_serviceItemsMap s;
     m_serviceTypeMap := m_serviceTypeMap s;
     m_queryIdTypeMap := m_queryIdTypeMap s;
     m_queryIdServiceMap := m_queryIdServiceMap s;
     m_queryIdItemMap := m_queryIdItemMap s;
     m_jdns := m_jdns s;
     m_unicastLookupTimer := m_unicastLookupTimer s;
     heap := heap s |}.

Definition set_lookupReady (x : bool) (s : State) : State :=
  {| m_componentCompleted := m_componentCompleted s;
     m_running := m_running s;
     m_networkReady := m_networkReady s;
     m_lookupReady := x;
     m_lookupMode := m_lookupMode s;
     m_unicastErrorThreshold := m_unicastErrorThreshold s;
     m_filter := m_filter s;
     m_serviceLists := m_serviceLists s;
     m_nameServers := m_nameServers s;
     systemNameServers := systemNameServers s;
     m_serviceItemsMap := m_serviceItemsMap s;
     m_serviceTypeMap := m_serviceTypeMap s;
     m_queryIdTypeMap := m_queryIdTypeMap s;
     m_queryIdServiceMap := m_queryIdServiceMap s;
     m_queryIdItemMap := m_queryIdItemMap s;
     m_jdns := m_jdns s;
     m_unicastLookupTimer := m_unicastLookupTimer s;
     heap := heap s |}.

Definition set_lookupMode (x : LookupMode) (s : State) : State :=
  {| m_componentCompleted := m_componentCompleted s;
     m_running := m_running s;
     m_networkReady := m_networkReady s;
     m_lookupReady := m_lookupReady s;
     m_lookupMode := x;
     m_unicastErrorThreshold := m_unicastErrorThreshold s;
     m_filter := m_filter s;
     m_serviceLists := m_serviceLists s;
     m_nameServers := m_nameServers s;
     systemNameServers := systemNameServers s;
     m_serviceItemsMap := m_serviceItemsMap s;
     m_serviceTypeMap := m_serviceTypeMap s;
     m_queryIdTypeMap := m_queryIdTypeMap s;
     m_queryIdServiceMap := m_queryIdServiceMap s;
     m_queryIdItemMap := m_queryIdItemMap s;
     m_jdns := m_jdns s;
     m_unicastLookupTimer := m_unicastLookupTimer s;
     heap := heap s |}.

Definition set_unicastErrorThreshold (x : Z) (s : State) : State :=
  {| m_componentCompleted := m_componentCompleted s;
     m_running := m_running s;
     m_networkReady := m_networkReady s;
     m_lookupReady := m_lookupReady s;
     m_lookupMode := m_lookupMode s;
     m_unicastErrorThreshold := x;
     m_filter := m_filter s;
     m_serviceLists := m_serviceLists s;
     m_nameServers := m_nameServers s;
     systemNameServers := systemNameServers s;
     m_serviceItemsMap := m_serviceItemsMap s;
     m_serviceTypeMap := m_serviceTypeMap s;
     m_queryIdTypeMap := m_queryIdTypeMap s;
     m_queryIdServiceMap := m_queryIdServiceMap s;
     m_queryIdItemMap := m_queryIdItemMap s;
     m_jdns := m_jdns s;
     m_unicastLookupTimer := m_unicastLookupTimer s;
     heap := heap s |}.

Definition set_filter (x : Filter.t) (s : State) : State :=
  {| m_componentCompleted := m_componentCompleted s;
     m_running := m_running s;
     m_networkReady := m_networkReady s;
     m_lookupReady := m_lookupReady s;
     m_lookupMode := m_lookupMode s;
     m_unicastErrorThreshold := m_unicastErrorThreshold s;
     m_filter := x;
     m_serviceLists := m_serviceLists s;
     m_nameServers := m_nameServers s;
     systemNameServers := systemNameServers s;
     m_serviceItemsMap := m_serviceItemsMap s;
     m_serviceTypeMap := m_serviceTypeMap s;
     m_queryIdTypeMap := m_queryIdTypeMap s;
     m_queryIdServiceMap := m_queryIdServiceMap s;
     m_queryIdItemMap := m_queryIdItemMap s;
     m_jdns := m_jdns s;
     m_unicastLookupTimer := m_unicastLookupTimer s;
     heap := heap s |}.

Definition set_serviceLists (x : list ServiceList) (s : State) : State :=
  {| m_componentCompleted := m_componentCompleted s;
     m_running := m_running s;
     m_networkReady := m_networkReady s;
     m_lookupReady := m_lookupReady s;
     m_lookupMode := m_lookupMode s;
     m_unicastErrorThreshold := m_unicastErrorThreshold s;
     m_filter := m_filter s;
     m_serviceLists := x;
     m_nameServers := m_nameServers s;
     systemNameServers := systemNameServers s;
     m_serviceItemsMap := m_serviceItemsMap s;
     m_serviceTypeMap := m_serviceTypeMap s;
     m_queryIdTypeMap := m_queryIdTypeMap s;
     m_queryIdServiceMap := m_queryIdServiceMap s;
     m_queryIdItemMap := m_queryIdItemMap s;
     m_jdns := m_jdns s;
     m_unicastLookupTimer := m_unicastLookupTimer s;
     heap := heap s |}.

Definition set_nameServers (x : list NameServer) (s : State) : State :=
  {| m_componentCompleted := m_componentCompleted s;
     m_running := m_running s;
     m_networkReady := m_networkReady s;
     m_lookupReady := m_lookupReady s;
     m_lookupMode := m_lookupMode s;
     m_unicastErrorThreshold := m_unicastErrorThreshold s;
     m_filter := m_filter s;
     m_serviceLists := m_serviceLists s;
     m_nameServers := x;
     systemNameServers := systemNameServers s;
     m_serviceItemsMap := m_serviceItemsMap s;
     m_serviceTypeMap := m_serviceTypeMap s;
     m_queryIdTypeMap := m_queryIdTypeMap s;
     m_queryIdServiceMap := m_queryIdServiceMap s;
     m_queryIdItemMap := m_queryIdItemMap s;
     m_jdns := m_jdns s;
     m_unicastLookupTimer := m_unicastLookupTimer s;
     heap := heap s |}.

Definition set_systemNameServers (x : list (string * Z)) (s : State) : State :=
  {| m_componentCompleted := m_componentCompleted s;
     m_running := m_running s;
     m_networkReady := m_networkReady s;
     m_lookupReady := m_lookupReady s;
     m_lookupMode := m_lookupMode s;
     m_unicastErrorThreshold := m_unicastErrorThreshold s;
     m_filter := m_filter s;
     m_serviceLists := m_serviceLists s;
     m_nameServers := m_nameServers s;
     systemNameServers := x;
     m_serviceItemsMap := m_serviceItemsMap s;
     m_serviceTypeMap := m_serviceTypeMap s;
     m_queryIdTypeMap := m_queryIdTypeMap s;
     m_queryIdServiceMap := m_queryIdServiceMap s;
     m_queryIdItemMap := m_queryIdItemMap s;
     m_jdns := m_jdns s;
     m_unicastLookupTimer := m_unicastLookupTimer s;
     heap := heap s |}.

Definition set_serviceItemsMap (x : QMap.t string (list ptr)) (s : State) : State :=
  {| m_componentCompleted := m_componentCompleted s;
     m_running := m_running s;
     m_networkReady := m_networkReady s;
     m_lookupReady := m_lookupReady s;
     m_lookupMode := m_lookupMode s;
     m_unicastErrorThreshold := m_unicastErrorThreshold s;
     m_filter := m_filter s;
     m_serviceLists := m_serviceLists s;
     m_nameServers := m_nameServers s;
     systemNameServers := systemNameServers s;
     m_serviceItemsMap := x;
     m_serviceTypeMap := m_serviceTypeMap s;
     m_queryIdTypeMap := m_queryIdTypeMap s;
     m_queryIdServiceMap := m_queryIdServiceMap s;
     m_queryIdItemMap := m_queryIdItemMap s;
     m_jdns := m_jdns s;
     m_unicastLookupTimer := m_unicastLookupTimer s;
     heap := heap s |}.

Definition set_serviceTypeMap (x : QMap.t string Z) (s : State) : State :=
  {| m_componentCompleted := m_componentCompleted s;
     m_running := m_running s;
     m_networkReady := m_networkReady s;
     m_lookupReady := m_lookupReady s;
     m_lookupMode := m_lookupMode s;
     m_unicastErrorThreshold := m_unicastErrorThreshold s;
     m_filter := m_filter s;
     m_serviceLists := m_serviceLists s;
     m_nameServers := m_nameServers s;
     systemNameServers := systemNameServers s;
     m_serviceItemsMap := m_serviceItemsMap s;
     m_serviceTypeMap := x;
     m_queryIdTypeMap := m_queryIdTypeMap s;
     m_queryIdServiceMap := m_queryIdServiceMap s;
     m_queryIdItemMap := m_queryIdItemMap s;
     m_jdns := m_jdns s;
     m_unicastLookupTimer := m_unicastLookupTimer s;
     heap := heap s |}.

Definition set_queryIdTypeMap (x : QMap.t Z Z) (s : State) : State :=
  {| m_componentCompleted := m_componentCompleted s;
     m_running := m_running s;
     m_networkReady := m_networkReady s;
     m_lookupReady := m_lookupReady s;
     m_lookupMode := m_lookupMode s;
     m_unicastErrorThreshold := m_unicastErrorThreshold s;
     m_filter := m_filter s;
     m_serviceLists := m_serviceLists s;
     m_nameServers := m_nameServers s;
     systemNameServers := systemNameServers s;
     m_serviceItemsMap := m_serviceItemsMap s;
     m_serviceTypeMap := m_serviceTypeMap s;
     m_queryIdTypeMap := x;
     m_queryIdServiceMap := m_queryIdServiceMap s;
     m_queryIdItemMap := m_queryIdItemMap s;
     m_jdns := m_jdns s;
     m_unicastLookupTimer := m_unicastLookupTimer s;
     heap := heap s |}.

Definition set_queryIdServiceMap (x : QMap.t Z string) (s : State) : State :=
  {| m_componentCompleted := m_componentCompleted s;
     m_running := m_running s;
     m_networkReady := m_networkReady s;
     m_lookupReady := m_lookupReady s;
     m_lookupMode := m_lookupMode s;
     m_unicastErrorThreshold := m_unicastErrorThreshold s;
     m_filter := m_filter s;
     m_serviceLists := m_serviceLists s;
     m_nameServers := m_nameServers s;
     systemNameServers := systemNameServers s;
     m_serviceItemsMap := m_serviceItemsMap s;
     m_serviceTypeMap := m_serviceTypeMap s;
     m_queryIdTypeMap := m_queryIdTypeMap s;
     m_queryIdServiceMap := x;
     m_queryIdItemMap := m_queryIdItemMap s;
     m_jdns := m_jdns s;
     m_unicastLookupTimer := m_unicastLookupTimer s;
     heap := heap s |}.

Definition set_queryIdItemMap (x : QMap.t Z ptr) (s : State) : State :=
  {| m_componentCompleted := m_componentCompleted s;
     m_running := m_running s;
     m_networkReady := m_networkReady s;
     m_lookupReady := m_lookupReady s;
     m_lookupMode := m_lookupMode s;
     m_unicastErrorThreshold := m_unicastErrorThreshold s;
     m_filter := m_filter s;
     m_serviceLists := m_serviceLists s;
     m_nameServers := m_nameServers s;
     systemNameServers := systemNameServers s;
     m_serviceItemsMap := m_serviceItemsMap s;
     m_serviceTypeMap := m_serviceTypeMap s;
     m_queryIdTypeMap := m_queryIdTypeMap s;
     m_queryIdServiceMap := m_queryIdServiceMap s;
     m_queryIdItemMap := x;
     m_jdns := m_jdns s;
     m_unicastLookupTimer := m_unicastLookupTimer s;
     heap := heap s |}.

Definition set_jdns (x : option QJDns.Handle) (s : State) : State :=
  {| m_componentCompleted := m_componentCompleted s;
     m_running := m_running s;
     m_networkReady := m_networkReady s;
     m_lookupReady := m_lookupReady s;
     m_lookupMode := m_lookupMode s;
     m_unicastErrorThreshold := m_unicastErrorThreshold s;
     m_filter := m_filter s;
     m_serviceLists := m_serviceLists s;
     m_nameServers := m_nameServers s;
     systemNameServers := systemNameServers s;
     m_serviceItemsMap := m_serviceItemsMap s;
     m_serviceTypeMap := m_serviceTypeMap s;
     m_queryIdTypeMap := m_queryIdTypeMap s;
     m_queryIdServiceMap := m_queryIdServiceMap s;
     m_queryIdItemMap := m_queryIdItemMap s;
     m_jdns := x;
     m_unicastLookupTimer := m_unicastLookupTimer s;
     heap := heap s |}.

Definition set_unicastLookupTimer (x : bool) (s : State) : State :=
  {| m_componentCompleted := m_componentCompleted s;
     m_running := m_running s;
     m_networkReady := m_networkReady s;
     m_lookupReady := m_lookupReady s;
     m_lookupMode := m_lookupMode s;
     m_unicastErrorThreshold := m_unicastErrorThreshold s;
     m_filter := m_filter s;
     m_serviceLists := m_serviceLists s;
     m_nameServers := m_nameServers s;
     systemNameServers := systemNameServers s;
     m_serviceItemsMap := m_serviceItemsMap s;
     m_serviceTypeMap := m_serviceTypeMap s;
     m_queryIdTypeMap := m_queryIdTypeMap s;
     m_queryIdServiceMap := m_queryIdServiceMap s;
     m_queryIdItemMap := m_queryIdItemMap s;
     m_jdns := m_jdns s;
     m_unicastLookupTimer := x;
     heap := heap s |}.

Definition set_heap (x : list Item.t) (s : State) : State :=
  {| m_componentCompleted := m_componentCompleted s;
     m_running := m_running s;
     m_networkReady := m_networkReady s;
     m_lookupReady := m_lookupReady s;
     m_lookupMode := m_lookupMode s;
     m_unicastErrorThreshold := m_unicastErrorThreshold s;
     m_filter := m_filter s;
     m_serviceLists := m_serviceLists s;
     m_nameServers := m_nameServers s;
     systemNameServers := systemNameServers s;
     m_serviceItemsMap := m_serviceItemsMap s;
     m_serviceTypeMap := m_serviceTypeMap s;
     m_queryIdTypeMap := m_queryIdTypeMap s;
     m_queryIdServiceMap := m_queryIdServiceMap s;
     m_queryIdItemMap := m_queryIdItemMap s;
     m_jdns := m_jdns s;
     m_unicastLookupTimer := m_unicastLookupTimer s;
     heap := x |}.

(** The constructor's member initialisers. *)
Definition initialState : State :=
  {| m_componentCompleted := false;
     m_running := false;
     m_networkReady := false;
     m_lookupReady := false;
     m_lookupMode := MulticastDNS;
     m_unicastErrorThreshold := 2;
     m_filter := Filter.any;
     m_serviceLists := [];
     m_nameServers := [];
     systemNameServers := [];
     m_serviceItemsMap := [];
     m_serviceTypeMap := [];
     m_queryIdTypeMap := [];
     m_queryIdServiceMap := [];
     m_queryIdItemMap := [];
     m_jdns := None;
     m_unicastLookupTimer := false;
     heap := [] |}.

(* ================================================================== *)
(** ** Outcomes: a member function returns, or dereferences null        *)
(* ================================================================== *)

Inductive outcome (A : Type) :=
| Done (a : A)
| NullDeref.
Arguments NullDeref {A}.

Definition bind {A B : Type} (m : outcome A) (f : A -> outcome B)
  : outcome B :=
  match m with
  | Done a => f a
  | NullDeref => NullDeref
  end.

Notation "x <- m ;; k" := (bind m (fun x => k))
  (at level 61, m at next level, right associativity).
Notation "' p <- m ;; k" := (bind m (fun x => let 'p := x in k))
  (at level 61, p pattern, m at next level, right associativity).

(** A loop whose body is a member function taking the loop variable. *)
Fixpoint forEach {A : Type} (body : A -> State -> outcome State)
  (l : list A) (s : State) : outcome State :=
  match l with
  | [] => Done s
  | x :: rest => s1 <- body x s ;; forEach body rest s1
  end.

(* ================================================================== *)
(** ** The heap of items                                               *)
(* ================================================================== *)

Definition item_at (s : State) (p : ptr) : Item.t := nth p (heap s) Item.blank.

Fixpoint list_update {A : Type} (n : nat) (f : A -> A) (l : list A)
  : list A :=
  match l, n with
  | [], _ => []
  | x :: rest, O => f x :: rest
  | x :: rest, S n' => x :: list_update n' f rest
  end.

(** A member call [p->f()] that changes the object [p] points to. *)
Definition update_item (p : ptr) (f : Item.t -> Item.t) (s : State) : State :=
  set_heap (list_update p f (heap s)) s.

(** [new ServiceDiscoveryItem(this)] followed by [setName], [setType]. *)
Definition new_item (name type : string) (s : State) : ptr * State :=
  (List.length (heap s),
   set_heap (heap s ++ [Item.setType type (Item.setName name Item.blank)]) s).

(* ================================================================== *)
(** ** Calls into the lookup backend                                   *)
(* ================================================================== *)

Definition log_call (c : QJDns.Call) (j : QJDns.Handle) : QJDns.Handle :=
  QJDns.mkHandle (QJDns.mode j) (QJDns.next_id j) (QJDns.calls j ++ [c]).

(** [m_jdns->queryStart(name, type)] *)
Definition queryStart (name : string) (type : Z) (s : State)
  : outcome (Z * State) :=
  match m_jdns s with
  | None => NullDeref
  | Some j =>
      let id := QJDns.next_id j in
      Done (id,
            set_jdns (Some (QJDns.mkHandle (QJDns.mode j) (id + 1)
                       (QJDns.calls j ++ [QJDns.QueryStart name type id]))) s)
  end.

(** [m_jdns->queryCancel(id)] *)
Definition queryCancel (id : Z) (s : State) : outcome State :=
  match m_jdns s with
  | None => NullDeref
  | Some j => Done (set_jdns (Some (log_call (QJDns.QueryCancel id) j)) s)
  end.

(* ================================================================== *)
(** ** Filtering and projection to the user queries                    *)
(* ================================================================== *)

Definition isEmpty {A : Type} (l : list A) : bool :=
  match l with [] => true | _ => false end.

(** [QStringList::filter(QRegExp)] *)
Definition filterTxt (pattern : string) (l : list string) : list string :=
  filter (QRegExp.contains pattern) l.

Definition filterServiceDiscoveryItem (s : State) (item : ptr)
  (serviceDiscoveryFilter : Filter.t) : bool :=
  if negb (String.eqb (Filter.name serviceDiscoveryFilter) EmptyString
           || QRegExp.contains (Filter.name serviceDiscoveryFilter)
                               (Item.name (item_at s item)))
  then false
  else if negb (isEmpty (Filter.txtRecords serviceDiscoveryFilter)) then
    let txtRecords :=
      fold_left (fun txt pattern => filterTxt pattern txt)
                (Filter.txtRecords serviceDiscoveryFilter)
                (Item.txtRecords (item_at s item)) in
    if isEmpty txtRecords then false else true
  else true.

Definition filterServiceDiscoveryItems (s : State)
  (serviceDiscoveryItems : list ptr) (primaryFilter secondaryFilter : Filter.t)
  : list ptr :=
  filter (fun item => filterServiceDiscoveryItem s item primaryFilter
                      && filterServiceDiscoveryItem s item secondaryFilter)
         serviceDiscoveryItems.

(** What [updateServiceType] does to one query. *)
Definition projectQuery (s : State) (serviceType : string)
  (serviceDiscoveryItems : list ptr) (query : Query.t) : Query.t :=
  if String.eqb (Query.serviceType query) serviceType then
    if Z.eqb (Query.queryType query) QJDns.A
    then Query.setItems serviceDiscoveryItems query
    else Query.setItems
           (filterServiceDiscoveryItems s serviceDiscoveryItems (m_filter s)
                                        (Query.filter query)) query
  else query.

Definition updateServiceType (serviceType : string) (s : State) : State :=
  match QMap.value (m_serviceItemsMap s) serviceType with
  | None => s
  | Some serviceDiscoveryItems =>
      set_serviceLists
        (map (map (map (projectQuery s serviceType serviceDiscoveryItems)))
             (m_serviceLists s)) s
  end.

Definition updateAllServiceTypes (s : State) : State :=
  fold_left (fun s1 serviceType => updateServiceType serviceType s1)
            (QMap.keys (m_serviceItemsMap s)) s.

Definition updateItem (name type : string) (s : State) : State :=
  updateServiceType type s.

(* ================================================================== *)
(** ** Queries on service types                                        *)
(* ================================================================== *)

(** The scan of [m_queryIdServiceMap] for the first id bound to the type. *)
Definition findQuery (serviceType : string) (s : State) : option Z :=
  option_map fst
    (find (fun e => String.eqb (snd e) serviceType) (m_queryIdServiceMap s)).

Definition declaredType (serviceType : string) (s : State) : Z :=
  match QMap.value (m_serviceTypeMap s) serviceType with
  | Some t => t
  | None => QJDns.defaultType
  end.

Definition startQuery (serviceType : string) (s : State) : outcome State :=
  match findQuery serviceType s with
  | Some _ => Done s
  | None =>
      let queryType := declaredType serviceType s in
      '(queryId, s1) <- queryStart serviceType queryType s ;;
      Done (set_queryIdServiceMap
              (QMap.insert (m_queryIdServiceMap s1) queryId serviceType)
              (set_queryIdTypeMap
                 (QMap.insert (m_queryIdTypeMap s1) queryId queryType) s1))
  end.

Fixpoint stopItemQueriesLoop (item : ptr) (snapshot : list (Z * ptr))
  (s : State) : outcome State :=
  match snapshot with
  | [] => Done s
  | (queryId, p) :: rest =>
      if Nat.eqb p item then
        s1 <- queryCancel queryId s ;;
        stopItemQueriesLoop item rest
          (set_queryIdTypeMap (QMap.remove (m_queryIdTypeMap s1) queryId)
             (set_queryIdItemMap (QMap.remove (m_queryIdItemMap s1) queryId)
                                 s1))
      else stopItemQueriesLoop item rest s
  end.

Definition stopItemQueries (item : ptr) (s : State) : outcome State :=
  stopItemQueriesLoop item (m_queryIdItemMap s) s.

(* ================================================================== *)
(** ** Instance table operations                                       *)
(* ================================================================== *)

Definition hasName (s : State) (name : string) (p : ptr) : bool :=
  String.eqb (Item.name (item_at s p)) name.

Definition addItem (name type : string) (s : State) : option ptr * State :=
  match QMap.value (m_serviceItemsMap s) type with
  | None => (None, s)
  | Some serviceDiscoveryItems =>
      match find (hasName s name) serviceDiscoveryItems with
      | Some item => (Some item, s)
      | None =>
          let '(item, s1) := new_item name type s in
          (Some item,
           set_serviceItemsMap
             (QMap.insert (m_serviceItemsMap s1) type
                          (serviceDiscoveryItems ++ [item])) s1)
      end
  end.

Definition getItem (name type : string) (s : State) : option ptr :=
  match QMap.value (m_serviceItemsMap s) type with
  | None => None
  | Some serviceDiscoveryItems => find (hasName s name) serviceDiscoveryItems
  end.

(** The first item satisfying [f], and the list without it ([takeAt]). *)
Fixpoint takeFirst (f : ptr -> bool) (l : list ptr)
  : option (ptr * list ptr) :=
  match l with
  | [] => None
  | p :: rest =>
      if f p then Some (p, rest)
      else match takeFirst f rest with
           | Some (q, rest') => Some (q, p :: rest')
           | None => None
           end
  end.

Definition removeItem (name type : string) (s : State) : outcome State :=
  match QMap.value (m_serviceItemsMap s) type with
  | None => Done s
  | Some serviceDiscoveryItems =>
      match takeFirst (hasName s name) serviceDiscoveryItems with
      | None => Done s
      | Some (item, remaining) =>
          s1 <- stopItemQueries item s ;;
          Done (updateServiceType type
                  (set_serviceItemsMap
                     (QMap.insert (m_serviceItemsMap s1) type remaining) s1))
      end
  end.

Definition clearItems (type : string) (s : State) : outcome State :=
  match QMap.value (m_serviceItemsMap s) type with
  | None => Done s
  | Some serviceDiscoveryItems =>
      s1 <- forEach stopItemQueries (rev serviceDiscoveryItems) s ;;
      Done (updateServiceType type
              (set_serviceItemsMap
                 (QMap.insert (m_serviceItemsMap s1) type []) s1))
  end.

(** The loop of [purgeItems], from the last index down to the first: the
    list that remains, the [modified] flag and the state. *)
Fixpoint purgeLoop (serviceDiscoveryItems : list ptr) (s : State)
  : outcome (list ptr * bool * State) :=
  match serviceDiscoveryItems with
  | [] => Done ([], false, s)
  | item :: rest =>
      '(rest', modified, s1) <- purgeLoop rest s ;;
      if negb (Item.updated (item_at s1 item)) then
        let s2 := update_item item Item.increaseErrorCount s1 in
        if (Item.errorCount (item_at s2 item) >? m_unicastErrorThreshold s2)%Z
        then
          s3 <- stopItemQueries item s2 ;;
          Done (rest', true, s3)
        else Done (item :: rest', modified, s2)
      else
        Done (item :: rest', modified,
              update_item item (Item.setUpdated false) s1)
  end.

Definition purgeItems (serviceType : string) (s : State) : outcome State :=
  match QMap.value (m_serviceItemsMap s) serviceType with
  | None => Done s
  | Some serviceDiscoveryItems =>
      '(remaining, modified, s1) <- purgeLoop serviceDiscoveryItems s ;;
      if modified : bool then
        Done (updateServiceType serviceType
                (set_serviceItemsMap
                   (QMap.insert (m_serviceItemsMap s1) serviceType remaining)
                   s1))
      else Done s1
  end.

Definition stopQuery (serviceType : string) (s : State) : outcome State :=
  match findQuery serviceType s with
  | None => Done s
  | Some queryId =>
      s1 <- queryCancel queryId s ;;
      clearItems serviceType
        (set_queryIdServiceMap (QMap.remove (m_queryIdServiceMap s1) queryId)
           (set_queryIdTypeMap (QMap.remove (m_queryIdTypeMap s1) queryId)
                               s1))
  end.

Definition refreshQuery (serviceType : string) (s : State) : outcome State :=
  match findQuery serviceType s with
  | None => Done s
  | Some queryId =>
      let queryType := declaredType serviceType s in
      s1 <- queryCancel queryId s ;;
      s2 <- purgeItems serviceType
              (set_queryIdServiceMap
                 (QMap.remove (m_queryIdServiceMap s1) queryId)
                 (set_queryIdTypeMap
                    (QMap.remove (m_queryIdTypeMap s1) queryId) s1)) ;;
      '(newId, s3) <- queryStart serviceType queryType s2 ;;
      Done (set_queryIdServiceMap
              (QMap.insert (m_queryIdServiceMap s3) newId serviceType)
              (set_queryIdTypeMap
                 (QMap.insert (m_queryIdTypeMap s3) newId queryType) s3))
  end.

Definition startQueries (s : State) : outcome State :=
  forEach startQuery (QMap.keys (m_serviceItemsMap s)) s.

Definition stopQueries (s : State) : outcome State :=
  forEach stopQuery (QMap.keys (m_serviceItemsMap s)) s.

Definition unicastLookup (s : State) : outcome State :=
  forEach refreshQuery (QMap.keys (m_serviceItemsMap s)) s.

Definition addServiceType (serviceType : string) (queryType : Z) (s : State)
  : State :=
  if QMap.contains (m_serviceItemsMap s) serviceType then s
  else set_serviceTypeMap
         (QMap.insert (m_serviceTypeMap s) serviceType queryType)
         (set_serviceItemsMap
            (QMap.insert (m_serviceItemsMap s) serviceType []) s).

Definition removeServiceType (serviceType : string) (s : State)
  : outcome State :=
  if negb (QMap.contains (m_serviceItemsMap s) serviceType) then Done s
  else
    s1 <- clearItems serviceType s ;;
    Done (set_serviceTypeMap (QMap.remove (m_serviceTypeMap s1) serviceType)
            (set_serviceItemsMap
               (QMap.remove (m_serviceItemsMap s1) serviceType) s1)).

Definition removeAllServiceTypes (s : State) : outcome State :=
  forEach removeServiceType (QMap.keys (m_serviceItemsMap s)) s.

(* ================================================================== *)
(** ** Service-list reconciliation and name servers                    *)
(* ================================================================== *)

Definition live (s : State) : bool := m_running s && m_networkReady s.

(** The first loop of [updateServices], over every query of every service
    of every service list, threading [oldServiceTypeMap]. *)
Fixpoint updateServicesLoop (queries : list Query.t)
  (oldServiceTypeMap : QMap.t string (list ptr)) (s : State)
  : outcome (QMap.t string (list ptr) * State) :=
  match queries with
  | [] => Done (oldServiceTypeMap, s)
  | query :: rest =>
      if negb (String.eqb (Query.serviceType query) EmptyString) then
        let s1 := addServiceType (Query.serviceType query)
                                 (Query.queryType query) s in
        let old1 := QMap.remove oldServiceTypeMap (Query.serviceType query) in
        s2 <- (if live s1 then startQuery (Query.serviceType query) s1
               else Done s1) ;;
        updateServicesLoop rest old1 s2
      else updateServicesLoop rest oldServiceTypeMap s
  end.

(** The body of the second loop of [updateServices]. *)
Definition removeLeftover (serviceType : string) (s : State)
  : outcome State :=
  s1 <- (if live s then stopQuery serviceType s else Done s) ;;
  removeServiceType serviceType s1.

Definition allQueries (s : State) : list Query.t :=
  List.concat (List.concat (m_serviceLists s)).

Definition updateServices (s : State) : outcome State :=
  '(oldServiceTypeMap, s1) <-
     updateServicesLoop (allQueries s) (m_serviceItemsMap s) s ;;
  s2 <- forEach removeLeftover (QMap.keys oldServiceTypeMap) s1 ;;
  Done (updateAllServiceTypes s2).

Definition updateFilter (s : State) : State := updateAllServiceTypes s.

Definition isUnicast (s : State) : bool :=
  match m_lookupMode s with UnicastDNS => true | MulticastDNS => false end.

Definition usableNameServers (l : list NameServer) : list (string * Z) :=
  flat_map (fun ns => match ns_hostAddress ns with
                      | None => []
                      | Some a => [(a, ns_port ns)]
                      end) l.

Definition updateNameServers (s : State) : outcome State :=
  match m_jdns s with
  | None => Done s
  | Some j =>
      if negb (isUnicast s) then Done s
      else
        let nameServers := usableNameServers (m_nameServers s) in
        let nameServers :=
          if isEmpty nameServers then systemNameServers s else nameServers in
        let s1 :=
          set_jdns (Some (log_call (QJDns.SetNameServers nameServers) j)) s in
        if m_running s1 then unicastLookup s1 else Done s1
  end.

(* ================================================================== *)
(** ** Lifecycle controller                                            *)
(* ================================================================== *)

(** [initialized] is what [m_jdns->init] returns. *)
Definition initializeMdns (initialized : bool) (s : State)
  : outcome (bool * State) :=
  match m_jdns s with
  | Some _ => Done (true, s)
  | None =>
      if negb initialized then Done (false, s)
      else
        let jmode := if isUnicast s then QJDns.Unicast else QJDns.Multicast in
        let s1 := set_lookupReady true
                    (set_jdns (Some (QJDns.mkHandle jmode 0 [])) s) in
        s2 <- (if isUnicast s1 then updateNameServers s1 else Done s1) ;;
        s3 <- (if m_running s2 then
                 s' <- updateServices s2 ;;
                 Done (if isUnicast s' then set_unicastLookupTimer true s'
                       else s')
               else Done s2) ;;
        Done (true, s3)
  end.

Definition deinitializeMdns (s : State) : outcome State :=
  match m_jdns s with
  | None => Done s
  | Some _ =>
      s1 <- (if m_running s then
               let s0 := if isUnicast s then set_unicastLookupTimer false s
                         else s in
               s' <- removeAllServiceTypes s0 ;;
               Done (set_queryIdTypeMap []
                       (set_queryIdServiceMap []
                          (set_queryIdItemMap [] s')))
             else Done s) ;;
      Done (set_lookupReady false (set_jdns None s1))
  end.

Definition networkSessionOpened (initialized : bool) (s : State)
  : outcome State :=
  '(ok, s1) <- initializeMdns initialized (set_networkReady true s) ;;
  if negb ok then Done (set_networkReady false s1) else Done s1.

Definition networkSessionClosed (s : State) : outcome State :=
  s1 <- deinitializeMdns s ;;
  Done (set_networkReady false s1).

Definition setUnicastErrorThreshold (unicastErrorThreshold : Z) (s : State)
  : State :=
  if Z.eqb (m_unicastErrorThreshold s) unicastErrorThreshold then s
  else set_unicastErrorThreshold unicastErrorThreshold s.

Definition setRunning (arg : bool) (s : State) : outcome State :=
  if Bool.eqb (m_running s) arg then Done s
  else
    let s1 := set_running arg s in
    if negb (m_networkReady s1) then Done s1
    else if m_running s1 then
      s2 <- startQueries s1 ;;
      Done (if isUnicast s2 then set_unicastLookupTimer true s2 else s2)
    else
      stopQueries (if isUnicast s1 then set_unicastLookupTimer false s1
                   else s1).

Definition sameMode (a b : LookupMode) : bool :=
  match a, b with
  | MulticastDNS, MulticastDNS | UnicastDNS, UnicastDNS => true
  | _, _ => false
  end.

Definition setLookupMode (arg : LookupMode) (initialized : bool) (s : State)
  : outcome State :=
  if sameMode (m_lookupMode s) arg then Done s
  else
    let ready := m_lookupReady s in
    s1 <- (if ready then deinitializeMdns s else Done s) ;;
    let s2 := set_lookupMode arg s1 in
    if ready then
      '(ok, s3) <- initializeMdns initialized s2 ;;
      if negb ok then Done (set_networkReady false s3) else Done s3
    else Done s2.

(** [setFilter] with a filter object other than the current one. *)
Definition setFilter (arg : Filter.t) (s : State) : State :=
  updateAllServiceTypes (set_filter arg s).

(* ================================================================== *)
(** ** Ingestion of answer records                                     *)
(* ================================================================== *)

(** [item->...] on a pointer that may be [nullptr]. *)
Definition deref (item : option ptr) : outcome ptr :=
  match item with
  | Some p => Done p
  | None => NullDeref
  end.

Definition boundServiceType (id : Z) (s : State) : string :=
  match QMap.value (m_queryIdServiceMap s) id with
  | Some t => t
  | None => EmptyString
  end.

Definition recordedType (id : Z) (s : State) : Z :=
  match QMap.value (m_queryIdTypeMap s) id with
  | Some t => t
  | None => QJDns.defaultType
  end.

(** [r.name.left(r.name.indexOf("._"))] *)
Definition instanceName (r : QJDns.AnswerRecord) : string :=
  Qt.left (QJDns.name r) (Qt.indexOf (QJDns.name r) "._").

(** Registers the sub-query [newId] of record type [type] against [p]. *)
Definition registerSubQuery (newId : Z) (type : Z) (p : ptr) (s : State)
  : State :=
  set_queryIdItemMap (QMap.insert (m_queryIdItemMap s) newId p)
    (set_queryIdTypeMap (QMap.insert (m_queryIdTypeMap s) newId type)
       (update_item p (Item.addOutstandingRequest newId) s)).

(** The first statements of the TXT, SRV and A/AAAA branches. *)
Definition finishSubQuery (id : Z) (s : State) : outcome (ptr * State) :=
  let item := QMap.value (m_queryIdItemMap s) id in
  s1 <- queryCancel id s ;;
  p <- deref item ;;
  Done (p,
        set_queryIdItemMap (QMap.remove (m_queryIdItemMap s1) id)
          (set_queryIdTypeMap (QMap.remove (m_queryIdTypeMap s1) id)
             (update_item p (Item.removeOutstandingRequest id) s1))).

Definition ptrBranch (id : Z) (r : QJDns.AnswerRecord) (s : State)
  : outcome (option ptr * State) :=
  let serviceType := boundServiceType id s in
  let name := instanceName r in
  if (QJDns.ttl r >? 0)%Z then
    let '(item, s1) := addItem name serviceType s in
    '(newId, s2) <- queryStart (QJDns.name r) QJDns.Txt s1 ;;
    p <- deref item ;;
    let s3 := registerSubQuery newId QJDns.Txt p s2 in
    '(newId', s4) <- queryStart (QJDns.name r) QJDns.Srv s3 ;;
    Done (item, registerSubQuery newId' QJDns.Srv p s4)
  else
    s1 <- removeItem name serviceType s ;;
    Done (None, s1).

Definition txtBranch (id : Z) (r : QJDns.AnswerRecord) (s : State)
  : outcome (option ptr * State) :=
  '(p, s1) <- finishSubQuery id s ;;
  Done (Some p, update_item p (Item.setTxtRecords (QJDns.texts r)) s1).

Definition srvBranch (id : Z) (r : QJDns.AnswerRecord) (s : State)
  : outcome (option ptr * State) :=
  '(p, s1) <- finishSubQuery id s ;;
  '(newId, s2) <- queryStart (QJDns.name r) QJDns.A s1 ;;
  let s3 := registerSubQuery newId QJDns.A p s2 in
  Done (Some p,
        update_item p (Item.setPort (QJDns.port r))
          (update_item p (Item.setHostName (QJDns.name r)) s3)).

Definition addressBranch (id : Z) (r : QJDns.AnswerRecord) (s : State)
  : outcome (option ptr * State) :=
  '(p, s1) <- finishSubQuery id s ;;
  Done (Some p, update_item p (Item.setHostAddress (QJDns.address r)) s1).

(** The tail of the loop body: an item without outstanding requests is
    fully resolved. *)
Definition resolveItem (item : option ptr) (s : State) : State :=
  match item with
  | None => s
  | Some p =>
      if negb (Item.hasOutstandingRequests (item_at s p)) then
        let s1 := updateItem (Item.name (item_at s p))
                             (Item.type (item_at s p)) s in
        update_item p Item.resetErrorCount
          (update_item p (Item.setUpdated true) s1)
      else s
  end.

(** One iteration of the loop of [resultsReady]; [type] was read from
    [m_queryIdTypeMap] before the loop. *)
Definition handleRecord (id : Z) (type : Z) (r : QJDns.AnswerRecord)
  (s : State) : outcome State :=
  '(item, s1) <-
     (if Z.eqb type QJDns.Ptr then ptrBranch id r s
      else if Z.eqb type QJDns.Txt then txtBranch id r s
      else if Z.eqb type QJDns.Srv then srvBranch id r s
      else if Z.eqb type QJDns.A || Z.eqb type QJDns.Aaaa
           then addressBranch id r s
      else Done (None, s)) ;;
  Done (resolveItem item s1).

Definition resultsReady (id : Z) (results : QJDns.Response) (s : State)
  : outcome State :=
  forEach (handleRecord id (recordedType id s)) results s.

(** [error] only formats a diagnostic. *)
Definition error (id : Z) (e : nat) (s : State) : State := s.

Definition componentComplete (s : State) : State :=
  set_componentCompleted true s.

(* ================================================================== *)
(** ** The engine as a transition system                               *)
(* ================================================================== *)

(** What the event loop can deliver: calls of the public interface, edits
    of the objects the user owns, signals of the network session, the
    unicast timer and the callbacks of the backend.

    Three facts about the environment are built into the model.  A backend
    handle numbers its queries with a counter, so an id it returns is not
    the id of a query it still runs.  The signals the engine emits are not
    connected back to the engine, so a handler runs to its end before the
    next event is delivered; the one exception is [nameServersChanged],
    which the constructor connects to [updateNameServers] and which
    [SetNameServers] delivers together with the new list.  An object passed
    to [deleteLater] stays allocated; the heap only grows. *)
Inductive Event :=
| ComponentComplete
| NetworkSessionOpened (initialized : bool)
| NetworkSessionClosed
| SetRunning (arg : bool)
| SetLookupMode (arg : LookupMode) (initialized : bool)
| SetUnicastErrorThreshold (arg : Z)
| SetFilter (arg : Filter.t)
| EditFilter (arg : Filter.t)
| EditServiceLists (arg : list ServiceList)
| SetNameServers (arg : list NameServer)
| SystemNameServers (arg : list (string * Z))
| UpdateServices
| UpdateFilter
| UpdateNameServers
| UnicastLookupTimeout
| ResultsReady (id : Z) (results : QJDns.Response)
| Error (id : Z) (e : nat).

Definition step (e : Event) (s : State) : outcome State :=
  match e with
  | ComponentComplete => Done (componentComplete s)
  | NetworkSessionOpened initialized => networkSessionOpened initialized s
  | NetworkSessionClosed => networkSessionClosed s
  | SetRunning arg => setRunning arg s
  | SetLookupMode arg initialized => setLookupMode arg initialized s
  | SetUnicastErrorThreshold arg => Done (setUnicastErrorThreshold arg s)
  | SetFilter arg => Done (setFilter arg s)
  | EditFilter arg => Done (set_filter arg s)
  | EditServiceLists arg => Done (set_serviceLists arg s)
  | SetNameServers arg => updateNameServers (set_nameServers arg s)
  | SystemNameServers arg => Done (set_systemNameServers arg s)
  | UpdateServices => updateServices s
  | UpdateFilter => Done (updateFilter s)
  | UpdateNameServers => updateNameServers s
  | UnicastLookupTimeout =>
      if m_unicastLookupTimer s then unicastLookup s else Done s
  | ResultsReady id results => resultsReady id results s
  | Error id e => Done (error id e s)
  end.

Definition run (events : list Event) (s : State) : outcome State :=
  forEach step events s.

Definition reachable (s : State) : Prop :=
  exists events, run events initialState = Done s.

(* ================================================================== *)
(** ** Vocabulary of the properties                                    *)
(* ================================================================== *)

(** The members no resolver operation writes. *)
Definition config (s : State) :=
  (m_componentCompleted s, m_running s, m_networkReady s, m_lookupReady s,
   m_lookupMode s, m_unicastErrorThreshold s, m_filter s, m_nameServers s,
   systemNameServers s, m_unicastLookupTimer s).

(** The next query id of the backend, when there is a backend. *)
Definition nextId (s : State) : option Z := option_map QJDns.next_id (m_jdns s).

Definition backendCalls (s : State) : list QJDns.Call :=
  match m_jdns s with
  | Some j => QJDns.calls j
  | None => []
  end.

(** A query id is known to the registry when one of the three maps binds
    it. *)
Definition registered (id : Z) (s : State) : bool :=
  QMap.contains (m_queryIdTypeMap s) id
  || QMap.contains (m_queryIdServiceMap s) id
  || QMap.contains (m_queryIdItemMap s) id.

Definition registryEmpty (s : State) : Prop :=
  m_queryIdTypeMap s = [] /\ m_queryIdServiceMap s = []
  /\ m_queryIdItemMap s = [].

(** Every instance table (the list of a service type) is empty. *)
Definition tablesEmpty (s : State) : Prop :=
  forall type l, QMap.value (m_serviceItemsMap s) type = Some l -> l = [].

(** The members an operation on the registry leaves alone. *)
Definition sameTables (s s' : State) : Prop :=
  config s' = config s
  /\ m_serviceTypeMap s' = m_serviceTypeMap s
  /\ m_serviceItemsMap s' = m_serviceItemsMap s
  /\ m_serviceLists s' = m_serviceLists s
  /\ heap s' = heap s.


(** The registry and the instance tables agree with each other and with
    the backend.  Between the cancellation of the scan of a service type and
    its restart or the clearing of its items, the items of that type have no
    scan: [ex] names the types in that situation. *)
Record WFx (ex : string -> Prop) (s : State) : Prop := mkWF {
  wf_uniq : forall id1 id2 type,
    In (id1, type) (m_queryIdServiceMap s) ->
    In (id2, type) (m_queryIdServiceMap s) -> id1 = id2;
  wf_fun : forall id type1 type2,
    In (id, type1) (m_queryIdServiceMap s) ->
    In (id, type2) (m_queryIdServiceMap s) -> type1 = type2;
  wf_type : forall id t,
    QMap.value (m_queryIdTypeMap s) id = Some t ->
    (exists type, In (id, type) (m_queryIdServiceMap s))
    \/ (exists p, In (id, p) (m_queryIdItemMap s));
  wf_item : forall q p,
    In (q, p) (m_queryIdItemMap s) ->
    exists type l, QMap.value (m_serviceItemsMap s) type = Some l /\ In p l;
  wf_ptr : forall id,
    QMap.value (m_queryIdTypeMap s) id = Some QJDns.Ptr ->
    exists type, In (id, type) (m_queryIdServiceMap s);
  wf_key : forall id type,
    In (id, type) (m_queryIdServiceMap s) ->
    QMap.contains (m_serviceItemsMap s) type = true;
  wf_scan : forall type l,
    QMap.value (m_serviceItemsMap s) type = Some l -> l <> [] ->
    ex type \/ exists id, In (id, type) (m_queryIdServiceMap s);
  wf_fresh : forall id type,
    In (id, type) (m_queryIdServiceMap s) ->
    exists n, nextId s = Some n /\ (id < n)%Z;
  wf_backend : forall q p,
    In (q, p) (m_queryIdItemMap s) -> nextId s <> None
}.

(** The configuration, the declared record types, the service types of the
    instance table and the presence of a backend are kept. *)
Definition sameShape (s s' : State) : Prop :=
  config s' = config s
  /\ m_serviceTypeMap s' = m_serviceTypeMap s
  /\ (forall t, QMap.contains (m_serviceItemsMap s') t
                = QMap.contains (m_serviceItemsMap s) t)
  /\ (m_jdns s' = None <-> m_jdns s = None).

Definition WF : State -> Prop := WFx (fun _ => False).

(** The registry loses sub-queries and nothing else changes in it. *)
Definition shrinks (s s' : State) : Prop :=
  m_serviceItemsMap s' = m_serviceItemsMap s
  /\ m_queryIdServiceMap s' = m_queryIdServiceMap s
  /\ nextId s' = nextId s
  /\ (forall q p, In (q, p) (m_queryIdItemMap s') ->
        In (q, p) (m_queryIdItemMap s))
  /\ (forall id t, QMap.value (m_queryIdTypeMap s') id = Some t ->
        QMap.value (m_queryIdTypeMap s) id = Some t)
  /\ (forall q p, In (q, p) (m_queryIdItemMap s) ->
        In (q, p) (m_queryIdItemMap s')
        \/ QMap.value (m_queryIdTypeMap s') q = None).

(** Scans run only while the engine is running on an open network. *)
Definition quiet (s : State) : Prop :=
  live s = false -> m_queryIdServiceMap s = [].

(** The configuration and the presence of a backend are kept. *)
Definition steady (s s' : State) : Prop :=
  config s' = config s /\ (m_jdns s' = None <-> m_jdns s = None).

(** What holds between two events of the event loop. *)
Record Inv (s : State) : Prop := mkInv {
  inv_wf : WF s;
  inv_lookup : m_lookupReady s = true <-> m_jdns s <> None;
  inv_network : m_networkReady s = true <-> m_jdns s <> None;
  inv_idle : m_running s = false -> registryEmpty s /\ tablesEmpty s
}.

(** Reduces the projections of a state built by the setters. *)
Create Rewrite HintDb frame.
Ltac sproj :=
  cbn [m_componentCompleted m_running m_networkReady m_lookupReady m_lookupMode m_unicastErrorThreshold m_filter m_serviceLists m_nameServers systemNameServers m_serviceItemsMap m_serviceTypeMap m_queryIdTypeMap m_queryIdServiceMap m_queryIdItemMap m_jdns m_unicastLookupTimer heap set_componentCompleted set_running set_networkReady set_lookupReady set_lookupMode set_unicastErrorThreshold set_filter set_serviceLists set_nameServers set_systemNameServers set_serviceItemsMap set_serviceTypeMap set_queryIdTypeMap set_queryIdServiceMap set_queryIdItemMap set_jdns set_unicastLookupTimer set_heap update_item QJDns.next_id QJDns.calls QJDns.mode log_call fst snd];
  autorewrite with frame.
Ltac sproj_in H :=
  cbn [m_componentCompleted m_running m_networkReady m_lookupReady m_lookupMode m_unicastErrorThreshold m_filter m_serviceLists m_nameServers systemNameServers m_serviceItemsMap m_serviceTypeMap m_queryIdTypeMap m_queryIdServiceMap m_queryIdItemMap m_jdns m_unicastLookupTimer heap set_componentCompleted set_running set_networkReady set_lookupReady set_lookupMode set_unicastErrorThreshold set_filter set_serviceLists set_nameServers set_systemNameServers set_serviceItemsMap set_serviceTypeMap set_queryIdTypeMap set_queryIdServiceMap set_queryIdItemMap set_jdns set_unicastLookupTimer set_heap update_item QJDns.next_id QJDns.calls QJDns.mode log_call fst snd] in H;
  autorewrite with frame in H.
Ltac sproj_all :=
  cbn [m_componentCompleted m_running m_networkReady m_lookupReady m_lookupMode m_unicastErrorThreshold m_filter m_serviceLists m_nameServers systemNameServers m_serviceItemsMap m_serviceTypeMap m_queryIdTypeMap m_queryIdServiceMap m_queryIdItemMap m_jdns m_unicastLookupTimer heap set_componentCompleted set_running set_networkReady set_lookupReady set_lookupMode set_unicastErrorThreshold set_filter set_serviceLists set_nameServers set_systemNameServers set_serviceItemsMap set_serviceTypeMap set_queryIdTypeMap set_queryIdServiceMap set_queryIdItemMap set_jdns set_unicastLookupTimer set_heap update_item QJDns.next_id QJDns.calls QJDns.mode log_call fst snd] in *;
  autorewrite with frame in *.

(* ================================================================== *)
(** ** A discovery scenario                                            *)
(* ================================================================== *)

(** The state an event sequence leads to from the constructor's state. *)
Definition stateAfter (events : list Event) : State :=
  match run events initialState with
  | Done s => s
  | NullDeref => initialState
  end.

Module Scenario.

Definition httpType : string := "_http._tcp.local".

Definition userQuery : Query.t := Query.mk httpType QJDns.Ptr Filter.any [].

Definition ptrRecord (name : string) (ttl : Z) : QJDns.AnswerRecord :=
  QJDns.mkRecord httpType name ttl [] 0 EmptyString.

Definition txtRecord : QJDns.AnswerRecord :=
  QJDns.mkRecord EmptyString EmptyString 120 ["path=/cgi"%string] 0
                 EmptyString.

Definition srvRecord : QJDns.AnswerRecord :=
  QJDns.mkRecord EmptyString "printer.local" 120 [] 631 EmptyString.

Definition addressRecord : QJDns.AnswerRecord :=
  QJDns.mkRecord EmptyString "printer.local" 120 [] 0 "192.0.2.5".

(** The engine is started with one user query on an open network. *)
Definition startUp : list Event :=
  [ComponentComplete; EditServiceLists [[[userQuery]]]; UpdateServices;
   NetworkSessionOpened true; SetRunning true].

(** Two instances are announced; the TXT and the SRV record of the first
    one arrive. *)
Definition resolving : list Event :=
  startUp ++
  [ResultsReady 0 [ptrRecord "myprinter._http._tcp.local" 120;
                   ptrRecord "other._http._tcp.local" 120];
   ResultsReady 1 [txtRecord];
   ResultsReady 2 [srvRecord]].

(** The address of the first instance arrives: it is resolved completely,
    the second one is not. *)
Definition discovery : list Event :=
  resolving ++ [ResultsReady 5 [addressRecord]].

End Scenario.

(* ================================================================== *)
(** ** The filter predicate of the spec                                *)
(* ================================================================== *)

(** The predicate of the spec's section 4.6 on the name and the TXT records
    of an instance, for a way [matches pattern subject] of matching a glob:
    the name pattern is empty or the name matches it, and the TXT pattern
    list is empty or the patterns, applied from left to right as successive
    filters on the TXT records, leave a record. *)
Definition filterHolds (matches : string -> string -> bool)
  (name : string) (txtRecords : list string) (f : Filter.t) : Prop :=
  (Filter.name f = EmptyString \/ matches (Filter.name f) name = true)
  /\ (Filter.txtRecords f = []
      \/ fold_left (fun txt pattern => filter (matches pattern) txt)
                   (Filter.txtRecords f) txtRecords <> []).

(** A state whose heap holds one item, of the given name and TXT records. *)
Definition oneItemState (name : string) (txtRecords : list string) : State :=
  set_heap [Item.setTxtRecords txtRecords (Item.setName name Item.blank)]
           initialState.

(* ================================================================== *)
(** ** Claims of the spec that the code does not keep, as stated       *)
(* ================================================================== *)

(** What a PTR answer with a positive TTL adds for the item [p], given the
    state [s1] after [addItem] and the next query id [n]: a TXT and an SRV
    sub-query on the name of the answer, registered against [p]. *)
Definition announces (r : QJDns.AnswerRecord) (p : ptr) (n : Z)
  (s s1 s' : State) : Prop :=
  m_serviceItemsMap s' = m_serviceItemsMap s1
  /\ In (n, p) (m_queryIdItemMap s')
  /\ In ((n + 1)%Z, p) (m_queryIdItemMap s')
  /\ QMap.value (m_queryIdTypeMap s') n = Some QJDns.Txt
  /\ QMap.value (m_queryIdTypeMap s') (n + 1)%Z = Some QJDns.Srv
  /\ backendCalls s'
     = backendCalls s ++ [QJDns.QueryStart (QJDns.name r) QJDns.Txt n;
                          QJDns.QueryStart (QJDns.name r) QJDns.Srv (n + 1)%Z].

(** The spec's section 4.3 on a PTR answer for an instance that exists:
    [addItem] returns the instance and no sub-query is started for it. *)
Definition refreshStartsNoSubQuery (s : State) (id : Z)
  (r : QJDns.AnswerRecord) : Prop :=
  forall p s',
    getItem (instanceName r) (boundServiceType id s) s = Some p ->
    resultsReady id [r] s = Done s' ->
    fst (addItem (instanceName r) (boundServiceType id s) s) = Some p
    /\ (forall q, In (q, p) (m_queryIdItemMap s') ->
                  In (q, p) (m_queryIdItemMap s))
    /\ backendCalls s' = backendCalls s.

(** The spec's section 4.3 on a PTR answer whose name has no [._]: it is
    ignored. *)
Definition answerIgnored (s : State) (id : Z) (r : QJDns.AnswerRecord)
  : Prop :=
  forall s',
    resultsReady id [r] s = Done s' ->
    m_serviceItemsMap s' = m_serviceItemsMap s
    /\ m_queryIdItemMap s' = m_queryIdItemMap s
    /\ backendCalls s' = backendCalls s.

(* ================================================================== *)
(** ** The purge pass, item by item                                    *)
(* ================================================================== *)

(** An item that did not answer the last cycle and whose incremented error
    count exceeds the threshold is removed. *)
Definition purged (threshold : Z) (i : Item.t) : bool :=
  negb (Item.updated i) && (Item.errorCount i + 1 >? threshold)%Z.

(** What the pass does to an item: one more error for an item that did not
    answer, the [updated] flag cleared for one that did. *)
Definition aged (i : Item.t) : Item.t :=
  if Item.updated i then Item.setUpdated false i
  else Item.increaseErrorCount i.

(** The items of a list are distinct objects of the heap. *)
Definition distinctItems (s : State) (l : list ptr) : Prop :=
  NoDup l /\ forall p, In p l -> (p < List.length (heap s))%nat.

(* ================================================================== *)
(** ** Visibility of instances                                         *)
(* ================================================================== *)

(** The spec's invariant I1: the user queries list only instances without
    outstanding request. *)
Definition visibleOnlyResolved (s : State) : Prop :=
  forall q p,
    In q (allQueries s) -> In p (Query.items q) ->
    Item.outstandingRequests (item_at s p) = [].

(** The item passes the engine's filter and the filter of the query. *)
Definition passes (s : State) (q : Query.t) (p : ptr) : bool :=
  filterServiceDiscoveryItem s p (m_filter s)
  && filterServiceDiscoveryItem s p (Query.filter q).

Definition isSubQueryType (type : Z) : Prop :=
  type = QJDns.Txt \/ type = QJDns.Srv \/ type = QJDns.A
  \/ type = QJDns.Aaaa.

(* ================================================================== *)
(** ** Stopping the engine                                             *)
(* ================================================================== *)

(** The backend forgets no call. *)
Definition callsGrow (s s' : State) : Prop :=
  forall c, In c (backendCalls s) -> In c (backendCalls s').

(** The user queries of a service type list nothing. *)
Definition listsNothing (type : string) (s : State) : Prop :=
  forall q, In q (allQueries s) -> Query.serviceType q = type ->
            Query.items q = [].

(** Every user query of [s'] is one of [s], with its list kept, or emptied
    when its service type is [type]. *)
Definition emptiesOnly (type : string) (s s' : State) : Prop :=
  forall q', In q' (allQueries s') ->
    exists q, In q (allQueries s)
              /\ Query.serviceType q' = Query.serviceType q
              /\ (Query.items q' = Query.items q
                  \/ (Query.serviceType q = type /\ Query.items q' = [])).

(* ================================================================== *)
(** ** Further scenarios                                               *)
(* ================================================================== *)

Module HostLookup.

(** A user query that resolves a host name: its record type is A. *)
Definition hostQuery : Query.t :=
  Query.mk "printer.local" QJDns.A Filter.any [].

(** The engine is started with the host query on an open network: the scan
    of ["printer.local"] gets the query id 0 and the record type A. *)
Definition startUp : list Event :=
  [ComponentComplete; EditServiceLists [[[hostQuery]]]; UpdateServices;
   NetworkSessionOpened true; SetRunning true].

End HostLookup.

(* ================================================================== *)
(** ** What an operation asks of the backend                           *)
(* ================================================================== *)

Definition isCancel (c : QJDns.Call) : bool :=
  match c with QJDns.QueryCancel _ => true | _ => false end.

Definition isQueryCall (c : QJDns.Call) : bool :=
  match c with QJDns.SetNameServers _ => false | _ => true end.

Definition anyCall (c : QJDns.Call) : bool := true.

(** From [s] to [s'] the backend object stays the same one: there is none
    in both states, or it has the same mode in both, it received further
    calls, all of the given kind, after those it had received, and its query
    counter did not go back. *)
Definition backendLogs (kind : QJDns.Call -> bool) (s s' : State) : Prop :=
  match m_jdns s, m_jdns s' with
  | None, None => True
  | Some j, Some j' =>
      QJDns.mode j' = QJDns.mode j
      /\ (QJDns.next_id j <= QJDns.next_id j')%Z
      /\ exists more, QJDns.calls j' = QJDns.calls j ++ more
                      /\ forallb kind more = true
  | _, _ => False
  end.

(* ================================================================== *)
(** ** The backend and the timer over the life of the engine           *)
(* ================================================================== *)

(** The mode [initializeMdns] initialises a backend with under the lookup
    mode of [s]. *)
Definition backendMode (s : State) : QJDns.Mode :=
  if isUnicast s then QJDns.Unicast else QJDns.Multicast.

(** The backend [j] has the mode of the lookup mode; in unicast mode the
    first call it received set the name servers, in multicast mode it never
    received name servers. *)
Definition backendConfigured (s : State) (j : QJDns.Handle) : Prop :=
  QJDns.mode j = backendMode s
  /\ if isUnicast s
     then exists servers rest,
            QJDns.calls j = QJDns.SetNameServers servers :: rest
     else forallb isQueryCall (QJDns.calls j) = true.

Record Lifecycle (s : State) : Prop := mkLifecycle {
  lc_backend : forall j, m_jdns s = Some j -> backendConfigured s j;
  lc_timer : m_unicastLookupTimer s
             = m_running s && isUnicast s && m_lookupReady s
}.

(** The backend of [s]; a backend that was never called when there is
    none. *)
Definition backendOf (s : State) : QJDns.Handle :=
  match m_jdns s with
  | Some j => j
  | None => QJDns.mkHandle QJDns.Multicast 0 []
  end.

Module Unicast.

Definition nameServer : NameServer := mkNameServer (Some "192.0.2.53"%string) 53.

(** The engine is configured for unicast lookups through one name server
    and started with one user query on an open network. *)
Definition startUp : list Event :=
  [ComponentComplete; SetNameServers [nameServer];
   SetLookupMode UnicastDNS true;
   EditServiceLists [[[Scenario.userQuery]]]; UpdateServices;
   NetworkSessionOpened true; SetRunning true].

End Unicast.

(* ================================================================== *)
(** ** The service types the user queries declare                      *)
(* ================================================================== *)

(** A query of the list declares the service type, which is not empty. *)
Definition declaredIn (queries : list Query.t) (type : string) : bool :=
  negb (String.eqb type EmptyString)
  && existsb (fun q => String.eqb (Query.serviceType q) type) queries.

(** The record type of the first query of the list that declares the
    service type. *)
Definition firstDeclaredType (queries : list Query.t) (type : string)
  : option Z :=
  option_map Query.queryType
    (find (fun q => String.eqb (Query.serviceType q) type) queries).

(** An engine that [updateServices] and the stop of a scan cannot take to
    a null backend: it has a backend, or it is idle and keeps no
    sub-query. *)
Definition safe (s : State) : Prop :=
  m_jdns s <> None \/ (live s = false /\ m_queryIdItemMap s = []).

(* ================================================================== *)
(** ** The lists of the user queries                                   *)
(* ================================================================== *)

(** The user query [q] once its list is taken anew from the instance
    tables of [s]: the instances of its service type, all of them for the
    record type A, otherwise those that pass the filter of the engine and
    its own; a query whose service type has no instance table keeps the
    list it has. *)
Definition refreshed (s : State) (q : Query.t) : Query.t :=
  match QMap.value (m_serviceItemsMap s) (Query.serviceType q) with
  | Some l => projectQuery s (Query.serviceType q) l q
  | None => q
  end.

(** [refreshed], for the queries of the service types [types] only. *)
Definition refreshedIn (types : list string) (s : State) (q : Query.t)
  : Query.t :=
  if existsb (String.eqb (Query.serviceType q)) types then refreshed s q
  else q.

(* ================================================================== *)
(** ** Scans                                                           *)
(* ================================================================== *)

(** The scan of the service type runs under the query id [id]: the id is
    bound to the type, its recorded type is [recordType], and the backend
    was asked to start the query. *)
Definition scanRuns (type : string) (recordType : Z) (id : Z) (s : State)
  : Prop :=
  In (id, type) (m_queryIdServiceMap s)
  /\ QMap.value (m_queryIdTypeMap s) id = Some recordType
  /\ In (QJDns.QueryStart type recordType id) (backendCalls s).

(** Every bound query id is that of a running scan, for the record type the
    service type was registered with. *)
Definition allScansRun (s : State) : Prop :=
  forall id type, In (id, type) (m_queryIdServiceMap s) ->
                  scanRuns type (declaredType type s) id s.

(* ================================================================== *)
(** ** The list of name servers                                        *)
(* ================================================================== *)

(** [QList::removeAt(i)] of Qt 5: the list is left as it is when the index
    is out of range. *)
Fixpoint removeAt {A : Type} (i : nat) (l : list A) : list A :=
  match l, i with
  | [], _ => []
  | _ :: rest, O => rest
  | x :: rest, S i' => x :: removeAt i' rest
  end.

(** The slot [updateNameServers] is connected to the signal
    [nameServersChanged] in the constructor and runs when the signal is
    emitted. *)
Definition nameServersChanged (s : State) : outcome State :=
  updateNameServers s.

Definition nameServerCount (s : State) : Z :=
  Z.of_nat (List.length (m_nameServers s)).

(** [m_nameServers.at(index)], for an index of the list. *)
Definition nameServer (index : Z) (s : State) : option NameServer :=
  if (index <? 0)%Z then None
  else nth_error (m_nameServers s) (Z.to_nat index).

Definition addNameServer (nameServer : NameServer) (s : State)
  : outcome State :=
  nameServersChanged (set_nameServers (m_nameServers s ++ [nameServer]) s).

Definition removeNameServer (index : Z) (s : State) : outcome State :=
  nameServersChanged
    (set_nameServers
       (if (index <? 0)%Z then m_nameServers s
        else removeAt (Z.to_nat index) (m_nameServers s)) s).

Definition clearNameServers (s : State) : outcome State :=
  nameServersChanged (set_nameServers [] s).

(** The name servers [updateNameServers] hands to the backend: the
    configured ones that have an address, the ones of the system when there
    is none. *)
Definition effectiveNameServers (s : State) : list (string * Z) :=
  if isEmpty (usableNameServers (m_nameServers s)) then systemNameServers s
  else usableNameServers (m_nameServers s).

(** The backend of [s] was handed the name servers [servers] and only
    started or cancelled queries since. *)
Definition handedNameServers (servers : list (string * Z)) (s s' : State)
  : Prop :=
  exists j j' more,
    m_jdns s = Some j /\ m_jdns s' = Some j'
    /\ QJDns.calls j'
       = QJDns.calls j ++ QJDns.SetNameServers servers :: more
    /\ forallb isQueryCall more = true.

(* ================================================================== *)
(** ** The network session                                             *)
(* ================================================================== *)

Module Network.

(** [QNetworkConfiguration::BearerType] *)
Inductive BearerType :=
| BearerUnknown | BearerEthernet | BearerWLAN | Bearer2G | BearerCDMA2000
| BearerWCDMA | BearerHSPA | BearerBluetooth | BearerWiMAX | BearerEVDO
| BearerLTE | Bearer3G | Bearer4G.

Record Configuration := mkConfiguration {
  isValid : bool;
  bearerType : BearerType;
  name : string
}.

(** A [QNetworkSession]: its configuration and whether it is open. *)
Record Session := mkSession {
  configuration : Configuration;
  isOpen : bool
}.

(** The bearer types [openNetworkSession] opens a session on. *)
Definition supported (config : Configuration) : bool :=
  match bearerType config with
  | BearerEthernet | BearerWLAN | BearerUnknown => true
  | _ => false
  end.

(** The list [availableConfigs]: the default configuration when it is
    valid, then the discovered ones. *)
Definition availableConfigs (defaultConfig : Configuration)
  (discovered : list Configuration) : list Configuration :=
  (if isValid defaultConfig then [defaultConfig] else []) ++ discovered.

(** The loop of [openNetworkSession] over [availableConfigs]: the session
    [m_networkSession] holds afterwards.  A session that was just created is
    not open yet. *)
Fixpoint openFirst (configs : list Configuration)
  (m_networkSession : option Session) : option Session :=
  match configs with
  | [] => m_networkSession
  | config :: rest =>
      if supported config then Some (mkSession config false)
      else openFirst rest m_networkSession
  end.

Definition openNetworkSession (defaultConfig : Configuration)
  (discovered : list Configuration) (m_networkSession : option Session)
  : option Session :=
  openFirst (availableConfigs defaultConfig discovered) m_networkSession.

(** [updateNetConfig]: whether [updateConfigurations] is called. *)
Definition updateNetConfig (m_networkSession : option Session)
  (m_networkReady : bool) : bool :=
  match m_networkSession with
  | None => true
  | Some session => negb (isOpen session) || negb m_networkReady
  end.

End Network.

(* ================================================================== *)
(** ** The registry of query ids                                       *)
(* ================================================================== *)

(** The record types of the sub-queries the engine starts for an
    instance. *)
Definition isStartedSubType (type : Z) : Prop :=
  type = QJDns.Txt \/ type = QJDns.Srv \/ type = QJDns.A.

(** The sub-query [q] runs: its recorded type is one of the three the engine
    starts for an instance, and the backend was asked to start it. *)
Definition subQueryRuns (q : Z) (s : State) : Prop :=
  exists name type,
    QMap.value (m_queryIdTypeMap s) q = Some type
    /\ isStartedSubType type
    /\ In (QJDns.QueryStart name type q) (backendCalls s).

(** The ids of the registry: the scans are running scans, the sub-queries
    are running sub-queries, below the query counter of the backend, and no
    id is a scan and a sub-query at once. *)
Record Registry (s : State) : Prop := mkRegistry {
  rg_scans : allScansRun s;
  rg_subs : forall q p, In (q, p) (m_queryIdItemMap s) -> subQueryRuns q s;
  rg_fresh : forall q p, In (q, p) (m_queryIdItemMap s) ->
               exists n, nextId s = Some n /\ (q < n)%Z;
  rg_apart : forall q p type, In (q, p) (m_queryIdItemMap s) ->
               ~ In (q, type) (m_queryIdServiceMap s)
}.

(** The entry [(q, item)] is in the snapshot the loop of [stopItemQueries]
    walks. *)
Definition cancelled (item : ptr) (snapshot : list (Z * ptr)) (q : Z) : bool :=
  existsb (fun e => Z.eqb (fst e) q && Nat.eqb (snd e) item) snapshot.

(** What an SRV answer starts: the address query of the host [host] for the
    item [p], under the query id [n] the backend handed out. *)
Definition addressQueryRuns (host : string) (p : ptr) (n : Z) (s : State)
  : Prop :=
  QMap.value (m_queryIdItemMap s) n = Some p
  /\ QMap.value (m_queryIdTypeMap s) n = Some QJDns.A
  /\ In (QJDns.QueryStart host QJDns.A n) (backendCalls s).

(* ================================================================== *)
(** ** The items of the instance tables                                *)
(* ================================================================== *)

(** The name of the item a pointer points to. *)
Definition nameOf (s : State) (p : ptr) : string := Item.name (item_at s p).

(** The instance tables list allocated items; an item carries the service
    type of the table that lists it; the items of a table have different
    names; a query id of [m_queryIdItemMap] belongs to one item; and the set
    of outstanding requests of a listed item holds the ids of the sub-queries
    registered for it.  The last does not hold of the items [ex], whose
    sub-queries were stopped and which are about to leave their table. *)
Record HeapX (ex : ptr -> Prop) (s : State) : Prop := mkHeap {
  hp_valid : forall type l p,
    QMap.value (m_serviceItemsMap s) type = Some l -> In p l ->
    (p < List.length (heap s))%nat;
  hp_type : forall type l p,
    QMap.value (m_serviceItemsMap s) type = Some l -> In p l ->
    Item.type (item_at s p) = type;
  hp_names : forall type l,
    QMap.value (m_serviceItemsMap s) type = Some l ->
    NoDup (map (nameOf s) l);
  hp_fun : forall q p p',
    In (q, p) (m_queryIdItemMap s) -> In (q, p') (m_queryIdItemMap s) ->
    p = p';
  hp_mirror : forall type l p q,
    QMap.value (m_serviceItemsMap s) type = Some l -> In p l -> ~ ex p ->
    (In q (Item.outstandingRequests (item_at s p))
     <-> In (q, p) (m_queryIdItemMap s))
}.

Definition Heap : State -> Prop := HeapX (fun _ => False).

(** The list [l'] is [l] with some elements taken out. *)
Fixpoint thinned (l' l : list ptr) : Prop :=
  match l with
  | [] => l' = []
  | x :: rest =>
      thinned l' rest
      \/ match l' with
         | [] => False
         | y :: rest' => y = x /\ thinned rest' rest
         end
  end.

(** A member call that leaves the name, the type and the outstanding
    requests of an item alone. *)
Definition keepsIdentity (f : Item.t -> Item.t) : Prop :=
  forall i, Item.name (f i) = Item.name i
            /\ Item.type (f i) = Item.type i
            /\ Item.outstandingRequests (f i) = Item.outstandingRequests i.

(* ================================================================== *)
(** ** The item of an answered sub-query                               *)
(* ================================================================== *)

(** What the branch of the record type [type] stores in the item of the
    sub-query from the record [r]; the SRV branch also notes the address
    query [newId] it starts. *)
Definition answered (type : Z) (r : QJDns.AnswerRecord) (newId : Z)
  (i : Item.t) : Item.t :=
  if Z.eqb type QJDns.Txt then Item.setTxtRecords (QJDns.texts r) i
  else if Z.eqb type QJDns.Srv then
    Item.setPort (QJDns.port r)
      (Item.setHostName (QJDns.name r) (Item.addOutstandingRequest newId i))
  else Item.setHostAddress (QJDns.address r) i.

(** What the tail of the loop body of [resultsReady] does to the item. *)
Definition settled (i : Item.t) : Item.t :=
  if negb (Item.hasOutstandingRequests i)
  then Item.resetErrorCount (Item.setUpdated true i)
  else i.

(* ================================================================== *)
(** ** The scans of a running engine                                   *)
(* ================================================================== *)

(** A query id is bound to the service type. *)
Definition scanned (type : string) (s : State) : Prop :=
  exists id, In (id, type) (m_queryIdServiceMap s).

(** While the engine runs on an open network, every service type that has
    an instance table is scanned. *)
Definition allTypesScanned (s : State) : Prop :=
  live s = true ->
  forall type, QMap.contains (m_serviceItemsMap s) type = true ->
               scanned type s.

(** The scan that ran under the id [id] for the service type [type] in the
    state [s] was restarted by the state [s']: the backend was asked to
    cancel [id], and the type is bound to an id the backend of [s] had not
    handed out. *)
Definition restarted (s : State) (id : Z) (type : string) (s' : State)
  : Prop :=
  In (QJDns.QueryCancel id) (backendCalls s')
  /\ exists id' n, nextId s = Some n /\ (n <= id')%Z
                   /\ In (id', type) (m_queryIdServiceMap s').

(* ================================================================== *)
(** * Properties                                                       *)
(* ================================================================== *)

Unset Implicit Arguments.

(** ** Facts about QMap *)

Module QMapFacts.
Section Facts.
Context {K V : Type} {KK : QKey K}.
Implicit Types (m : QMap.t K V) (k : K) (v : V).

Lemma key_eqb_refl k : key_eqb k k = true.
Proof. now apply key_eqb_eq. Qed.

Lemma key_eqb_neq a b : key_eqb a b = false <-> a <> b.
Proof.
  split.
  - intros E ->. rewrite key_eqb_refl in E. discriminate.
  - intros N. destruct (key_eqb a b) eqn:E; [|reflexivity].
    apply key_eqb_eq in E. contradiction.
Qed.

Lemma key_eqb_sym a b : key_eqb a b = key_eqb b a.
Proof.
  destruct (key_eqb a b) eqn:E.
  - apply key_eqb_eq in E as ->. now rewrite key_eqb_refl.
  - symmetry. apply key_eqb_neq. apply key_eqb_neq in E. congruence.
Qed.

Lemma value_In m k v : QMap.value m k = Some v -> In (k, v) m.
Proof.
  induction m as [|[k' v'] m IH]; simpl; [discriminate|].
  destruct (key_eqb k' k) eqn:E.
  - intros [= ->]. apply key_eqb_eq in E as ->. now left.
  - intros H. right. auto.
Qed.

Lemma In_value m k v : In (k, v) m -> exists v', QMap.value m k = Some v'.
Proof.
  induction m as [|[k' v'] m IH]; simpl; [tauto|].
  intros [[= -> ->]|H].
  - rewrite key_eqb_refl. eauto.
  - destruct (key_eqb k' k); eauto.
Qed.

Lemma value_None m k : QMap.value m k = None <-> forall v, ~ In (k, v) m.
Proof.
  split.
  - intros E v H. apply In_value in H as [v' H]. congruence.
  - intros H. destruct (QMap.value m k) eqn:E; [|reflexivity].
    apply value_In in E. now apply H in E.
Qed.

Lemma all_None_nil m : (forall k, QMap.value m k = None) -> m = [].
Proof.
  destruct m as [|[k v] m]; [reflexivity|].
  intros H. specialize (H k). simpl in H. rewrite key_eqb_refl in H.
  discriminate.
Qed.

Lemma In_remove m k0 k v :
  In (k, v) (QMap.remove m k0) <-> In (k, v) m /\ k <> k0.
Proof.
  unfold QMap.remove. rewrite filter_In. simpl.
  rewrite negb_true_iff, key_eqb_neq. tauto.
Qed.

Lemma value_remove m k0 k :
  QMap.value (QMap.remove m k0) k
  = if key_eqb k0 k then None else QMap.value m k.
Proof.
  induction m as [|[k' v'] m IH]; simpl.
  - now destruct (key_eqb k0 k).
  - destruct (key_eqb k' k0) eqn:E1; simpl.
    + rewrite IH. apply key_eqb_eq in E1 as ->.
      now destruct (key_eqb k0 k).
    + destruct (key_eqb k' k) eqn:E2; [|exact IH].
      apply key_eqb_eq in E2 as ->. now rewrite key_eqb_sym, E1.
Qed.

Lemma In_place m k0 v0 e : In e (QMap.place k0 v0 m) <-> e = (k0, v0) \/ In e m.
Proof.
  induction m as [|[k' v'] m IH]; simpl.
  - intuition congruence.
  - destruct (key_ltb k' k0); simpl; rewrite ?IH; intuition congruence.
Qed.

Lemma value_place_other m k0 v0 k :
  k0 <> k -> QMap.value (QMap.place k0 v0 m) k = QMap.value m k.
Proof.
  intros N. apply key_eqb_neq in N.
  induction m as [|[k' v'] m IH]; simpl.
  - now rewrite N.
  - destruct (key_ltb k' k0); simpl.
    + now rewrite IH.
    + now rewrite N.
Qed.

Lemma value_place_same m k0 v0 :
  QMap.value m k0 = None -> QMap.value (QMap.place k0 v0 m) k0 = Some v0.
Proof.
  induction m as [|[k' v'] m IH]; simpl.
  - now rewrite key_eqb_refl.
  - destruct (key_eqb k' k0) eqn:E; [discriminate|]. intros H.
    destruct (key_ltb k' k0); simpl.
    + rewrite E. auto.
    + now rewrite key_eqb_refl.
Qed.

Lemma value_insert m k0 v0 k :
  QMap.value (QMap.insert m k0 v0) k
  = if key_eqb k0 k then Some v0 else QMap.value m k.
Proof.
  unfold QMap.insert. destruct (key_eqb k0 k) eqn:E.
  - apply key_eqb_eq in E as <-. apply value_place_same.
    now rewrite value_remove, key_eqb_refl.
  - rewrite value_place_other by now apply key_eqb_neq.
    now rewrite value_remove, E.
Qed.

Lemma In_insert m k0 v0 k v :
  In (k, v) (QMap.insert m k0 v0)
  <-> (k = k0 /\ v = v0) \/ (k <> k0 /\ In (k, v) m).
Proof.
  unfold QMap.insert. rewrite In_place, In_remove.
  split.
  - intros [[= -> ->]|[H N]]; auto.
  - intros [[-> ->]|[N H]]; auto.
Qed.

Lemma contains_true m k :
  QMap.contains m k = true <-> exists v, QMap.value m k = Some v.
Proof.
  unfold QMap.contains. destruct (QMap.value m k); split; eauto;
    try discriminate. intros [v E]. discriminate.
Qed.

Lemma contains_false m k :
  QMap.contains m k = false <-> QMap.value m k = None.
Proof.
  unfold QMap.contains. destruct (QMap.value m k); split; congruence.
Qed.

Lemma In_keys m k :
  In k (QMap.keys m) <-> exists v, QMap.value m k = Some v.
Proof.
  unfold QMap.keys. rewrite in_map_iff. split.
  - intros [[k' v] [E H]]. simpl in E. subst k'. eapply In_value; eauto.
  - intros [v E]. exists (k, v). split; [reflexivity|]. now apply value_In.
Qed.

Lemma contains_insert m k0 v0 k :
  QMap.contains (QMap.insert m k0 v0) k
  = key_eqb k0 k || QMap.contains m k.
Proof.
  unfold QMap.contains. rewrite value_insert.
  now destruct (key_eqb k0 k).
Qed.

Lemma contains_remove m k0 k :
  QMap.contains (QMap.remove m k0) k
  = negb (key_eqb k0 k) && QMap.contains m k.
Proof.
  unfold QMap.contains. rewrite value_remove.
  now destruct (key_eqb k0 k).
Qed.
End Facts.
End QMapFacts.
Import QMapFacts.

Arguments QMap.value : simpl never.
Arguments QMap.contains : simpl never.
Arguments QMap.remove : simpl never.
Arguments QMap.insert : simpl never.
Arguments QMap.keys : simpl never.

(** ** The configuration and the next query id under the setters *)

Lemma nextId_set_componentCompleted x s : nextId (set_componentCompleted x s) = nextId s.
Proof. reflexivity. Qed.
Lemma nextId_set_running x s : nextId (set_running x s) = nextId s.
Proof. reflexivity. Qed.
Lemma nextId_set_networkReady x s : nextId (set_networkReady x s) = nextId s.
Proof. reflexivity. Qed.
Lemma nextId_set_lookupReady x s : nextId (set_lookupReady x s) = nextId s.
Proof. reflexivity. Qed.
Lemma nextId_set_lookupMode x s : nextId (set_lookupMode x s) = nextId s.
Proof. reflexivity. Qed.
Lemma nextId_set_unicastErrorThreshold x s : nextId (set_unicastErrorThreshold x s) = nextId s.
Proof. reflexivity. Qed.
Lemma nextId_set_filter x s : nextId (set_filter x s) = nextId s.
Proof. reflexivity. Qed.
Lemma nextId_set_serviceLists x s : nextId (set_serviceLists x s) = nextId s.
Proof. reflexivity. Qed.
Lemma config_set_serviceLists x s : config (set_serviceLists x s) = config s.
Proof. reflexivity. Qed.
Lemma nextId_set_nameServers x s : nextId (set_nameServers x s) = nextId s.
Proof. reflexivity. Qed.
Lemma nextId_set_systemNameServers x s : nextId (set_systemNameServers x s) = nextId s.
Proof. reflexivity. Qed.
Lemma nextId_set_serviceItemsMap x s : nextId (set_serviceItemsMap x s) = nextId s.
Proof. reflexivity. Qed.
Lemma config_set_serviceItemsMap x s : config (set_serviceItemsMap x s) = config s.
Proof. reflexivity. Qed.
Lemma nextId_set_serviceTypeMap x s : nextId (set_serviceTypeMap x s) = nextId s.
Proof. reflexivity. Qed.
Lemma config_set_serviceTypeMap x s : config (set_serviceTypeMap x s) = config s.
Proof. reflexivity. Qed.
Lemma nextId_set_queryIdTypeMap x s : nextId (set_queryIdTypeMap x s) = nextId s.
Proof. reflexivity. Qed.
Lemma config_set_queryIdTypeMap x s : config (set_queryIdTypeMap x s) = config s.
Proof. reflexivity. Qed.
Lemma nextId_set_queryIdServiceMap x s : nextId (set_queryIdServiceMap x s) = nextId s.
Proof. reflexivity. Qed.
Lemma config_set_queryIdServiceMap x s : config (set_queryIdServiceMap x s) = config s.
Proof. reflexivity. Qed.
Lemma nextId_set_queryIdItemMap x s : nextId (set_queryIdItemMap x s) = nextId s.
Proof. reflexivity. Qed.
Lemma config_set_queryIdItemMap x s : config (set_queryIdItemMap x s) = config s.
Proof. reflexivity. Qed.
Lemma config_set_jdns x s : config (set_jdns x s) = config s.
Proof. reflexivity. Qed.
Lemma nextId_set_unicastLookupTimer x s : nextId (set_unicastLookupTimer x s) = nextId s.
Proof. reflexivity. Qed.
Lemma nextId_set_heap x s : nextId (set_heap x s) = nextId s.
Proof. reflexivity. Qed.
Lemma config_set_heap x s : config (set_heap x s) = config s.
Proof. reflexivity. Qed.
Lemma nextId_update_item p f s : nextId (update_item p f s) = nextId s.
Proof. reflexivity. Qed.
Lemma config_update_item p f s : config (update_item p f s) = config s.
Proof. reflexivity. Qed.
#[export] Hint Rewrite nextId_set_componentCompleted nextId_set_running nextId_set_networkReady nextId_set_lookupReady nextId_set_lookupMode nextId_set_unicastErrorThreshold nextId_set_filter nextId_set_serviceLists config_set_serviceLists nextId_set_nameServers nextId_set_systemNameServers nextId_set_serviceItemsMap config_set_serviceItemsMap nextId_set_serviceTypeMap config_set_serviceTypeMap nextId_set_queryIdTypeMap config_set_queryIdTypeMap nextId_set_queryIdServiceMap config_set_queryIdServiceMap nextId_set_queryIdItemMap config_set_queryIdItemMap config_set_jdns nextId_set_unicastLookupTimer nextId_set_heap config_set_heap nextId_update_item config_update_item : frame.

(** ** Outcomes and loops *)

Lemma bind_Done {A B : Type} (m : outcome A) (f : A -> outcome B) (b : B) :
  bind m f = Done b <-> exists a, m = Done a /\ f a = Done b.
Proof.
  destruct m; simpl; split; eauto; try discriminate.
  - now intros [a' [[= <-] H]].
  - now intros [a [E _]].
Qed.

Lemma forEach_preserves {A : Type} (P : State -> Prop)
  (body : A -> State -> outcome State) (l : list A) :
  (forall x s s', In x l -> P s -> body x s = Done s' -> P s') ->
  forall s s', P s -> forEach body l s = Done s' -> P s'.
Proof.
  induction l as [|x l IH]; simpl; intros Hb s s' HP H.
  - injection H as <-. exact HP.
  - apply bind_Done in H as [s1 [E H]].
    eapply IH; [| |exact H].
    + intros y t t' Hy. apply Hb. now right.
    + eapply Hb; eauto.
Qed.

Lemma forEach_total {A : Type} (P : State -> Prop)
  (body : A -> State -> outcome State) (l : list A) :
  (forall x s, In x l -> P s -> exists s', body x s = Done s' /\ P s') ->
  forall s, P s -> exists s', forEach body l s = Done s' /\ P s'.
Proof.
  induction l as [|x l IH]; simpl; intros Hb s HP.
  - eauto.
  - destruct (Hb x s (or_introl eq_refl) HP) as [s1 [E HP1]].
    rewrite E. simpl. apply IH; auto.
Qed.

Lemma forEach_app {A : Type} (body : A -> State -> outcome State) l1 l2 s :
  forEach body (l1 ++ l2) s = (s1 <- forEach body l1 s ;; forEach body l2 s1).
Proof.
  revert s. induction l1 as [|x l1 IH]; simpl; intros s; [reflexivity|].
  destruct (body x s); simpl; auto.
Qed.

(** ** The heap *)

Lemma list_update_length {A : Type} n (f : A -> A) l :
  List.length (list_update n f l) = List.length l.
Proof.
  revert n. induction l as [|x l IH]; intros [|n]; simpl; auto.
Qed.

Lemma nth_list_update {A : Type} n m (f : A -> A) l d :
  nth m (list_update n f l) d
  = if Nat.eqb n m then
      if (n <? List.length l)%nat then f (nth m l d) else nth m l d
    else nth m l d.
Proof.
  revert n m. induction l as [|x l IH]; intros [|n] [|m]; simpl; auto.
  now destruct (Nat.eqb n m).
Qed.

Lemma item_at_update_item s p q f :
  item_at (update_item p f s) q
  = if Nat.eqb p q then
      if (p <? List.length (heap s))%nat then f (item_at s q) else item_at s q
    else item_at s q.
Proof. unfold item_at, update_item. simpl. apply nth_list_update. Qed.

Lemma item_at_update_same s p f :
  (p < List.length (heap s))%nat ->
  item_at (update_item p f s) p = f (item_at s p).
Proof.
  intros H. rewrite item_at_update_item, Nat.eqb_refl.
  apply Nat.ltb_lt in H. now rewrite H.
Qed.

Lemma item_at_update_other s p q f :
  p <> q -> item_at (update_item p f s) q = item_at s q.
Proof.
  intros H. rewrite item_at_update_item.
  apply Nat.eqb_neq in H. now rewrite H.
Qed.

(** ** The backend calls *)

Lemma queryCancel_Done id s s' :
  queryCancel id s = Done s' <->
  exists j, m_jdns s = Some j
            /\ s' = set_jdns (Some (log_call (QJDns.QueryCancel id) j)) s.
Proof.
  unfold queryCancel. destruct (m_jdns s) as [j|]; split.
  - intros [= <-]. eauto.
  - intros [j' [[= <-] ->]]. reflexivity.
  - discriminate.
  - intros [j' [E _]]. discriminate.
Qed.

Lemma queryStart_Done name type s id s' :
  queryStart name type s = Done (id, s') <->
  exists j, m_jdns s = Some j /\ id = QJDns.next_id j
            /\ s' = set_jdns (Some (QJDns.mkHandle (QJDns.mode j) (id + 1)
                      (QJDns.calls j ++ [QJDns.QueryStart name type id]))) s.
Proof.
  unfold queryStart. destruct (m_jdns s) as [j|]; split.
  - intros [= <- <-]. eauto.
  - intros [j' [[= <-] [-> ->]]]. reflexivity.
  - discriminate.
  - intros [j' [E _]]. discriminate.
Qed.

(** ** Effects of the resolver operations *)

Lemma updateServiceType_frame type s :
  let s' := updateServiceType type s in
  config s' = config s
  /\ m_serviceTypeMap s' = m_serviceTypeMap s
  /\ m_serviceItemsMap s' = m_serviceItemsMap s
  /\ m_queryIdTypeMap s' = m_queryIdTypeMap s
  /\ m_queryIdServiceMap s' = m_queryIdServiceMap s
  /\ m_queryIdItemMap s' = m_queryIdItemMap s
  /\ m_jdns s' = m_jdns s
  /\ heap s' = heap s.
Proof.
  unfold updateServiceType.
  destruct (QMap.value (m_serviceItemsMap s) type); sproj; auto 10.
Qed.

Lemma stopItemQueriesLoop_effect item snapshot : forall s s',
  stopItemQueriesLoop item snapshot s = Done s' ->
  sameTables s s'
  /\ m_queryIdServiceMap s' = m_queryIdServiceMap s
  /\ nextId s' = nextId s
  /\ (forall q p, In (q, p) (m_queryIdItemMap s') ->
        In (q, p) (m_queryIdItemMap s) /\ ~ In (q, item) snapshot)
  /\ (forall id t, QMap.value (m_queryIdTypeMap s') id = Some t ->
        QMap.value (m_queryIdTypeMap s) id = Some t)
  /\ (forall q p, In (q, p) (m_queryIdItemMap s) ->
        In (q, p) (m_queryIdItemMap s')
        \/ QMap.value (m_queryIdTypeMap s') q = None).
Proof.
  induction snapshot as [|[q0 p0] rest IH]; simpl; intros s s' H.
  - injection H as <-. unfold sameTables. intuition.
  - destruct (Nat.eqb p0 item) eqn:Ep.
    + apply Nat.eqb_eq in Ep. subst p0.
      apply bind_Done in H as [s1 [E H]].
      apply queryCancel_Done in E as [j [Ej ->]].
      apply IH in H. sproj_in H.
      destruct H as (Ht & Hs & Hn & Hi & Hty & Hk).
      split; [exact Ht|]. split; [exact Hs|].
      split; [rewrite Hn; unfold nextId; now rewrite Ej|].
      split; [|split].
      * intros q p Hin. apply Hi in Hin as [Hin Hr].
        apply In_remove in Hin as [Hin Hne].
        split; [exact Hin|]. intros [E'|Hr']; [inversion E'; congruence|auto].
      * intros id t Hv. apply Hty in Hv. rewrite value_remove in Hv.
        destruct (key_eqb q0 id); [discriminate|exact Hv].
      * intros q p Hin.
        destruct (Z.eq_dec q q0) as [->|Hne].
        -- right. destruct (QMap.value (m_queryIdTypeMap s') q0) eqn:Ev;
             [|reflexivity].
           apply Hty in Ev. rewrite value_remove in Ev.
           rewrite key_eqb_refl in Ev. discriminate.
        -- apply Hk. apply In_remove. auto.
    + apply IH in H. destruct H as (Ht & Hs & Hn & Hi & Hty & Hk).
      split; [exact Ht|]. split; [exact Hs|]. split; [exact Hn|].
      split; [|split; assumption].
      intros q p Hin. apply Hi in Hin as [Hin Hr]. split; [exact Hin|].
      intros [E'|Hr']; [|auto].
      inversion E'; subst. now rewrite Nat.eqb_refl in Ep.
Qed.

Lemma stopItemQueries_effect item s s' :
  stopItemQueries item s = Done s' ->
  sameTables s s'
  /\ m_queryIdServiceMap s' = m_queryIdServiceMap s
  /\ nextId s' = nextId s
  /\ (forall q p, In (q, p) (m_queryIdItemMap s') ->
        In (q, p) (m_queryIdItemMap s) /\ p <> item)
  /\ (forall id t, QMap.value (m_queryIdTypeMap s') id = Some t ->
        QMap.value (m_queryIdTypeMap s) id = Some t)
  /\ (forall q p, In (q, p) (m_queryIdItemMap s) ->
        In (q, p) (m_queryIdItemMap s')
        \/ QMap.value (m_queryIdTypeMap s') q = None).
Proof.
  intros H. apply stopItemQueriesLoop_effect in H.
  destruct H as (Ht & Hs & Hn & Hi & Hty & Hk).
  split; [exact Ht|]. split; [exact Hs|]. split; [exact Hn|].
  split; [|split; assumption].
  intros q p Hin. apply Hi in Hin as [Hin Hr]. split; [exact Hin|].
  intros ->. contradiction.
Qed.

Lemma stopItemQueriesLoop_total item snapshot : forall s,
  m_jdns s <> None ->
  exists s', stopItemQueriesLoop item snapshot s = Done s'.
Proof.
  induction snapshot as [|[q0 p0] rest IH]; simpl; intros s Hj; eauto.
  destruct (Nat.eqb p0 item); auto.
  unfold queryCancel. destruct (m_jdns s) as [j|]; [|contradiction].
  simpl. apply IH. sproj. discriminate.
Qed.

Lemma stopItemQueries_total item s :
  m_jdns s <> None -> exists s', stopItemQueries item s = Done s'.
Proof. apply stopItemQueriesLoop_total. Qed.

Lemma nextId_None s : nextId s = None <-> m_jdns s = None.
Proof. unfold nextId. destruct (m_jdns s); simpl; split; congruence. Qed.

Lemma nextId_same_jdns s s' :
  nextId s' = nextId s -> m_jdns s <> None -> m_jdns s' <> None.
Proof.
  intros E H H'. apply nextId_None in H'. rewrite E in H'.
  now apply nextId_None in H'.
Qed.

(** ** Well-formedness of the registry is kept by every operation *)

Lemma WFx_ext ex s s' :
  m_queryIdServiceMap s' = m_queryIdServiceMap s ->
  m_queryIdTypeMap s' = m_queryIdTypeMap s ->
  m_queryIdItemMap s' = m_queryIdItemMap s ->
  m_serviceItemsMap s' = m_serviceItemsMap s ->
  nextId s' = nextId s ->
  WFx ex s -> WFx ex s'.
Proof.
  intros E1 E2 E3 E4 E5 [].
  constructor; rewrite ?E1, ?E2, ?E3, ?E4, ?E5; assumption.
Qed.

Lemma WFx_weaken (ex ex' : string -> Prop) s :
  (forall type, ex type -> ex' type) -> WFx ex s -> WFx ex' s.
Proof.
  intros Hex []. constructor; auto.
  intros type l Hv Hne. destruct (wf_scan0 _ _ Hv Hne); auto.
Qed.

Lemma shrinks_refl s : shrinks s s.
Proof. unfold shrinks. intuition. Qed.

Lemma shrinks_trans s1 s2 s3 : shrinks s1 s2 -> shrinks s2 s3 -> shrinks s1 s3.
Proof.
  intros (A1 & A2 & A3 & A4 & A5 & A6) (B1 & B2 & B3 & B4 & B5 & B6).
  unfold shrinks. repeat split; try congruence; auto.
  intros q p H. destruct (A6 _ _ H) as [H1|H1].
  - auto.
  - right. destruct (QMap.value (m_queryIdTypeMap s3) q) eqn:E; auto.
    apply B5 in E. congruence.
Qed.

Lemma shrinks_ext s s' :
  m_queryIdServiceMap s' = m_queryIdServiceMap s ->
  m_queryIdTypeMap s' = m_queryIdTypeMap s ->
  m_queryIdItemMap s' = m_queryIdItemMap s ->
  m_serviceItemsMap s' = m_serviceItemsMap s ->
  nextId s' = nextId s ->
  shrinks s s'.
Proof.
  intros E1 E2 E3 E4 E5. unfold shrinks.
  rewrite E1, E2, E3, E4, E5. intuition.
Qed.

Lemma stopItemQueries_shrinks item s s' :
  stopItemQueries item s = Done s' ->
  shrinks s s' /\ forall q, ~ In (q, item) (m_queryIdItemMap s').
Proof.
  intros H. apply stopItemQueries_effect in H.
  destruct H as ((_ & _ & Ht & _) & Hs & Hn & Hi & Hty & Hk).
  split.
  - unfold shrinks. repeat split; auto. intros q p Hin. now apply Hi in Hin.
  - intros q Hin. apply Hi in Hin. tauto.
Qed.

Lemma stopItemQueries_list_shrinks items : forall s s',
  forEach stopItemQueries items s = Done s' ->
  shrinks s s'
  /\ forall q p, In (q, p) (m_queryIdItemMap s') -> ~ In p items.
Proof.
  induction items as [|item items IH]; simpl; intros s s' H.
  - injection H as <-. split; [apply shrinks_refl|tauto].
  - apply bind_Done in H as [s1 [E H]].
    apply stopItemQueries_shrinks in E as [E1 E2].
    apply IH in H as [H1 H2]. split.
    + eapply shrinks_trans; eauto.
    + intros q p Hin [->|Hp].
      * destruct H1 as (_ & _ & _ & Hsub & _). apply Hsub in Hin.
        now apply E2 in Hin.
      * now apply H2 in Hin.
Qed.

(** After sub-queries were stopped, the list of [type] may be replaced by
    any part of it that keeps the items still being resolved. *)
Lemma WFx_replace_list ex s s1 type l l' :
  WFx ex s -> shrinks s s1 ->
  QMap.value (m_serviceItemsMap s) type = Some l ->
  (forall p, In p l' -> In p l) ->
  (forall q p, In (q, p) (m_queryIdItemMap s1) -> In p l -> In p l') ->
  WFx ex (set_serviceItemsMap (QMap.insert (m_serviceItemsMap s1) type l') s1).
Proof.
  intros W (A1 & A2 & A3 & A4 & A5 & A6) Hl Hsub Hkeep.
  destruct W. constructor; sproj;
    rewrite ?A1, ?A2, ?A3.
  - assumption.
  - assumption.
  - intros id t Hv. pose proof (A5 _ _ Hv) as Hv0.
    destruct (wf_type0 _ _ Hv0) as [?|[p Hp]]; auto.
    destruct (A6 _ _ Hp) as [?|E]; eauto. congruence.
  - intros q p Hin. destruct (wf_item0 _ _ (A4 _ _ Hin)) as (ty & l0 & E0 & Hp).
    destruct (String.eqb_spec type ty) as [<-|Hne].
    + exists type, l'. rewrite value_insert, key_eqb_refl.
      split; [reflexivity|]. apply (Hkeep q); auto. congruence.
    + exists ty, l0. rewrite value_insert.
      apply (proj2 (key_eqb_neq type ty)) in Hne. now rewrite Hne.
  - intros id Hv. apply wf_ptr0. auto.
  - intros id ty Hin. rewrite contains_insert.
    rewrite (wf_key0 _ _ Hin). apply orb_true_r.
  - intros ty l0. rewrite value_insert.
    destruct (key_eqb type ty) eqn:E.
    + apply key_eqb_eq in E as <-. intros [= <-] Hne.
      apply (wf_scan0 type l Hl). intros ->.
      destruct l' as [|p ?]; [congruence|]. apply (Hsub p). now left.
    + apply wf_scan0.
  - assumption.
  - intros q p Hin. eapply wf_backend0. eauto.
Qed.

(** Emptying the list of [type] ends its exception. *)
Lemma WFx_clear_list ex s s1 type l :
  WFx ex s -> shrinks s s1 ->
  QMap.value (m_serviceItemsMap s) type = Some l ->
  (forall q p, In (q, p) (m_queryIdItemMap s1) -> ~ In p l) ->
  WFx (fun t => ex t /\ t <> type)
      (set_serviceItemsMap (QMap.insert (m_serviceItemsMap s1) type []) s1).
Proof.
  intros W Hs Hl Hkeep.
  assert (W' : WFx ex (set_serviceItemsMap
                         (QMap.insert (m_serviceItemsMap s1) type []) s1)).
  { eapply WFx_replace_list; eauto; try (now intros p []);
      intros q p Hin Hp; now apply Hkeep in Hin. }
  destruct W'. constructor; auto.
  sproj_all. intros ty l0 Hv Hne.
  destruct (wf_scan0 _ _ Hv Hne) as [He|?]; auto.
  left. split; [exact He|]. intros ->.
  rewrite value_insert, key_eqb_refl in Hv. congruence.
Qed.

Lemma WFx_shrinks ex s s' : WFx ex s -> shrinks s s' -> WFx ex s'.
Proof.
  intros W (A1 & A2 & A3 & A4 & A5 & A6).
  destruct W. constructor; rewrite ?A1, ?A2, ?A3; auto.
  - intros id t Hv. pose proof (A5 _ _ Hv) as Hv0.
    destruct (wf_type0 _ _ Hv0) as [?|[p Hp]]; auto.
    destruct (A6 _ _ Hp) as [?|E]; eauto. congruence.
  - intros q p Hin. eauto.
  - intros q p Hin. eapply wf_backend0. eauto.
Qed.

Lemma updateServiceType_WFx ex type s :
  WFx ex s -> WFx ex (updateServiceType type s).
Proof.
  intros W. pose proof (updateServiceType_frame type s) as F. simpl in F.
  destruct F as (_ & _ & E1 & E2 & E3 & E4 & E5 & _).
  eapply WFx_ext; eauto. unfold nextId. now rewrite E5.
Qed.

Lemma stopItemQueries_WFx ex item s s' :
  WFx ex s -> stopItemQueries item s = Done s' -> WFx ex s'.
Proof.
  intros W H. apply stopItemQueries_shrinks in H as [H _].
  eapply WFx_shrinks; eauto.
Qed.

Lemma stopItemQueries_list_frame items : forall s s',
  forEach stopItemQueries items s = Done s' -> sameTables s s'.
Proof.
  induction items as [|item items IH]; simpl; intros s s' E.
  - injection E as <-. unfold sameTables; auto.
  - apply bind_Done in E as [s2 [E2 E]].
    pose proof (stopItemQueries_effect _ _ _ E2) as (G & _).
    apply IH in E. unfold sameTables in *. intuition congruence.
Qed.

(** [clearItems]: what it does to the registry and the tables. *)
Lemma clearItems_effect type s s' :
  clearItems type s = Done s' ->
  config s' = config s
  /\ m_serviceTypeMap s' = m_serviceTypeMap s
  /\ heap s' = heap s
  /\ m_queryIdServiceMap s' = m_queryIdServiceMap s
  /\ nextId s' = nextId s
  /\ (forall t, QMap.contains (m_serviceItemsMap s') t
                = QMap.contains (m_serviceItemsMap s) t)
  /\ (forall t, QMap.value (m_serviceItemsMap s') t
                = if QMap.contains (m_serviceItemsMap s) type && String.eqb type t
                  then Some [] else QMap.value (m_serviceItemsMap s) t).
Proof.
  unfold clearItems. intros H.
  destruct (QMap.value (m_serviceItemsMap s) type) as [l|] eqn:El.
  - apply bind_Done in H as [s1 [E H]]. injection H as <-.
    pose proof (updateServiceType_frame type
      (set_serviceItemsMap (QMap.insert (m_serviceItemsMap s1) type []) s1))
      as F. simpl in F. destruct F as (F1 & F2 & F3 & F4 & F5 & F6 & F7 & F8).
    pose proof (stopItemQueries_list_frame _ _ _ E) as (G1 & G2 & G3 & G4 & G5).
    apply stopItemQueries_list_shrinks in E as ((H1 & H2 & H3 & _) & _).
    rewrite F1, F2, F8, F5, F3. unfold nextId at 1. rewrite F7.
    sproj. fold (nextId s1).
    repeat split; try congruence.
    + intros t. rewrite contains_insert, G3.
      destruct (key_eqb type t) eqn:Et; [|reflexivity].
      apply key_eqb_eq in Et as <-. simpl. symmetry.
      apply contains_true. eauto.
    + intros t. rewrite value_insert, G3.
      replace (QMap.contains (m_serviceItemsMap s) type) with true
        by (symmetry; apply contains_true; eauto).
      reflexivity.
  - injection H as <-.
    replace (QMap.contains (m_serviceItemsMap s) type) with false
      by (symmetry; now apply contains_false).
    repeat split; auto.
Qed.

Lemma clearItems_WFx ex type s s' :
  WFx ex s -> clearItems type s = Done s' ->
  WFx (fun t => ex t /\ t <> type) s'.
Proof.
  unfold clearItems. intros W H.
  destruct (QMap.value (m_serviceItemsMap s) type) as [l|] eqn:El.
  - apply bind_Done in H as [s1 [E H]]. injection H as <-.
    apply stopItemQueries_list_shrinks in E as [E1 E2].
    apply updateServiceType_WFx.
    eapply WFx_clear_list; eauto.
    intros q p Hin Hp. apply E2 in Hin. apply Hin. now apply in_rev in Hp.
  - injection H as <-. destruct W. constructor; auto.
    intros ty l0 Hv Hne. destruct (wf_scan0 _ _ Hv Hne) as [He|?]; auto.
    left. split; [exact He|]. intros ->. congruence.
Qed.

Lemma clearItems_WF type s s' :
  WFx (fun t => t = type) s -> clearItems type s = Done s' -> WF s'.
Proof.
  intros W H. eapply clearItems_WFx in H; eauto.
  eapply WFx_weaken; [|exact H]. simpl. intros t [-> N]. now apply N.
Qed.

Lemma sameShape_refl s : sameShape s s.
Proof. unfold sameShape. intuition. Qed.

Lemma sameShape_trans s1 s2 s3 :
  sameShape s1 s2 -> sameShape s2 s3 -> sameShape s1 s3.
Proof.
  intros (A1 & A2 & A3 & A4) (B1 & B2 & B3 & B4). unfold sameShape.
  split; [congruence|]. split; [congruence|]. split.
  - intros t. now rewrite B3, A3.
  - split; intros H.
    + now apply A4, B4.
    + now apply B4, A4.
Qed.

Lemma nextId_eq_jdns s s' :
  nextId s' = nextId s -> (m_jdns s' = None <-> m_jdns s = None).
Proof. intros E. rewrite <- !nextId_None. now rewrite E. Qed.

Lemma sameShape_of_sameTables s s' :
  sameTables s s' -> nextId s' = nextId s -> sameShape s s'.
Proof.
  intros (A1 & A2 & A3 & _) E. unfold sameShape. rewrite A3.
  repeat split; auto; now apply nextId_eq_jdns.
Qed.

Lemma updateServiceType_sameShape type s :
  sameShape s (updateServiceType type s).
Proof.
  pose proof (updateServiceType_frame type s) as F. simpl in F.
  destruct F as (E1 & E2 & E3 & _ & _ & _ & E7 & _).
  unfold sameShape. rewrite E1, E2, E3, E7. intuition.
Qed.

Lemma stopItemQueries_sameShape item s s' :
  stopItemQueries item s = Done s' -> sameShape s s'.
Proof.
  intros H. apply stopItemQueries_effect in H as (H1 & _ & H2 & _).
  now apply sameShape_of_sameTables.
Qed.

Lemma clearItems_sameShape type s s' :
  clearItems type s = Done s' -> sameShape s s'.
Proof.
  intros H. apply clearItems_effect in H
    as (H1 & H2 & _ & _ & H5 & H6 & _).
  unfold sameShape. repeat split; auto; now apply nextId_eq_jdns.
Qed.

Lemma clearItems_total type s :
  m_jdns s <> None -> exists s', clearItems type s = Done s'.
Proof.
  unfold clearItems. intros Hj.
  destruct (QMap.value (m_serviceItemsMap s) type) as [l|]; eauto.
  destruct (forEach_total (fun s => m_jdns s <> None) stopItemQueries (rev l))
    with (s := s) as [s1 [E _]]; auto.
  - intros p t _ Ht. destruct (stopItemQueries_total p t Ht) as [t' E].
    exists t'. split; [exact E|].
    apply stopItemQueries_sameShape in E as (_ & _ & _ & E). tauto.
  - rewrite E. simpl. eauto.
Qed.

(** *** removeItem *)

Lemma takeFirst_spec f l p rest :
  takeFirst f l = Some (p, rest) ->
  In p l /\ f p = true
  /\ (forall x, In x rest -> In x l)
  /\ (forall x, In x l -> x <> p -> In x rest).
Proof.
  revert p rest. induction l as [|x l IH]; simpl; intros p rest H.
  - discriminate.
  - destruct (f x) eqn:Ef.
    + injection H as <- <-. repeat split; auto.
      intros y [->|Hy] Hne; [congruence|exact Hy].
    + destruct (takeFirst f l) as [[q rest']|]; [|discriminate].
      injection H as <- <-. destruct (IH _ _ eq_refl) as (I1 & I2 & I3 & I4).
      repeat split; auto.
      * intros y [->|Hy]; [now left|right; auto].
      * intros y [->|Hy] Hne; [now left|right; auto].
Qed.

Lemma takeFirst_None f l :
  takeFirst f l = None -> find f l = None.
Proof.
  induction l as [|x l IH]; simpl; auto.
  destruct (f x); [discriminate|].
  destruct (takeFirst f l) as [[q rest']|]; [discriminate|auto].
Qed.

Lemma takeFirst_find f l p rest :
  takeFirst f l = Some (p, rest) -> find f l = Some p.
Proof.
  revert p rest. induction l as [|x l IH]; simpl; intros p rest H.
  - discriminate.
  - destruct (f x) eqn:Ef.
    + now injection H as <- <-.
    + destruct (takeFirst f l) as [[q rest']|]; [|discriminate].
      injection H as <- <-. eauto.
Qed.

Lemma removeItem_WFx ex name type s s' :
  WFx ex s -> removeItem name type s = Done s' -> WFx ex s'.
Proof.
  unfold removeItem. intros W H.
  destruct (QMap.value (m_serviceItemsMap s) type) as [l|] eqn:El;
    [|now injection H as <-].
  destruct (takeFirst (hasName s name) l) as [[item rest]|] eqn:Et;
    [|now injection H as <-].
  apply bind_Done in H as [s1 [E H]]. injection H as <-.
  apply takeFirst_spec in Et as (T1 & T2 & T3 & T4).
  apply stopItemQueries_shrinks in E as [E1 E2].
  apply updateServiceType_WFx.
  eapply WFx_replace_list; eauto.
  intros q p Hin Hp. apply T4; auto. intros ->. now apply E2 in Hin.
Qed.

Lemma removeItem_frame name type s s' :
  removeItem name type s = Done s' ->
  sameShape s s' /\ m_queryIdServiceMap s' = m_queryIdServiceMap s
  /\ nextId s' = nextId s /\ heap s' = heap s.
Proof.
  unfold removeItem. intros H.
  destruct (QMap.value (m_serviceItemsMap s) type) as [l|] eqn:El;
    [|injection H as <-; split; [apply sameShape_refl|auto]].
  destruct (takeFirst (hasName s name) l) as [[item rest]|] eqn:Et;
    [|injection H as <-; split; [apply sameShape_refl|auto]].
  apply bind_Done in H as [s1 [E H]]. injection H as <-.
  pose proof (stopItemQueries_effect _ _ _ E)
    as ((A1 & A2 & A3 & A4 & A5) & A6 & A7 & _).
  pose proof (updateServiceType_frame type
    (set_serviceItemsMap (QMap.insert (m_serviceItemsMap s1) type rest) s1))
    as F. simpl in F. destruct F as (F1 & F2 & F3 & F4 & F5 & F6 & F7 & F8).
  unfold sameShape. rewrite F1, F2, F3, F5, F7, F8.
  unfold nextId at 1. rewrite F7. fold (nextId s1). sproj.
  repeat split; try congruence.
  - intros t. rewrite contains_insert, A3.
    destruct (key_eqb type t) eqn:Ek; [|reflexivity].
    apply key_eqb_eq in Ek as <-. symmetry. apply contains_true. eauto.
  - intros H. apply nextId_None. rewrite <- A7. now apply nextId_None.
  - intros H. apply nextId_None. rewrite A7. now apply nextId_None.
Qed.

Lemma removeItem_total name type s :
  m_jdns s <> None -> exists s', removeItem name type s = Done s'.
Proof.
  unfold removeItem. intros Hj.
  destruct (QMap.value (m_serviceItemsMap s) type) as [l|]; eauto.
  destruct (takeFirst (hasName s name) l) as [[item rest]|]; eauto.
  destruct (stopItemQueries_total item s Hj) as [s1 E]. rewrite E. simpl. eauto.
Qed.

(** *** purgeItems *)

Lemma update_item_shrinks p f s : shrinks s (update_item p f s).
Proof. apply shrinks_ext; reflexivity. Qed.

Lemma update_item_sameShape p f s : sameShape s (update_item p f s).
Proof. unfold sameShape. sproj. intuition. Qed.

Lemma shrinks_sameShape_stop item s s' :
  stopItemQueries item s = Done s' -> shrinks s s' /\ sameShape s s'.
Proof.
  intros H. split.
  - now apply stopItemQueries_shrinks in H.
  - now apply stopItemQueries_sameShape in H.
Qed.

Lemma purgeLoop_effect l : forall s l' modified s1,
  purgeLoop l s = Done (l', modified, s1) ->
  shrinks s s1 /\ sameShape s s1
  /\ m_queryIdServiceMap s1 = m_queryIdServiceMap s
  /\ m_serviceLists s1 = m_serviceLists s
  /\ (forall p, In p l' -> In p l)
  /\ (forall q p, In (q, p) (m_queryIdItemMap s1) -> In p l -> In p l')
  /\ (modified = false -> l' = l).
Proof.
  induction l as [|item rest IH]; simpl; intros s l' modified s1 H.
  - injection H as <- <- <-.
    split; [apply shrinks_refl|]. split; [apply sameShape_refl|]. auto.
  - apply bind_Done in H as [[[rest' m0] s0] [E H]].
    apply IH in E as (I1 & I2 & I3 & I4 & I5 & I6 & I7).
    destruct (negb (Item.updated (item_at s0 item))).
    + match type of H with
      | (if ?c then _ else _) = _ => destruct c
      end.
      * apply bind_Done in H as [s3 [E3 H]]. injection H as <- <- <-.
        pose proof (stopItemQueries_effect _ _ _ E3)
          as ((A1 & A2 & A3 & A4 & A5) & A6 & A7 & _).
        pose proof (stopItemQueries_shrinks _ _ _ E3) as [B1 B2].
        apply stopItemQueries_sameShape in E3.
        split; [|split; [|split; [|split; [|split; [|split]]]]].
        -- eapply shrinks_trans; [exact I1|].
           eapply shrinks_trans; [apply update_item_shrinks|exact B1].
        -- eapply sameShape_trans; [exact I2|].
           eapply sameShape_trans; [apply update_item_sameShape|exact E3].
        -- rewrite A6. exact I3.
        -- rewrite A4. exact I4.
        -- intros p Hp. right. auto.
        -- intros q p Hin [->|Hp]; [now apply B2 in Hin|].
           apply I6 with (q := q); auto.
           destruct B1 as (_ & _ & _ & B1 & _). now apply B1 in Hin.
        -- discriminate.
      * injection H as <- <- <-.
        split; [|split; [|split; [|split; [|split; [|split]]]]].
        -- eapply shrinks_trans; [exact I1|apply update_item_shrinks].
        -- eapply sameShape_trans; [exact I2|apply update_item_sameShape].
        -- exact I3.
        -- exact I4.
        -- intros p [->|Hp]; [now left|right; auto].
        -- intros q p Hin [->|Hp]; [now left|right; eauto].
        -- intros Hm. now rewrite I7.
    + injection H as <- <- <-.
      split; [|split; [|split; [|split; [|split; [|split]]]]].
      * eapply shrinks_trans; [exact I1|apply update_item_shrinks].
      * eapply sameShape_trans; [exact I2|apply update_item_sameShape].
      * exact I3.
      * exact I4.
      * intros p [->|Hp]; [now left|right; auto].
      * intros q p Hin [->|Hp]; [now left|right; eauto].
      * intros Hm. now rewrite I7.
Qed.

Lemma purgeLoop_total l : forall s,
  m_jdns s <> None ->
  exists l' modified s1, purgeLoop l s = Done (l', modified, s1).
Proof.
  induction l as [|item rest IH]; simpl; intros s Hj; eauto.
  destruct (IH s Hj) as (l' & m0 & s0 & E). rewrite E. simpl.
  apply purgeLoop_effect in E as (_ & (_ & _ & _ & Hs) & _).
  assert (Hj0 : m_jdns s0 <> None) by tauto.
  destruct (negb (Item.updated (item_at s0 item))); eauto.
  match goal with
  | |- context [if ?c then _ else _] => destruct c
  end; eauto.
  destruct (stopItemQueries_total item
              (update_item item Item.increaseErrorCount s0)) as [s3 E3].
  { exact Hj0. }
  rewrite E3. simpl. eauto.
Qed.

Lemma insert_same_contains (m : QMap.t string (list ptr)) type l l' t :
  QMap.value m type = Some l ->
  QMap.contains (QMap.insert m type l') t = QMap.contains m t.
Proof.
  intros H. rewrite contains_insert.
  destruct (key_eqb type t) eqn:Ek; [|reflexivity].
  apply key_eqb_eq in Ek as <-. symmetry. apply contains_true. eauto.
Qed.

Lemma purgeItems_WFx ex type s s' :
  WFx ex s -> purgeItems type s = Done s' -> WFx ex s'.
Proof.
  unfold purgeItems. intros W H.
  destruct (QMap.value (m_serviceItemsMap s) type) as [l|] eqn:El;
    [|now injection H as <-].
  apply bind_Done in H as [[[l' modified] s1] [E H]].
  apply purgeLoop_effect in E as (I1 & I2 & I3 & I4 & I5 & I6 & I7).
  destruct modified.
  - injection H as <-. apply updateServiceType_WFx.
    eapply WFx_replace_list; eauto.
  - injection H as <-. eapply WFx_shrinks; eauto.
Qed.

Lemma purgeItems_frame type s s' :
  purgeItems type s = Done s' ->
  sameShape s s' /\ m_queryIdServiceMap s' = m_queryIdServiceMap s
  /\ nextId s' = nextId s.
Proof.
  unfold purgeItems. intros H.
  destruct (QMap.value (m_serviceItemsMap s) type) as [l|] eqn:El;
    [|injection H as <-; split; [apply sameShape_refl|auto]].
  apply bind_Done in H as [[[l' modified] s1] [E H]].
  apply purgeLoop_effect in E as (I1 & I2 & I3 & I4 & I5 & I6 & I7).
  pose proof I1 as (J1 & _ & J3 & _).
  destruct modified; injection H as <-; [|auto].
  pose proof (updateServiceType_frame type
    (set_serviceItemsMap (QMap.insert (m_serviceItemsMap s1) type l') s1))
    as F. simpl in F. destruct F as (F1 & F2 & F3 & F4 & F5 & F6 & F7 & F8).
  split; [|split].
  - eapply sameShape_trans; [exact I2|].
    eapply sameShape_trans; [|apply updateServiceType_sameShape].
    unfold sameShape. sproj. repeat split; auto.
    intros t. eapply insert_same_contains. rewrite J1. eauto.
  - rewrite F5. exact I3.
  - unfold nextId at 1. rewrite F7. exact J3.
Qed.

Lemma purgeItems_total type s :
  m_jdns s <> None -> exists s', purgeItems type s = Done s'.
Proof.
  unfold purgeItems. intros Hj.
  destruct (QMap.value (m_serviceItemsMap s) type) as [l|]; eauto.
  destruct (purgeLoop_total l s Hj) as (l' & m0 & s0 & E). rewrite E. simpl.
  destruct m0; eauto.
Qed.

(** *** Scans: startQuery, stopQuery, refreshQuery *)

Lemma findQuery_Some type s id :
  findQuery type s = Some id -> In (id, type) (m_queryIdServiceMap s).
Proof.
  unfold findQuery.
  destruct (find _ (m_queryIdServiceMap s)) as [[id' t]|] eqn:E; simpl;
    [|discriminate].
  intros [= <-]. apply find_some in E as [E1 E2]. simpl in E2.
  apply String.eqb_eq in E2. now subst t.
Qed.

Lemma findQuery_None type s :
  findQuery type s = None ->
  forall id, ~ In (id, type) (m_queryIdServiceMap s).
Proof.
  unfold findQuery.
  destruct (find _ (m_queryIdServiceMap s)) as [[id' t]|] eqn:E; simpl;
    [discriminate|].
  intros _ id Hin. eapply find_none in E; eauto. simpl in E.
  now rewrite String.eqb_refl in E.
Qed.

Lemma nextId_Some s n :
  nextId s = Some n <-> exists j, m_jdns s = Some j /\ QJDns.next_id j = n.
Proof.
  unfold nextId. destruct (m_jdns s) as [j|]; simpl; split.
  - intros [= <-]. eauto.
  - intros [j' [[= <-] <-]]. reflexivity.
  - discriminate.
  - intros [j' [E _]]. discriminate.
Qed.

(** Binding a fresh query id to a service type of the table. *)
Lemma WFx_bind ex s j type t calls :
  WFx ex s -> m_jdns s = Some j ->
  QMap.contains (m_serviceItemsMap s) type = true ->
  (forall id, ~ In (id, type) (m_queryIdServiceMap s)) ->
  WFx (fun u => ex u /\ u <> type)
    (set_queryIdServiceMap
       (QMap.insert (m_queryIdServiceMap s) (QJDns.next_id j) type)
       (set_queryIdTypeMap
          (QMap.insert (m_queryIdTypeMap s) (QJDns.next_id j) t)
          (set_jdns (Some (QJDns.mkHandle (QJDns.mode j)
                             (QJDns.next_id j + 1) calls)) s))).
Proof.
  intros W Ej Hc Hno.
  assert (Hn : nextId s = Some (QJDns.next_id j))
    by (apply nextId_Some; eauto).
  assert (Hfresh : forall u, ~ In (QJDns.next_id j, u) (m_queryIdServiceMap s)).
  { intros u Hin. destruct W. apply wf_fresh0 in Hin as [n [E1 E2]].
    rewrite Hn in E1. injection E1 as <-. lia. }
  set (n := QJDns.next_id j) in *.
  destruct W. constructor; sproj.
  - intros id1 id2 u H1 H2. apply In_insert in H1, H2.
    destruct H1 as [[E1 E1']|[N1 H1]], H2 as [[E2 E2']|[N2 H2]]; subst.
    + reflexivity.
    + now apply Hno in H2.
    + now apply Hno in H1.
    + eauto.
  - intros id u1 u2 H1 H2. apply In_insert in H1, H2.
    destruct H1 as [[E1 E1']|[N1 H1]], H2 as [[E2 E2']|[N2 H2]]; subst;
      try congruence.
    eauto.
  - intros id u. rewrite value_insert.
    destruct (key_eqb n id) eqn:E.
    + apply key_eqb_eq in E as <-. intros _. left. exists type.
      apply In_insert. auto.
    + apply key_eqb_neq in E. intros Hv.
      destruct (wf_type0 _ _ Hv) as [[u' Hu]|?]; auto.
      left. exists u'. apply In_insert. right. split; congruence.
  - assumption.
  - intros id. rewrite value_insert.
    destruct (key_eqb n id) eqn:E.
    + apply key_eqb_eq in E as <-. intros _. exists type.
      apply In_insert. auto.
    + apply key_eqb_neq in E. intros Hv.
      destruct (wf_ptr0 _ Hv) as [u' Hu].
      exists u'. apply In_insert. right. split; congruence.
  - intros id u Hin. apply In_insert in Hin as [[-> ->]|[N Hin]]; eauto.
  - intros u l Hv Hne.
    destruct (String.eqb_spec u type) as [->|Hu].
    + right. exists n. apply In_insert. auto.
    + destruct (wf_scan0 _ _ Hv Hne) as [He|[id Hid]]; auto.
      right. exists id. apply In_insert. right. split; auto.
      intros ->. now apply Hfresh in Hid.
  - intros id u Hin. exists (n + 1)%Z. split; [reflexivity|].
    apply In_insert in Hin as [[-> ->]|[N Hin]]; [lia|].
    apply wf_fresh0 in Hin as [n' [E1 E2]]. rewrite Hn in E1.
    injection E1 as <-. lia.
  - intros q p Hin. discriminate.
Qed.

(** Removing the binding of a scan leaves its type without scan. *)
Lemma WFx_unbind ex s j id type c :
  WFx ex s -> m_jdns s = Some j -> In (id, type) (m_queryIdServiceMap s) ->
  WFx (fun u => ex u \/ u = type)
    (set_queryIdServiceMap (QMap.remove (m_queryIdServiceMap s) id)
       (set_queryIdTypeMap (QMap.remove (m_queryIdTypeMap s) id)
          (set_jdns (Some (log_call c j)) s))).
Proof.
  intros W Ej Hin.
  assert (Hn : nextId (set_jdns (Some (log_call c j)) s) = nextId s).
  { unfold nextId. sproj. now rewrite Ej. }
  destruct W. constructor; sproj; rewrite ?Hn.
  - intros id1 id2 u H1 H2. apply In_remove in H1 as [H1 _], H2 as [H2 _].
    eauto.
  - intros i u1 u2 H1 H2. apply In_remove in H1 as [H1 _], H2 as [H2 _].
    eauto.
  - intros i u. rewrite value_remove.
    destruct (key_eqb id i) eqn:E; [discriminate|].
    apply key_eqb_neq in E. intros Hv.
    destruct (wf_type0 _ _ Hv) as [[u' Hu]|?]; auto.
    left. exists u'. apply In_remove. split; congruence.
  - assumption.
  - intros i. rewrite value_remove.
    destruct (key_eqb id i) eqn:E; [discriminate|].
    apply key_eqb_neq in E. intros Hv.
    destruct (wf_ptr0 _ Hv) as [u' Hu].
    exists u'. apply In_remove. split; congruence.
  - intros i u H. apply In_remove in H as [H _]. eauto.
  - intros u l Hv Hne.
    destruct (wf_scan0 _ _ Hv Hne) as [He|[i Hi]]; auto.
    destruct (Z.eq_dec i id) as [->|N].
    + left. right. eauto.
    + right. exists i. apply In_remove. auto.
  - intros i u H. apply In_remove in H as [H _]. eauto.
  - assumption.
Qed.

Lemma unbind_none s id type :
  WFx (fun _ => True) s -> In (id, type) (m_queryIdServiceMap s) ->
  forall i, ~ In (i, type) (QMap.remove (m_queryIdServiceMap s) id).
Proof.
  intros W Hin i H. apply In_remove in H as [H N].
  apply N. eapply wf_uniq; eauto.
Qed.

Lemma startQuery_WFx ex type s s' :
  WFx ex s -> QMap.contains (m_serviceItemsMap s) type = true ->
  startQuery type s = Done s' ->
  WFx (fun u => ex u /\ u <> type) s'.
Proof.
  unfold startQuery. intros W Hc H.
  destruct (findQuery type s) as [id|] eqn:Ef.
  - injection H as <-. apply findQuery_Some in Ef.
    destruct W. constructor; auto.
    intros u l Hv Hne. destruct (wf_scan0 _ _ Hv Hne) as [He|?]; auto.
    destruct (String.eqb_spec u type) as [->|Hu]; eauto.
  - apply bind_Done in H as [[queryId s1] [E H]]. injection H as <-.
    apply queryStart_Done in E as (j & Ej & -> & ->). sproj.
    pose proof (findQuery_None _ _ Ef) as Hno.
    exact (WFx_bind ex s j type _ _ W Ej Hc Hno).
Qed.

Lemma startQuery_frame type s s' :
  startQuery type s = Done s' ->
  sameShape s s'
  /\ m_serviceItemsMap s' = m_serviceItemsMap s
  /\ (exists id, In (id, type) (m_queryIdServiceMap s'))
  /\ (forall id u, In (id, u) (m_queryIdServiceMap s') ->
        u = type \/ In (id, u) (m_queryIdServiceMap s)).
Proof.
  unfold startQuery. intros H.
  destruct (findQuery type s) as [id|] eqn:Ef.
  - injection H as <-. apply findQuery_Some in Ef.
    split; [apply sameShape_refl|]. eauto.
  - apply bind_Done in H as [[queryId s1] [E H]]. injection H as <-.
    apply queryStart_Done in E as (j & Ej & -> & ->). sproj.
    split; [|split; [reflexivity|split]].
    + unfold sameShape. sproj. rewrite Ej. intuition discriminate.
    + exists (QJDns.next_id j). apply In_insert. auto.
    + intros id u Hin. apply In_insert in Hin as [[-> ->]|[N Hin]]; auto.
Qed.

Lemma startQuery_total type s :
  m_jdns s <> None -> exists s', startQuery type s = Done s'.
Proof.
  unfold startQuery, queryStart. intros Hj.
  destruct (findQuery type s); eauto.
  destruct (m_jdns s); [simpl; eauto|contradiction].
Qed.

Lemma stopQuery_WFx ex type s s' :
  WFx ex s -> stopQuery type s = Done s' -> WFx ex s'.
Proof.
  unfold stopQuery. intros W H.
  destruct (findQuery type s) as [id|] eqn:Ef.
  - apply findQuery_Some in Ef.
    apply bind_Done in H as [s1 [E H]].
    apply queryCancel_Done in E as (j & Ej & ->). sproj_in H.
    pose proof (WFx_unbind ex s j id type (QJDns.QueryCancel id) W Ej Ef) as W1.
    eapply clearItems_WFx in H; [|exact W1].
    eapply WFx_weaken; [|exact H]. simpl. intros u [[He|He] Hu]; tauto.
  - now injection H as <-.
Qed.

Lemma stopQuery_frame ex type s s' :
  WFx ex s -> stopQuery type s = Done s' ->
  sameShape s s'
  /\ (forall id, ~ In (id, type) (m_queryIdServiceMap s'))
  /\ (forall id u, In (id, u) (m_queryIdServiceMap s') ->
        In (id, u) (m_queryIdServiceMap s)).
Proof.
  unfold stopQuery. intros W H.
  destruct (findQuery type s) as [id|] eqn:Ef.
  - apply findQuery_Some in Ef.
    apply bind_Done in H as [s1 [E H]].
    apply queryCancel_Done in E as (j & Ej & ->). sproj_in H.
    pose proof (clearItems_sameShape _ _ _ H) as S1.
    apply clearItems_effect in H as (_ & _ & _ & H4 & _).
    sproj_in H4. rewrite H4.
    split; [|split].
    + eapply sameShape_trans; [|exact S1].
      unfold sameShape. sproj. rewrite Ej. intuition discriminate.
    + intros i Hi. apply In_remove in Hi as [Hi N].
      apply N. eapply wf_uniq; eauto.
    + intros i u Hi. now apply In_remove in Hi as [Hi _].
  - injection H as <-. pose proof (findQuery_None _ _ Ef) as Hno.
    split; [apply sameShape_refl|]. auto.
Qed.

Lemma stopQuery_total type s :
  m_jdns s <> None -> exists s', stopQuery type s = Done s'.
Proof.
  unfold stopQuery, queryCancel. intros Hj.
  destruct (findQuery type s); eauto.
  destruct (m_jdns s) as [j|]; [simpl|contradiction].
  apply clearItems_total. sproj. discriminate.
Qed.

Lemma refreshQuery_WFx ex type s s' :
  WFx ex s -> refreshQuery type s = Done s' -> WFx ex s'.
Proof.
  unfold refreshQuery. intros W H.
  destruct (findQuery type s) as [id|] eqn:Ef; [|now injection H as <-].
  apply findQuery_Some in Ef.
  apply bind_Done in H as [s1 [E H]].
  apply queryCancel_Done in E as (j & Ej & ->). sproj_in H.
  apply bind_Done in H as [s2 [E2 H]].
  apply bind_Done in H as [[newId s3] [E3 H]]. injection H as <-.
  pose proof (WFx_unbind ex s j id type (QJDns.QueryCancel id) W Ej Ef) as W1.
  pose proof (purgeItems_WFx _ _ _ _ W1 E2) as W2.
  apply purgeItems_frame in E2 as ((_ & _ & F3 & _) & F5 & _).
  sproj_in F5.
  apply queryStart_Done in E3 as (j2 & Ej2 & -> & ->). sproj.
  eapply WFx_weaken;
    [|apply (WFx_bind _ s2 j2 type (declaredType type s) _ W2 Ej2)].
  - simpl. intros u [[He|He] Hu]; tauto.
  - rewrite F3. sproj. eapply wf_key; eauto.
  - rewrite F5. apply unbind_none; auto.
    eapply WFx_weaken; [|exact W]. auto.
Qed.

Lemma refreshQuery_frame type s s' :
  refreshQuery type s = Done s' -> sameShape s s'.
Proof.
  unfold refreshQuery. intros H.
  destruct (findQuery type s) as [id|] eqn:Ef;
    [|injection H as <-; apply sameShape_refl].
  apply bind_Done in H as [s1 [E H]].
  apply queryCancel_Done in E as (j & Ej & ->). sproj_in H.
  apply bind_Done in H as [s2 [E2 H]].
  apply bind_Done in H as [[newId s3] [E3 H]]. injection H as <-.
  apply purgeItems_frame in E2 as (F & _).
  apply queryStart_Done in E3 as (j2 & Ej2 & -> & ->).
  eapply sameShape_trans; [|eapply sameShape_trans; [exact F|]].
  - unfold sameShape. sproj. rewrite Ej. intuition discriminate.
  - unfold sameShape. sproj. rewrite Ej2. intuition discriminate.
Qed.

Lemma refreshQuery_total type s :
  m_jdns s <> None -> exists s', refreshQuery type s = Done s'.
Proof.
  unfold refreshQuery, queryCancel. intros Hj.
  destruct (findQuery type s); eauto.
  destruct (m_jdns s) as [j|] eqn:Ej; [simpl|contradiction].
  match goal with
  | |- context [purgeItems type ?t] =>
      destruct (purgeItems_total type t) as [s2 E2]; [sproj; discriminate|];
      rewrite E2; simpl;
      apply purgeItems_frame in E2 as ((_ & _ & _ & F4) & _)
  end.
  sproj_in F4. unfold queryStart.
  destruct (m_jdns s2); [simpl; eauto|].
  exfalso. assert (Some (log_call (QJDns.QueryCancel z) j) = None) by tauto.
  discriminate.
Qed.

(** *** Service types *)

Lemma addServiceType_WFx ex type t s :
  WFx ex s -> WFx ex (addServiceType type t s).
Proof.
  unfold addServiceType. intros W.
  destruct (QMap.contains (m_serviceItemsMap s) type) eqn:Ec; [exact W|].
  apply contains_false in Ec.
  destruct W. constructor; sproj; auto.
  - intros q p Hin. destruct (wf_item0 _ _ Hin) as (u & l & Hv & Hp).
    exists u, l. split; [|exact Hp]. rewrite value_insert.
    destruct (key_eqb type u) eqn:E; [|exact Hv].
    apply key_eqb_eq in E as ->. congruence.
  - intros id u Hin. rewrite contains_insert, (wf_key0 _ _ Hin).
    apply orb_true_r.
  - intros u l. rewrite value_insert.
    destruct (key_eqb type u); [|apply wf_scan0].
    intros [= <-] Hne. congruence.
Qed.

Lemma addServiceType_frame type t s :
  let s' := addServiceType type t s in
  config s' = config s
  /\ m_queryIdServiceMap s' = m_queryIdServiceMap s
  /\ m_queryIdTypeMap s' = m_queryIdTypeMap s
  /\ m_queryIdItemMap s' = m_queryIdItemMap s
  /\ m_jdns s' = m_jdns s
  /\ m_serviceLists s' = m_serviceLists s
  /\ QMap.contains (m_serviceItemsMap s') type = true
  /\ (forall u, QMap.contains (m_serviceItemsMap s) u = true ->
                QMap.contains (m_serviceItemsMap s') u = true)
  /\ (forall u l, QMap.value (m_serviceItemsMap s') u = Some l ->
                  QMap.value (m_serviceItemsMap s) u = Some l \/ l = []).
Proof.
  unfold addServiceType.
  destruct (QMap.contains (m_serviceItemsMap s) type) eqn:Ec; sproj.
  - repeat split; auto.
  - repeat split; auto.
    + rewrite contains_insert, key_eqb_refl. reflexivity.
    + intros u Hu. rewrite contains_insert, Hu. apply orb_true_r.
    + intros u l. rewrite value_insert. destruct (key_eqb type u); auto.
      intros [= <-]. auto.
Qed.

Lemma removeServiceType_WFx ex type s s' :
  WFx ex s -> (forall id, ~ In (id, type) (m_queryIdServiceMap s)) ->
  removeServiceType type s = Done s' -> WFx ex s'.
Proof.
  unfold removeServiceType. intros W Hno H.
  destruct (QMap.contains (m_serviceItemsMap s) type) eqn:Ec; simpl in H;
    [|now injection H as <-].
  apply bind_Done in H as [s1 [E H]]. injection H as <-.
  pose proof (clearItems_WFx _ _ _ _ W E) as W1.
  apply clearItems_effect in E as (_ & _ & _ & F4 & _ & F6 & F7).
  destruct W1. constructor; sproj; auto.
  - intros q p Hin. destruct (wf_item0 _ _ Hin) as (u & l & Hv & Hp).
    exists u, l. split; [|exact Hp]. rewrite value_remove.
    destruct (key_eqb type u) eqn:Ek; [|exact Hv].
    apply key_eqb_eq in Ek as <-. rewrite F7, Ec in Hv.
    simpl in Hv. rewrite String.eqb_refl in Hv.
    injection Hv as <-. destruct Hp.
  - intros id u Hin. rewrite contains_remove, (wf_key0 _ _ Hin).
    destruct (key_eqb type u) eqn:Ek; [|reflexivity].
    apply key_eqb_eq in Ek as <-. rewrite F4 in Hin. now apply Hno in Hin.
  - intros u l. rewrite value_remove.
    destruct (key_eqb type u); [discriminate|].
    intros Hv Hne. destruct (wf_scan0 _ _ Hv Hne) as [[He _]|?]; auto.
Qed.

Lemma removeServiceType_frame type s s' :
  removeServiceType type s = Done s' ->
  config s' = config s
  /\ m_queryIdServiceMap s' = m_queryIdServiceMap s
  /\ nextId s' = nextId s
  /\ (forall u, QMap.value (m_serviceItemsMap s') u
                = if String.eqb type u then None
                  else QMap.value (m_serviceItemsMap s) u).
Proof.
  unfold removeServiceType. intros H.
  destruct (QMap.contains (m_serviceItemsMap s) type) eqn:Ec; simpl in H.
  - apply bind_Done in H as [s1 [E H]]. injection H as <-.
    apply clearItems_effect in E as (F1 & _ & _ & F4 & F5 & F6 & F7).
    sproj. repeat split; auto.
    intros u. rewrite value_remove, F7, Ec. simpl.
    change (key_eqb type u) with (String.eqb type u).
    now destruct (String.eqb type u).
  - injection H as <-. repeat split; auto.
    intros u. destruct (String.eqb_spec type u) as [<-|]; auto.
    now apply contains_false.
Qed.

Lemma removeServiceType_total type s :
  m_jdns s <> None -> exists s', removeServiceType type s = Done s'.
Proof.
  unfold removeServiceType. intros Hj.
  destruct (negb (QMap.contains (m_serviceItemsMap s) type)); eauto.
  destruct (clearItems_total type s Hj) as [s1 E]. rewrite E. simpl. eauto.
Qed.

(** *** Ingestion *)

Lemma queryStart_WFx ex name t s id s' :
  WFx ex s -> queryStart name t s = Done (id, s') ->
  WFx ex s' /\ nextId s = Some id /\ nextId s' = Some (id + 1)%Z
  /\ sameShape s s'
  /\ m_queryIdServiceMap s' = m_queryIdServiceMap s
  /\ m_queryIdItemMap s' = m_queryIdItemMap s
  /\ m_queryIdTypeMap s' = m_queryIdTypeMap s
  /\ m_serviceItemsMap s' = m_serviceItemsMap s
  /\ m_serviceLists s' = m_serviceLists s
  /\ heap s' = heap s.
Proof.
  intros W H. apply queryStart_Done in H as (j & Ej & -> & ->).
  assert (Hn : nextId s = Some (QJDns.next_id j)) by (apply nextId_Some; eauto).
  split; [|split; [exact Hn|split; [reflexivity|split]]].
  - destruct W. constructor; sproj; auto.
    + intros id u Hin. apply wf_fresh0 in Hin as [n [E1 E2]].
      rewrite Hn in E1. injection E1 as <-.
      exists (QJDns.next_id j + 1)%Z. split; [reflexivity|lia].
    + intros q p Hin. discriminate.
  - unfold sameShape. sproj. rewrite Ej. intuition discriminate.
  - sproj. auto 10.
Qed.

Lemma registerSubQuery_WFx ex newId t p s :
  WFx ex s -> t <> QJDns.Ptr -> nextId s <> None ->
  (exists type l, QMap.value (m_serviceItemsMap s) type = Some l /\ In p l) ->
  WFx ex (registerSubQuery newId t p s).
Proof.
  intros W Ht Hn Hp. unfold registerSubQuery.
  destruct W. constructor; sproj; auto.
  - intros id u. rewrite value_insert.
    destruct (key_eqb newId id) eqn:E.
    + apply key_eqb_eq in E as <-. intros _. right. exists p.
      apply In_insert. auto.
    + apply key_eqb_neq in E. intros Hv.
      destruct (wf_type0 _ _ Hv) as [?|[p' Hp']]; auto.
      right. exists p'. apply In_insert. right. split; congruence.
  - intros q p' Hin. apply In_insert in Hin as [[-> ->]|[N Hin]]; eauto.
  - intros id. rewrite value_insert.
    destruct (key_eqb newId id); [congruence|apply wf_ptr0].
Qed.

Lemma registerSubQuery_frame newId t p s :
  let s' := registerSubQuery newId t p s in
  sameShape s s'
  /\ nextId s' = nextId s
  /\ m_queryIdServiceMap s' = m_queryIdServiceMap s
  /\ m_serviceItemsMap s' = m_serviceItemsMap s
  /\ m_serviceLists s' = m_serviceLists s.
Proof.
  unfold registerSubQuery, sameShape. sproj. intuition.
Qed.

Lemma finishSubQuery_effect ex id s p s' :
  WFx ex s -> finishSubQuery id s = Done (p, s') ->
  WFx ex s' /\ sameShape s s' /\ nextId s' = nextId s /\ nextId s <> None
  /\ m_queryIdServiceMap s' = m_queryIdServiceMap s
  /\ m_serviceItemsMap s' = m_serviceItemsMap s
  /\ m_serviceLists s' = m_serviceLists s
  /\ In (id, p) (m_queryIdItemMap s).
Proof.
  unfold finishSubQuery. intros W H.
  apply bind_Done in H as [s1 [E H]].
  apply queryCancel_Done in E as (j & Ej & ->).
  apply bind_Done in H as [p' [Ep H]]. injection H as <- <-.
  unfold deref in Ep. sproj_in Ep.
  destruct (QMap.value (m_queryIdItemMap s) id) as [p0|] eqn:Ev;
    [|discriminate].
  injection Ep as <-. apply value_In in Ev.
  assert (Hn : nextId (set_jdns (Some (log_call (QJDns.QueryCancel id) j)) s)
               = nextId s).
  { unfold nextId. sproj. now rewrite Ej. }
  split; [|split; [|split; [|split; [|split; [|split; [|split]]]]]]; sproj;
    auto.
  - eapply WFx_shrinks; [exact W|]. unfold shrinks. sproj. rewrite Hn.
    split; [reflexivity|]. split; [reflexivity|]. split; [reflexivity|].
    split; [|split].
    + intros q p Hin. now apply In_remove in Hin.
    + intros i t. rewrite value_remove. destruct (key_eqb id i); congruence.
    + intros q p Hin. destruct (Z.eq_dec q id) as [->|N].
      * right. now rewrite value_remove, key_eqb_refl.
      * left. apply In_remove. auto.
  - unfold sameShape. sproj. rewrite Ej. intuition discriminate.
  - intros Hnone. apply nextId_None in Hnone. congruence.
Qed.

Lemma addItem_effect ex name type s item s1 :
  WFx ex s -> (exists id, In (id, type) (m_queryIdServiceMap s)) ->
  addItem name type s = (item, s1) ->
  WFx ex s1 /\ sameShape s s1 /\ nextId s1 = nextId s
  /\ m_queryIdServiceMap s1 = m_queryIdServiceMap s
  /\ m_serviceLists s1 = m_serviceLists s
  /\ exists p l, item = Some p
       /\ QMap.value (m_serviceItemsMap s1) type = Some l /\ In p l.
Proof.
  unfold addItem. intros W [id Hid] H.
  assert (Hc : QMap.contains (m_serviceItemsMap s) type = true)
    by (eapply wf_key; eauto).
  apply contains_true in Hc as [l Hl]. rewrite Hl in H.
  destruct (find (hasName s name) l) as [p|] eqn:Ef.
  - injection H as <- <-. apply find_some in Ef as [Ef _].
    split; [exact W|]. split; [apply sameShape_refl|]. eauto 10.
  - unfold new_item in H. injection H as <- <-. sproj.
    split; [|split; [|split; [|split; [|split]]]]; auto.
    + destruct W. constructor; sproj; auto.
      * intros q p Hin. destruct (wf_item0 _ _ Hin) as (u & l0 & Hv & Hp).
        destruct (String.eqb_spec type u) as [<-|N].
        -- exists type, (l ++ [List.length (heap s)]).
           rewrite value_insert, key_eqb_refl. split; [reflexivity|].
           apply in_or_app. left. congruence.
        -- exists u, l0. rewrite value_insert.
           apply (proj2 (key_eqb_neq type u)) in N. now rewrite N.
      * intros i u Hin. rewrite contains_insert, (wf_key0 _ _ Hin).
        apply orb_true_r.
      * intros u l0. rewrite value_insert.
        destruct (key_eqb type u) eqn:E; [|apply wf_scan0].
        apply key_eqb_eq in E as <-. eauto.
    + unfold sameShape. sproj. repeat split; auto.
      intros t. eapply insert_same_contains; eauto.
    + exists (List.length (heap s)), (l ++ [List.length (heap s)]).
      rewrite value_insert, key_eqb_refl. repeat split.
      apply in_or_app. right. now left.
Qed.

Lemma resolveItem_frame item s :
  let s' := resolveItem item s in
  sameShape s s'
  /\ nextId s' = nextId s
  /\ m_queryIdServiceMap s' = m_queryIdServiceMap s
  /\ m_queryIdTypeMap s' = m_queryIdTypeMap s
  /\ m_queryIdItemMap s' = m_queryIdItemMap s
  /\ m_serviceItemsMap s' = m_serviceItemsMap s.
Proof.
  unfold resolveItem. destruct item as [p|]; simpl.
  - destruct (negb (Item.hasOutstandingRequests (item_at s p))).
    + unfold updateItem.
      pose proof (updateServiceType_frame (Item.type (item_at s p)) s) as F.
      simpl in F. destruct F as (F1 & F2 & F3 & F4 & F5 & F6 & F7 & F8).
      unfold sameShape. sproj. rewrite F1, F2, F3, F4, F5, F6, F7.
      unfold nextId at 1. rewrite F7. intuition.
    + split; [apply sameShape_refl|auto].
  - split; [apply sameShape_refl|auto].
Qed.

Lemma resolveItem_WFx ex item s : WFx ex s -> WFx ex (resolveItem item s).
Proof.
  intros W. pose proof (resolveItem_frame item s) as F. simpl in F.
  destruct F as (_ & F2 & F3 & F4 & F5 & F6).
  eapply WFx_ext; eauto.
Qed.

Lemma ptrBranch_effect ex id r s item s' :
  WFx ex s -> (exists type, In (id, type) (m_queryIdServiceMap s)) ->
  ptrBranch id r s = Done (item, s') ->
  WFx ex s' /\ sameShape s s'
  /\ m_queryIdServiceMap s' = m_queryIdServiceMap s.
Proof.
  unfold ptrBranch. intros W [u Hu] H.
  assert (Hb : exists i, In (i, boundServiceType id s) (m_queryIdServiceMap s)).
  { unfold boundServiceType. destruct (In_value _ _ _ Hu) as [u' Ev].
    rewrite Ev. exists id. now apply value_In. }
  destruct (QJDns.ttl r >? 0)%Z.
  - destruct (addItem (instanceName r) (boundServiceType id s) s)
      as [it s1] eqn:Ea.
    apply (addItem_effect ex) in Ea
      as (W1 & S1 & N1 & M1 & L1 & p & l & -> & Hv & Hp); auto.
    apply bind_Done in H as [[newId s2] [E2 H]].
    apply (queryStart_WFx ex) in E2
      as (W2 & N2 & N2' & S2 & M2 & I2 & T2 & Tab2 & L2 & _); auto.
    simpl in H. apply bind_Done in H as [[newId' s4] [E4 H]].
    injection H as <- <-.
    assert (W3 : WFx ex (registerSubQuery newId QJDns.Txt p s2)).
    { apply registerSubQuery_WFx; auto; try discriminate.
      - congruence.
      - rewrite Tab2. eauto. }
    pose proof (registerSubQuery_frame newId QJDns.Txt p s2) as F3.
    cbv zeta in F3. destruct F3 as (S3 & N3 & M3 & Tab3 & L3).
    apply (queryStart_WFx ex) in E4
      as (W4 & N4 & N4' & S4 & M4 & I4 & T4 & Tab4 & L4 & _); auto.
    pose proof (registerSubQuery_frame newId' QJDns.Srv p s4) as F5.
    cbv zeta in F5. destruct F5 as (S5 & N5 & M5 & Tab5 & L5).
    split; [|split].
    + apply registerSubQuery_WFx; auto; try discriminate.
      * congruence.
      * rewrite Tab4, Tab3, Tab2. eauto.
    + eapply sameShape_trans; [exact S1|].
      eapply sameShape_trans; [exact S2|].
      eapply sameShape_trans; [exact S3|].
      eapply sameShape_trans; [exact S4|exact S5].
    + congruence.
  - apply bind_Done in H as [s1 [E H]]. injection H as <- <-.
    pose proof (removeItem_WFx _ _ _ _ _ W E) as W1.
    apply removeItem_frame in E as (S1 & M1 & _). auto.
Qed.

Lemma txtBranch_effect ex id r s item s' :
  WFx ex s -> txtBranch id r s = Done (item, s') ->
  WFx ex s' /\ sameShape s s'
  /\ m_queryIdServiceMap s' = m_queryIdServiceMap s.
Proof.
  unfold txtBranch. intros W H.
  apply bind_Done in H as [[p s1] [E H]]. injection H as <- <-.
  apply (finishSubQuery_effect ex) in E
    as (W1 & S1 & N1 & _ & M1 & Tab1 & _); auto.
  split; [|split].
  - eapply WFx_ext; [| | | | |exact W1]; reflexivity.
  - eapply sameShape_trans; [exact S1|apply update_item_sameShape].
  - exact M1.
Qed.

Lemma addressBranch_effect ex id r s item s' :
  WFx ex s -> addressBranch id r s = Done (item, s') ->
  WFx ex s' /\ sameShape s s'
  /\ m_queryIdServiceMap s' = m_queryIdServiceMap s.
Proof.
  unfold addressBranch. intros W H.
  apply bind_Done in H as [[p s1] [E H]]. injection H as <- <-.
  apply (finishSubQuery_effect ex) in E
    as (W1 & S1 & N1 & _ & M1 & Tab1 & _); auto.
  split; [|split].
  - eapply WFx_ext; [| | | | |exact W1]; reflexivity.
  - eapply sameShape_trans; [exact S1|apply update_item_sameShape].
  - exact M1.
Qed.

Lemma srvBranch_effect ex id r s item s' :
  WFx ex s -> srvBranch id r s = Done (item, s') ->
  WFx ex s' /\ sameShape s s'
  /\ m_queryIdServiceMap s' = m_queryIdServiceMap s.
Proof.
  unfold srvBranch. intros W H.
  apply bind_Done in H as [[p s1] [E H]].
  apply bind_Done in H as [[newId s2] [E2 H]]. injection H as <- <-.
  pose proof W as W0.
  apply (finishSubQuery_effect ex) in E
    as (W1 & S1 & N1 & _ & M1 & Tab1 & _ & Hin); auto.
  apply (queryStart_WFx ex) in E2
    as (W2 & N2 & N2' & S2 & M2 & I2 & T2 & Tab2 & L2 & _); auto.
  pose proof (registerSubQuery_frame newId QJDns.A p s2) as F3.
  cbv zeta in F3. destruct F3 as (S3 & N3 & M3 & Tab3 & L3).
  split; [|split].
  - eapply WFx_ext;
      [| | | | |apply (registerSubQuery_WFx ex newId QJDns.A p s2)];
      try reflexivity; auto; try discriminate.
    + congruence.
    + rewrite Tab2, Tab1. eapply wf_item; eauto.
  - eapply sameShape_trans; [exact S1|].
    eapply sameShape_trans; [exact S2|].
    eapply sameShape_trans; [exact S3|].
    eapply sameShape_trans; apply update_item_sameShape.
  - sproj. congruence.
Qed.

Lemma handleRecord_effect ex id type r s s' :
  WFx ex s ->
  (type = QJDns.Ptr -> exists u, In (id, u) (m_queryIdServiceMap s)) ->
  handleRecord id type r s = Done s' ->
  WFx ex s' /\ sameShape s s'
  /\ m_queryIdServiceMap s' = m_queryIdServiceMap s.
Proof.
  unfold handleRecord. intros W Hp H.
  apply bind_Done in H as [[item s1] [E H]]. injection H as <-.
  assert (G : WFx ex s1 /\ sameShape s s1
              /\ m_queryIdServiceMap s1 = m_queryIdServiceMap s).
  { destruct (Z.eqb_spec type QJDns.Ptr) as [->|].
    { eapply ptrBranch_effect; eauto. }
    destruct (type =? QJDns.Txt)%Z.
    { eapply txtBranch_effect; eauto. }
    destruct (type =? QJDns.Srv)%Z.
    { eapply srvBranch_effect; eauto. }
    destruct ((type =? QJDns.A)%Z || (type =? QJDns.Aaaa)%Z).
    { eapply addressBranch_effect; eauto. }
    injection E as <- <-. split; [exact W|]. split; [apply sameShape_refl|auto]. }
  destruct G as (W1 & S1 & M1).
  pose proof (resolveItem_frame item s1) as F. simpl in F.
  destruct F as (F1 & F2 & F3 & _).
  split; [now apply resolveItem_WFx|]. split.
  - eapply sameShape_trans; eauto.
  - congruence.
Qed.

Lemma resultsReady_effect ex id results s s' :
  WFx ex s -> resultsReady id results s = Done s' ->
  WFx ex s' /\ sameShape s s'
  /\ m_queryIdServiceMap s' = m_queryIdServiceMap s.
Proof.
  unfold resultsReady. intros W H.
  assert (Hp : recordedType id s = QJDns.Ptr ->
               exists u, In (id, u) (m_queryIdServiceMap s)).
  { unfold recordedType. intros E.
    destruct (QMap.value (m_queryIdTypeMap s) id) as [t|] eqn:Ev;
      [|discriminate]. subst t. eapply wf_ptr; eauto. }
  revert H.
  apply (forEach_preserves
           (fun t => WFx ex t /\ sameShape s t
                     /\ m_queryIdServiceMap t = m_queryIdServiceMap s)).
  - intros r t t' _ (W1 & S1 & M1) H.
    apply (handleRecord_effect ex) in H as (W2 & S2 & M2); auto.
    + split; [exact W2|]. split; [eapply sameShape_trans; eauto|congruence].
    + rewrite M1. exact Hp.
  - split; [exact W|]. split; [apply sameShape_refl|reflexivity].
Qed.

(** ** The loops over the service types *)

Lemma WF_of_empty ex s : registryEmpty s -> tablesEmpty s -> WFx ex s.
Proof.
  intros (E1 & E2 & E3) Ht. constructor; rewrite ?E1, ?E2, ?E3;
    try (intros; simpl in *; tauto).
  - intros id t. discriminate.
  - intros id. discriminate.
  - intros type l Hv Hne. apply Ht in Hv. contradiction.
Qed.

Lemma list_nil_of_no_member {A B : Type} (l : list (A * B)) :
  (forall a b, ~ In (a, b) l) -> l = [].
Proof.
  destruct l as [|[a b] l]; [reflexivity|].
  intros H. exfalso. apply (H a b). now left.
Qed.

(** Without a scan the registry and the tables are empty. *)
Lemma WF_no_scan s :
  WF s -> m_queryIdServiceMap s = [] -> registryEmpty s /\ tablesEmpty s.
Proof.
  intros W E.
  assert (Ht : tablesEmpty s).
  { intros type l Hv. destruct l as [|p l]; [reflexivity|].
    destruct (@wf_scan _ _ W type (p :: l) Hv) as [[]|[id Hid]]; [discriminate|].
    rewrite E in Hid. destruct Hid. }
  assert (Ei : m_queryIdItemMap s = []).
  { apply list_nil_of_no_member. intros q p Hin.
    destruct (@wf_item _ _ W _ _ Hin) as (u & l & Hv & Hp).
    apply Ht in Hv. subst l. destruct Hp. }
  split; [|exact Ht]. split; [|split]; auto.
  apply all_None_nil. intros id.
  destruct (QMap.value (m_queryIdTypeMap s) id) as [t|] eqn:Ev; [|reflexivity].
  destruct (@wf_type _ _ W _ _ Ev) as [[u Hu]|[p Hp]].
  - rewrite E in Hu. destruct Hu.
  - rewrite Ei in Hp. destruct Hp.
Qed.

Lemma WF_no_backend s :
  WF s -> m_jdns s = None -> registryEmpty s /\ tablesEmpty s.
Proof.
  intros W E. apply WF_no_scan; [exact W|].
  apply list_nil_of_no_member. intros id u Hin.
  destruct (@wf_fresh _ _ W _ _ Hin) as [n [En _]].
  apply nextId_None in E. congruence.
Qed.

Lemma key_contains (m : QMap.t string (list ptr)) x :
  In x (QMap.keys m) -> QMap.contains m x = true.
Proof. intros H. apply contains_true. now apply In_keys. Qed.

Lemma startQueries_effect s s' :
  WF s -> startQueries s = Done s' -> WF s' /\ sameShape s s'.
Proof.
  unfold startQueries. intros W.
  apply (forEach_preserves (fun t => WF t /\ sameShape s t)).
  - intros x t t' Hx [W1 S1] H.
    pose proof (startQuery_frame _ _ _ H) as (S2 & _).
    split; [|eapply sameShape_trans; eauto].
    eapply WFx_weaken; [|eapply startQuery_WFx; eauto].
    + simpl. tauto.
    + destruct S1 as (_ & _ & S1 & _). rewrite S1. now apply key_contains.
  - split; [exact W|apply sameShape_refl].
Qed.

Lemma startQueries_total s :
  m_jdns s <> None -> exists s', startQueries s = Done s'.
Proof.
  unfold startQueries. intros Hj.
  destruct (forEach_total (fun t => m_jdns t <> None) startQuery
              (QMap.keys (m_serviceItemsMap s))) with (s := s)
    as [s' [E _]]; eauto.
  intros x t _ Ht. destruct (startQuery_total x t Ht) as [t' E].
  exists t'. split; [exact E|].
  apply startQuery_frame in E as ((_ & _ & _ & E) & _). tauto.
Qed.

Lemma stopQueries_loop l : forall s s',
  WF s -> forEach stopQuery l s = Done s' ->
  WF s' /\ sameShape s s'
  /\ (forall id u, In (id, u) (m_queryIdServiceMap s') ->
        In (id, u) (m_queryIdServiceMap s) /\ ~ In u l).
Proof.
  induction l as [|x l IH]; simpl; intros s s' W H.
  - injection H as <-. split; [exact W|]. split; [apply sameShape_refl|].
    tauto.
  - apply bind_Done in H as [s1 [E H]].
    pose proof (stopQuery_WFx _ _ _ _ W E) as W1.
    pose proof (stopQuery_frame _ _ _ _ W E) as (S1 & N1 & Sub1).
    destruct (IH _ _ W1 H) as (W2 & S2 & Sub2).
    split; [exact W2|]. split; [eapply sameShape_trans; eauto|].
    intros id u Hin. apply Sub2 in Hin as [Hin Hl].
    split; [auto|]. intros [->|Hu]; [|contradiction].
    now apply N1 in Hin.
Qed.

(** [stopQueries] leaves no scan, no sub-query and no instance. *)
Lemma stopQueries_effect s s' :
  WF s -> stopQueries s = Done s' ->
  WF s' /\ sameShape s s' /\ registryEmpty s' /\ tablesEmpty s'.
Proof.
  unfold stopQueries. intros W H.
  destruct (stopQueries_loop _ _ _ W H) as (W1 & S1 & Sub).
  split; [exact W1|]. split; [exact S1|].
  apply WF_no_scan; [exact W1|].
  apply list_nil_of_no_member. intros id u Hin.
  pose proof (@wf_key _ _ W1 _ _ Hin) as Hc.
  destruct S1 as (_ & _ & S1 & _). rewrite S1 in Hc.
  apply Sub in Hin as [_ Hn]. apply Hn.
  apply In_keys. now apply contains_true.
Qed.

Lemma stopQueries_total s :
  m_jdns s <> None -> exists s', stopQueries s = Done s'.
Proof.
  unfold stopQueries. intros Hj.
  destruct (forEach_total (fun t => m_jdns t <> None) stopQuery
              (QMap.keys (m_serviceItemsMap s))) with (s := s)
    as [s' [E _]]; eauto.
  intros x t _ Ht. destruct (stopQuery_total x t Ht) as [t' E].
  exists t'. split; [exact E|].
  assert (S : sameShape t t').
  { unfold stopQuery in E. destruct (findQuery x t).
    - apply bind_Done in E as [t1 [E1 E]].
      apply queryCancel_Done in E1 as (j & Ej & ->).
      apply clearItems_sameShape in E.
      eapply sameShape_trans; [|exact E].
      unfold sameShape. sproj. rewrite Ej. intuition discriminate.
    - injection E as <-. apply sameShape_refl. }
  destruct S as (_ & _ & _ & S). tauto.
Qed.

Lemma unicastLookup_effect s s' :
  WF s -> unicastLookup s = Done s' -> WF s' /\ sameShape s s'.
Proof.
  unfold unicastLookup. intros W.
  apply (forEach_preserves (fun t => WF t /\ sameShape s t)).
  - intros x t t' Hx [W1 S1] H.
    split; [eapply refreshQuery_WFx; eauto|].
    eapply sameShape_trans; [exact S1|]. eapply refreshQuery_frame; eauto.
  - split; [exact W|apply sameShape_refl].
Qed.

Lemma refreshQuery_no_scan type s :
  m_queryIdServiceMap s = [] -> refreshQuery type s = Done s.
Proof.
  unfold refreshQuery, findQuery. intros ->. reflexivity.
Qed.

Lemma unicastLookup_no_scan s :
  m_queryIdServiceMap s = [] -> unicastLookup s = Done s.
Proof.
  unfold unicastLookup. intros E.
  induction (QMap.keys (m_serviceItemsMap s)) as [|x l IH]; simpl; auto.
  rewrite refreshQuery_no_scan by exact E. simpl. exact IH.
Qed.

Lemma removeServiceType_loop l : forall s s',
  forEach removeServiceType l s = Done s' ->
  config s' = config s /\ nextId s' = nextId s
  /\ (forall u, In u l -> QMap.value (m_serviceItemsMap s') u = None)
  /\ (forall u, QMap.value (m_serviceItemsMap s) u = None ->
                QMap.value (m_serviceItemsMap s') u = None).
Proof.
  induction l as [|x l IH]; simpl; intros s s' H.
  - injection H as <-. intuition.
  - apply bind_Done in H as [s1 [E H]].
    apply removeServiceType_frame in E as (F1 & _ & F3 & F4).
    apply IH in H as (I1 & I2 & I3 & I4).
    split; [congruence|]. split; [congruence|]. split.
    + intros u [->|Hu]; auto. apply I4. rewrite F4.
      now rewrite String.eqb_refl.
    + intros u Hu. apply I4. rewrite F4, Hu.
      now destruct (String.eqb x u).
Qed.

Lemma removeAllServiceTypes_effect s s' :
  removeAllServiceTypes s = Done s' ->
  config s' = config s /\ nextId s' = nextId s
  /\ (forall u, QMap.value (m_serviceItemsMap s') u = None).
Proof.
  unfold removeAllServiceTypes. intros H.
  apply removeServiceType_loop in H as (I1 & I2 & I3 & I4).
  split; [exact I1|]. split; [exact I2|].
  intros u. destruct (QMap.value (m_serviceItemsMap s) u) eqn:Ev; auto.
  apply I3. apply In_keys. eauto.
Qed.

Lemma removeAllServiceTypes_total s :
  m_jdns s <> None -> exists s', removeAllServiceTypes s = Done s'.
Proof.
  unfold removeAllServiceTypes. intros Hj.
  destruct (forEach_total (fun t => m_jdns t <> None) removeServiceType
              (QMap.keys (m_serviceItemsMap s))) with (s := s)
    as [s' [E _]]; eauto.
  intros x t _ Ht. destruct (removeServiceType_total x t Ht) as [t' E].
  exists t'. split; [exact E|].
  apply removeServiceType_frame in E as (_ & _ & E & _).
  eapply nextId_same_jdns; eauto.
Qed.

(** *** Projection of every type *)

Lemma updateAllServiceTypes_frame s :
  let s' := updateAllServiceTypes s in
  config s' = config s
  /\ m_serviceTypeMap s' = m_serviceTypeMap s
  /\ m_serviceItemsMap s' = m_serviceItemsMap s
  /\ m_queryIdTypeMap s' = m_queryIdTypeMap s
  /\ m_queryIdServiceMap s' = m_queryIdServiceMap s
  /\ m_queryIdItemMap s' = m_queryIdItemMap s
  /\ m_jdns s' = m_jdns s
  /\ heap s' = heap s.
Proof.
  unfold updateAllServiceTypes.
  generalize (QMap.keys (m_serviceItemsMap s)) as l.
  intros l. revert s. induction l as [|x l IH]; simpl; intros s.
  - auto 10.
  - specialize (IH (updateServiceType x s)). simpl in IH.
    pose proof (updateServiceType_frame x s) as F. simpl in F.
    destruct IH as (I1 & I2 & I3 & I4 & I5 & I6 & I7 & I8).
    destruct F as (F1 & F2 & F3 & F4 & F5 & F6 & F7 & F8).
    repeat split; congruence.
Qed.

Lemma updateAllServiceTypes_WF s : WF s -> WF (updateAllServiceTypes s).
Proof.
  intros W. pose proof (updateAllServiceTypes_frame s) as F. simpl in F.
  destruct F as (_ & _ & F3 & F4 & F5 & F6 & F7 & _).
  eapply WFx_ext; eauto. unfold nextId. now rewrite F7.
Qed.

Lemma updateAllServiceTypes_sameShape s :
  sameShape s (updateAllServiceTypes s).
Proof.
  pose proof (updateAllServiceTypes_frame s) as F. simpl in F.
  destruct F as (F1 & F2 & F3 & _ & _ & _ & F7 & _).
  unfold sameShape. rewrite F1, F2, F3, F7. intuition.
Qed.

(** ** Reconciliation, name servers and the lifecycle *)

Lemma config_fields s s' :
  config s' = config s ->
  m_running s' = m_running s /\ m_networkReady s' = m_networkReady s
  /\ m_lookupReady s' = m_lookupReady s /\ m_lookupMode s' = m_lookupMode s
  /\ m_unicastErrorThreshold s' = m_unicastErrorThreshold s
  /\ m_unicastLookupTimer s' = m_unicastLookupTimer s.
Proof. unfold config. intros [=]. auto 10. Qed.

Lemma config_live s s' : config s' = config s -> live s' = live s.
Proof.
  intros H. apply config_fields in H as (H1 & H2 & _).
  unfold live. now rewrite H1, H2.
Qed.

Lemma sameShape_steady s s' : sameShape s s' -> steady s s'.
Proof. intros (H1 & _ & _ & H4). split; auto. Qed.

Lemma steady_refl s : steady s s.
Proof. split; tauto. Qed.

Lemma steady_trans s1 s2 s3 : steady s1 s2 -> steady s2 s3 -> steady s1 s3.
Proof. intros [A1 A2] [B1 B2]. split; [congruence|tauto]. Qed.

Lemma addServiceType_steady type t s : steady s (addServiceType type t s).
Proof.
  pose proof (addServiceType_frame type t s) as F. cbv zeta in F.
  destruct F as (F1 & _ & _ & _ & F5 & _). split; [exact F1|].
  rewrite F5. tauto.
Qed.

Lemma updateServicesLoop_effect queries : forall old s old' s',
  WF s -> quiet s ->
  updateServicesLoop queries old s = Done (old', s') ->
  WF s' /\ steady s s' /\ quiet s'.
Proof.
  induction queries as [|query rest IH]; simpl; intros old s old' s' W Q H.
  - injection H as <- <-. split; [exact W|]. split; [apply steady_refl|exact Q].
  - destruct (negb (Query.serviceType query =? "")%string); [|eauto].
    apply bind_Done in H as [s2 [E H]].
    set (s1 := addServiceType (Query.serviceType query)
                              (Query.queryType query) s) in *.
    pose proof (addServiceType_frame (Query.serviceType query)
                  (Query.queryType query) s) as F. cbv zeta in F.
    fold s1 in F. destruct F as (F1 & F2 & _ & _ & F5 & _ & F7 & _).
    assert (W1 : WF s1) by (apply addServiceType_WFx; exact W).
    assert (G : WF s2 /\ steady s s2 /\ quiet s2).
    { destruct (live s1) eqn:El.
      - pose proof (startQuery_frame _ _ _ E) as (S2 & _).
        split; [|split].
        + eapply WFx_weaken; [|eapply startQuery_WFx; eauto]. simpl. tauto.
        + apply (steady_trans s s1 s2); [apply addServiceType_steady|].
          now apply sameShape_steady.
        + intros L. destruct S2 as (S2 & _).
          rewrite (config_live _ _ S2) in L. congruence.
      - injection E as <-. split; [exact W1|].
        split; [apply addServiceType_steady|].
        intros _. rewrite F2. apply Q. now rewrite <- (config_live _ _ F1). }
    destruct G as (W2 & S2 & Q2).
    destruct (IH _ _ _ _ W2 Q2 H) as (W3 & S3 & Q3).
    split; [exact W3|]. split; [eapply steady_trans; eauto|exact Q3].
Qed.

Lemma removeLeftover_effect type s s' :
  WF s -> quiet s -> removeLeftover type s = Done s' ->
  WF s' /\ steady s s' /\ quiet s'.
Proof.
  unfold removeLeftover. intros W Q H.
  apply bind_Done in H as [s1 [E H]].
  assert (G : WF s1 /\ steady s s1 /\ quiet s1
              /\ forall id, ~ In (id, type) (m_queryIdServiceMap s1)).
  { destruct (live s) eqn:El.
    - pose proof (stopQuery_frame _ _ _ _ W E) as (S1 & N1 & _).
      split; [eapply stopQuery_WFx; eauto|].
      split; [now apply sameShape_steady|]. split; [|exact N1].
      intros L. destruct S1 as (S1 & _).
      rewrite (config_live _ _ S1) in L. congruence.
    - injection E as <-. split; [exact W|]. split; [apply steady_refl|].
      split; [exact Q|]. intros id. rewrite (Q El). tauto. }
  destruct G as (W1 & S1 & Q1 & N1).
  pose proof (removeServiceType_WFx _ _ _ _ W1 N1 H) as W2.
  apply removeServiceType_frame in H as (F1 & F2 & F3 & _).
  split; [exact W2|]. split.
  - eapply steady_trans; [exact S1|]. split; [exact F1|].
    now apply nextId_eq_jdns.
  - intros L. rewrite F2. apply Q1. now rewrite <- (config_live _ _ F1).
Qed.

Lemma updateServices_effect s s' :
  WF s -> quiet s -> updateServices s = Done s' ->
  WF s' /\ steady s s' /\ quiet s'.
Proof.
  unfold updateServices. intros W Q H.
  apply bind_Done in H as [[old s1] [E H]].
  apply bind_Done in H as [s2 [E2 H]]. injection H as <-.
  apply updateServicesLoop_effect in E as (W1 & S1 & Q1); auto.
  assert (G : WF s2 /\ steady s1 s2 /\ quiet s2).
  { revert E2.
    apply (forEach_preserves (fun t => WF t /\ steady s1 t /\ quiet t)).
    - intros x t t' _ (Wt & St & Qt) Ht.
      apply removeLeftover_effect in Ht as (Wt' & St' & Qt'); auto.
      split; [exact Wt'|]. split; [eapply steady_trans; eauto|exact Qt'].
    - split; [exact W1|]. split; [apply steady_refl|exact Q1]. }
  destruct G as (W2 & S2 & Q2).
  pose proof (updateAllServiceTypes_frame s2) as F. cbv zeta in F.
  destruct F as (F1 & _ & _ & _ & F5 & _ & F7 & _).
  split; [now apply updateAllServiceTypes_WF|]. split.
  - eapply steady_trans; [exact S1|]. eapply steady_trans; [exact S2|].
    split; [exact F1|]. rewrite F7. tauto.
  - intros L. rewrite F5. apply Q2. now rewrite <- (config_live _ _ F1).
Qed.

Lemma log_call_WF c j s :
  m_jdns s = Some j -> WF s -> WF (set_jdns (Some (log_call c j)) s).
Proof.
  intros Ej W. eapply WFx_ext; [| | | | |exact W]; try reflexivity.
  unfold nextId. sproj. now rewrite Ej.
Qed.

Lemma updateNameServers_effect s s' :
  WF s -> updateNameServers s = Done s' ->
  WF s' /\ steady s s'
  /\ (m_queryIdServiceMap s = [] -> m_queryIdServiceMap s' = []).
Proof.
  unfold updateNameServers. intros W H.
  destruct (m_jdns s) as [j|] eqn:Ej.
  2:{ injection H as <-. split; [exact W|]. split; [apply steady_refl|auto]. }
  destruct (negb (isUnicast s)).
  { injection H as <-. split; [exact W|]. split; [apply steady_refl|auto]. }
  match type of H with
  | context [set_jdns (Some (log_call ?c j)) s] =>
      set (s1 := set_jdns (Some (log_call c j)) s) in *;
      assert (W1 : WF s1) by (now apply log_call_WF);
      assert (S1 : steady s s1)
        by (split; [reflexivity|unfold s1; sproj; rewrite Ej;
                                intuition discriminate])
  end.
  destruct (m_running s1).
  - pose proof (unicastLookup_effect _ _ W1 H) as (W2 & S2).
    split; [exact W2|]. split.
    + eapply steady_trans; [exact S1|now apply sameShape_steady].
    + intros E. rewrite (unicastLookup_no_scan s1) in H by exact E.
      injection H as <-. exact E.
  - injection H as <-. auto.
Qed.

Lemma Inv_of_empty s :
  registryEmpty s -> tablesEmpty s ->
  (m_lookupReady s = true <-> m_jdns s <> None) ->
  (m_networkReady s = true <-> m_jdns s <> None) -> Inv s.
Proof.
  intros R T L N. constructor; auto. now apply WF_of_empty.
Qed.

Lemma Inv_quiet s : Inv s -> quiet s.
Proof.
  intros I L. unfold live in L. apply andb_false_iff in L as [L|L].
  - now apply (inv_idle I) in L as ((_ & L & _) & _).
  - assert (E : m_jdns s = None).
    { destruct (m_jdns s) eqn:Ej; [|reflexivity].
      assert (m_networkReady s = true) by (apply (inv_network I); congruence).
      congruence. }
    now apply (WF_no_backend _ (inv_wf I)) in E as ((_ & E & _) & _).
Qed.

(** [initializeMdns] on an engine without backend. *)
Lemma initializeMdns_effect initialized s ok s' :
  registryEmpty s -> tablesEmpty s -> m_jdns s = None ->
  initializeMdns initialized s = Done (ok, s') ->
  (ok = false /\ s' = s)
  \/ (ok = true /\ WF s' /\ m_jdns s' <> None /\ m_lookupReady s' = true
      /\ m_running s' = m_running s /\ m_networkReady s' = m_networkReady s
      /\ m_lookupMode s' = m_lookupMode s
      /\ (m_running s = false -> m_queryIdServiceMap s' = [])).
Proof.
  unfold initializeMdns. intros R T Ej H. rewrite Ej in H.
  destruct initialized; simpl in H; [|injection H as <- <-; auto].
  right.
  match type of H with
  | context [set_lookupReady true ?t] => set (s1 := set_lookupReady true t) in *
  end.
  assert (R1 : registryEmpty s1) by exact R.
  assert (T1 : tablesEmpty s1) by exact T.
  assert (W1 : WF s1) by (now apply WF_of_empty).
  apply bind_Done in H as [s2 [E2 H]].
  apply bind_Done in H as [s3 [E3 H]]. injection H as <- <-.
  assert (G2 : WF s2 /\ steady s1 s2 /\ m_queryIdServiceMap s2 = []).
  { destruct (isUnicast s1).
    - apply updateNameServers_effect in E2 as (W2 & S2 & Q2); auto.
      split; [exact W2|]. split; [exact S2|]. apply Q2. apply R1.
    - injection E2 as <-. split; [exact W1|]. split; [apply steady_refl|].
      apply R1. }
  destruct G2 as (W2 & [C2 J2] & M2).
  assert (G3 : WF s3 /\ m_running s3 = m_running s2
               /\ m_networkReady s3 = m_networkReady s2
               /\ m_lookupReady s3 = m_lookupReady s2
               /\ m_lookupMode s3 = m_lookupMode s2
               /\ (m_jdns s3 = None <-> m_jdns s2 = None)
               /\ (m_running s2 = false -> m_queryIdServiceMap s3 = [])).
  { destruct (m_running s2) eqn:Er.
    - apply bind_Done in E3 as [s4 [E4 E3]].
      apply updateServices_effect in E4 as (W4 & [C4 J4] & Q4); auto.
      2:{ intros _. exact M2. }
      apply config_fields in C4 as (A1 & A2 & A3 & A4 & _).
      destruct (isUnicast s4); injection E3 as <-; sproj;
        (split; [|split; [|split; [|split; [|split; [|split]]]]]); auto;
        try discriminate; try congruence.
      eapply WFx_ext; [| | | | |exact W4]; reflexivity.
    - injection E3 as <-. rewrite Er. intuition. }
  destruct G3 as (W3 & A1 & A2 & A3 & A4 & J3 & M3).
  apply config_fields in C2 as (B1 & B2 & B3 & B4 & _).
  split; [reflexivity|]. split; [exact W3|].
  split; [|split; [|split; [|split; [|split]]]].
  - intros E. apply J3, J2 in E. discriminate.
  - rewrite A3, B3. reflexivity.
  - rewrite A1, B1. reflexivity.
  - rewrite A2, B2. reflexivity.
  - rewrite A4, B4. reflexivity.
  - intros Er. apply M3. rewrite B1. exact Er.
Qed.

Lemma deinitializeMdns_effect s s' :
  Inv s -> deinitializeMdns s = Done s' ->
  m_jdns s' = None /\ m_lookupReady s' = false
  /\ m_running s' = m_running s /\ m_networkReady s' = m_networkReady s
  /\ m_lookupMode s' = m_lookupMode s
  /\ registryEmpty s' /\ tablesEmpty s'.
Proof.
  unfold deinitializeMdns. intros I H.
  destruct (m_jdns s) as [j|] eqn:Ej.
  - apply bind_Done in H as [s1 [E H]]. injection H as <-. sproj.
    destruct (m_running s) eqn:Er.
    + apply bind_Done in E as [s2 [E2 E]]. injection E as <-. sproj.
      apply removeAllServiceTypes_effect in E2 as (C & _ & T).
      apply config_fields in C as (A1 & A2 & A3 & A4 & _).
      assert (B : m_running s2 = m_running s /\ m_networkReady s2 = m_networkReady s
                  /\ m_lookupMode s2 = m_lookupMode s).
      { destruct (isUnicast s); sproj_all; auto. }
      destruct B as (B1 & B2 & B3).
      repeat split; try congruence.
      intros type l Hv. sproj_in Hv. rewrite T in Hv. discriminate.
    + injection E as <-.
      destruct (inv_idle I Er) as [R T]. repeat split; auto; apply R.
  - injection H as <-.
    destruct (WF_no_backend _ (inv_wf I) Ej) as [R T].
    assert (L : m_lookupReady s = false).
    { destruct (m_lookupReady s) eqn:El; [|reflexivity].
      exfalso. now apply (inv_lookup I). }
    auto 10.
Qed.

(** ** The invariant of the event loop *)

Lemma Inv_intro s :
  WF s ->
  (m_lookupReady s = true <-> m_jdns s <> None) ->
  (m_networkReady s = true <-> m_jdns s <> None) ->
  (m_running s = false -> m_queryIdServiceMap s = []) ->
  Inv s.
Proof.
  intros W L N Q. constructor; auto.
  intros Er. apply WF_no_scan; auto.
Qed.

Lemma Inv_frame s s' :
  m_queryIdServiceMap s' = m_queryIdServiceMap s ->
  m_queryIdTypeMap s' = m_queryIdTypeMap s ->
  m_queryIdItemMap s' = m_queryIdItemMap s ->
  m_serviceItemsMap s' = m_serviceItemsMap s ->
  m_jdns s' = m_jdns s ->
  m_lookupReady s' = m_lookupReady s ->
  m_networkReady s' = m_networkReady s ->
  m_running s' = m_running s ->
  Inv s -> Inv s'.
Proof.
  intros E1 E2 E3 E4 E5 E6 E7 E8 I. apply Inv_intro.
  - eapply WFx_ext; [| | | | |exact (inv_wf I)]; auto.
    unfold nextId. now rewrite E5.
  - rewrite E5, E6. apply (inv_lookup I).
  - rewrite E5, E7. apply (inv_network I).
  - rewrite E1, E8. intros Er. now apply (inv_idle I) in Er as ((_ & Er & _) & _).
Qed.

Lemma Inv_steady s s' :
  Inv s -> WF s' -> steady s s' ->
  (m_queryIdServiceMap s = [] -> m_queryIdServiceMap s' = []) ->
  Inv s'.
Proof.
  intros I W [C J] Q.
  apply config_fields in C as (A1 & A2 & A3 & _).
  assert (J' : m_jdns s' <> None <-> m_jdns s <> None) by tauto.
  apply Inv_intro; auto.
  - rewrite A3, J'. apply (inv_lookup I).
  - rewrite A2, J'. apply (inv_network I).
  - rewrite A1. intros Er. apply Q.
    now apply (inv_idle I) in Er as ((_ & Er & _) & _).
Qed.

Lemma Inv_initialState : Inv initialState.
Proof.
  apply Inv_of_empty.
  - repeat split.
  - intros type l. discriminate.
  - simpl. split; [discriminate|congruence].
  - simpl. split; [discriminate|congruence].
Qed.

Lemma Inv_backend s :
  Inv s -> m_networkReady s = true -> m_jdns s <> None.
Proof. intros I. apply (inv_network I). Qed.

Lemma setRunning_Inv arg s s' : Inv s -> setRunning arg s = Done s' -> Inv s'.
Proof.
  unfold setRunning. intros I H.
  destruct (Bool.eqb (m_running s) arg) eqn:Eb; [now injection H as <-|].
  sproj_in H.
  destruct (m_networkReady s) eqn:En; simpl in H.
  - destruct arg.
    + apply bind_Done in H as [s2 [E H]].
      assert (W1 : WF (set_running true s)).
      { eapply WFx_ext; [| | | | |exact (inv_wf I)]; reflexivity. }
      apply startQueries_effect in E as (W2 & (C & _ & _ & J)); auto.
      apply config_fields in C as (A1 & A2 & A3 & _). sproj_all.
      assert (G : Inv s2).
      { apply Inv_intro; auto.
        - rewrite A3, J. apply (inv_lookup I).
        - rewrite A2, J. apply (inv_network I).
        - rewrite A1. discriminate. }
      destruct (isUnicast s2); injection H as <-; [|exact G].
      eapply Inv_frame; [| | | | | | | |exact G]; reflexivity.
    + match type of H with
      | stopQueries ?t = _ =>
          assert (W1 : WF t)
            by (eapply WFx_ext; [| | | | |exact (inv_wf I)];
                destruct (isUnicast (set_running false s)); reflexivity);
          assert (C1 : m_lookupReady t = m_lookupReady s
                       /\ m_networkReady t = m_networkReady s
                       /\ m_jdns t = m_jdns s)
            by (destruct (isUnicast (set_running false s)); auto)
      end.
      destruct C1 as (C1 & C2 & C3).
      apply stopQueries_effect in H as (W2 & (C & _ & _ & J) & R & T); auto.
      apply config_fields in C as (A1 & A2 & A3 & _).
      apply Inv_of_empty; auto.
      * rewrite A3, C1, J, C3. apply (inv_lookup I).
      * rewrite A2, C2, J, C3. apply (inv_network I).
  - injection H as <-.
    assert (Ej : m_jdns s = None).
    { destruct (m_jdns s) eqn:Ej; [|reflexivity].
      assert (m_networkReady s = true) by (apply (inv_network I); congruence).
      congruence. }
    destruct (WF_no_backend _ (inv_wf I) Ej) as [R T].
    apply Inv_of_empty; auto.
    + apply (inv_lookup I).
    + apply (inv_network I).
Qed.

Lemma initializeMdns_Inv initialized s ok s' :
  registryEmpty s -> tablesEmpty s -> m_jdns s = None ->
  m_lookupReady s = false -> m_networkReady s = true ->
  initializeMdns initialized s = Done (ok, s') ->
  Inv (if ok then s' else set_networkReady false s').
Proof.
  intros R T Ej El En H.
  apply initializeMdns_effect in H
    as [[-> ->]|(-> & W & J & L & A1 & A2 & A3 & Q)]; auto.
  - apply Inv_of_empty; auto; sproj; rewrite ?Ej, ?El;
      split; congruence.
  - apply Inv_intro; auto.
    + tauto.
    + rewrite A2, En. tauto.
    + rewrite A1. exact Q.
Qed.

Lemma networkSessionOpened_Inv initialized s s' :
  Inv s -> networkSessionOpened initialized s = Done s' -> Inv s'.
Proof.
  unfold networkSessionOpened. intros I H.
  apply bind_Done in H as [[ok s1] [E H]].
  destruct (m_jdns s) as [j|] eqn:Ej.
  - unfold initializeMdns in E. sproj_in E. rewrite Ej in E.
    injection E as <- <-. injection H as <-.
    assert (En : m_networkReady s = true)
      by (apply (inv_network I); congruence).
    eapply Inv_frame; [| | | | | | | |exact I]; auto.
  - destruct (WF_no_backend _ (inv_wf I) Ej) as [R T].
    assert (El : m_lookupReady s = false).
    { destruct (m_lookupReady s) eqn:El; [|reflexivity].
      exfalso. now apply (inv_lookup I). }
    apply initializeMdns_Inv in E; auto.
    destruct ok; simpl in H; injection H as <-; exact E.
Qed.

Lemma networkSessionClosed_Inv s s' :
  Inv s -> networkSessionClosed s = Done s' -> Inv s'.
Proof.
  unfold networkSessionClosed. intros I H.
  apply bind_Done in H as [s1 [E H]]. injection H as <-.
  apply deinitializeMdns_effect in E as (J & L & _ & _ & _ & R & T); auto.
  apply Inv_of_empty; auto; sproj; rewrite ?J, ?L; split; congruence.
Qed.

Lemma setLookupMode_Inv arg initialized s s' :
  Inv s -> setLookupMode arg initialized s = Done s' -> Inv s'.
Proof.
  unfold setLookupMode. intros I H.
  destruct (sameMode (m_lookupMode s) arg); [now injection H as <-|].
  apply bind_Done in H as [s1 [E H]].
  destruct (m_lookupReady s) eqn:El.
  - apply bind_Done in H as [[ok s3] [E3 H]].
    assert (En : m_networkReady s = true).
    { apply (inv_network I). now apply (inv_lookup I). }
    apply deinitializeMdns_effect in E as (J & L & A1 & A2 & A3 & R & T); auto.
    apply initializeMdns_Inv in E3; auto; [|sproj; congruence].
    destruct ok; simpl in H; injection H as <-; exact E3.
  - injection E as <-. injection H as <-.
    eapply Inv_frame; [| | | | | | | |exact I]; reflexivity.
Qed.

Lemma updateNameServers_Inv s s' :
  Inv s -> updateNameServers s = Done s' -> Inv s'.
Proof.
  intros I H.
  apply updateNameServers_effect in H as (W & S & Q); [|apply (inv_wf I)].
  eapply Inv_steady; eauto.
Qed.

(** Every event keeps the invariant. *)
Lemma step_Inv e s s' : Inv s -> step e s = Done s' -> Inv s'.
Proof.
  intros I H. destruct e; simpl in H.
  - injection H as <-.
    eapply Inv_frame; [| | | | | | | |exact I]; reflexivity.
  - eapply networkSessionOpened_Inv; eauto.
  - eapply networkSessionClosed_Inv; eauto.
  - eapply setRunning_Inv; eauto.
  - eapply setLookupMode_Inv; eauto.
  - injection H as <-. unfold setUnicastErrorThreshold.
    destruct (m_unicastErrorThreshold s =? arg)%Z; [exact I|].
    eapply Inv_frame; [| | | | | | | |exact I]; reflexivity.
  - injection H as <-. unfold setFilter.
    pose proof (updateAllServiceTypes_frame (set_filter arg s)) as F.
    cbv zeta in F. destruct F as (C & _ & F3 & F4 & F5 & F6 & F7 & _).
    apply config_fields in C as (A1 & A2 & A3 & _).
    eapply Inv_frame; [| | | | | | | |exact I]; auto.
  - injection H as <-.
    eapply Inv_frame; [| | | | | | | |exact I]; reflexivity.
  - injection H as <-.
    eapply Inv_frame; [| | | | | | | |exact I]; reflexivity.
  - apply updateNameServers_Inv in H; auto.
    eapply Inv_frame; [| | | | | | | |exact I]; reflexivity.
  - injection H as <-.
    eapply Inv_frame; [| | | | | | | |exact I]; reflexivity.
  - apply updateServices_effect in H as (W & S & Q);
      [|apply (inv_wf I)|now apply Inv_quiet].
    destruct S as [C J]. pose proof (config_live _ _ C) as Lv.
    apply config_fields in C as (A1 & A2 & A3 & _).
    assert (J' : m_jdns s' <> None <-> m_jdns s <> None) by tauto.
    apply Inv_intro; auto.
    + rewrite A3, J'. apply (inv_lookup I).
    + rewrite A2, J'. apply (inv_network I).
    + intros Er. apply Q. unfold live. now rewrite Er.
  - injection H as <-. unfold updateFilter.
    pose proof (updateAllServiceTypes_frame s) as F.
    cbv zeta in F. destruct F as (C & _ & F3 & F4 & F5 & F6 & F7 & _).
    apply config_fields in C as (A1 & A2 & A3 & _).
    eapply Inv_frame; [| | | | | | | |exact I]; auto.
  - eapply updateNameServers_Inv; eauto.
  - destruct (m_unicastLookupTimer s); [|now injection H as <-].
    pose proof (unicastLookup_effect _ _ (inv_wf I) H) as (W & S).
    eapply Inv_steady; eauto using sameShape_steady.
    intros E. rewrite (unicastLookup_no_scan s E) in H. now injection H as <-.
  - apply (resultsReady_effect (fun _ => False)) in H as (W & S & M);
      [|apply (inv_wf I)].
    eapply Inv_steady; eauto using sameShape_steady. congruence.
  - now injection H as <-.
Qed.

Lemma run_Inv events : forall s s',
  Inv s -> run events s = Done s' -> Inv s'.
Proof.
  unfold run. intros s s' I H.
  eapply (forEach_preserves Inv step events); eauto.
  intros e t t' _. apply step_Inv.
Qed.

Lemma reachable_Inv s : reachable s -> Inv s.
Proof.
  intros [events H]. eapply run_Inv; [apply Inv_initialState|exact H].
Qed.

(* ================================================================== *)
(** * The claims                                                       *)
(* ================================================================== *)

Lemma reachable_stateAfter events s :
  run events initialState = Done s -> reachable (stateAfter events).
Proof.
  intros H. exists events. unfold stateAfter. now rewrite H.
Qed.

(** ** Lifecycle closure *)

Lemma deinitializeMdns_total s :
  m_jdns s <> None -> exists s', deinitializeMdns s = Done s'.
Proof.
  unfold deinitializeMdns. intros Hj.
  destruct (m_jdns s) as [j|] eqn:Ej; [|contradiction].
  destruct (m_running s); simpl; eauto.
  match goal with
  | |- context [removeAllServiceTypes ?t] =>
      destruct (removeAllServiceTypes_total t) as [s1 E]
  end.
  - destruct (isUnicast s); sproj; congruence.
  - rewrite E. simpl. eauto.
Qed.

(** C1: in every reachable state where [lookupReady] holds,
    [deinitializeMdns] returns, resets [lookupReady], and leaves the three
    registry maps [m_queryIdTypeMap], [m_queryIdServiceMap] and
    [m_queryIdItemMap] empty and every instance table without instance,
    whether [running] holds or not: while the engine is not running the
    registry and the tables are already empty. *)
Theorem lookup_teardown_clears_registry_and_tables (s : State) :
  reachable s -> m_lookupReady s = true ->
  exists s', deinitializeMdns s = Done s'
             /\ m_lookupReady s' = false
             /\ registryEmpty s' /\ tablesEmpty s'.
Proof.
  intros R L. apply reachable_Inv in R.
  assert (Hj : m_jdns s <> None) by now apply (inv_lookup R).
  destruct (deinitializeMdns_total s Hj) as [s' E].
  exists s'. split; [exact E|].
  apply deinitializeMdns_effect in E as (_ & L' & _ & _ & _ & Re & Te); auto.
Qed.

Lemma lookup_teardown_witness :
  exists s',
    deinitializeMdns (stateAfter (Scenario.discovery ++ [SetRunning false]))
    = Done s'
    /\ m_lookupReady s' = false /\ registryEmpty s' /\ tablesEmpty s'.
Proof.
  apply lookup_teardown_clears_registry_and_tables.
  - eapply reachable_stateAfter. vm_compute. reflexivity.
  - vm_compute. reflexivity.
Defined.

(** ** Scans *)

Lemma findQuery_bound type s id :
  In (id, type) (m_queryIdServiceMap s) ->
  exists id', findQuery type s = Some id'.
Proof.
  intros H. destruct (findQuery type s) eqn:E; eauto.
  exfalso. eapply findQuery_None; eauto.
Qed.

(** C8: in every reachable state at most one query id is bound to a service
    type in [m_queryIdServiceMap]; [startQuery] changes nothing when the type
    is bound, [stopQuery] changes nothing when it is not; and a second
    [startQuery] (a second [stopQuery]) after a first one changes nothing. *)
Theorem scans_unique_and_idempotent (s : State) (serviceType : string) :
  reachable s ->
  (forall id1 id2,
      In (id1, serviceType) (m_queryIdServiceMap s) ->
      In (id2, serviceType) (m_queryIdServiceMap s) -> id1 = id2)
  /\ ((exists id, In (id, serviceType) (m_queryIdServiceMap s)) ->
      startQuery serviceType s = Done s)
  /\ ((forall id, ~ In (id, serviceType) (m_queryIdServiceMap s)) ->
      stopQuery serviceType s = Done s)
  /\ (forall s1, startQuery serviceType s = Done s1 ->
                 startQuery serviceType s1 = Done s1)
  /\ (forall s1, stopQuery serviceType s = Done s1 ->
                 stopQuery serviceType s1 = Done s1).
Proof.
  intros R. apply reachable_Inv in R. pose proof (inv_wf R) as W.
  assert (Hstart : forall t, (exists id, In (id, serviceType)
                                            (m_queryIdServiceMap t)) ->
                             startQuery serviceType t = Done t).
  { intros t [id Hin]. unfold startQuery.
    destruct (findQuery_bound _ _ _ Hin) as [id' ->]. reflexivity. }
  assert (Hstop : forall t, (forall id, ~ In (id, serviceType)
                                            (m_queryIdServiceMap t)) ->
                            stopQuery serviceType t = Done t).
  { intros t Hno. unfold stopQuery.
    destruct (findQuery serviceType t) as [id|] eqn:E; [|reflexivity].
    apply findQuery_Some in E. now apply Hno in E. }
  split; [|split; [|split; [|split]]]; auto.
  - intros id1 id2. apply (wf_uniq W).
  - intros s1 H. apply Hstart. now apply startQuery_frame in H as (_ & _ & H & _).
  - intros s1 H. apply Hstop.
    now apply (stopQuery_frame _ _ _ _ W) in H as (_ & H & _).
Qed.

Lemma scans_unique_witness :
  let s := stateAfter Scenario.discovery in
  (forall id1 id2,
      In (id1, Scenario.httpType) (m_queryIdServiceMap s) ->
      In (id2, Scenario.httpType) (m_queryIdServiceMap s) -> id1 = id2)
  /\ ((exists id, In (id, Scenario.httpType) (m_queryIdServiceMap s)) ->
      startQuery Scenario.httpType s = Done s)
  /\ ((forall id, ~ In (id, Scenario.httpType) (m_queryIdServiceMap s)) ->
      stopQuery Scenario.httpType s = Done s)
  /\ (forall s1, startQuery Scenario.httpType s = Done s1 ->
                 startQuery Scenario.httpType s1 = Done s1)
  /\ (forall s1, stopQuery Scenario.httpType s = Done s1 ->
                 stopQuery Scenario.httpType s1 = Done s1).
Proof.
  apply scans_unique_and_idempotent.
  eapply reachable_stateAfter. vm_compute. reflexivity.
Defined.

(** ** Safety of the PTR branch *)

Lemma queryStart_total name t s :
  m_jdns s <> None -> exists id s', queryStart name t s = Done (id, s').
Proof.
  unfold queryStart. intros Hj.
  destruct (m_jdns s); [eauto|contradiction].
Qed.

Lemma bound_service_type ex id s :
  WFx ex s -> (exists u, In (id, u) (m_queryIdServiceMap s)) ->
  In (id, boundServiceType id s) (m_queryIdServiceMap s).
Proof.
  intros W [u Hu]. unfold boundServiceType.
  destruct (In_value _ _ _ Hu) as [u' Ev]. rewrite Ev. now apply value_In.
Qed.

Lemma ptrBranch_total ex id r s :
  WFx ex s -> (exists u, In (id, u) (m_queryIdServiceMap s)) ->
  exists item s', ptrBranch id r s = Done (item, s').
Proof.
  intros W Hb. pose proof (bound_service_type _ _ _ W Hb) as Hin.
  assert (Hj : m_jdns s <> None).
  { destruct (@wf_fresh _ _ W _ _ Hin) as [n [En _]].
    intros E. apply nextId_None in E. congruence. }
  unfold ptrBranch. destruct (QJDns.ttl r >? 0)%Z.
  - destruct (addItem (instanceName r) (boundServiceType id s) s)
      as [it s1] eqn:Ea.
    apply (addItem_effect ex) in Ea
      as (W1 & S1 & N1 & M1 & L1 & p & l & -> & Hv & Hp); eauto.
    assert (Hj1 : m_jdns s1 <> None) by (eapply nextId_same_jdns; eauto).
    destruct (queryStart_total (QJDns.name r) QJDns.Txt s1 Hj1)
      as (newId & s2 & E2).
    rewrite E2. simpl.
    apply queryStart_Done in E2 as (j & Ej & -> & ->).
    unfold queryStart, registerSubQuery. sproj. simpl. eauto.
  - destruct (removeItem_total (instanceName r) (boundServiceType id s) s Hj)
      as [s1 E].
    rewrite E. simpl. eauto.
Qed.

(** C9: in every reachable state, when the record type recorded for the
    query id of a results callback is PTR, the service type that
    [m_queryIdServiceMap] binds to the id is a key of [m_serviceItemsMap],
    [addItem] returns an item for every answer, and the whole callback
    returns without dereferencing a null pointer. *)
Theorem ptr_answer_never_dereferences_null (s : State) (id : Z)
  (results : QJDns.Response) :
  reachable s -> recordedType id s = QJDns.Ptr ->
  QMap.contains (m_serviceItemsMap s) (boundServiceType id s) = true
  /\ (forall r, (QJDns.ttl r > 0)%Z ->
        fst (addItem (instanceName r) (boundServiceType id s) s) <> None)
  /\ exists s', resultsReady id results s = Done s'.
Proof.
  intros R Ht. apply reachable_Inv in R. pose proof (inv_wf R) as W.
  assert (Hb : exists u, In (id, u) (m_queryIdServiceMap s)).
  { unfold recordedType in Ht.
    destruct (QMap.value (m_queryIdTypeMap s) id) as [t|] eqn:Ev;
      [|discriminate]. subst t. eapply wf_ptr; eauto. }
  pose proof (bound_service_type _ _ _ W Hb) as Hin.
  split; [eapply wf_key; eauto|]. split.
  - intros r _.
    destruct (addItem (instanceName r) (boundServiceType id s) s)
      as [it s1] eqn:Ea.
    apply (addItem_effect (fun _ => False)) in Ea
      as (_ & _ & _ & _ & _ & p & l & -> & _); eauto.
    discriminate.
  - unfold resultsReady. rewrite Ht.
    destruct (forEach_total
                (fun t => WF t /\ m_queryIdServiceMap t = m_queryIdServiceMap s)
                (handleRecord id QJDns.Ptr) results) with (s := s)
      as [s' [E _]]; eauto.
    intros r t _ [Wt Mt].
    assert (Hbt : exists u, In (id, u) (m_queryIdServiceMap t))
      by (rewrite Mt; exact Hb).
    destruct (ptrBranch_total _ id r t Wt Hbt) as (item & t1 & E1).
    exists (resolveItem item t1).
    assert (E : handleRecord id QJDns.Ptr r t = Done (resolveItem item t1)).
    { unfold handleRecord. simpl. rewrite E1. reflexivity. }
    split; [exact E|].
    apply (handleRecord_effect (fun _ => False)) in E as (W2 & _ & M2); auto.
    split; [exact W2|congruence].
Qed.

Lemma ptr_answer_witness :
  let s := stateAfter Scenario.discovery in
  QMap.contains (m_serviceItemsMap s) (boundServiceType 0 s) = true
  /\ (forall r, (QJDns.ttl r > 0)%Z ->
        fst (addItem (instanceName r) (boundServiceType 0 s) s) <> None)
  /\ exists s',
       resultsReady 0 [Scenario.ptrRecord "third._http._tcp.local" 120] s
       = Done s'.
Proof.
  apply ptr_answer_never_dereferences_null.
  - eapply reachable_stateAfter. vm_compute. reflexivity.
  - vm_compute. reflexivity.
Defined.

(** ** Late answers *)

Lemma recordedType_unknown id s :
  QMap.contains (m_queryIdTypeMap s) id = false ->
  recordedType id s = QJDns.defaultType.
Proof.
  intros H. apply contains_false in H. unfold recordedType. now rewrite H.
Qed.

Lemma handleRecord_defaultType id r s :
  handleRecord id QJDns.defaultType r s = Done s.
Proof. reflexivity. Qed.

(** C7: a results callback for a query id that none of the three registry
    maps binds returns the state unchanged, whatever the answer records:
    no instance table, no registry map and no list of a user query is
    written. *)
Theorem late_answer_is_dropped (id : Z) (results : QJDns.Response)
  (s : State) :
  registered id s = false -> resultsReady id results s = Done s.
Proof.
  unfold registered. intros H.
  apply orb_false_iff in H as [H _]. apply orb_false_iff in H as [H _].
  unfold resultsReady. rewrite (recordedType_unknown _ _ H).
  induction results as [|r results IH]; cbn [forEach]; [reflexivity|].
  rewrite handleRecord_defaultType. exact IH.
Qed.

Lemma late_answer_witness :
  let s := stateAfter (Scenario.discovery ++ [SetRunning false]) in
  resultsReady 3 [Scenario.txtRecord] s = Done s.
Proof.
  apply late_answer_is_dropped. vm_compute. reflexivity.
Defined.

(** ** Filtering *)

Lemma isEmpty_true {A : Type} (l : list A) : isEmpty l = true <-> l = [].
Proof. destruct l; simpl; split; congruence. Qed.

Lemma isEmpty_false {A : Type} (l : list A) : isEmpty l = false <-> l <> [].
Proof. destruct l; simpl; split; congruence. Qed.

Lemma name_part_holds n x :
  (String.eqb n EmptyString || QRegExp.contains n x) = true
  <-> n = EmptyString \/ QRegExp.contains n x = true.
Proof. rewrite orb_true_iff, String.eqb_eq. reflexivity. Qed.

Lemma txt_part_holds (pats rest : list string) :
  (if negb (isEmpty pats) then if isEmpty rest then false else true else true)
  = true
  <-> pats = [] \/ rest <> [].
Proof.
  destruct pats as [|p pats], rest as [|r rest]; simpl; split; auto;
    try discriminate.
  - intros [H|H]; [discriminate|contradiction].
  - intros _. right. discriminate.
Qed.

(** C5, as the code has it: the filter predicate holds iff (the name pattern
    is empty or the glob, case-sensitive with the wildcards [*], [?] and
    [[...]], matches somewhere in the instance's name) and (the TXT pattern
    list is empty or the patterns, applied from left to right as successive
    filters that keep the records in which the glob matches somewhere, leave
    a record). *)
Theorem filter_predicate_searches_glob (s : State) (item : ptr)
  (f : Filter.t) :
  filterServiceDiscoveryItem s item f = true
  <-> filterHolds QRegExp.contains (Item.name (item_at s item))
                  (Item.txtRecords (item_at s item)) f.
Proof.
  unfold filterServiceDiscoveryItem, filterHolds, filterTxt.
  rewrite <- name_part_holds, <- txt_part_holds.
  destruct (String.eqb (Filter.name f) EmptyString
            || QRegExp.contains (Filter.name f) (Item.name (item_at s item)));
    simpl; [tauto|].
  split; [discriminate|]. intros [H _]. discriminate.
Qed.

(** C5 as stated fails: the name [xprod-1] does not match the glob [prod-*],
    and the filter with that name pattern lets the instance through. *)
Lemma filter_predicate_not_whole_match :
  let s := oneItemState "xprod-1" [] in
  let f := Filter.mk "prod-*" [] in
  ~ (filterServiceDiscoveryItem s 0 f = true
     <-> filterHolds QRegExp.exactMatch (Item.name (item_at s 0))
                     (Item.txtRecords (item_at s 0)) f).
Proof.
  intros s f [H _].
  assert (E : filterServiceDiscoveryItem s 0 f = true) by reflexivity.
  apply H in E. destruct E as [[E|E] _]; vm_compute in E; discriminate.
Qed.

(** ** PTR answers *)

Lemma bind_Done_r {A : Type} (m : outcome A) : bind m (fun a => Done a) = m.
Proof. now destruct m. Qed.

Lemma addItem_registry name type s item s1 :
  addItem name type s = (item, s1) ->
  m_jdns s1 = m_jdns s
  /\ m_queryIdTypeMap s1 = m_queryIdTypeMap s
  /\ m_queryIdItemMap s1 = m_queryIdItemMap s
  /\ m_queryIdServiceMap s1 = m_queryIdServiceMap s.
Proof.
  unfold addItem, new_item.
  destruct (QMap.value (m_serviceItemsMap s) type) as [l|];
    [|intros [= <- <-]; auto].
  destruct (find (hasName s name) l); intros [= <- <-]; auto.
Qed.

Lemma addItem_existing name type s p :
  getItem name type s = Some p -> addItem name type s = (Some p, s).
Proof.
  unfold getItem, addItem.
  destruct (QMap.value (m_serviceItemsMap s) type) as [l|]; [|discriminate].
  now intros ->.
Qed.

Lemma queryStart_backend name type s j :
  m_jdns s = Some j ->
  queryStart name type s
  = Done (QJDns.next_id j,
          set_jdns (Some (QJDns.mkHandle (QJDns.mode j) (QJDns.next_id j + 1)
                     (QJDns.calls j
                      ++ [QJDns.QueryStart name type (QJDns.next_id j)]))) s).
Proof. unfold queryStart. now intros ->. Qed.

Lemma handleRecord_ptr id r s :
  handleRecord id QJDns.Ptr r s
  = bind (ptrBranch id r s) (fun x => Done (resolveItem (fst x) (snd x))).
Proof.
  unfold handleRecord. change (QJDns.Ptr =? QJDns.Ptr)%Z with true.
  cbn iota. destruct (ptrBranch id r s) as [[item s1]|]; reflexivity.
Qed.

Lemma ptrBranch_announce id r s p s1 :
  (QJDns.ttl r > 0)%Z ->
  addItem (instanceName r) (boundServiceType id s) s = (Some p, s1) ->
  ptrBranch id r s
  = bind (queryStart (QJDns.name r) QJDns.Txt s1)
      (fun x =>
         bind (queryStart (QJDns.name r) QJDns.Srv
                 (registerSubQuery (fst x) QJDns.Txt p (snd x)))
           (fun y => Done (Some p,
                           registerSubQuery (fst y) QJDns.Srv p (snd y)))).
Proof.
  intros Httl Ha. unfold ptrBranch.
  assert (Hb : (QJDns.ttl r >? 0)%Z = true) by (apply Z.gtb_lt; lia).
  rewrite Hb, Ha.
  destruct (queryStart (QJDns.name r) QJDns.Txt s1) as [[n s2]|];
    [|reflexivity].
  cbn [bind deref fst snd].
  destruct (queryStart (QJDns.name r) QJDns.Srv
              (registerSubQuery n QJDns.Txt p s2)) as [[n' s4]|]; reflexivity.
Qed.

Lemma registerSubQuery_registry newId t p s :
  m_jdns (registerSubQuery newId t p s) = m_jdns s
  /\ m_serviceItemsMap (registerSubQuery newId t p s) = m_serviceItemsMap s
  /\ m_queryIdItemMap (registerSubQuery newId t p s)
     = QMap.insert (m_queryIdItemMap s) newId p
  /\ m_queryIdTypeMap (registerSubQuery newId t p s)
     = QMap.insert (m_queryIdTypeMap s) newId t.
Proof. unfold registerSubQuery. sproj. auto. Qed.

Lemma resolveItem_jdns item s : m_jdns (resolveItem item s) = m_jdns s.
Proof.
  unfold resolveItem. destruct item as [p|]; [|reflexivity].
  destruct (negb (Item.hasOutstandingRequests (item_at s p))); [|reflexivity].
  sproj. unfold updateItem.
  pose proof (updateServiceType_frame (Item.type (item_at s p)) s) as G.
  cbv zeta in G. now destruct G as (_ & _ & _ & _ & _ & _ & G & _).
Qed.

(** A PTR answer with a positive TTL, once [addItem] has returned an item. *)
Lemma ptr_announce s id r j p s1 :
  m_jdns s = Some j -> recordedType id s = QJDns.Ptr ->
  (QJDns.ttl r > 0)%Z ->
  addItem (instanceName r) (boundServiceType id s) s = (Some p, s1) ->
  exists s', resultsReady id [r] s = Done s'
             /\ announces r p (QJDns.next_id j) s s1 s'.
Proof.
  intros Ej Ht Httl Ha.
  pose proof (addItem_registry _ _ _ _ _ Ha) as (A1 & A2 & A3 & A4).
  rewrite <- A1 in Ej.
  set (n := QJDns.next_id j).
  set (j2 := QJDns.mkHandle (QJDns.mode j) (n + 1)
               (QJDns.calls j ++ [QJDns.QueryStart (QJDns.name r) QJDns.Txt n])).
  set (s3 := registerSubQuery n QJDns.Txt p (set_jdns (Some j2) s1)).
  set (j4 := QJDns.mkHandle (QJDns.mode j2) (QJDns.next_id j2 + 1)
               (QJDns.calls j2
                ++ [QJDns.QueryStart (QJDns.name r) QJDns.Srv
                      (QJDns.next_id j2)])).
  set (s5 := registerSubQuery (n + 1) QJDns.Srv p (set_jdns (Some j4) s3)).
  assert (E3 : m_jdns s3 = Some j2)
    by (unfold s3; now rewrite (proj1 (registerSubQuery_registry _ _ _ _))).
  assert (E : resultsReady id [r] s = Done (resolveItem (Some p) s5)).
  { unfold resultsReady. rewrite Ht. cbn [forEach].
    rewrite handleRecord_ptr, (ptrBranch_announce _ _ _ _ _ Httl Ha).
    rewrite (queryStart_backend _ _ _ _ Ej). cbn [bind fst snd].
    fold n j2 s3. rewrite (queryStart_backend _ _ _ _ E3).
    reflexivity. }
  exists (resolveItem (Some p) s5). split; [exact E|].
  pose proof (resolveItem_frame (Some p) s5) as F. cbv zeta in F.
  destruct F as (_ & _ & F3 & F4 & F5 & F6).
  pose proof (resolveItem_jdns (Some p) s5) as Fj.
  destruct (registerSubQuery_registry (n + 1) QJDns.Srv p
              (set_jdns (Some j4) s3)) as (R1 & R2 & R3 & R4).
  destruct (registerSubQuery_registry n QJDns.Txt p
              (set_jdns (Some j2) s1)) as (Q1 & Q2 & Q3 & Q4).
  fold s5 in R1, R2, R3, R4. fold s3 in Q1, Q2, Q3, Q4.
  unfold announces, backendCalls.
  rewrite F4, F5, F6, Fj, R1, R2, R3, R4. sproj. rewrite Q2, Q3, Q4. sproj.
  rewrite <- A1, Ej.
  split; [reflexivity|]. split; [|split; [|split; [|split]]].
  - apply In_insert. right. split; [lia|]. apply In_insert. auto.
  - apply In_insert. auto.
  - rewrite value_insert.
    replace (key_eqb (n + 1) n)%Z with false
      by (symmetry; apply Z.eqb_neq; lia).
    rewrite value_insert, key_eqb_refl. reflexivity.
  - rewrite value_insert, key_eqb_refl. reflexivity.
  - unfold j4, j2. cbn [QJDns.calls QJDns.next_id].
    rewrite <- app_assoc. reflexivity.
Qed.

Lemma reachable_ptr_backend s id :
  reachable s -> recordedType id s = QJDns.Ptr ->
  exists j, m_jdns s = Some j
            /\ QMap.contains (m_serviceItemsMap s) (boundServiceType id s)
               = true.
Proof.
  intros R Ht. apply reachable_Inv in R. pose proof (inv_wf R) as W.
  assert (Hb : exists u, In (id, u) (m_queryIdServiceMap s)).
  { unfold recordedType in Ht.
    destruct (QMap.value (m_queryIdTypeMap s) id) as [t|] eqn:Ev;
      [|discriminate]. subst t. eapply wf_ptr; eauto. }
  pose proof (bound_service_type _ _ _ W Hb) as Hin.
  destruct (@wf_fresh _ _ W _ _ Hin) as [n [En _]].
  apply nextId_Some in En as [j [Ej _]].
  exists j. split; [exact Ej|]. eapply wf_key; eauto.
Qed.

(** C2, as the code has it: in a reachable state, when a PTR answer with a
    positive TTL names an instance that exists under the service type of the
    query, [addItem] returns the existing instance, the instance table is
    left as it is, and a TXT and an SRV sub-query on the name of the answer
    are started and registered against that instance. *)
Theorem ptr_refresh_restarts_subqueries (s : State) (id : Z)
  (r : QJDns.AnswerRecord) (p : ptr) :
  reachable s -> recordedType id s = QJDns.Ptr -> (QJDns.ttl r > 0)%Z ->
  getItem (instanceName r) (boundServiceType id s) s = Some p ->
  fst (addItem (instanceName r) (boundServiceType id s) s) = Some p
  /\ exists n s', nextId s = Some n
                  /\ resultsReady id [r] s = Done s'
                  /\ announces r p n s s s'.
Proof.
  intros R Ht Httl Hg.
  destruct (reachable_ptr_backend _ _ R Ht) as (j & Ej & _).
  pose proof (addItem_existing _ _ _ _ Hg) as Ha.
  split; [now rewrite Ha|].
  destruct (ptr_announce _ _ _ _ _ _ Ej Ht Httl Ha) as (s' & E & A).
  exists (QJDns.next_id j), s'. split; [|auto].
  apply nextId_Some. eauto.
Qed.

Lemma ptr_refresh_witness :
  let s := stateAfter Scenario.discovery in
  let r := Scenario.ptrRecord "myprinter._http._tcp.local" 120 in
  fst (addItem (instanceName r) (boundServiceType 0 s) s) = Some 0%nat
  /\ exists n s', nextId s = Some n
                  /\ resultsReady 0 [r] s = Done s'
                  /\ announces r 0%nat n s s s'.
Proof.
  apply ptr_refresh_restarts_subqueries.
  - eapply reachable_stateAfter. vm_compute. reflexivity.
  - vm_compute. reflexivity.
  - reflexivity.
  - vm_compute. reflexivity.
Defined.

(** C2 as stated fails: the instance [myprinter] is resolved, the PTR answer
    that names it again starts the sub-queries 6 and 7 for it. *)
Lemma ptr_refresh_starts_subqueries :
  ~ refreshStartsNoSubQuery (stateAfter Scenario.discovery) 0
      (Scenario.ptrRecord "myprinter._http._tcp.local" 120).
Proof.
  intros H.
  destruct (resultsReady 0
              [Scenario.ptrRecord "myprinter._http._tcp.local" 120]
              (stateAfter Scenario.discovery)) as [s'|] eqn:E;
    [|vm_compute in E; discriminate].
  assert (G : getItem
                (instanceName
                   (Scenario.ptrRecord "myprinter._http._tcp.local" 120))
                (boundServiceType 0 (stateAfter Scenario.discovery))
                (stateAfter Scenario.discovery) = Some 0%nat)
    by (vm_compute; reflexivity).
  destruct (H 0%nat s' G E) as (_ & _ & Hc).
  vm_compute in E. injection E as <-. vm_compute in Hc. discriminate.
Qed.

Lemma instanceName_without_separator r :
  Qt.indexOf (QJDns.name r) "._" = (-1)%Z -> instanceName r = EmptyString.
Proof.
  unfold instanceName, Qt.left. intros ->.
  destruct (Z.of_nat (String.length (QJDns.name r)) <=? -1)%Z eqn:E.
  - apply Z.leb_le in E. lia.
  - reflexivity.
Qed.

Lemma ptr_goodbye id r s :
  recordedType id s = QJDns.Ptr -> (QJDns.ttl r <= 0)%Z ->
  resultsReady id [r] s
  = removeItem (instanceName r) (boundServiceType id s) s.
Proof.
  intros Ht Httl. unfold resultsReady. rewrite Ht. cbn [forEach].
  rewrite handleRecord_ptr. unfold ptrBranch.
  assert (Hb : (QJDns.ttl r >? 0)%Z = false)
    by (rewrite Z.gtb_ltb; apply Z.ltb_ge; lia).
  rewrite Hb.
  destruct (removeItem (instanceName r) (boundServiceType id s) s);
    reflexivity.
Qed.

(** C3, as the code has it: in a reachable state a PTR answer whose name has
    no [._] is not ignored.  The instance name [r.name.left(-1)] is the empty
    string; with a positive TTL the instance of that name is looked up or
    created under the service type of the query and a TXT and an SRV
    sub-query on the name of the answer are started and registered against
    it; otherwise [removeItem] is called with the empty name. *)
Theorem ptr_without_separator_is_processed (s : State) (id : Z)
  (r : QJDns.AnswerRecord) :
  reachable s -> recordedType id s = QJDns.Ptr ->
  Qt.indexOf (QJDns.name r) "._" = (-1)%Z ->
  instanceName r = EmptyString
  /\ ((QJDns.ttl r > 0)%Z ->
      exists p s1 n s',
        addItem EmptyString (boundServiceType id s) s = (Some p, s1)
        /\ nextId s = Some n
        /\ resultsReady id [r] s = Done s'
        /\ announces r p n s s1 s')
  /\ ((QJDns.ttl r <= 0)%Z ->
      resultsReady id [r] s
      = removeItem EmptyString (boundServiceType id s) s).
Proof.
  intros R Ht Hi.
  pose proof (instanceName_without_separator r Hi) as En.
  split; [exact En|]. split.
  - intros Httl.
    destruct (reachable_ptr_backend _ _ R Ht) as (j & Ej & Hc).
    apply reachable_Inv in R. pose proof (inv_wf R) as W.
    assert (Hb : exists u, In (id, u) (m_queryIdServiceMap s)).
    { unfold recordedType in Ht.
      destruct (QMap.value (m_queryIdTypeMap s) id) as [t|] eqn:Ev;
        [|discriminate]. subst t. eapply wf_ptr; eauto. }
    pose proof (bound_service_type _ _ _ W Hb) as Hin.
    destruct (addItem EmptyString (boundServiceType id s) s)
      as [it s1] eqn:Ea.
    pose proof Ea as Ea'.
    apply (addItem_effect (fun _ => False)) in Ea'
      as (_ & _ & _ & _ & _ & p & l & -> & _); eauto.
    rewrite <- En in Ea.
    destruct (ptr_announce _ _ _ _ _ _ Ej Ht Httl Ea) as (s' & E & A).
    exists p, s1, (QJDns.next_id j), s'.
    split; [reflexivity|]. split; [apply nextId_Some; eauto|auto].
  - intros Httl. rewrite <- En. now apply ptr_goodbye.
Qed.

Lemma ptr_without_separator_witness :
  let s := stateAfter Scenario.startUp in
  let r := Scenario.ptrRecord "myprinter" 120 in
  instanceName r = EmptyString
  /\ ((QJDns.ttl r > 0)%Z ->
      exists p s1 n s',
        addItem EmptyString (boundServiceType 0 s) s = (Some p, s1)
        /\ nextId s = Some n
        /\ resultsReady 0 [r] s = Done s'
        /\ announces r p n s s1 s')
  /\ ((QJDns.ttl r <= 0)%Z ->
      resultsReady 0 [r] s = removeItem EmptyString (boundServiceType 0 s) s).
Proof.
  apply ptr_without_separator_is_processed.
  - eapply reachable_stateAfter. vm_compute. reflexivity.
  - vm_compute. reflexivity.
  - vm_compute. reflexivity.
Defined.

(** C3 as stated fails: the PTR answer named [myprinter] creates an instance
    and starts two sub-queries. *)
Lemma ptr_without_separator_not_ignored :
  ~ answerIgnored (stateAfter Scenario.startUp) 0
      (Scenario.ptrRecord "myprinter" 120).
Proof.
  intros H.
  destruct (resultsReady 0 [Scenario.ptrRecord "myprinter" 120]
              (stateAfter Scenario.startUp)) as [s'|] eqn:E;
    [|vm_compute in E; discriminate].
  destruct (H s' E) as (Hc & _).
  vm_compute in E. injection E as <-. vm_compute in Hc. discriminate.
Qed.

(** ** The purge pass *)

Lemma stopItemQueries_heap item s s' :
  stopItemQueries item s = Done s' ->
  heap s' = heap s /\ m_unicastErrorThreshold s' = m_unicastErrorThreshold s.
Proof.
  intros H. apply stopItemQueries_effect in H as ((C & _ & _ & _ & Hh) & _).
  apply config_fields in C as (_ & _ & _ & _ & C & _). auto.
Qed.

Lemma purgeLoop_spec l : forall s,
  distinctItems s l -> m_jdns s <> None ->
  exists s1,
    purgeLoop l s
    = Done (filter (fun p => negb (purged (m_unicastErrorThreshold s)
                                          (item_at s p))) l,
            existsb (fun p => purged (m_unicastErrorThreshold s)
                                     (item_at s p)) l,
            s1)
    /\ (forall p, In p l -> item_at s1 p = aged (item_at s p))
    /\ (forall p, ~ In p l -> item_at s1 p = item_at s p)
    /\ List.length (heap s1) = List.length (heap s)
    /\ m_unicastErrorThreshold s1 = m_unicastErrorThreshold s
    /\ m_jdns s1 <> None.
Proof.
  induction l as [|item rest IH]; intros s [Hnd Hv] Hj.
  - exists s. simpl. repeat split; auto. intros p [].
  - apply NoDup_cons_iff in Hnd as [Hni Hnd].
    destruct (IH s) as (s0 & E & A1 & A2 & A3 & A4 & A5); auto.
    { split; [exact Hnd|]. intros p Hp. apply Hv. now right. }
    cbn [purgeLoop]. rewrite E. cbn [bind].
    assert (Hitem : item_at s0 item = item_at s item) by now apply A2.
    assert (Hlt : (item < List.length (heap s0))%nat).
    { rewrite A3. apply Hv. now left. }
    cbn [filter existsb]. rewrite Hitem.
    assert (Hpg : purged (m_unicastErrorThreshold s) (item_at s item)
                 = negb (Item.updated (item_at s item))
                   && (Item.errorCount (item_at s item) + 1
                       >? m_unicastErrorThreshold s)%Z) by reflexivity.
    rewrite Hpg.
    destruct (Item.updated (item_at s item)) eqn:Eu; cbn [negb andb orb].
    + exists (update_item item (Item.setUpdated false) s0).
      split; [reflexivity|]. split; [|split; [|split; [|split]]].
      * intros p [<-|Hp].
        -- rewrite item_at_update_same by exact Hlt.
           unfold aged. now rewrite Hitem, Eu.
        -- rewrite item_at_update_other by (intros ->; contradiction).
           auto.
      * intros p Hp. simpl in Hp.
        rewrite item_at_update_other by tauto. apply A2. tauto.
      * unfold update_item. sproj. now rewrite list_update_length.
      * exact A4.
      * exact A5.
    + rewrite item_at_update_same by exact Hlt. rewrite Hitem.
      change (m_unicastErrorThreshold
                (update_item item Item.increaseErrorCount s0))
        with (m_unicastErrorThreshold s0).
      rewrite A4.
      change (Item.errorCount (Item.increaseErrorCount (item_at s item)))
        with (Item.errorCount (item_at s item) + 1)%Z.
      assert (Hage : forall t p,
                 heap t = heap (update_item item Item.increaseErrorCount s0) ->
                 In p (item :: rest) -> item_at t p = aged (item_at s p)).
      { intros t p Ht Hp. unfold item_at at 1. rewrite Ht.
        change (nth p (heap (update_item item Item.increaseErrorCount s0))
                    Item.blank)
          with (item_at (update_item item Item.increaseErrorCount s0) p).
        destruct Hp as [<-|Hp].
        - rewrite item_at_update_same by exact Hlt.
          unfold aged. now rewrite Hitem, Eu.
        - rewrite item_at_update_other by (intros ->; contradiction). auto. }
      assert (Hrest : forall t p,
                 heap t = heap (update_item item Item.increaseErrorCount s0) ->
                 ~ In p (item :: rest) -> item_at t p = item_at s p).
      { intros t p Ht Hp. unfold item_at at 1. rewrite Ht.
        change (nth p (heap (update_item item Item.increaseErrorCount s0))
                    Item.blank)
          with (item_at (update_item item Item.increaseErrorCount s0) p).
        simpl in Hp. rewrite item_at_update_other by tauto. apply A2. tauto. }
      destruct (Item.errorCount (item_at s item) + 1
                >? m_unicastErrorThreshold s)%Z eqn:Et; cbn [negb orb].
      * destruct (stopItemQueries_total item
                    (update_item item Item.increaseErrorCount s0))
          as [s3 E3]; [exact A5|].
        rewrite E3. cbn [bind].
        pose proof (stopItemQueries_heap _ _ _ E3) as [Hh Hthr].
        pose proof (stopItemQueries_sameShape _ _ _ E3) as (_ & _ & _ & Hjs).
        exists s3. split; [reflexivity|].
        split; [intros p; now apply Hage|].
        split; [intros p; now apply Hrest|].
        split; [|split].
        -- rewrite Hh. unfold update_item. sproj.
           now rewrite list_update_length.
        -- rewrite Hthr. exact A4.
        -- intros N. apply Hjs in N. now apply A5.
      * exists (update_item item Item.increaseErrorCount s0).
        split; [reflexivity|].
        split; [intros p; now apply Hage|].
        split; [intros p; now apply Hrest|].
        split; [|split].
        -- unfold update_item. sproj. now rewrite list_update_length.
        -- exact A4.
        -- exact A5.
Qed.

Lemma filter_all_kept {A : Type} (f : A -> bool) (l : list A) :
  existsb f l = false -> filter (fun x => negb (f x)) l = l.
Proof.
  induction l as [|x l IH]; simpl; [reflexivity|].
  intros H. apply orb_false_iff in H as [H1 H2].
  rewrite H1. simpl. now rewrite IH.
Qed.

(** C6: the purge pass over the items [l] of a service type, distinct
    objects of the heap, on an engine with a backend.  An item whose
    [updated] flag is false gets its error count incremented and is removed
    exactly when the incremented count exceeds [m_unicastErrorThreshold]; an
    item whose flag is true gets the flag cleared and stays; the list that
    remains is stored; [updateServiceType] is called iff an item was
    removed; and the threshold is 2 by default. *)
Theorem purge_pass (s : State) (serviceType : string) (l : list ptr) :
  QMap.value (m_serviceItemsMap s) serviceType = Some l ->
  distinctItems s l -> m_jdns s <> None ->
  let removed := fun p => purged (m_unicastErrorThreshold s) (item_at s p) in
  let remaining := filter (fun p => negb (removed p)) l in
  exists s1 s',
    purgeLoop l s = Done (remaining, existsb removed l, s1)
    /\ purgeItems serviceType s = Done s'
    /\ s' = (if existsb removed l
             then updateServiceType serviceType
                    (set_serviceItemsMap
                       (QMap.insert (m_serviceItemsMap s1) serviceType
                                    remaining) s1)
             else s1)
    /\ (forall p, In p l -> Item.updated (item_at s p) = false ->
          Item.errorCount (item_at s' p) = (Item.errorCount (item_at s p) + 1)%Z
          /\ (removed p = true
              <-> (Item.errorCount (item_at s' p)
                   > m_unicastErrorThreshold s)%Z))
    /\ (forall p, In p l -> Item.updated (item_at s p) = true ->
          Item.updated (item_at s' p) = false /\ removed p = false)
    /\ QMap.value (m_serviceItemsMap s') serviceType = Some remaining
    /\ m_unicastErrorThreshold initialState = 2%Z.
Proof.
  intros Hl Hd Hj removed remaining.
  destruct (purgeLoop_spec l s Hd Hj) as (s1 & E & A1 & A2 & A3 & A4 & A5).
  fold removed in E. fold remaining in E.
  pose proof (purgeLoop_effect _ _ _ _ _ E) as ((T1 & _) & _).
  set (s' := if existsb removed l
             then updateServiceType serviceType
                    (set_serviceItemsMap
                       (QMap.insert (m_serviceItemsMap s1) serviceType
                                    remaining) s1)
             else s1).
  assert (Hh : heap s' = heap s1).
  { unfold s'. destruct (existsb removed l); [|reflexivity].
    match goal with
    | |- heap (updateServiceType ?ty ?t) = _ =>
        pose proof (updateServiceType_frame ty t) as F; cbv zeta in F;
        now destruct F as (_ & _ & _ & _ & _ & _ & _ & ->)
    end. }
  assert (Hi : forall p, item_at s' p = item_at s1 p).
  { intros p. unfold item_at. now rewrite Hh. }
  exists s1, s'. split; [exact E|]. split; [|split; [reflexivity|]].
  { unfold purgeItems. rewrite Hl, E. cbn [bind]. unfold s'.
    now destruct (existsb removed l). }
  split; [|split; [|split; [|reflexivity]]].
  - intros p Hp Hu. rewrite Hi, (A1 p Hp). unfold aged, removed, purged.
    rewrite Hu. cbn [negb andb Item.increaseErrorCount Item.setErrorCount
                     Item.errorCount].
    split; [reflexivity|]. rewrite Z.gtb_ltb, Z.ltb_lt. lia.
  - intros p Hp Hu. rewrite Hi, (A1 p Hp). unfold aged, removed, purged.
    rewrite Hu. auto.
  - unfold s'. destruct (existsb removed l) eqn:Ee.
    + match goal with
      | |- QMap.value (m_serviceItemsMap (updateServiceType ?ty ?t)) _ = _ =>
          pose proof (updateServiceType_frame ty t) as F; cbv zeta in F;
          destruct F as (_ & _ & F & _)
      end.
      rewrite F. sproj. now rewrite value_insert, key_eqb_refl.
    + rewrite T1, Hl. unfold remaining. now rewrite filter_all_kept.
Qed.

Lemma purge_pass_witness :
  let s := stateAfter Scenario.discovery in
  let l := [0%nat; 1%nat] in
  let removed := fun p => purged (m_unicastErrorThreshold s) (item_at s p) in
  let remaining := filter (fun p => negb (removed p)) l in
  exists s1 s',
    purgeLoop l s = Done (remaining, existsb removed l, s1)
    /\ purgeItems Scenario.httpType s = Done s'
    /\ s' = (if existsb removed l
             then updateServiceType Scenario.httpType
                    (set_serviceItemsMap
                       (QMap.insert (m_serviceItemsMap s1) Scenario.httpType
                                    remaining) s1)
             else s1)
    /\ (forall p, In p l -> Item.updated (item_at s p) = false ->
          Item.errorCount (item_at s' p) = (Item.errorCount (item_at s p) + 1)%Z
          /\ (removed p = true
              <-> (Item.errorCount (item_at s' p)
                   > m_unicastErrorThreshold s)%Z))
    /\ (forall p, In p l -> Item.updated (item_at s p) = true ->
          Item.updated (item_at s' p) = false /\ removed p = false)
    /\ QMap.value (m_serviceItemsMap s') Scenario.httpType = Some remaining
    /\ m_unicastErrorThreshold initialState = 2%Z.
Proof.
  apply (purge_pass (stateAfter Scenario.discovery) Scenario.httpType
                    [0%nat; 1%nat]).
  - vm_compute. reflexivity.
  - split.
    + repeat constructor; simpl; intuition discriminate.
    + vm_compute. intros p [<-|[<-|[]]]; lia.
  - vm_compute. discriminate.
Defined.

(** ** Projection to the user queries *)

Lemma allQueries_map f (lists : list ServiceList) s :
  allQueries (set_serviceLists (map (map (map f)) lists) s)
  = map f (List.concat (List.concat lists)).
Proof.
  unfold allQueries. sproj.
  rewrite <- !concat_map. reflexivity.
Qed.

Lemma updateServiceType_queries type s l :
  QMap.value (m_serviceItemsMap s) type = Some l ->
  allQueries (updateServiceType type s)
  = map (projectQuery s type l) (allQueries s).
Proof.
  intros H. unfold updateServiceType. rewrite H. apply allQueries_map.
Qed.

Lemma projectQuery_items s type l q :
  Query.serviceType q = type ->
  Query.items (projectQuery s type l q)
  = if (Query.queryType q =? QJDns.A)%Z then l else filter (passes s q) l.
Proof.
  intros <-. unfold projectQuery. rewrite String.eqb_refl.
  now destruct (Query.queryType q =? QJDns.A)%Z.
Qed.

Lemma finishSubQuery_lists id s p s1 :
  finishSubQuery id s = Done (p, s1) ->
  m_serviceLists s1 = m_serviceLists s.
Proof.
  unfold finishSubQuery. intros H.
  apply bind_Done in H as [s0 [E H]].
  apply queryCancel_Done in E as (j & Ej & ->).
  apply bind_Done in H as [p' [Ep H]]. now injection H as <- <-.
Qed.

Lemma subquery_branch_lists id type r s item s1 :
  isSubQueryType type ->
  (if (type =? QJDns.Ptr)%Z then ptrBranch id r s
   else if (type =? QJDns.Txt)%Z then txtBranch id r s
   else if (type =? QJDns.Srv)%Z then srvBranch id r s
   else if (type =? QJDns.A)%Z || (type =? QJDns.Aaaa)%Z
        then addressBranch id r s
   else Done (None, s)) = Done (item, s1) ->
  exists p, item = Some p /\ m_serviceLists s1 = m_serviceLists s.
Proof.
  intros [-> | [-> | [-> | ->]]]; cbn [Z.eqb Pos.eqb QJDns.Ptr QJDns.Txt QJDns.Srv
                                 QJDns.A QJDns.Aaaa orb]; intros H.
  - unfold txtBranch in H. apply bind_Done in H as [[p s0] [E H]].
    injection H as <- <-. apply finishSubQuery_lists in E. eauto.
  - unfold srvBranch in H. apply bind_Done in H as [[p s0] [E H]].
    apply bind_Done in H as [[newId s2] [E2 H]]. injection H as <- <-.
    apply finishSubQuery_lists in E.
    apply queryStart_Done in E2 as (j & Ej & -> & ->).
    exists p. split; [reflexivity|]. unfold registerSubQuery. sproj. exact E.
  - unfold addressBranch in H. apply bind_Done in H as [[p s0] [E H]].
    injection H as <- <-. apply finishSubQuery_lists in E. eauto.
  - unfold addressBranch in H. apply bind_Done in H as [[p s0] [E H]].
    injection H as <- <-. apply finishSubQuery_lists in E. eauto.
Qed.

(** C4, as the code has it: a TXT, SRV or A/AAAA answer leaves the lists of
    the user queries as they are while the instance it belongs to has an
    outstanding request; once that instance has none, the service type of
    the instance is projected, and every user query of that type then lists
    every instance of the type that passes the two filters (every instance,
    for a query of record type A), whether the outstanding requests of the
    listed instances are empty or not. *)
Theorem answer_projects_every_instance_of_type (s : State) (id type : Z)
  (r : QJDns.AnswerRecord) (s' : State) :
  isSubQueryType type -> handleRecord id type r s = Done s' ->
  exists p s1,
    s' = resolveItem (Some p) s1
    /\ m_serviceLists s1 = m_serviceLists s
    /\ (Item.hasOutstandingRequests (item_at s1 p) = true ->
        m_serviceLists s' = m_serviceLists s)
    /\ (Item.hasOutstandingRequests (item_at s1 p) = false ->
        forall l,
          QMap.value (m_serviceItemsMap s1) (Item.type (item_at s1 p))
          = Some l ->
          allQueries s'
          = map (projectQuery s1 (Item.type (item_at s1 p)) l) (allQueries s1)
          /\ forall q,
               Query.serviceType q = Item.type (item_at s1 p) ->
               Query.items (projectQuery s1 (Item.type (item_at s1 p)) l q)
               = if (Query.queryType q =? QJDns.A)%Z then l
                 else filter (passes s1 q) l).
Proof.
  intros Ht H. unfold handleRecord in H.
  apply bind_Done in H as [[item s1] [E H]]. injection H as <-.
  destruct (subquery_branch_lists _ _ _ _ _ _ Ht E) as (p & -> & L).
  exists p, s1. split; [reflexivity|]. split; [exact L|]. split.
  - intros Ho. unfold resolveItem. rewrite Ho. exact L.
  - intros Ho l Hl. unfold resolveItem. rewrite Ho. cbn [negb].
    unfold updateItem. split.
    + unfold allQueries at 1. sproj. fold (allQueries
        (updateServiceType (Item.type (item_at s1 p)) s1)).
      now apply updateServiceType_queries.
    + intros q Hq. now apply projectQuery_items.
Qed.

Lemma answer_projects_witness :
  let s := stateAfter Scenario.resolving in
  exists p s1,
    stateAfter Scenario.discovery = resolveItem (Some p) s1
    /\ m_serviceLists s1 = m_serviceLists s
    /\ (Item.hasOutstandingRequests (item_at s1 p) = true ->
        m_serviceLists (stateAfter Scenario.discovery) = m_serviceLists s)
    /\ (Item.hasOutstandingRequests (item_at s1 p) = false ->
        forall l,
          QMap.value (m_serviceItemsMap s1) (Item.type (item_at s1 p))
          = Some l ->
          allQueries (stateAfter Scenario.discovery)
          = map (projectQuery s1 (Item.type (item_at s1 p)) l) (allQueries s1)
          /\ forall q,
               Query.serviceType q = Item.type (item_at s1 p) ->
               Query.items (projectQuery s1 (Item.type (item_at s1 p)) l q)
               = if (Query.queryType q =? QJDns.A)%Z then l
                 else filter (passes s1 q) l).
Proof.
  apply (answer_projects_every_instance_of_type
           (stateAfter Scenario.resolving) 5 QJDns.A Scenario.addressRecord).
  - right. right. left. reflexivity.
  - vm_compute. reflexivity.
Defined.

(** C4 as stated fails: after the first instance is resolved the user query
    lists the second one too, whose TXT and SRV sub-queries are
    outstanding. *)
Lemma unresolved_instance_is_visible :
  ~ (forall s, reachable s -> visibleOnlyResolved s).
Proof.
  intros H.
  assert (R : reachable (stateAfter Scenario.discovery)).
  { eapply reachable_stateAfter. vm_compute. reflexivity. }
  specialize (H _ R (Query.setItems [0%nat; 1%nat] Scenario.userQuery)
                1%nat).
  assert (E : Item.outstandingRequests
                (item_at (stateAfter Scenario.discovery) 1) = []).
  { apply H.
    - vm_compute. left. reflexivity.
    - right. left. reflexivity. }
  vm_compute in E. discriminate.
Qed.

(** ** Stopping the engine *)

Lemma callsGrow_refl s : callsGrow s s.
Proof. intros c H. exact H. Qed.

Lemma callsGrow_trans s1 s2 s3 :
  callsGrow s1 s2 -> callsGrow s2 s3 -> callsGrow s1 s3.
Proof. intros A B c H. auto. Qed.

Lemma queryCancel_calls id s s' :
  queryCancel id s = Done s' ->
  callsGrow s s' /\ In (QJDns.QueryCancel id) (backendCalls s').
Proof.
  intros H. apply queryCancel_Done in H as (j & Ej & ->).
  unfold callsGrow, backendCalls. sproj. rewrite Ej.
  split.
  - intros c Hc. apply in_or_app. now left.
  - apply in_or_app. right. now left.
Qed.

Lemma backendCalls_ext s s' : m_jdns s' = m_jdns s -> callsGrow s s'.
Proof. intros E c. unfold backendCalls. now rewrite E. Qed.

Lemma stopItemQueriesLoop_calls item snapshot : forall s s',
  stopItemQueriesLoop item snapshot s = Done s' -> callsGrow s s'.
Proof.
  induction snapshot as [|[q0 p0] rest IH]; simpl; intros s s' H.
  - injection H as <-. apply callsGrow_refl.
  - destruct (Nat.eqb p0 item); [|eauto].
    apply bind_Done in H as [s1 [E H]].
    apply queryCancel_calls in E as [E _]. apply IH in H.
    eapply callsGrow_trans; [exact E|].
    eapply callsGrow_trans; [|exact H]. now apply backendCalls_ext.
Qed.

Lemma clearItems_calls type s s' :
  clearItems type s = Done s' -> callsGrow s s'.
Proof.
  unfold clearItems. intros H.
  destruct (QMap.value (m_serviceItemsMap s) type) as [l|];
    [|injection H as <-; apply callsGrow_refl].
  apply bind_Done in H as [s1 [E H]]. injection H as <-.
  assert (G : callsGrow s s1).
  { revert E. apply (forEach_preserves (fun t => callsGrow s t)).
    - intros p t t' _ Ht E. eapply callsGrow_trans; [exact Ht|].
      eapply stopItemQueriesLoop_calls; exact E.
    - apply callsGrow_refl. }
  eapply callsGrow_trans; [exact G|].
  apply backendCalls_ext.
  match goal with
  | |- m_jdns (updateServiceType ?ty ?t) = _ =>
      pose proof (updateServiceType_frame ty t) as F; cbv zeta in F;
      now destruct F as (_ & _ & _ & _ & _ & _ & -> & _)
  end.
Qed.

Lemma projectQuery_empty s type q :
  Query.serviceType (projectQuery s type [] q) = Query.serviceType q
  /\ (Query.items (projectQuery s type [] q) = Query.items q
      \/ (Query.serviceType q = type
          /\ Query.items (projectQuery s type [] q) = [])).
Proof.
  unfold projectQuery.
  destruct (String.eqb_spec (Query.serviceType q) type) as [E|E]; [|auto].
  destruct (Query.queryType q =? QJDns.A)%Z; simpl; auto.
Qed.

Lemma clearItems_queries type s s' :
  clearItems type s = Done s' ->
  emptiesOnly type s s'
  /\ (QMap.contains (m_serviceItemsMap s) type = true ->
      listsNothing type s').
Proof.
  unfold clearItems. intros H.
  destruct (QMap.value (m_serviceItemsMap s) type) as [l|] eqn:El.
  - apply bind_Done in H as [s1 [E H]]. injection H as <-.
    apply stopItemQueries_list_frame in E as (_ & _ & _ & L & _).
    match goal with
    | |- context [updateServiceType type ?t] =>
        assert (Hq : allQueries (updateServiceType type t)
                     = map (projectQuery t type []) (allQueries s))
    end.
    { rewrite (updateServiceType_queries type _ []).
      - unfold allQueries. sproj. now rewrite L.
      - sproj. now rewrite value_insert, key_eqb_refl. }
    split.
    + intros q' Hq'. rewrite Hq in Hq'. apply in_map_iff in Hq'
        as (q & <- & Hin).
      exists q. split; [exact Hin|]. apply projectQuery_empty.
    + intros _ q' Hq' Ht. rewrite Hq in Hq'. apply in_map_iff in Hq'
        as (q & <- & Hin).
      match goal with
      | |- context [projectQuery ?t type [] q] =>
          destruct (projectQuery_empty t type q) as (P1 & [P2|[_ P2]])
      end; [|exact P2].
      rewrite P1 in Ht. unfold projectQuery. rewrite Ht, String.eqb_refl.
      now destruct (Query.queryType q =? QJDns.A)%Z.
  - injection H as <-. split.
    + intros q' Hq'. exists q'. auto.
    + intros Hc. apply contains_true in Hc as [l Hl]. congruence.
Qed.

Lemma emptiesOnly_listsNothing type u s s' :
  emptiesOnly type s s' -> listsNothing u s -> listsNothing u s'.
Proof.
  intros H P q' Hq' Ht. destruct (H q' Hq') as (q & Hin & Es & [Ei|[_ Ei]]).
  - rewrite Ei. apply P; congruence.
  - exact Ei.
Qed.

Lemma allQueries_ext s s' :
  m_serviceLists s' = m_serviceLists s -> allQueries s' = allQueries s.
Proof. unfold allQueries. now intros ->. Qed.

(** One [stopQuery]: the backend is told to cancel the scan, the scans of
    the other types stay, and the user queries of the type list nothing. *)
Lemma stopQuery_stops ex type s s' :
  WFx ex s -> stopQuery type s = Done s' ->
  callsGrow s s'
  /\ (forall id, In (id, type) (m_queryIdServiceMap s) ->
                 In (QJDns.QueryCancel id) (backendCalls s'))
  /\ (forall id u, In (id, u) (m_queryIdServiceMap s) -> u <> type ->
                   In (id, u) (m_queryIdServiceMap s'))
  /\ emptiesOnly type s s'
  /\ ((exists id, In (id, type) (m_queryIdServiceMap s)) ->
      listsNothing type s').
Proof.
  unfold stopQuery. intros W H.
  destruct (findQuery type s) as [id|] eqn:Ef.
  - apply findQuery_Some in Ef.
    apply bind_Done in H as [s1 [E H]].
    pose proof (queryCancel_calls _ _ _ E) as [C1 C2].
    apply queryCancel_Done in E as (j & Ej & ->).
    pose proof (clearItems_calls _ _ _ H) as C3.
    pose proof (clearItems_queries _ _ _ H) as [Q1 Q2].
    apply clearItems_effect in H as (_ & _ & _ & M & _).
    sproj_in M.
    split; [|split; [|split; [|split]]].
    + eapply callsGrow_trans; [exact C1|].
      eapply callsGrow_trans; [|exact C3]. now apply backendCalls_ext.
    + intros id' Hin. rewrite (wf_uniq W _ _ _ Hin Ef).
      apply C3. exact C2.
    + intros id' u Hin Hu. rewrite M. apply In_remove. split; [exact Hin|].
      intros ->. apply Hu. eapply wf_fun; eauto.
    + exact Q1.
    + intros _. apply Q2. sproj. eapply wf_key; eauto.
  - injection H as <-. pose proof (findQuery_None _ _ Ef) as Hno.
    split; [apply callsGrow_refl|]. split; [|split; [|split]].
    + intros id Hin. now apply Hno in Hin.
    + auto.
    + intros q' Hq'. exists q'. auto.
    + intros [id Hin]. now apply Hno in Hin.
Qed.

Lemma stopQueries_stop l : forall s s',
  WF s -> forEach stopQuery l s = Done s' ->
  callsGrow s s'
  /\ (forall id u, In (id, u) (m_queryIdServiceMap s) -> In u l ->
        In (QJDns.QueryCancel id) (backendCalls s')
        /\ listsNothing u s')
  /\ (forall u, listsNothing u s -> listsNothing u s').
Proof.
  induction l as [|x l IH]; simpl; intros s s' W H.
  - injection H as <-. split; [apply callsGrow_refl|]. split; [tauto|auto].
  - apply bind_Done in H as [s1 [E H]].
    pose proof (stopQuery_WFx _ _ _ _ W E) as W1.
    destruct (stopQuery_stops _ _ _ _ W E) as (C1 & K1 & M1 & Q1 & P1).
    destruct (IH _ _ W1 H) as (C2 & K2 & P2).
    split; [eapply callsGrow_trans; eauto|]. split.
    + intros id u Hin Hu.
      destruct (String.eqb_spec u x) as [->|Hne].
      * split; [apply C2, K1; exact Hin|].
        apply P2, P1. eauto.
      * destruct Hu as [->|Hu]; [congruence|].
        apply K2; auto.
    + intros u Pu. apply P2. eapply emptiesOnly_listsNothing; eauto.
Qed.

(** C10: in a reachable state where the engine runs on an open network,
    [setRunning(false)] returns; the backend is told to cancel the scan of
    every service type; no scan and no sub-query stays in the registry;
    every instance table is emptied; and every user query whose service
    type had a scan lists nothing afterwards. *)
Theorem stopping_empties_tables_and_lists (s : State) :
  reachable s -> m_running s = true -> m_networkReady s = true ->
  exists s',
    setRunning false s = Done s'
    /\ m_running s' = false
    /\ (forall id type, In (id, type) (m_queryIdServiceMap s) ->
          In (QJDns.QueryCancel id) (backendCalls s'))
    /\ registryEmpty s' /\ tablesEmpty s'
    /\ (forall q, In q (allQueries s') ->
          (exists id, In (id, Query.serviceType q) (m_queryIdServiceMap s)) ->
          Query.items q = []).
Proof.
  intros R Er En. apply reachable_Inv in R. pose proof (inv_wf R) as W.
  assert (Hj : m_jdns s <> None) by now apply (inv_network R).
  unfold setRunning. rewrite Er. cbn [Bool.eqb]. sproj. rewrite En.
  cbn [negb].
  match goal with
  | |- context [stopQueries ?t] => set (t0 := t)
  end.
  assert (F : m_queryIdServiceMap t0 = m_queryIdServiceMap s
              /\ m_serviceItemsMap t0 = m_serviceItemsMap s
              /\ m_jdns t0 = m_jdns s /\ m_running t0 = false
              /\ WF t0).
  { unfold t0. destruct (isUnicast (set_running false s)); sproj;
      repeat split; auto;
      (eapply WFx_ext; [| | | | |exact W]; reflexivity). }
  destruct F as (F1 & F2 & F3 & F4 & W0).
  destruct (stopQueries_total t0) as [s' E]; [congruence|].
  exists s'. split; [exact E|].
  pose proof (stopQueries_effect _ _ W0 E) as (W1 & (C & _) & Re & Te).
  apply config_fields in C as (C1 & _).
  unfold stopQueries in E.
  destruct (stopQueries_stop _ _ _ W0 E) as (_ & K & _).
  assert (Hkey : forall id type,
             In (id, type) (m_queryIdServiceMap s) ->
             In (id, type) (m_queryIdServiceMap t0)
             /\ In type (QMap.keys (m_serviceItemsMap t0))).
  { intros id type Hin. rewrite F1, F2. split; [exact Hin|].
    apply In_keys, contains_true. eapply wf_key; eauto. }
  split; [congruence|]. split; [|split; [exact Re|split; [exact Te|]]].
  - intros id type Hin. destruct (Hkey _ _ Hin) as [H1 H2].
    now apply (K _ _ H1 H2).
  - intros q Hq [id Hin]. destruct (Hkey _ _ Hin) as [H1 H2].
    destruct (K _ _ H1 H2) as [_ P]. now apply P.
Qed.

Lemma stopping_witness :
  let s := stateAfter Scenario.discovery in
  exists s',
    setRunning false s = Done s'
    /\ m_running s' = false
    /\ (forall id type, In (id, type) (m_queryIdServiceMap s) ->
          In (QJDns.QueryCancel id) (backendCalls s'))
    /\ registryEmpty s' /\ tablesEmpty s'
    /\ (forall q, In q (allQueries s') ->
          (exists id, In (id, Query.serviceType q) (m_queryIdServiceMap s)) ->
          Query.items q = []).
Proof.
  apply stopping_empties_tables_and_lists.
  - eapply reachable_stateAfter. vm_compute. reflexivity.
  - vm_compute. reflexivity.
  - vm_compute. reflexivity.
Defined.

(* ================================================================== *)
(** * Further properties of the engine                                 *)
(* ================================================================== *)

(** ** Answers the registry holds no item for *)

Lemma finishSubQuery_no_item id s :
  QMap.value (m_queryIdItemMap s) id = None ->
  finishSubQuery id s = NullDeref.
Proof.
  unfold finishSubQuery. intros E. rewrite E.
  destruct (queryCancel id s); reflexivity.
Qed.

Lemma handleRecord_no_item id type r s :
  isSubQueryType type ->
  QMap.value (m_queryIdItemMap s) id = None ->
  handleRecord id type r s = NullDeref.
Proof.
  intros T E. unfold handleRecord, txtBranch, srvBranch, addressBranch.
  rewrite (finishSubQuery_no_item _ _ E).
  destruct T as [-> | [-> | [-> | ->]]]; reflexivity.
Qed.

Lemma answer_without_item id r rest s :
  isSubQueryType (recordedType id s) ->
  QMap.value (m_queryIdItemMap s) id = None ->
  resultsReady id (r :: rest) s = NullDeref.
Proof.
  intros T E. unfold resultsReady. cbn [forEach].
  now rewrite (handleRecord_no_item _ _ r _ T E).
Qed.

Lemma finishSubQuery_consumes id s p s1 :
  finishSubQuery id s = Done (p, s1) ->
  QMap.value (m_queryIdItemMap s1) id = None /\ nextId s1 = nextId s.
Proof.
  unfold finishSubQuery. intros H.
  apply bind_Done in H as [s0 [E H]].
  apply queryCancel_Done in E as (j & Ej & ->).
  apply bind_Done in H as [p' [_ H]]. injection H as <- <-. sproj.
  split.
  - now rewrite value_remove, key_eqb_refl.
  - unfold nextId. sproj. now rewrite Ej.
Qed.

Lemma resolveItem_items item s :
  m_queryIdItemMap (resolveItem item s) = m_queryIdItemMap s.
Proof.
  pose proof (resolveItem_frame item s) as F. cbv zeta in F. tauto.
Qed.

Lemma handleRecord_consumes id type r s s1 :
  isSubQueryType type ->
  (type = QJDns.Srv -> nextId s <> Some id) ->
  handleRecord id type r s = Done s1 ->
  QMap.value (m_queryIdItemMap s1) id = None.
Proof.
  intros T Hf H. unfold handleRecord in H.
  apply bind_Done in H as [[item s0] [E H]]. injection H as <-.
  rewrite resolveItem_items.
  destruct T as [-> | [-> | [-> | ->]]]; cbn [Z.eqb Pos.eqb QJDns.Ptr
    QJDns.Txt QJDns.Srv QJDns.A QJDns.Aaaa orb] in E.
  - unfold txtBranch in E. apply bind_Done in E as [[p s2] [E H]].
    injection H as <- <-. sproj. now apply finishSubQuery_consumes in E.
  - unfold srvBranch in E. apply bind_Done in E as [[p s2] [E H]].
    apply finishSubQuery_consumes in E as [E N].
    apply bind_Done in H as [[newId s3] [Q H]]. injection H as <- <-.
    apply queryStart_Done in Q as (j & Ej & -> & ->).
    unfold registerSubQuery. sproj. rewrite value_insert.
    destruct (key_eqb (QJDns.next_id j) id) eqn:K; [|exact E].
    apply key_eqb_eq in K. exfalso. apply Hf; [reflexivity|].
    rewrite <- N. unfold nextId. rewrite Ej. simpl. now f_equal.
  - unfold addressBranch in E. apply bind_Done in E as [[p s2] [E H]].
    injection H as <- <-. sproj. now apply finishSubQuery_consumes in E.
  - unfold addressBranch in E. apply bind_Done in E as [[p s2] [E H]].
    injection H as <- <-. sproj. now apply finishSubQuery_consumes in E.
Qed.

(** X2: an answer that carries two or more records to a TXT, SRV, A or AAAA
    query dereferences the null item: the first record takes the query id
    out of [m_queryIdItemMap], the record type [resultsReady] read before
    the loop still sends the second record to the same branch, and the item
    looked up there is null.  For an SRV query the id must not be the one
    the backend hands out next. *)
Theorem second_record_dereferences_null (s : State) (id : Z)
  (r1 r2 : QJDns.AnswerRecord) (rest : QJDns.Response) :
  isSubQueryType (recordedType id s) ->
  (recordedType id s = QJDns.Srv -> nextId s <> Some id) ->
  resultsReady id (r1 :: r2 :: rest) s = NullDeref.
Proof.
  intros T Hf. unfold resultsReady. cbn [forEach].
  destruct (handleRecord id (recordedType id s) r1 s) as [s1|] eqn:E;
    [|reflexivity].
  cbn [bind].
  apply handleRecord_consumes in E; auto.
  now rewrite (handleRecord_no_item _ _ r2 _ T E).
Qed.

Lemma second_record_witness :
  resultsReady 5 [Scenario.addressRecord; Scenario.addressRecord]
               (stateAfter Scenario.resolving)
  = NullDeref.
Proof.
  apply second_record_dereferences_null.
  - vm_compute. auto.
  - vm_compute. discriminate.
Defined.

(** ** The filter predicate *)

Lemma filter_true_id {A : Type} (l : list A) : filter (fun _ => true) l = l.
Proof. induction l as [|x l IH]; simpl; congruence. Qed.

Lemma filter_twice {A : Type} (f g : A -> bool) (l : list A) :
  filter g (filter f l) = filter (fun x => f x && g x) l.
Proof.
  induction l as [|x l IH]; simpl; [reflexivity|].
  destruct (f x); simpl; [destruct (g x)|]; congruence.
Qed.

(** Filtering by one pattern after the other keeps the records every pattern
    is found in. *)
Lemma successive_filters (pats : list string) : forall l : list string,
  fold_left (fun txt pattern => filterTxt pattern txt) pats l
  = filter (fun txt => forallb (fun pattern => QRegExp.contains pattern txt)
                               pats) l.
Proof.
  induction pats as [|p pats IH]; intros l; simpl.
  - now rewrite filter_true_id.
  - rewrite IH. unfold filterTxt. apply filter_twice.
Qed.

Lemma filter_nonempty {A : Type} (f : A -> bool) (l : list A) :
  filter f l <> [] <-> exists x, In x l /\ f x = true.
Proof.
  split.
  - intros H. destruct (filter f l) as [|x r] eqn:E; [contradiction|].
    exists x. apply filter_In. rewrite E. now left.
  - intros [x Hx] E. apply filter_In in Hx. rewrite E in Hx. contradiction.
Qed.

Lemma txt_part_one_record (pats txts : list string) :
  fold_left (fun txt pattern => filterTxt pattern txt) pats txts <> []
  <-> exists txt, In txt txts
        /\ forall pattern, In pattern pats ->
                           QRegExp.contains pattern txt = true.
Proof.
  rewrite successive_filters, filter_nonempty.
  split; intros [txt [H1 H2]]; exists txt; split; auto.
  - now apply forallb_forall.
  - now apply forallb_forall.
Qed.

(** X3: the filter predicate holds iff (the name pattern is empty or is found
    in the name of the instance) and (there is no TXT pattern, or one and
    the same TXT record of the instance has every TXT pattern found in it).
    An instance without TXT record is rejected as soon as the filter has a
    TXT pattern, whatever the pattern. *)
Theorem txt_patterns_match_one_record (s : State) (item : ptr)
  (f : Filter.t) :
  filterServiceDiscoveryItem s item f = true
  <-> (Filter.name f = EmptyString
       \/ QRegExp.contains (Filter.name f) (Item.name (item_at s item)) = true)
      /\ (Filter.txtRecords f = []
          \/ exists txt, In txt (Item.txtRecords (item_at s item))
               /\ forall pattern, In pattern (Filter.txtRecords f) ->
                                  QRegExp.contains pattern txt = true).
Proof.
  unfold filterServiceDiscoveryItem.
  rewrite <- txt_part_one_record, <- name_part_holds, <- txt_part_holds.
  destruct (String.eqb (Filter.name f) EmptyString
            || QRegExp.contains (Filter.name f) (Item.name (item_at s item)));
    simpl; [tauto|].
  split; [discriminate|]. intros [H _]. discriminate.
Qed.

Lemma forallb_same_members {A : Type} (f : A -> bool) (l1 l2 : list A) :
  (forall x, In x l1 <-> In x l2) -> forallb f l1 = forallb f l2.
Proof.
  intros H. apply eq_true_iff_eq. rewrite !forallb_forall.
  split; intros G x Hx; apply G; now apply H.
Qed.

(** X4: the TXT patterns of a filter act as a set: two filters with the same
    name pattern and the same TXT patterns, in whatever order and however
    often repeated, accept the same instances. *)
Theorem txt_patterns_act_as_set (s : State) (item : ptr) (f g : Filter.t) :
  Filter.name f = Filter.name g ->
  (forall pattern, In pattern (Filter.txtRecords f)
                   <-> In pattern (Filter.txtRecords g)) ->
  filterServiceDiscoveryItem s item f = filterServiceDiscoveryItem s item g.
Proof.
  intros Hn Hp. unfold filterServiceDiscoveryItem. rewrite Hn.
  destruct (negb _); [reflexivity|].
  rewrite !successive_filters.
  assert (Hi : isEmpty (Filter.txtRecords f) = isEmpty (Filter.txtRecords g)).
  { destruct (Filter.txtRecords f) as [|a l], (Filter.txtRecords g) as [|b m];
      simpl; auto.
    - destruct (proj2 (Hp b)); now left.
    - destruct (proj1 (Hp a)); now left. }
  rewrite Hi. destruct (negb _); [|reflexivity].
  erewrite filter_ext; [reflexivity|].
  intros txt. now apply forallb_same_members.
Qed.

Lemma txt_patterns_act_as_set_witness :
  let s := oneItemState "printer" ["path=/cgi"; "rev=2"]%string in
  filterServiceDiscoveryItem s 0 (Filter.mk "" ["path=*"; "*cgi"]%string)
  = filterServiceDiscoveryItem s 0
      (Filter.mk "" ["*cgi"; "path=*"; "*cgi"]%string).
Proof.
  apply txt_patterns_act_as_set.
  - reflexivity.
  - intros pattern. simpl. tauto.
Defined.

(** ** The instance table *)

Lemma find_none_forall {A : Type} (f : A -> bool) (l : list A) :
  find f l = None -> forall x, In x l -> f x = false.
Proof. intros H x Hx. exact (find_none f l H x Hx). Qed.

Lemma find_app_fresh (f g : ptr -> bool) (l : list ptr) (p : ptr) :
  find f l = None -> g p = true ->
  (forall x, In x l -> x <> p -> g x = f x) ->
  find g (l ++ [p]) = Some p.
Proof.
  induction l as [|x l IH]; simpl; intros Hn Hp Hx.
  - now rewrite Hp.
  - destruct (f x) eqn:Fx; [discriminate|].
    destruct (Nat.eq_dec x p) as [->|N].
    + now rewrite Hp.
    + rewrite (Hx x); auto. rewrite Fx. apply IH; auto.
Qed.

Lemma addItem_getItem name type s l :
  QMap.value (m_serviceItemsMap s) type = Some l ->
  exists p s1,
    addItem name type s = (Some p, s1)
    /\ getItem name type s1 = Some p
    /\ Item.name (item_at s1 p) = name.
Proof.
  intros Ev. unfold addItem. rewrite Ev.
  destruct (find (hasName s name) l) as [p|] eqn:Ef.
  - exists p, s. split; [reflexivity|]. unfold getItem. rewrite Ev.
    split; [exact Ef|]. apply find_some in Ef as [_ Ef].
    now apply String.eqb_eq in Ef.
  - unfold new_item. sproj.
    eexists _, _. split; [reflexivity|].
    match goal with |- getItem _ _ ?X = _ /\ _ => set (s1 := X) end.
    assert (Hnew : item_at s1 (List.length (heap s))
                   = Item.setType type (Item.setName name Item.blank)).
    { unfold item_at, s1. sproj. rewrite app_nth2; [|lia].
      now rewrite Nat.sub_diag. }
    split.
    + unfold getItem. unfold s1 at 1. sproj.
      rewrite value_insert, key_eqb_refl.
      apply find_app_fresh with (f := hasName s name); auto.
      * unfold hasName. rewrite Hnew. simpl. apply String.eqb_refl.
      * intros x _ N. unfold hasName, item_at, s1. sproj.
        destruct (Nat.lt_ge_cases x (List.length (heap s))) as [L|G].
        -- now rewrite app_nth1.
        -- rewrite !nth_overflow; auto. rewrite length_app. simpl. lia.
    + now rewrite Hnew.
Qed.

(** X5: [addItem] returns null, and changes nothing, exactly when the service
    type has no instance table.  Otherwise it returns an item of the given
    name that [getItem] finds under that name afterwards, and adding the
    same name again returns the same item and allocates nothing. *)
Theorem add_then_get_item (s : State) (name type : string) :
  (QMap.contains (m_serviceItemsMap s) type = false ->
   addItem name type s = (None, s) /\ getItem name type s = None)
  /\ (QMap.contains (m_serviceItemsMap s) type = true ->
      exists p s1,
        addItem name type s = (Some p, s1)
        /\ getItem name type s1 = Some p
        /\ Item.name (item_at s1 p) = name
        /\ addItem name type s1 = (Some p, s1)).
Proof.
  split; intros C.
  - apply contains_false in C. unfold addItem, getItem. now rewrite C.
  - apply contains_true in C as [l Ev].
    destruct (addItem_getItem name type s l Ev) as (p & s1 & E & G & N).
    exists p, s1. split; [exact E|]. split; [exact G|]. split; [exact N|].
    unfold getItem in G. unfold addItem.
    destruct (QMap.value (m_serviceItemsMap s1) type); [|discriminate].
    now rewrite G.
Qed.

(** ** The calls an operation makes into the backend *)

Lemma backendLogs_refl kind s : backendLogs kind s s.
Proof.
  unfold backendLogs. destruct (m_jdns s) as [j|]; [|exact I].
  split; [reflexivity|]. split; [lia|]. exists []. now rewrite app_nil_r.
Qed.

Lemma backendLogs_trans kind s1 s2 s3 :
  backendLogs kind s1 s2 -> backendLogs kind s2 s3 -> backendLogs kind s1 s3.
Proof.
  unfold backendLogs.
  destruct (m_jdns s1) as [j1|], (m_jdns s2) as [j2|], (m_jdns s3) as [j3|];
    try tauto.
  intros (M1 & N1 & m1 & C1 & K1) (M2 & N2 & m2 & C2 & K2).
  split; [congruence|]. split; [lia|]. exists (m1 ++ m2).
  split; [now rewrite C2, C1, app_assoc|].
  rewrite forallb_app. now rewrite K1, K2.
Qed.

Lemma backendLogs_same kind s s' :
  m_jdns s' = m_jdns s -> backendLogs kind s s'.
Proof.
  intros E. unfold backendLogs. rewrite E.
  destruct (m_jdns s) as [j|]; [|exact I].
  split; [reflexivity|]. split; [lia|]. exists []. now rewrite app_nil_r.
Qed.

Lemma backendLogs_weaken (kind kind' : QJDns.Call -> bool) s s' :
  (forall c, kind c = true -> kind' c = true) ->
  backendLogs kind s s' -> backendLogs kind' s s'.
Proof.
  intros W. unfold backendLogs.
  destruct (m_jdns s) as [j|], (m_jdns s') as [j'|]; try tauto.
  intros (M & N & more & C & K). split; [exact M|]. split; [exact N|].
  exists more. split; [exact C|].
  apply forallb_forall. intros c Hc. apply W.
  now apply (proj1 (forallb_forall kind more) K).
Qed.

Lemma cancels_are_queries s s' :
  backendLogs isCancel s s' -> backendLogs isQueryCall s s'.
Proof. apply backendLogs_weaken. now intros []. Qed.

Lemma queries_are_calls s s' :
  backendLogs isQueryCall s s' -> backendLogs anyCall s s'.
Proof. apply backendLogs_weaken. reflexivity. Qed.

Lemma backendLogs_call kind c j s :
  m_jdns s = Some j -> kind c = true ->
  backendLogs kind s (set_jdns (Some (log_call c j)) s).
Proof.
  intros Ej K. unfold backendLogs. sproj. rewrite Ej. sproj.
  split; [reflexivity|]. split; [lia|]. exists [c]. split; [reflexivity|].
  simpl. now rewrite K.
Qed.

Lemma queryCancel_logs id s s' :
  queryCancel id s = Done s' -> backendLogs isCancel s s'.
Proof.
  intros H. apply queryCancel_Done in H as (j & Ej & ->).
  now apply backendLogs_call.
Qed.

Lemma queryStart_logs name type s id s' :
  queryStart name type s = Done (id, s') -> backendLogs isQueryCall s s'.
Proof.
  intros H. apply queryStart_Done in H as (j & Ej & -> & ->).
  unfold backendLogs. sproj. rewrite Ej. sproj.
  split; [reflexivity|]. split; [lia|].
  exists [QJDns.QueryStart name type (QJDns.next_id j)]. now split.
Qed.

Lemma forEach_logs {A : Type} kind (body : A -> State -> outcome State) l :
  (forall x s s', body x s = Done s' -> backendLogs kind s s') ->
  forall s s', forEach body l s = Done s' -> backendLogs kind s s'.
Proof.
  intros Hb s s' H. revert H.
  apply (forEach_preserves (fun t => backendLogs kind s t)).
  - intros x t t' _ L E. eapply backendLogs_trans; eauto.
  - apply backendLogs_refl.
Qed.

Lemma stopItemQueriesLoop_logs item snapshot : forall s s',
  stopItemQueriesLoop item snapshot s = Done s' -> backendLogs isCancel s s'.
Proof.
  induction snapshot as [|[q p] rest IH]; simpl; intros s s' H.
  - injection H as <-. apply backendLogs_refl.
  - destruct (Nat.eqb p item); [|now apply IH].
    apply bind_Done in H as [s1 [E H]].
    apply queryCancel_logs in E. apply IH in H.
    eapply backendLogs_trans; [exact E|].
    eapply backendLogs_trans; [|exact H].
    now apply backendLogs_same.
Qed.

Lemma stopItemQueries_logs item s s' :
  stopItemQueries item s = Done s' -> backendLogs isCancel s s'.
Proof. apply stopItemQueriesLoop_logs. Qed.

Lemma updateServiceType_jdns type s :
  m_jdns (updateServiceType type s) = m_jdns s.
Proof.
  pose proof (updateServiceType_frame type s) as F. cbv zeta in F. tauto.
Qed.

Lemma updateAllServiceTypes_jdns s :
  m_jdns (updateAllServiceTypes s) = m_jdns s.
Proof.
  pose proof (updateAllServiceTypes_frame s) as F. cbv zeta in F. tauto.
Qed.

Lemma relist_logs kind type l s :
  backendLogs kind s
    (updateServiceType type
       (set_serviceItemsMap (QMap.insert (m_serviceItemsMap s) type l) s)).
Proof. apply backendLogs_same. now rewrite updateServiceType_jdns. Qed.

Lemma clearItems_logs type s s' :
  clearItems type s = Done s' -> backendLogs isCancel s s'.
Proof.
  unfold clearItems. intros H.
  destruct (QMap.value (m_serviceItemsMap s) type) as [l|];
    [|injection H as <-; apply backendLogs_refl].
  apply bind_Done in H as [s1 [E H]]. injection H as <-.
  eapply backendLogs_trans; [|apply relist_logs].
  revert E. apply forEach_logs. intros x; apply stopItemQueries_logs.
Qed.

Lemma removeItem_logs name type s s' :
  removeItem name type s = Done s' -> backendLogs isCancel s s'.
Proof.
  unfold removeItem. intros H.
  destruct (QMap.value (m_serviceItemsMap s) type) as [l|];
    [|injection H as <-; apply backendLogs_refl].
  destruct (takeFirst (hasName s name) l) as [[item rest]|];
    [|injection H as <-; apply backendLogs_refl].
  apply bind_Done in H as [s1 [E H]]. injection H as <-.
  eapply backendLogs_trans; [|apply relist_logs].
  now apply stopItemQueries_logs in E.
Qed.

Lemma update_item_logs kind p f s : backendLogs kind s (update_item p f s).
Proof. now apply backendLogs_same. Qed.

Lemma purgeLoop_logs l : forall s l' modified s1,
  purgeLoop l s = Done (l', modified, s1) -> backendLogs isCancel s s1.
Proof.
  induction l as [|item rest IH]; simpl; intros s l' modified s1 H.
  - injection H as <- <- <-. apply backendLogs_refl.
  - apply bind_Done in H as [[[r m] s0] [E H]]. apply IH in E.
    eapply backendLogs_trans; [exact E|].
    destruct (negb (Item.updated (item_at s0 item))).
    + destruct (_ >? _)%Z.
      * apply bind_Done in H as [s3 [E3 H]]. injection H as <- <- <-.
        apply stopItemQueries_logs in E3.
        eapply backendLogs_trans; [apply update_item_logs|exact E3].
      * injection H as <- <- <-. apply update_item_logs.
    + injection H as <- <- <-. apply update_item_logs.
Qed.

Lemma purgeItems_logs type s s' :
  purgeItems type s = Done s' -> backendLogs isCancel s s'.
Proof.
  unfold purgeItems. intros H.
  destruct (QMap.value (m_serviceItemsMap s) type) as [l|];
    [|injection H as <-; apply backendLogs_refl].
  apply bind_Done in H as [[[r m] s1] [E H]]. apply purgeLoop_logs in E.
  destruct m; injection H as <-; [|exact E].
  eapply backendLogs_trans; [exact E|apply relist_logs].
Qed.

Lemma startQuery_logs type s s' :
  startQuery type s = Done s' -> backendLogs isQueryCall s s'.
Proof.
  unfold startQuery. intros H.
  destruct (findQuery type s); [injection H as <-; apply backendLogs_refl|].
  apply bind_Done in H as [[id s1] [E H]]. injection H as <-.
  apply queryStart_logs in E.
  eapply backendLogs_trans; [exact E|]. now apply backendLogs_same.
Qed.

Lemma stopQuery_logs type s s' :
  stopQuery type s = Done s' -> backendLogs isCancel s s'.
Proof.
  unfold stopQuery. intros H.
  destruct (findQuery type s); [|injection H as <-; apply backendLogs_refl].
  apply bind_Done in H as [s1 [E H]].
  apply queryCancel_logs in E. apply clearItems_logs in H.
  eapply backendLogs_trans; [exact E|].
  eapply backendLogs_trans; [|exact H]. now apply backendLogs_same.
Qed.

Lemma refreshQuery_logs type s s' :
  refreshQuery type s = Done s' -> backendLogs isQueryCall s s'.
Proof.
  unfold refreshQuery. intros H.
  destruct (findQuery type s); [|injection H as <-; apply backendLogs_refl].
  apply bind_Done in H as [s1 [E1 H]].
  apply bind_Done in H as [s2 [E2 H]].
  apply bind_Done in H as [[id s3] [E3 H]]. injection H as <-.
  apply queryCancel_logs, cancels_are_queries in E1.
  apply purgeItems_logs, cancels_are_queries in E2.
  apply queryStart_logs in E3.
  eapply backendLogs_trans; [exact E1|].
  eapply backendLogs_trans; [now apply backendLogs_same|].
  eapply backendLogs_trans; [exact E2|].
  eapply backendLogs_trans; [exact E3|]. now apply backendLogs_same.
Qed.

Lemma startQueries_logs s s' :
  startQueries s = Done s' -> backendLogs isQueryCall s s'.
Proof. apply forEach_logs. intros x; apply startQuery_logs. Qed.

Lemma stopQueries_logs s s' :
  stopQueries s = Done s' -> backendLogs isCancel s s'.
Proof. apply forEach_logs. intros x; apply stopQuery_logs. Qed.

Lemma unicastLookup_logs s s' :
  unicastLookup s = Done s' -> backendLogs isQueryCall s s'.
Proof. apply forEach_logs. intros x; apply refreshQuery_logs. Qed.

Lemma addServiceType_jdns type t s :
  m_jdns (addServiceType type t s) = m_jdns s.
Proof. unfold addServiceType. now destruct (QMap.contains _ _). Qed.

Lemma removeServiceType_logs type s s' :
  removeServiceType type s = Done s' -> backendLogs isCancel s s'.
Proof.
  unfold removeServiceType. intros H.
  destruct (negb _); [injection H as <-; apply backendLogs_refl|].
  apply bind_Done in H as [s1 [E H]]. injection H as <-.
  apply clearItems_logs in E.
  eapply backendLogs_trans; [exact E|]. now apply backendLogs_same.
Qed.

Lemma removeAllServiceTypes_logs s s' :
  removeAllServiceTypes s = Done s' -> backendLogs isCancel s s'.
Proof. apply forEach_logs. intros x; apply removeServiceType_logs. Qed.

Lemma updateServicesLoop_logs queries : forall old s old' s',
  updateServicesLoop queries old s = Done (old', s') ->
  backendLogs isQueryCall s s'.
Proof.
  induction queries as [|q rest IH]; simpl; intros old s old' s' H.
  - injection H as <- <-. apply backendLogs_refl.
  - destruct (negb _); [|now apply IH in H].
    apply bind_Done in H as [s2 [E H]]. apply IH in H.
    eapply backendLogs_trans; [|exact H].
    apply (backendLogs_trans _ _
             (addServiceType (Query.serviceType q) (Query.queryType q) s));
      [apply backendLogs_same; apply addServiceType_jdns|].
    destruct (live _); [now apply startQuery_logs in E|].
    injection E as <-. apply backendLogs_refl.
Qed.

Lemma removeLeftover_logs type s s' :
  removeLeftover type s = Done s' -> backendLogs isCancel s s'.
Proof.
  unfold removeLeftover. intros H.
  apply bind_Done in H as [s1 [E H]]. apply removeServiceType_logs in H.
  eapply backendLogs_trans; [|exact H].
  destruct (live s); [now apply stopQuery_logs in E|].
  injection E as <-. apply backendLogs_refl.
Qed.

Lemma updateServices_logs s s' :
  updateServices s = Done s' -> backendLogs isQueryCall s s'.
Proof.
  unfold updateServices. intros H.
  apply bind_Done in H as [[old s1] [E H]].
  apply bind_Done in H as [s2 [E2 H]]. injection H as <-.
  apply updateServicesLoop_logs in E.
  eapply backendLogs_trans; [exact E|].
  eapply backendLogs_trans;
    [|apply backendLogs_same; apply updateAllServiceTypes_jdns].
  apply cancels_are_queries. revert E2. apply forEach_logs.
  intros x; apply removeLeftover_logs.
Qed.

Lemma updateNameServers_logs s s' :
  updateNameServers s = Done s' -> backendLogs anyCall s s'.
Proof.
  unfold updateNameServers. intros H.
  destruct (m_jdns s) as [j|] eqn:Ej;
    [|injection H as <-; apply backendLogs_refl].
  destruct (negb _); [injection H as <-; apply backendLogs_refl|].
  cbv zeta in H.
  match type of H with
  | (if _ then _ else Done ?X) = _ => set (s1 := X) in *
  end.
  apply (backendLogs_trans _ _ s1);
    [now apply backendLogs_call|].
  destruct (m_running s1).
  - now apply queries_are_calls, unicastLookup_logs.
  - injection H as <-. apply backendLogs_refl.
Qed.

Lemma addItem_jdns name type s : m_jdns (snd (addItem name type s)) = m_jdns s.
Proof.
  unfold addItem. destruct (QMap.value _ _) as [l|]; [|reflexivity].
  destruct (find _ _); reflexivity.
Qed.

Lemma finishSubQuery_logs id s p s' :
  finishSubQuery id s = Done (p, s') -> backendLogs isCancel s s'.
Proof.
  unfold finishSubQuery. intros H.
  apply bind_Done in H as [s1 [E H]]. apply queryCancel_logs in E.
  apply bind_Done in H as [p' [_ H]]. injection H as <- <-.
  eapply backendLogs_trans; [exact E|]. now apply backendLogs_same.
Qed.

Lemma registerSubQuery_jdns newId t p s :
  m_jdns (registerSubQuery newId t p s) = m_jdns s.
Proof. reflexivity. Qed.

Lemma ptrBranch_logs id r s item s' :
  ptrBranch id r s = Done (item, s') -> backendLogs isQueryCall s s'.
Proof.
  unfold ptrBranch. intros H. destruct (_ >? _)%Z.
  - pose proof (addItem_jdns (instanceName r) (boundServiceType id s) s) as J.
    destruct (addItem _ _ s) as [it s1]. cbn [snd] in J.
    apply bind_Done in H as [[n1 s2] [E1 H]].
    apply bind_Done in H as [p [_ H]].
    apply bind_Done in H as [[n2 s4] [E2 H]]. injection H as <- <-.
    apply queryStart_logs in E1. apply queryStart_logs in E2.
    apply (backendLogs_trans _ _ s1); [now apply backendLogs_same|].
    apply (backendLogs_trans _ _ s2); [exact E1|].
    apply (backendLogs_trans _ _ s4); [exact E2|]. now apply backendLogs_same.
  - apply bind_Done in H as [s1 [E H]]. injection H as <- <-.
    now apply removeItem_logs, cancels_are_queries in E.
Qed.

Lemma txtBranch_logs id r s item s' :
  txtBranch id r s = Done (item, s') -> backendLogs isQueryCall s s'.
Proof.
  unfold txtBranch. intros H.
  apply bind_Done in H as [[p s1] [E H]]. injection H as <- <-.
  apply finishSubQuery_logs, cancels_are_queries in E.
  eapply backendLogs_trans; [exact E|apply update_item_logs].
Qed.

Lemma addressBranch_logs id r s item s' :
  addressBranch id r s = Done (item, s') -> backendLogs isQueryCall s s'.
Proof.
  unfold addressBranch. intros H.
  apply bind_Done in H as [[p s1] [E H]]. injection H as <- <-.
  apply finishSubQuery_logs, cancels_are_queries in E.
  eapply backendLogs_trans; [exact E|apply update_item_logs].
Qed.

Lemma srvBranch_logs id r s item s' :
  srvBranch id r s = Done (item, s') -> backendLogs isQueryCall s s'.
Proof.
  unfold srvBranch. intros H.
  apply bind_Done in H as [[p s1] [E H]].
  apply bind_Done in H as [[n s2] [E2 H]]. injection H as <- <-.
  apply finishSubQuery_logs, cancels_are_queries in E.
  apply queryStart_logs in E2.
  eapply backendLogs_trans; [exact E|].
  eapply backendLogs_trans; [exact E2|]. now apply backendLogs_same.
Qed.

Lemma handleRecord_logs id type r s s' :
  handleRecord id type r s = Done s' -> backendLogs isQueryCall s s'.
Proof.
  unfold handleRecord. intros H.
  apply bind_Done in H as [[item s1] [E H]]. injection H as <-.
  eapply backendLogs_trans;
    [|apply backendLogs_same; apply resolveItem_jdns].
  destruct (type =? QJDns.Ptr)%Z; [now apply ptrBranch_logs in E|].
  destruct (type =? QJDns.Txt)%Z; [now apply txtBranch_logs in E|].
  destruct (type =? QJDns.Srv)%Z; [now apply srvBranch_logs in E|].
  destruct (_ || _); [now apply addressBranch_logs in E|].
  injection E as <- <-. apply backendLogs_refl.
Qed.

Lemma resultsReady_logs id results s s' :
  resultsReady id results s = Done s' -> backendLogs isQueryCall s s'.
Proof. apply forEach_logs. intros x; apply handleRecord_logs. Qed.

(** ** Induction over the events *)

Lemma reachable_step e s s' : reachable s -> step e s = Done s' -> reachable s'.
Proof.
  intros [events H] E. exists (events ++ [e]). unfold run in *.
  rewrite forEach_app, H. simpl. now rewrite E.
Qed.

Lemma reachable_initialState : reachable initialState.
Proof. now exists []. Qed.

Lemma run_preserves (P : State -> Prop) :
  (forall e s s', Inv s -> P s -> step e s = Done s' -> P s') ->
  forall events s s', Inv s -> P s -> run events s = Done s' -> P s'.
Proof.
  intros Hs events s s' I p H.
  assert (G : Inv s' /\ P s'); [|tauto].
  revert H. unfold run.
  apply (forEach_preserves (fun t => Inv t /\ P t)); [|tauto].
  intros e t t' _ [It Pt] E. split; [eapply step_Inv; eauto|eauto].
Qed.

Lemma reachable_preserves (P : State -> Prop) :
  P initialState ->
  (forall e s s', Inv s -> P s -> step e s = Done s' -> P s') ->
  forall s, reachable s -> P s.
Proof.
  intros P0 Hs s [events H].
  eapply run_preserves; eauto. apply Inv_initialState.
Qed.

(** ** The backend and the timer *)

Lemma backendLogs_Some kind s s' j :
  m_jdns s = Some j -> backendLogs kind s s' ->
  exists j' more,
    m_jdns s' = Some j' /\ QJDns.mode j' = QJDns.mode j
    /\ (QJDns.next_id j <= QJDns.next_id j')%Z
    /\ QJDns.calls j' = QJDns.calls j ++ more
    /\ forallb kind more = true.
Proof.
  unfold backendLogs. intros Ej. rewrite Ej.
  destruct (m_jdns s') as [j'|]; [|contradiction].
  intros (M & N & more & C & K). eauto 10.
Qed.

Lemma backendLogs_back kind s s' j' :
  m_jdns s' = Some j' -> backendLogs kind s s' ->
  exists j more,
    m_jdns s = Some j /\ QJDns.mode j' = QJDns.mode j
    /\ (QJDns.next_id j <= QJDns.next_id j')%Z
    /\ QJDns.calls j' = QJDns.calls j ++ more
    /\ forallb kind more = true.
Proof.
  unfold backendLogs. intros Ej. rewrite Ej.
  destruct (m_jdns s) as [j|]; [|contradiction].
  intros (M & N & more & C & K). eauto 10.
Qed.

Lemma config_isUnicast s s' : config s' = config s -> isUnicast s' = isUnicast s.
Proof.
  intros C. apply config_fields in C as (_ & _ & _ & C & _).
  unfold isUnicast. now rewrite C.
Qed.

Lemma backendConfigured_more s s' j j' more :
  isUnicast s' = isUnicast s ->
  QJDns.mode j' = QJDns.mode j ->
  QJDns.calls j' = QJDns.calls j ++ more ->
  (isUnicast s = false -> forallb isQueryCall more = true) ->
  backendConfigured s j -> backendConfigured s' j'.
Proof.
  unfold backendConfigured, backendMode. intros U M C K [B1 B2].
  rewrite U, M, C. split; [exact B1|].
  destruct (isUnicast s).
  - destruct B2 as (servers & rest & ->). simpl. eauto.
  - rewrite forallb_app, B2. now apply K.
Qed.

Lemma Lifecycle_calls s s' :
  config s' = config s ->
  backendLogs anyCall s s' ->
  (isUnicast s = false -> backendLogs isQueryCall s s') ->
  Lifecycle s -> Lifecycle s'.
Proof.
  intros C L Q [B T]. pose proof (config_isUnicast _ _ C) as U.
  apply config_fields in C as (A1 & _ & A3 & _ & _ & A6).
  split.
  - intros j' Ej'.
    destruct (backendLogs_back _ _ _ _ Ej' L) as (j & more & Ej & M & _ & Cm & _).
    apply (backendConfigured_more s s' j j' more); auto.
    intros Um. apply Q in Um.
    destruct (backendLogs_back _ _ _ _ Ej' Um)
      as (j0 & more0 & Ej0 & _ & _ & Cm0 & K0).
    assert (j0 = j) by congruence. subst j0.
    rewrite Cm in Cm0. apply app_inv_head in Cm0. now subst.
  - now rewrite A6, A1, U, A3.
Qed.

Lemma Lifecycle_queries s s' :
  config s' = config s -> backendLogs isQueryCall s s' ->
  Lifecycle s -> Lifecycle s'.
Proof.
  intros C L. apply Lifecycle_calls; auto. now apply queries_are_calls.
Qed.

Lemma Lifecycle_ext s s' :
  m_jdns s' = m_jdns s -> m_running s' = m_running s ->
  m_lookupMode s' = m_lookupMode s -> m_lookupReady s' = m_lookupReady s ->
  m_unicastLookupTimer s' = m_unicastLookupTimer s ->
  Lifecycle s -> Lifecycle s'.
Proof.
  intros E1 E2 E3 E4 E5 [B T].
  assert (U : isUnicast s' = isUnicast s) by (unfold isUnicast; now rewrite E3).
  split.
  - intros j Ej. rewrite E1 in Ej. apply B in Ej.
    unfold backendConfigured, backendMode in *. now rewrite U.
  - now rewrite E5, E2, U, E4.
Qed.

Lemma Lifecycle_initialState : Lifecycle initialState.
Proof. split; [discriminate|reflexivity]. Qed.

Lemma Inv_no_backend s :
  Inv s -> m_jdns s = None ->
  m_lookupReady s = false /\ m_networkReady s = false.
Proof.
  intros I Ej. split.
  - destruct (m_lookupReady s) eqn:E; [|reflexivity].
    exfalso. now apply (inv_lookup I).
  - destruct (m_networkReady s) eqn:E; [|reflexivity].
    exfalso. now apply (inv_network I).
Qed.

Lemma Inv_with_backend s j :
  Inv s -> m_jdns s = Some j ->
  m_lookupReady s = true /\ m_networkReady s = true.
Proof.
  intros I Ej. split.
  - apply (inv_lookup I). congruence.
  - apply (inv_network I). congruence.
Qed.

Lemma Lifecycle_no_backend s :
  m_jdns s = None -> m_lookupReady s = false ->
  m_unicastLookupTimer s = false -> Lifecycle s.
Proof.
  intros Ej El Et. split.
  - intros j. congruence.
  - rewrite Et, El. now rewrite andb_false_r.
Qed.

(** The name servers are the first thing a fresh unicast backend is given. *)
Lemma updateNameServers_unicast s j s' :
  m_jdns s = Some j -> isUnicast s = true ->
  updateNameServers s = Done s' ->
  exists j' servers more,
    m_jdns s' = Some j' /\ QJDns.mode j' = QJDns.mode j
    /\ QJDns.calls j'
       = QJDns.calls j ++ QJDns.SetNameServers servers :: more.
Proof.
  unfold updateNameServers. intros Ej U H. rewrite Ej, U in H.
  cbn [negb] in H. cbv zeta in H.
  match type of H with
  | (if _ then _ else Done ?X) = _ => set (s1 := X) in *
  end.
  assert (E1 : m_jdns s1 = Some (log_call (QJDns.SetNameServers
            (if isEmpty (usableNameServers (m_nameServers s))
             then systemNameServers s
             else usableNameServers (m_nameServers s))) j)) by reflexivity.
  destruct (m_running s1).
  - apply unicastLookup_logs in H.
    destruct (backendLogs_Some _ _ _ _ E1 H) as (j' & more & Ej' & M & _ & C & _).
    exists j'. eexists. exists more. split; [exact Ej'|]. split; [exact M|].
    rewrite C. cbn [log_call QJDns.calls]. now rewrite <- app_assoc.
  - injection H as <-. eexists. eexists. exists []. split; [exact E1|].
    split; reflexivity.
Qed.

Lemma initializeMdns_lifecycle s ok s' :
  registryEmpty s -> tablesEmpty s -> m_jdns s = None ->
  m_unicastLookupTimer s = false ->
  initializeMdns true s = Done (ok, s') ->
  ok = true /\ Lifecycle s'.
Proof.
  unfold initializeMdns. intros R T Ej Et H. rewrite Ej in H.
  cbn [negb] in H. cbv zeta in H.
  match type of H with
  | context [set_lookupReady true ?t] => set (s1 := set_lookupReady true t) in *
  end.
  assert (W1 : WF s1) by (now apply WF_of_empty).
  assert (J1 : m_jdns s1 = Some (QJDns.mkHandle (backendMode s) 0 []))
    by reflexivity.
  assert (U1 : isUnicast s1 = isUnicast s) by reflexivity.
  apply bind_Done in H as [s2 [E2 H]].
  apply bind_Done in H as [s3 [E3 H]]. injection H as <- <-.
  split; [reflexivity|].
  (* after the name servers *)
  assert (G2 : WF s2 /\ config s2 = config s1 /\ m_queryIdServiceMap s2 = []
               /\ exists j2, m_jdns s2 = Some j2 /\ backendConfigured s2 j2).
  { destruct (isUnicast s1) eqn:Eu.
    - pose proof (updateNameServers_unicast _ _ _ J1 Eu E2)
        as (j2 & servers & more & Ej2 & M2 & C2).
      apply updateNameServers_effect in E2 as (W2 & [S2 _] & Q2); auto.
      split; [exact W2|]. split; [exact S2|]. split; [apply Q2, R|].
      exists j2. split; [exact Ej2|].
      unfold backendConfigured, backendMode.
      rewrite (config_isUnicast _ _ S2), Eu, M2, C2.
      cbn [QJDns.mode QJDns.calls app]. unfold backendMode.
      rewrite <- U1. eauto.
    - injection E2 as <-. split; [exact W1|]. split; [reflexivity|].
      split; [apply R|]. eexists. split; [exact J1|].
      unfold backendConfigured, backendMode. rewrite Eu.
      cbn [QJDns.mode QJDns.calls forallb]. unfold backendMode.
      rewrite <- U1. auto. }
  destruct G2 as (W2 & C2 & M2 & j2 & Ej2 & B2).
  assert (T2 : m_unicastLookupTimer s2 = false).
  { apply config_fields in C2 as (_ & _ & _ & _ & _ & C2). now rewrite C2. }
  assert (L2 : m_lookupReady s2 = true).
  { apply config_fields in C2 as (_ & _ & C2 & _). now rewrite C2. }
  destruct (m_running s2) eqn:Er.
  - apply bind_Done in E3 as [s4 [E4 E3]].
    pose proof (updateServices_logs _ _ E4) as L4.
    apply updateServices_effect in E4 as (W4 & [C4 J4] & Q4); auto.
    2:{ intros _. exact M2. }
    pose proof (config_isUnicast _ _ C4) as U4.
    assert (F4 : Lifecycle (set_unicastLookupTimer (isUnicast s4) s4)).
    { pose proof (config_fields _ _ C4) as (A1 & _ & A3 & _ & _ & A6).
      split.
      - intros j Ej'. change (m_jdns s4 = Some j) in Ej'.
        destruct (backendLogs_back _ _ _ _ Ej' L4)
          as (j0 & more & Ej0 & M & _ & Cm & K).
        assert (j0 = j2) by congruence. subst j0.
        apply (backendConfigured_more s2 _ j2 j more); auto.
      - sproj. change (isUnicast (set_unicastLookupTimer (isUnicast s4) s4))
          with (isUnicast s4).
        rewrite A1, Er, A3, L2. now destruct (isUnicast s4). }
    destruct (isUnicast s4) eqn:Eu4; injection E3 as <-; [exact F4|].
    eapply Lifecycle_ext; [| | | | |exact F4]; try reflexivity.
    sproj. apply config_fields in C4 as (_ & _ & _ & _ & _ & C4).
    now rewrite C4, T2.
  - injection E3 as <-. split.
    + intros j Ej'. assert (j = j2) by congruence. now subst.
    + now rewrite T2, Er.
Qed.

Lemma deinitializeMdns_lifecycle s j s' :
  Inv s -> Lifecycle s -> m_jdns s = Some j ->
  deinitializeMdns s = Done s' -> m_unicastLookupTimer s' = false.
Proof.
  unfold deinitializeMdns. intros I [B T] Ej H. rewrite Ej in H.
  apply bind_Done in H as [s1 [E H]]. injection H as <-. sproj.
  destruct (m_running s) eqn:Er.
  - apply bind_Done in E as [s2 [E2 E]]. injection E as <-. sproj.
    apply removeAllServiceTypes_effect in E2 as (C & _).
    apply config_fields in C as (_ & _ & _ & _ & _ & C). rewrite C.
    destruct (isUnicast s) eqn:Eu; [reflexivity|].
    rewrite T. now rewrite andb_false_r.
  - injection E as <-. now rewrite T.
Qed.

Lemma setRunning_Lifecycle arg s s' :
  Inv s -> Lifecycle s -> setRunning arg s = Done s' -> Lifecycle s'.
Proof.
  unfold setRunning. intros I L H.
  destruct (Bool.eqb (m_running s) arg) eqn:Eb; [now injection H as <-|].
  sproj_in H.
  destruct (m_networkReady s) eqn:En; simpl in H.
  - assert (Hj : m_jdns s <> None) by now apply (inv_network I).
    destruct (m_jdns s) as [j|] eqn:Ej; [|contradiction].
    destruct (Inv_with_backend _ _ I Ej) as [El _].
    destruct arg.
    + assert (Er : m_running s = false) by (now destruct (m_running s)).
      apply bind_Done in H as [s2 [E H]].
      assert (W1 : WF (set_running true s)).
      { eapply WFx_ext; [| | | | |exact (inv_wf I)]; reflexivity. }
      pose proof (startQueries_logs _ _ E) as Lg.
      apply startQueries_effect in E as (W2 & (C & _)); auto.
      pose proof (config_isUnicast _ _ C) as U.
      change (isUnicast (set_running true s)) with (isUnicast s) in U.
      pose proof (config_fields _ _ C) as (A1 & _ & A3 & _ & _ & A6).
      sproj_all.
      assert (F : Lifecycle (set_unicastLookupTimer (isUnicast s2) s2)).
      { split.
        - intros j2 Ej2. change (m_jdns s2 = Some j2) in Ej2.
          destruct (backendLogs_back _ _ _ _ Ej2 Lg)
            as (j0 & more & Ej0 & M & _ & Cm & K).
          change (m_jdns s = Some j0) in Ej0.
          apply (backendConfigured_more s _ j0 j2 more); auto.
          now apply (lc_backend L).
        - sproj.
          change (isUnicast (set_unicastLookupTimer (isUnicast s2) s2))
            with (isUnicast s2).
          rewrite A1, A3, El. now destruct (isUnicast s2). }
      destruct (isUnicast s2) eqn:Eu; injection H as <-; [exact F|].
      eapply Lifecycle_ext; [| | | | |exact F]; try reflexivity.
      sproj. rewrite A6, (lc_timer L), Er. reflexivity.
    + assert (Er : m_running s = true) by (now destruct (m_running s)).
      match type of H with
      | stopQueries ?t = _ => set (s1 := t) in *
      end.
      assert (W1 : WF s1).
      { eapply WFx_ext; [| | | | |exact (inv_wf I)]; unfold s1;
          destruct (isUnicast (set_running false s)); reflexivity. }
      assert (L1 : Lifecycle s1).
      { split.
        - intros j1 Ej1.
          assert (Ej0 : m_jdns s = Some j1)
            by (rewrite <- Ej1; unfold s1;
                destruct (isUnicast (set_running false s)); reflexivity).
          apply (lc_backend L) in Ej0.
          unfold backendConfigured, backendMode in *.
          replace (isUnicast s1) with (isUnicast s); [exact Ej0|].
          unfold s1. destruct (isUnicast (set_running false s)); reflexivity.
        - unfold s1.
          change (isUnicast (set_running false s)) with (isUnicast s).
          destruct (isUnicast s) eqn:Eu; sproj; [reflexivity|].
          rewrite (lc_timer L), Eu. now rewrite andb_false_r. }
      pose proof (stopQueries_logs _ _ H) as Lg.
      apply stopQueries_effect in H as (W2 & (C & _) & _); auto.
      apply (Lifecycle_queries s1); auto. now apply cancels_are_queries.
  - injection H as <-.
    assert (Ej : m_jdns s = None).
    { destruct (m_jdns s) eqn:Ej; [|reflexivity].
      destruct (Inv_with_backend _ _ I Ej). congruence. }
    destruct (Inv_no_backend _ I Ej) as [El _].
    apply Lifecycle_no_backend; auto. sproj.
    rewrite (lc_timer L), El. now rewrite andb_false_r.
Qed.

Lemma networkSessionOpened_Lifecycle initialized s s' :
  Inv s -> Lifecycle s -> networkSessionOpened initialized s = Done s' ->
  Lifecycle s'.
Proof.
  unfold networkSessionOpened. intros I L H.
  apply bind_Done in H as [[ok s1] [E H]].
  destruct (m_jdns s) as [j|] eqn:Ej.
  - unfold initializeMdns in E. sproj_in E. rewrite Ej in E.
    injection E as <- <-. injection H as <-.
    eapply Lifecycle_ext; [| | | | |exact L]; reflexivity.
  - destruct (WF_no_backend _ (inv_wf I) Ej) as [R T].
    destruct (Inv_no_backend _ I Ej) as [El _].
    assert (Et : m_unicastLookupTimer s = false).
    { rewrite (lc_timer L), El. now rewrite andb_false_r. }
    destruct initialized.
    + apply initializeMdns_lifecycle in E as [-> F]; auto.
      now injection H as <-.
    + unfold initializeMdns in E. sproj_in E. rewrite Ej in E.
      injection E as <- <-. injection H as <-.
      now apply Lifecycle_no_backend.
Qed.

Lemma networkSessionClosed_Lifecycle s s' :
  Inv s -> Lifecycle s -> networkSessionClosed s = Done s' -> Lifecycle s'.
Proof.
  unfold networkSessionClosed. intros I L H.
  apply bind_Done in H as [s1 [E H]]. injection H as <-.
  destruct (m_jdns s) as [j|] eqn:Ej.
  - pose proof (deinitializeMdns_lifecycle _ _ _ I L Ej E) as Et.
    apply deinitializeMdns_effect in E as (J & El & _); auto.
    now apply Lifecycle_no_backend.
  - unfold deinitializeMdns in E. rewrite Ej in E. injection E as <-.
    destruct (Inv_no_backend _ I Ej) as [El _].
    apply Lifecycle_no_backend; auto. sproj.
    rewrite (lc_timer L), El. now rewrite andb_false_r.
Qed.

Lemma setLookupMode_Lifecycle arg initialized s s' :
  Inv s -> Lifecycle s -> setLookupMode arg initialized s = Done s' ->
  Lifecycle s'.
Proof.
  unfold setLookupMode. intros I L H.
  destruct (sameMode (m_lookupMode s) arg); [now injection H as <-|].
  apply bind_Done in H as [s1 [E H]].
  destruct (m_lookupReady s) eqn:El.
  - apply bind_Done in H as [[ok s3] [E3 H]].
    assert (Hj : m_jdns s <> None) by now apply (inv_lookup I).
    destruct (m_jdns s) as [j|] eqn:Ej; [|contradiction].
    pose proof (deinitializeMdns_lifecycle _ _ _ I L Ej E) as Et.
    apply deinitializeMdns_effect in E as (J & L1 & _ & _ & _ & R & T); auto.
    destruct initialized.
    + apply initializeMdns_lifecycle in E3 as [-> F]; auto.
      now injection H as <-.
    + unfold initializeMdns in E3. sproj_in E3. rewrite J in E3.
      injection E3 as <- <-. injection H as <-.
      now apply Lifecycle_no_backend.
  - injection E as <-. injection H as <-.
    assert (Ej : m_jdns s = None).
    { destruct (m_jdns s) eqn:Ej; [|reflexivity].
      destruct (Inv_with_backend _ _ I Ej). congruence. }
    apply Lifecycle_no_backend; auto. sproj.
    rewrite (lc_timer L), El. now rewrite andb_false_r.
Qed.

Lemma updateNameServers_Lifecycle s s' :
  Inv s -> Lifecycle s -> updateNameServers s = Done s' -> Lifecycle s'.
Proof.
  intros I L H.
  pose proof (updateNameServers_logs _ _ H) as Lg.
  pose proof (updateNameServers_effect _ _ (inv_wf I) H) as (_ & [C _] & _).
  apply (Lifecycle_calls s); auto.
  intros U. unfold updateNameServers in H.
  destruct (m_jdns s); [|injection H as <-; apply backendLogs_refl].
  rewrite U in H. injection H as <-. apply backendLogs_refl.
Qed.

Lemma step_Lifecycle e s s' :
  Inv s -> Lifecycle s -> step e s = Done s' -> Lifecycle s'.
Proof.
  intros I L H. destruct e; simpl in H.
  - injection H as <-.
    eapply Lifecycle_ext; [| | | | |exact L]; reflexivity.
  - eapply networkSessionOpened_Lifecycle; eauto.
  - eapply networkSessionClosed_Lifecycle; eauto.
  - eapply setRunning_Lifecycle; eauto.
  - eapply setLookupMode_Lifecycle; eauto.
  - injection H as <-. unfold setUnicastErrorThreshold.
    destruct (m_unicastErrorThreshold s =? arg)%Z; [exact L|].
    eapply Lifecycle_ext; [| | | | |exact L]; reflexivity.
  - injection H as <-. unfold setFilter.
    pose proof (updateAllServiceTypes_frame (set_filter arg s)) as F.
    cbv zeta in F. destruct F as (C & _ & _ & _ & _ & _ & F7 & _).
    apply config_fields in C as (A1 & _ & A3 & A4 & _ & A6).
    eapply Lifecycle_ext; [| | | | |exact L]; auto.
  - injection H as <-.
    eapply Lifecycle_ext; [| | | | |exact L]; reflexivity.
  - injection H as <-.
    eapply Lifecycle_ext; [| | | | |exact L]; reflexivity.
  - apply updateNameServers_Lifecycle in H; auto.
    + eapply Inv_frame; [| | | | | | | |exact I]; reflexivity.
    + eapply Lifecycle_ext; [| | | | |exact L]; reflexivity.
  - injection H as <-.
    eapply Lifecycle_ext; [| | | | |exact L]; reflexivity.
  - pose proof (updateServices_logs _ _ H) as Lg.
    apply updateServices_effect in H as (_ & [C _] & _);
      [|apply (inv_wf I)|now apply Inv_quiet].
    now apply (Lifecycle_queries s).
  - injection H as <-. unfold updateFilter.
    pose proof (updateAllServiceTypes_frame s) as F.
    cbv zeta in F. destruct F as (C & _ & _ & _ & _ & _ & F7 & _).
    apply config_fields in C as (A1 & _ & A3 & A4 & _ & A6).
    eapply Lifecycle_ext; [| | | | |exact L]; auto.
  - eapply updateNameServers_Lifecycle; eauto.
  - destruct (m_unicastLookupTimer s); [|now injection H as <-].
    pose proof (unicastLookup_logs _ _ H) as Lg.
    pose proof (unicastLookup_effect _ _ (inv_wf I) H) as (_ & (C & _)).
    now apply (Lifecycle_queries s).
  - pose proof (resultsReady_logs _ _ _ _ H) as Lg.
    apply (resultsReady_effect (fun _ => False)) in H as (_ & (C & _) & _);
      [|apply (inv_wf I)].
    now apply (Lifecycle_queries s).
  - now injection H as <-.
Qed.

Lemma reachable_Lifecycle s : reachable s -> Lifecycle s.
Proof.
  apply reachable_preserves.
  - apply Lifecycle_initialState.
  - apply step_Lifecycle.
Qed.

(** X6: between two events the backend, when there is one, has the mode of
    the lookup mode: multicast under [MulticastDNS], unicast under
    [UnicastDNS].  [setLookupMode] replaces the backend when it changes the
    mode of a ready engine. *)
Theorem backend_mode_follows_lookup_mode (s : State) (j : QJDns.Handle) :
  reachable s -> m_jdns s = Some j -> QJDns.mode j = backendMode s.
Proof.
  intros R Ej. apply reachable_Lifecycle in R.
  now destruct (lc_backend R Ej).
Qed.

Lemma backend_mode_witness :
  QJDns.mode (backendOf (stateAfter Unicast.startUp))
  = backendMode (stateAfter Unicast.startUp).
Proof.
  apply backend_mode_follows_lookup_mode.
  - eapply reachable_stateAfter. vm_compute. reflexivity.
  - vm_compute. reflexivity.
Defined.

(** X7: in unicast mode the first call a backend receives sets its name
    servers: no query is started on a unicast backend before
    [setNameServers]. *)
Theorem unicast_backend_gets_name_servers_first (s : State)
  (j : QJDns.Handle) :
  reachable s -> m_jdns s = Some j -> isUnicast s = true ->
  exists servers rest, QJDns.calls j = QJDns.SetNameServers servers :: rest.
Proof.
  intros R Ej U. apply reachable_Lifecycle in R.
  destruct (lc_backend R Ej) as [_ B]. now rewrite U in B.
Qed.

Lemma unicast_backend_witness :
  exists servers rest,
    QJDns.calls (backendOf (stateAfter Unicast.startUp))
    = QJDns.SetNameServers servers :: rest.
Proof.
  apply (unicast_backend_gets_name_servers_first (stateAfter Unicast.startUp)).
  - eapply reachable_stateAfter. vm_compute. reflexivity.
  - vm_compute. reflexivity.
  - vm_compute. reflexivity.
Defined.

(** X8: in multicast mode the backend never receives name servers: the
    engine calls only [queryStart] and [queryCancel] on it, whatever is done
    to the list of name servers. *)
Theorem multicast_backend_gets_no_name_servers (s : State)
  (j : QJDns.Handle) (c : QJDns.Call) :
  reachable s -> m_jdns s = Some j -> isUnicast s = false ->
  In c (QJDns.calls j) -> isQueryCall c = true.
Proof.
  intros R Ej U Hc. apply reachable_Lifecycle in R.
  destruct (lc_backend R Ej) as [_ B]. rewrite U in B.
  now apply (proj1 (forallb_forall _ _) B).
Qed.

Lemma multicast_backend_witness :
  isQueryCall (QJDns.QueryStart "_http._tcp.local" QJDns.Ptr 0) = true.
Proof.
  apply (multicast_backend_gets_no_name_servers
           (stateAfter (SetNameServers [Unicast.nameServer]
                          :: Scenario.discovery))
           (backendOf (stateAfter (SetNameServers [Unicast.nameServer]
                                     :: Scenario.discovery)))).
  - eapply reachable_stateAfter. vm_compute. reflexivity.
  - vm_compute. reflexivity.
  - vm_compute. reflexivity.
  - vm_compute. auto.
Defined.

(** X9: between two events the unicast refresh timer is active exactly when
    the engine is running, in unicast mode, with its lookup ready. *)
Theorem refresh_timer_runs_iff_unicast_running (s : State) :
  reachable s ->
  m_unicastLookupTimer s = m_running s && isUnicast s && m_lookupReady s.
Proof. intros R. apply reachable_Lifecycle in R. apply (lc_timer R). Qed.

Lemma refresh_timer_witness :
  let s := stateAfter (Unicast.startUp ++ [NetworkSessionClosed]) in
  m_unicastLookupTimer s = m_running s && isUnicast s && m_lookupReady s.
Proof.
  apply refresh_timer_runs_iff_unicast_running.
  eapply reachable_stateAfter. vm_compute. reflexivity.
Defined.

(** X10: between two events [networkReady], [lookupReady] and the existence
    of the backend agree: the three hold together or not at all.  A failed
    initialisation of the backend takes [networkReady] back. *)
Theorem network_lookup_backend_agree (s : State) :
  reachable s ->
  (m_networkReady s = true <-> m_jdns s <> None)
  /\ (m_lookupReady s = true <-> m_jdns s <> None).
Proof.
  intros R. apply reachable_Inv in R.
  split; [apply (inv_network R)|apply (inv_lookup R)].
Qed.

Lemma network_lookup_backend_witness :
  let s := stateAfter [ComponentComplete; NetworkSessionOpened false] in
  (m_networkReady s = true <-> m_jdns s <> None)
  /\ (m_lookupReady s = true <-> m_jdns s <> None).
Proof.
  apply network_lookup_backend_agree.
  eapply reachable_stateAfter. vm_compute. reflexivity.
Defined.

(** X11: while the engine is not running, or its network is not ready, no
    query is registered and no instance is listed: the three registry maps
    are empty and so is every instance table. *)
Theorem idle_engine_holds_nothing (s : State) :
  reachable s -> live s = false -> registryEmpty s /\ tablesEmpty s.
Proof.
  intros R L. apply reachable_Inv in R.
  unfold live in L. apply andb_false_iff in L as [L|L].
  - now apply (inv_idle R).
  - apply WF_no_backend; [apply (inv_wf R)|].
    destruct (m_jdns s) eqn:Ej; [|reflexivity].
    destruct (Inv_with_backend _ _ R Ej). congruence.
Qed.

Lemma idle_engine_witness :
  let s := stateAfter (Scenario.discovery ++ [NetworkSessionClosed]) in
  registryEmpty s /\ tablesEmpty s.
Proof.
  apply idle_engine_holds_nothing.
  - eapply reachable_stateAfter. vm_compute. reflexivity.
  - vm_compute. reflexivity.
Defined.

(** ** Reconciliation with the user queries *)

Lemma startQuery_tables type s s' :
  startQuery type s = Done s' ->
  m_serviceItemsMap s' = m_serviceItemsMap s
  /\ m_serviceTypeMap s' = m_serviceTypeMap s.
Proof.
  intros H. apply startQuery_frame in H as ((_ & T & _) & I & _). auto.
Qed.

Lemma stopQuery_tables type s s' :
  stopQuery type s = Done s' ->
  (forall t, QMap.contains (m_serviceItemsMap s') t
             = QMap.contains (m_serviceItemsMap s) t)
  /\ m_serviceTypeMap s' = m_serviceTypeMap s.
Proof.
  unfold stopQuery. intros H.
  destruct (findQuery type s); [|injection H as <-; auto].
  apply bind_Done in H as [s1 [E H]].
  apply queryCancel_Done in E as (j & Ej & ->).
  apply clearItems_effect in H as (_ & T & _ & _ & _ & C & _).
  sproj_in T. sproj_in C. auto.
Qed.

Lemma removeServiceType_tables type s s' :
  removeServiceType type s = Done s' ->
  (forall t, QMap.contains (m_serviceItemsMap s') t
             = negb (String.eqb type t)
               && QMap.contains (m_serviceItemsMap s) t)
  /\ (forall t, type <> t ->
        QMap.value (m_serviceTypeMap s') t = QMap.value (m_serviceTypeMap s) t).
Proof.
  unfold removeServiceType. intros H.
  destruct (QMap.contains (m_serviceItemsMap s) type) eqn:Ec; simpl in H.
  - apply bind_Done in H as [s1 [E H]]. injection H as <-.
    apply clearItems_effect in E as (_ & T & _ & _ & _ & C & _).
    sproj. split.
    + intros t. now rewrite contains_remove, C.
    + intros t N. rewrite value_remove, T.
      destruct (key_eqb type t) eqn:K; [|reflexivity].
      now apply key_eqb_eq in K.
  - injection H as <-. split; [|auto].
    intros t. destruct (String.eqb_spec type t) as [<-|]; simpl; auto.
Qed.

Lemma removeLeftover_tables type s s' :
  removeLeftover type s = Done s' ->
  (forall t, QMap.contains (m_serviceItemsMap s') t
             = negb (String.eqb type t)
               && QMap.contains (m_serviceItemsMap s) t)
  /\ (forall t, type <> t ->
        QMap.value (m_serviceTypeMap s') t = QMap.value (m_serviceTypeMap s) t).
Proof.
  unfold removeLeftover. intros H.
  apply bind_Done in H as [s1 [E H]].
  apply removeServiceType_tables in H as [C T].
  assert (G : (forall t, QMap.contains (m_serviceItemsMap s1) t
                         = QMap.contains (m_serviceItemsMap s) t)
              /\ m_serviceTypeMap s1 = m_serviceTypeMap s).
  { destruct (live s); [now apply stopQuery_tables in E|].
    injection E as <-. auto. }
  destruct G as [C1 T1]. split.
  - intros t. now rewrite C, C1.
  - intros t N. now rewrite T, T1.
Qed.

Lemma removeLeftovers_tables l : forall s s',
  forEach removeLeftover l s = Done s' ->
  (forall t, QMap.contains (m_serviceItemsMap s') t
             = negb (existsb (fun u => String.eqb u t) l)
               && QMap.contains (m_serviceItemsMap s) t)
  /\ (forall t, ~ In t l ->
        QMap.value (m_serviceTypeMap s') t = QMap.value (m_serviceTypeMap s) t).
Proof.
  induction l as [|type l IH]; simpl; intros s s' H.
  - injection H as <-. auto.
  - apply bind_Done in H as [s1 [E H]].
    apply removeLeftover_tables in E as [C1 T1].
    apply IH in H as [C T]. split.
    + intros t. rewrite C, C1.
      destruct (String.eqb type t), (existsb _ l); reflexivity.
    + intros t N. rewrite T, T1; tauto.
Qed.

Lemma addServiceType_tables type queryType s :
  let s' := addServiceType type queryType s in
  (forall t, QMap.contains (m_serviceItemsMap s') t
             = String.eqb type t || QMap.contains (m_serviceItemsMap s) t)
  /\ (forall t, QMap.value (m_serviceTypeMap s') t
                = if negb (QMap.contains (m_serviceItemsMap s) type)
                     && String.eqb type t
                  then Some queryType
                  else QMap.value (m_serviceTypeMap s) t).
Proof.
  unfold addServiceType.
  destruct (QMap.contains (m_serviceItemsMap s) type) eqn:Ec; sproj.
  - split; [|reflexivity].
    intros t. destruct (String.eqb_spec type t) as [<-|]; auto.
  - split; intros t.
    + now rewrite contains_insert.
    + now rewrite value_insert.
Qed.

Lemma declaredIn_cons q rest t :
  declaredIn (q :: rest) t
  = negb (String.eqb t EmptyString) && String.eqb (Query.serviceType q) t
    || declaredIn rest t.
Proof.
  unfold declaredIn. simpl.
  destruct (negb (String.eqb t "")), (String.eqb (Query.serviceType q) t);
    reflexivity.
Qed.

Lemma updateServicesLoop_tables queries : forall old s old' s',
  updateServicesLoop queries old s = Done (old', s') ->
  (forall t, QMap.contains (m_serviceItemsMap s') t
             = QMap.contains (m_serviceItemsMap s) t || declaredIn queries t)
  /\ (forall t, QMap.contains old' t
                = QMap.contains old t && negb (declaredIn queries t))
  /\ (forall t, QMap.value (m_serviceTypeMap s') t
                = if QMap.contains (m_serviceItemsMap s) t
                  then QMap.value (m_serviceTypeMap s) t
                  else if declaredIn queries t
                       then firstDeclaredType queries t
                       else QMap.value (m_serviceTypeMap s) t).
Proof.
  induction queries as [|q rest IH]; intros old s old' s' H.
  - injection H as <- <-.
    assert (D : forall t, declaredIn [] t = false)
      by (intros t; unfold declaredIn; simpl; apply andb_false_r).
    split; [|split]; intros t; rewrite D.
    + now rewrite orb_false_r.
    + now rewrite andb_true_r.
    + now destruct (QMap.contains _ t).
  - cbn [updateServicesLoop] in H.
    destruct (String.eqb_spec (Query.serviceType q) EmptyString) as [Eq|Nq];
      cbn [negb] in H.
    + apply IH in H as (C & O & T).
      assert (D : forall t, declaredIn (q :: rest) t = declaredIn rest t).
      { intros t. rewrite declaredIn_cons, Eq.
        destruct (String.eqb_spec t "") as [->|N]; [reflexivity|].
        destruct (String.eqb_spec "" t); [congruence|reflexivity]. }
      split; [|split]; intros t; rewrite D; auto.
      rewrite T. destruct (QMap.contains _ t); [reflexivity|].
      destruct (declaredIn rest t) eqn:Ed; [|reflexivity].
      unfold firstDeclaredType. simpl. rewrite Eq.
      destruct (String.eqb_spec "" t) as [<-|]; [|reflexivity].
      discriminate.
    + apply bind_Done in H as [s2 [E H]].
      set (type := Query.serviceType q) in *.
      set (s1 := addServiceType type (Query.queryType q) s) in *.
      pose proof (addServiceType_tables type (Query.queryType q) s) as A.
      cbv zeta in A. fold s1 in A. destruct A as [C1 T1].
      assert (G : m_serviceItemsMap s2 = m_serviceItemsMap s1
                  /\ m_serviceTypeMap s2 = m_serviceTypeMap s1).
      { destruct (live s1); [now apply startQuery_tables in E|].
        injection E as <-. auto. }
      destruct G as [I2 T2].
      apply IH in H as (C & O & T).
      assert (D : forall t, declaredIn (q :: rest) t
                            = String.eqb type t || declaredIn rest t).
      { intros t. rewrite declaredIn_cons. fold type.
        destruct (String.eqb_spec type t) as [<-|]; [|now rewrite andb_false_r].
        destruct (String.eqb_spec type "") as [K|]; [contradiction|].
        reflexivity. }
      split; [|split]; intros t; rewrite D.
      * rewrite C, I2, C1.
        destruct (String.eqb type t), (QMap.contains (m_serviceItemsMap s) t);
          reflexivity.
      * rewrite O, contains_remove.
        change (key_eqb type t) with (String.eqb type t).
        destruct (String.eqb type t), (declaredIn rest t),
          (QMap.contains old t); reflexivity.
      * rewrite T, I2, T2, C1, !T1.
        unfold firstDeclaredType. cbn [find]. fold type.
        destruct (String.eqb_spec type t) as [<-|N].
        -- cbn [orb andb option_map].
           destruct (QMap.contains (m_serviceItemsMap s) type); reflexivity.
        -- cbn [orb andb]. rewrite andb_false_r. reflexivity.
Qed.

Lemma existsb_keys (m : QMap.t string (list ptr)) t :
  existsb (fun u => String.eqb u t) (QMap.keys m) = QMap.contains m t.
Proof.
  apply eq_true_iff_eq. rewrite existsb_exists, contains_true. split.
  - intros (u & Hu & E). apply String.eqb_eq in E as ->. now apply In_keys.
  - intros Hv. exists t. split; [now apply In_keys|apply String.eqb_refl].
Qed.

Lemma updateAllServiceTypes_tables s :
  m_serviceItemsMap (updateAllServiceTypes s) = m_serviceItemsMap s
  /\ m_serviceTypeMap (updateAllServiceTypes s) = m_serviceTypeMap s.
Proof.
  pose proof (updateAllServiceTypes_frame s) as F. cbv zeta in F. tauto.
Qed.

Lemma updateServices_tables s s' :
  updateServices s = Done s' ->
  (forall type, QMap.contains (m_serviceItemsMap s') type
                = declaredIn (allQueries s) type)
  /\ (forall type, declaredIn (allQueries s) type = true ->
        QMap.value (m_serviceTypeMap s') type
        = if QMap.contains (m_serviceItemsMap s) type
          then QMap.value (m_serviceTypeMap s) type
          else firstDeclaredType (allQueries s) type).
Proof.
  unfold updateServices. intros H.
  apply bind_Done in H as [[old s1] [E H]].
  apply bind_Done in H as [s2 [E2 H]]. injection H as <-.
  destruct (updateAllServiceTypes_tables s2) as [-> ->].
  apply updateServicesLoop_tables in E as (C1 & O1 & T1).
  apply removeLeftovers_tables in E2 as (C2 & T2).
  split.
  - intros t. rewrite C2, existsb_keys, O1, C1.
    destruct (QMap.contains (m_serviceItemsMap s) t),
      (declaredIn (allQueries s) t); reflexivity.
  - intros t D. rewrite T2.
    + rewrite T1, D. reflexivity.
    + intros Hin. apply In_keys in Hin. apply contains_true in Hin.
      rewrite O1, D in Hin. now rewrite andb_false_r in Hin.
Qed.

Lemma backendLogs_keeps kind s s' :
  backendLogs kind s s' -> m_jdns s <> None -> m_jdns s' <> None.
Proof.
  unfold backendLogs. destruct (m_jdns s), (m_jdns s'); try tauto; congruence.
Qed.

Lemma stopItemQueries_idle items : forall s,
  m_queryIdItemMap s = [] -> forEach stopItemQueries items s = Done s.
Proof.
  induction items as [|p items IH]; intros s E; [reflexivity|].
  cbn [forEach]. unfold stopItemQueries at 1. rewrite E. simpl. now apply IH.
Qed.

Lemma clearItems_idle type s :
  m_queryIdItemMap s = [] ->
  exists s', clearItems type s = Done s'
             /\ m_queryIdItemMap s' = [] /\ config s' = config s
             /\ m_jdns s' = m_jdns s.
Proof.
  intros E. unfold clearItems.
  destruct (QMap.value (m_serviceItemsMap s) type) as [l|]; [|eauto].
  rewrite (stopItemQueries_idle _ _ E). cbn [bind].
  eexists. split; [reflexivity|].
  match goal with
  | |- context [updateServiceType type ?t] =>
      pose proof (updateServiceType_frame type t) as F
  end.
  cbv zeta in F. destruct F as (F1 & _ & _ & _ & _ & F6 & F7 & _).
  rewrite F6, F1, F7. auto.
Qed.

Lemma removeServiceType_safe type s :
  safe s -> exists s', removeServiceType type s = Done s' /\ safe s'.
Proof.
  intros [Hj|[L E]].
  - destruct (removeServiceType_total type s Hj) as [s' H].
    exists s'. split; [exact H|]. left.
    apply removeServiceType_logs in H. eapply backendLogs_keeps; eauto.
  - unfold removeServiceType. destruct (negb _).
    + exists s. split; [reflexivity|]. now right.
    + destruct (clearItems_idle type s E) as (s1 & H & E1 & C1 & _).
      rewrite H. cbn [bind]. eexists. split; [reflexivity|]. right.
      sproj. split; [|exact E1].
      rewrite <- L. unfold live. sproj.
      apply config_fields in C1 as (A1 & A2 & _). now rewrite A1, A2.
Qed.

Lemma removeLeftover_safe type s :
  safe s -> exists s', removeLeftover type s = Done s' /\ safe s'.
Proof.
  intros S. unfold removeLeftover.
  destruct (live s) eqn:L.
  - destruct S as [Hj|[L' _]]; [|congruence].
    destruct (stopQuery_total type s Hj) as [s1 H]. rewrite H. cbn [bind].
    apply removeServiceType_safe. left.
    apply stopQuery_logs in H. eapply backendLogs_keeps; eauto.
  - cbn [bind]. now apply removeServiceType_safe.
Qed.

Lemma addServiceType_safe type t s : safe s -> safe (addServiceType type t s).
Proof.
  pose proof (addServiceType_frame type t s) as F. cbv zeta in F.
  destruct F as (F1 & _ & _ & F4 & F5 & _).
  intros [Hj|[L E]]; [left; now rewrite F5|right].
  split; [|now rewrite F4]. now rewrite (config_live _ _ F1).
Qed.

Lemma updateServicesLoop_safe queries : forall old s,
  safe s ->
  exists old' s', updateServicesLoop queries old s = Done (old', s') /\ safe s'.
Proof.
  induction queries as [|q rest IH]; intros old s S; cbn [updateServicesLoop].
  - eauto.
  - destruct (negb _); [|now apply IH].
    pose proof (addServiceType_safe (Query.serviceType q) (Query.queryType q)
                  s S) as S1.
    set (s1 := addServiceType _ _ s) in *.
    destruct (live s1) eqn:L.
    + destruct S1 as [Hj|[L' _]]; [|congruence].
      destruct (startQuery_total (Query.serviceType q) s1 Hj) as [s2 H].
      rewrite H. cbn [bind]. apply IH. left.
      apply startQuery_logs in H. eapply backendLogs_keeps; eauto.
    + cbn [bind]. now apply IH.
Qed.

Lemma updateServices_safe s :
  safe s -> exists s', updateServices s = Done s'.
Proof.
  intros S. unfold updateServices.
  destruct (updateServicesLoop_safe (allQueries s) (m_serviceItemsMap s) s S)
    as (old & s1 & H & S1).
  rewrite H. cbn [bind].
  destruct (forEach_total safe removeLeftover (QMap.keys old)) with (s := s1)
    as (s2 & H2 & _); auto.
  - intros x t _. apply removeLeftover_safe.
  - rewrite H2. cbn [bind]. eauto.
Qed.

Lemma Inv_safe s : Inv s -> safe s.
Proof.
  intros I. destruct (m_jdns s) eqn:Ej; [left; congruence|right].
  destruct (Inv_no_backend _ I Ej) as [_ N].
  destruct (WF_no_backend _ (inv_wf I) Ej) as [(_ & _ & R) _].
  split; [|exact R]. unfold live. rewrite N. apply andb_false_r.
Qed.

(** X12: [updateServices] returns in every reachable state, and afterwards
    the service types that have an instance table are exactly the non-empty
    service types the user queries declare.  A declared type that had a
    table keeps its recorded record type, whatever its queries say now; a
    type declared for the first time gets the record type of the first
    query that declares it. *)
Theorem update_services_registers_declared_types (s : State) :
  reachable s ->
  exists s',
    updateServices s = Done s'
    /\ (forall type, QMap.contains (m_serviceItemsMap s') type
                     = declaredIn (allQueries s) type)
    /\ (forall type, declaredIn (allQueries s) type = true ->
          QMap.value (m_serviceTypeMap s') type
          = if QMap.contains (m_serviceItemsMap s) type
            then QMap.value (m_serviceTypeMap s) type
            else firstDeclaredType (allQueries s) type).
Proof.
  intros R. apply reachable_Inv, Inv_safe in R.
  destruct (updateServices_safe s R) as [s' H].
  exists s'. split; [exact H|]. now apply updateServices_tables.
Qed.

Lemma update_services_witness :
  let s := stateAfter (Scenario.discovery
                         ++ [EditServiceLists [[[HostLookup.hostQuery]]]]) in
  exists s',
    updateServices s = Done s'
    /\ (forall type, QMap.contains (m_serviceItemsMap s') type
                     = declaredIn (allQueries s) type)
    /\ (forall type, declaredIn (allQueries s) type = true ->
          QMap.value (m_serviceTypeMap s') type
          = if QMap.contains (m_serviceItemsMap s) type
            then QMap.value (m_serviceTypeMap s) type
            else firstDeclaredType (allQueries s) type).
Proof.
  apply update_services_registers_declared_types.
  eapply reachable_stateAfter. vm_compute. reflexivity.
Defined.

(** ** The lists of the user queries *)

Lemma config_filter s s' : config s' = config s -> m_filter s' = m_filter s.
Proof. unfold config. intros H. now injection H. Qed.

Lemma filterServiceDiscoveryItem_ext s s' item f :
  heap s' = heap s ->
  filterServiceDiscoveryItem s' item f = filterServiceDiscoveryItem s item f.
Proof.
  intros H. unfold filterServiceDiscoveryItem, item_at. now rewrite H.
Qed.

Lemma projectQuery_ext s s' type l q :
  heap s' = heap s -> m_filter s' = m_filter s ->
  projectQuery s' type l q = projectQuery s type l q.
Proof.
  intros H F. unfold projectQuery, filterServiceDiscoveryItems. rewrite F.
  destruct (String.eqb _ _); [|reflexivity].
  destruct (_ =? _)%Z; [reflexivity|]. f_equal.
  apply filter_ext. intros item.
  now rewrite !(filterServiceDiscoveryItem_ext s s').
Qed.

Lemma map3_map3 {A B C : Type} (f : A -> B) (g : B -> C)
  (l : list (list (list A))) :
  map (map (map g)) (map (map (map f)) l)
  = map (map (map (fun x => g (f x)))) l.
Proof.
  rewrite map_map. apply map_ext. intros a.
  rewrite map_map. apply map_ext. intros b. apply map_map.
Qed.

Lemma map3_ext {A B : Type} (f g : A -> B) (l : list (list (list A))) :
  (forall x, f x = g x) -> map (map (map f)) l = map (map (map g)) l.
Proof.
  intros H. apply map_ext. intros a. apply map_ext. intros b.
  now apply map_ext.
Qed.

Lemma projectQuery_twice s type l q :
  projectQuery s type l (projectQuery s type l q) = projectQuery s type l q.
Proof.
  unfold projectQuery.
  destruct (String.eqb (Query.serviceType q) type) eqn:E; [|now rewrite E].
  destruct (Query.queryType q =? QJDns.A)%Z eqn:A; cbn; now rewrite E, A.
Qed.

Lemma projectQuery_serviceType s type l q :
  Query.serviceType (projectQuery s type l q) = Query.serviceType q.
Proof.
  unfold projectQuery. destruct (String.eqb _ _); [|reflexivity].
  now destruct (_ =? _)%Z.
Qed.

Lemma projectQuery_other s type l q :
  Query.serviceType q <> type -> projectQuery s type l q = q.
Proof.
  intros N. unfold projectQuery.
  destruct (String.eqb_spec (Query.serviceType q) type); [contradiction|].
  reflexivity.
Qed.

(** One more service type is projected. *)
Lemma refreshedIn_step s s1 type types q :
  m_serviceItemsMap s1 = m_serviceItemsMap s ->
  heap s1 = heap s -> m_filter s1 = m_filter s ->
  refreshedIn types s
    (match QMap.value (m_serviceItemsMap s1) type with
     | Some l => projectQuery s1 type l q
     | None => q
     end)
  = refreshedIn (type :: types) s q.
Proof.
  intros I H F. rewrite I. unfold refreshedIn. cbn [existsb].
  destruct (String.eqb_spec (Query.serviceType q) type) as [E|N].
  - cbn [orb]. unfold refreshed at 2. rewrite E.
    destruct (QMap.value (m_serviceItemsMap s) type) as [l|] eqn:V.
    + rewrite (projectQuery_ext s s1) by assumption.
      rewrite projectQuery_serviceType, E.
      destruct (existsb _ types); [|reflexivity].
      unfold refreshed. rewrite projectQuery_serviceType, E, V.
      apply projectQuery_twice.
    + rewrite E. destruct (existsb _ types); [|reflexivity].
      unfold refreshed. now rewrite E, V.
  - cbn [orb].
    destruct (QMap.value (m_serviceItemsMap s) type) as [l|];
      [|reflexivity].
    now rewrite (projectQuery_other s1 type l q N).
Qed.

Lemma updateServiceTypes_lists s types : forall s1,
  m_serviceItemsMap s1 = m_serviceItemsMap s ->
  heap s1 = heap s -> m_filter s1 = m_filter s ->
  m_serviceLists
    (fold_left (fun s2 type => updateServiceType type s2) types s1)
  = map (map (map (refreshedIn types s))) (m_serviceLists s1).
Proof.
  induction types as [|type types IH]; intros s1 I H F.
  - cbn [fold_left]. unfold refreshedIn. cbn [existsb].
    symmetry. erewrite map3_ext; [|intros x; reflexivity].
    rewrite map_ext with (g := fun x => x); [apply map_id|].
    intros a. rewrite map_ext with (g := fun x => x); [apply map_id|].
    intros b. apply map_id.
  - cbn [fold_left].
    pose proof (updateServiceType_frame type s1) as G. cbv zeta in G.
    destruct G as (G1 & _ & G3 & _ & _ & _ & _ & G8).
    rewrite IH; [|congruence|congruence|
                 rewrite (config_filter _ _ G1); exact F].
    unfold updateServiceType.
    destruct (QMap.value (m_serviceItemsMap s1) type) as [l|] eqn:V.
    + sproj. rewrite map3_map3. apply map3_ext. intros q.
      pose proof (refreshedIn_step s s1 type types q I H F) as R.
      now rewrite V in R.
    + apply map3_ext. intros q.
      pose proof (refreshedIn_step s s1 type types q I H F) as R.
      now rewrite V in R.
Qed.

Lemma refreshedIn_keys s q :
  refreshedIn (QMap.keys (m_serviceItemsMap s)) s q = refreshed s q.
Proof.
  unfold refreshedIn.
  destruct (existsb _ _) eqn:E; [reflexivity|].
  unfold refreshed.
  destruct (QMap.value (m_serviceItemsMap s) (Query.serviceType q)) as [l|]
    eqn:V; [|reflexivity].
  assert (Hk : In (Query.serviceType q) (QMap.keys (m_serviceItemsMap s)))
    by (apply In_keys; eauto).
  assert (existsb (String.eqb (Query.serviceType q))
                  (QMap.keys (m_serviceItemsMap s)) = true).
  { apply existsb_exists. eexists. split; [exact Hk|apply String.eqb_refl]. }
  congruence.
Qed.

(** X13: [updateAllServiceTypes] (which [updateFilter] and [setFilter] end
    with) rewrites nothing but the lists of the user queries, and afterwards
    every query whose service type has an instance table lists the instances
    of that table, all of them for the record type A and otherwise those
    that pass the filter of the engine and the filter of the query; a query
    whose service type has no table keeps the list it had. *)
Theorem update_all_refreshes_every_query (s : State) :
  m_serviceLists (updateAllServiceTypes s)
  = map (map (map (refreshed s))) (m_serviceLists s)
  /\ allQueries (updateAllServiceTypes s) = map (refreshed s) (allQueries s)
  /\ m_serviceItemsMap (updateAllServiceTypes s) = m_serviceItemsMap s
  /\ heap (updateAllServiceTypes s) = heap s.
Proof.
  assert (L : m_serviceLists (updateAllServiceTypes s)
              = map (map (map (refreshed s))) (m_serviceLists s)).
  { unfold updateAllServiceTypes.
    rewrite (updateServiceTypes_lists s) by reflexivity.
    apply map3_ext. apply refreshedIn_keys. }
  split; [exact L|]. split.
  - unfold allQueries. rewrite L, <- !concat_map. reflexivity.
  - pose proof (updateAllServiceTypes_frame s) as F. cbv zeta in F. tauto.
Qed.

(** ** Starting the scans *)

Lemma backendLogs_callsGrow kind s s' : backendLogs kind s s' -> callsGrow s s'.
Proof.
  unfold backendLogs, callsGrow, backendCalls.
  destruct (m_jdns s) as [j|], (m_jdns s') as [j'|]; try tauto.
  intros (_ & _ & more & -> & _) c Hc. apply in_or_app. now left.
Qed.

Lemma declaredType_ext s s' type :
  m_serviceTypeMap s' = m_serviceTypeMap s ->
  declaredType type s' = declaredType type s.
Proof. intros E. unfold declaredType. now rewrite E. Qed.

Lemma startQuery_scan type s s' :
  WF s -> allScansRun s ->
  QMap.contains (m_serviceItemsMap s) type = true ->
  startQuery type s = Done s' ->
  WF s' /\ allScansRun s'
  /\ (forall id u, In (id, u) (m_queryIdServiceMap s) ->
                   In (id, u) (m_queryIdServiceMap s'))
  /\ (exists id, In (id, type) (m_queryIdServiceMap s'))
  /\ m_serviceItemsMap s' = m_serviceItemsMap s
  /\ m_serviceTypeMap s' = m_serviceTypeMap s.
Proof.
  intros W A C H.
  assert (W' : WF s').
  { eapply WFx_weaken; [|eapply startQuery_WFx; eauto]. simpl. tauto. }
  pose proof (startQuery_tables _ _ _ H) as [I T].
  split; [exact W'|].
  unfold startQuery in H.
  destruct (findQuery type s) as [id|] eqn:Ef.
  - injection H as <-. apply findQuery_Some in Ef. eauto 10.
  - apply bind_Done in H as [[queryId s1] [E H]]. injection H as <-.
    apply queryStart_Done in E as (j & Ej & -> & ->). sproj.
    assert (Fr : forall id u, In (id, u) (m_queryIdServiceMap s) ->
                              id <> QJDns.next_id j).
    { intros id u Hin. destruct (wf_fresh W _ _ Hin) as (n & Hn & Lt).
      apply nextId_Some in Hn as (j' & Ej' & <-).
      assert (j' = j) by congruence. subst j'. lia. }
    split; [|split; [|split; [|auto]]].
    + intros id u Hin. unfold scanRuns, backendCalls, declaredType. sproj.
      split; [exact Hin|].
      apply In_insert in Hin as [[-> ->]|[N Hin]].
      * rewrite value_insert, key_eqb_refl. split; [reflexivity|].
        apply in_or_app. right. now left.
      * destruct (A _ _ Hin) as (_ & V & Cl).
        rewrite value_insert.
        destruct (key_eqb (QJDns.next_id j) id) eqn:K;
          [apply key_eqb_eq in K; congruence|].
        split; [exact V|].
        unfold backendCalls in Cl. rewrite Ej in Cl.
        apply in_or_app. now left.
    + intros id u Hin. apply In_insert. right. split; [|exact Hin].
      eapply Fr; eauto.
    + exists (QJDns.next_id j). apply In_insert. auto.
Qed.

Lemma startQueries_scans l : forall s s',
  WF s -> allScansRun s ->
  (forall u, In u l -> QMap.contains (m_serviceItemsMap s) u = true) ->
  forEach startQuery l s = Done s' ->
  WF s' /\ allScansRun s'
  /\ (forall id u, In (id, u) (m_queryIdServiceMap s) ->
                   In (id, u) (m_queryIdServiceMap s'))
  /\ (forall u, In u l -> exists id, In (id, u) (m_queryIdServiceMap s'))
  /\ m_serviceItemsMap s' = m_serviceItemsMap s
  /\ m_serviceTypeMap s' = m_serviceTypeMap s.
Proof.
  induction l as [|type l IH]; intros s s' W A C H.
  - injection H as <-. split; [exact W|]. split; [exact A|].
    split; [auto|]. split; [intros u []|auto].
  - cbn [forEach] in H. apply bind_Done in H as [s1 [E H]].
    apply startQuery_scan in E as (W1 & A1 & K1 & [id B1] & I1 & T1); auto.
    2:{ apply C. now left. }
    apply IH in H as (W2 & A2 & K2 & B2 & I2 & T2); auto.
    2:{ intros u Hu. rewrite I1. apply C. now right. }
    split; [exact W2|]. split; [exact A2|]. split; [auto|].
    split; [|split; congruence].
    intros u [<-|Hu]; eauto.
Qed.

(** X14: in a reachable state that is not running and whose network is
    ready, [setRunning(true)] returns with [running] set, starts one scan
    for every service type of the instance table, with the record type the
    type was registered with, leaves the instance tables as they are, and
    starts the refresh timer exactly in unicast mode. *)
Theorem starting_scans_every_registered_type (s : State) :
  reachable s -> m_running s = false -> m_networkReady s = true ->
  exists s',
    setRunning true s = Done s'
    /\ m_running s' = true
    /\ m_serviceItemsMap s' = m_serviceItemsMap s
    /\ m_unicastLookupTimer s' = isUnicast s
    /\ (forall type, QMap.contains (m_serviceItemsMap s) type = true ->
          exists id, scanRuns type (declaredType type s) id s').
Proof.
  intros R Er En. pose proof (reachable_Lifecycle _ R) as L.
  apply reachable_Inv in R.
  assert (Hj : m_jdns s <> None) by now apply (inv_network R).
  destruct (inv_idle R Er) as [(_ & Es & _) _].
  set (s1 := set_running true s).
  assert (W1 : WF s1).
  { eapply WFx_ext; [| | | | |exact (inv_wf R)]; reflexivity. }
  assert (A1 : allScansRun s1).
  { intros id type Hin. change (In (id, type) (m_queryIdServiceMap s)) in Hin.
    rewrite Es in Hin. destruct Hin. }
  destruct (startQueries_total s1 Hj) as [s2 H].
  pose proof (startQueries_effect _ _ W1 H) as (_ & (C & _)).
  pose proof (config_isUnicast _ _ C) as U.
  apply config_fields in C as (A & _ & _ & _ & _ & T).
  change (isUnicast s1) with (isUnicast s) in U.
  pose proof H as H'. unfold startQueries in H'.
  apply startQueries_scans in H' as (W2 & A2 & _ & B2 & I2 & T2); auto.
  2:{ intros u. apply key_contains. }
  exists (if isUnicast s2 then set_unicastLookupTimer true s2 else s2).
  split.
  { unfold setRunning. rewrite Er. cbn [Bool.eqb]. fold s1.
    change (m_networkReady s1) with (m_networkReady s). rewrite En.
    cbn [negb]. change (m_running s1) with true. cbv iota.
    now rewrite H. }
  assert (G : forall type, QMap.contains (m_serviceItemsMap s) type = true ->
                exists id, scanRuns type (declaredType type s) id s2).
  { intros type Hc. destruct (B2 type) as [id Hin].
    - apply In_keys. now apply contains_true.
    - exists id. rewrite <- (declaredType_ext s s2) by exact T2.
      now apply A2. }
  destruct (isUnicast s2) eqn:Eu.
  - split; [exact A|]. split; [exact I2|]. split; [now rewrite <- U|exact G].
  - split; [exact A|]. split; [exact I2|]. split; [|exact G].
    rewrite T. change (m_unicastLookupTimer s1) with (m_unicastLookupTimer s).
    rewrite (lc_timer L), Er, <- U. reflexivity.
Qed.

Lemma starting_scans_witness :
  let s := stateAfter [ComponentComplete;
                       EditServiceLists [[[Scenario.userQuery]]];
                       UpdateServices; NetworkSessionOpened true] in
  exists s',
    setRunning true s = Done s'
    /\ m_running s' = true
    /\ m_serviceItemsMap s' = m_serviceItemsMap s
    /\ m_unicastLookupTimer s' = isUnicast s
    /\ (forall type, QMap.contains (m_serviceItemsMap s) type = true ->
          exists id, scanRuns type (declaredType type s) id s').
Proof.
  apply starting_scans_every_registered_type.
  - eapply reachable_stateAfter. vm_compute. reflexivity.
  - vm_compute. reflexivity.
  - vm_compute. reflexivity.
Defined.

(** ** The list of name servers *)

Lemma unicastLookup_config s s' :
  unicastLookup s = Done s' -> config s' = config s.
Proof.
  unfold unicastLookup.
  apply (forEach_preserves (fun t => config t = config s)); [|reflexivity].
  intros x t t' _ C H. apply refreshQuery_frame in H as (C' & _). congruence.
Qed.

Lemma unicastLookup_total s :
  m_jdns s <> None -> exists s', unicastLookup s = Done s'.
Proof.
  unfold unicastLookup. intros Hj.
  destruct (forEach_total (fun t => m_jdns t <> None) refreshQuery
              (QMap.keys (m_serviceItemsMap s))) with (s := s)
    as [s' [E _]]; eauto.
  intros x t _ Ht. destruct (refreshQuery_total x t Ht) as [t' E].
  exists t'. split; [exact E|].
  apply refreshQuery_logs in E. eapply backendLogs_keeps; eauto.
Qed.

Lemma updateNameServers_spec s :
  exists s',
    updateNameServers s = Done s'
    /\ config s' = config s
    /\ (m_jdns s <> None -> isUnicast s = true ->
        handedNameServers (effectiveNameServers s) s s')
    /\ (m_jdns s = None \/ isUnicast s = false -> s' = s).
Proof.
  unfold updateNameServers.
  destruct (m_jdns s) as [j|] eqn:Ej.
  2:{ exists s. split; [reflexivity|]. split; [reflexivity|].
      split; [congruence|auto]. }
  destruct (isUnicast s) eqn:U; cbn [negb].
  2:{ exists s. split; [reflexivity|]. split; [reflexivity|].
      split; [discriminate|auto]. }
  cbv zeta. fold (effectiveNameServers s).
  set (s1 := set_jdns _ s).
  assert (E1 : m_jdns s1
               = Some (log_call (QJDns.SetNameServers (effectiveNameServers s))
                                j)) by reflexivity.
  assert (G : exists s', (if m_running s1 then unicastLookup s1 else Done s1)
                         = Done s'
                /\ config s' = config s
                /\ backendLogs isQueryCall s1 s').
  { destruct (m_running s1).
    - destruct (unicastLookup_total s1) as [s' H]; [congruence|].
      exists s'. split; [exact H|]. split.
      + now apply unicastLookup_config in H.
      + now apply unicastLookup_logs.
    - exists s1. split; [reflexivity|]. split; [reflexivity|].
      apply backendLogs_refl. }
  destruct G as (s' & H & C & L). exists s'.
  split; [exact H|]. split; [exact C|]. split.
  - intros _ _.
    destruct (backendLogs_Some _ _ _ _ E1 L) as (j' & more & Ej' & _ & _ & Cm & K).
    exists j, j', more. split; [exact Ej|]. split; [exact Ej'|].
    split; [|exact K]. rewrite Cm. cbn [log_call QJDns.calls].
    now rewrite <- app_assoc.
  - intros [F|F]; discriminate.
Qed.

Lemma config_nameServers s s' :
  config s' = config s -> m_nameServers s' = m_nameServers s.
Proof. unfold config. intros H. now injection H. Qed.

Lemma removeAt_app_last {A : Type} (l : list A) (x : A) :
  removeAt (List.length l) (l ++ [x]) = l.
Proof. induction l as [|y l IH]; simpl; congruence. Qed.

(** X15: [addNameServer] returns and appends the name server to the list,
    where [nameServer] finds it at the index that was [nameServerCount];
    [removeNameServer] at that index then gives the former list back.  In
    unicast mode with a backend, [addNameServer] hands the backend the
    configured name servers that have an address, or those of the system
    when none has, and then only starts or cancels queries; in multicast
    mode or without backend it changes the list and nothing else. *)
Theorem add_name_server_reaches_unicast_backend (s : State)
  (ns : NameServer) :
  exists s',
    addNameServer ns s = Done s'
    /\ m_nameServers s' = m_nameServers s ++ [ns]
    /\ nameServer (nameServerCount s) s' = Some ns
    /\ nameServerCount s' = (nameServerCount s + 1)%Z
    /\ (forall s'', removeNameServer (nameServerCount s) s' = Done s'' ->
          m_nameServers s'' = m_nameServers s)
    /\ (m_jdns s <> None -> isUnicast s = true ->
        handedNameServers (effectiveNameServers s') s s')
    /\ (m_jdns s = None \/ isUnicast s = false ->
        s' = set_nameServers (m_nameServers s ++ [ns]) s).
Proof.
  unfold addNameServer, nameServersChanged.
  set (s1 := set_nameServers (m_nameServers s ++ [ns]) s).
  destruct (updateNameServers_spec s1) as (s' & H & C & B & N).
  exists s'. split; [exact H|].
  pose proof (config_nameServers _ _ C) as E.
  change (m_nameServers s1) with (m_nameServers s ++ [ns]) in E.
  split; [exact E|].
  assert (Hc : (nameServerCount s <? 0)%Z = false)
    by (unfold nameServerCount; apply Z.ltb_ge; lia).
  split; [|split; [|split; [|split]]].
  - unfold nameServer. rewrite Hc, E. unfold nameServerCount.
    rewrite Nat2Z.id, nth_error_app2 by lia. now rewrite Nat.sub_diag.
  - unfold nameServerCount. rewrite E, length_app. simpl. lia.
  - intros s'' R. unfold removeNameServer, nameServersChanged in R.
    rewrite Hc in R.
    destruct (updateNameServers_spec
                (set_nameServers
                   (removeAt (Z.to_nat (nameServerCount s)) (m_nameServers s'))
                   s')) as (t & R' & C' & _).
    rewrite R' in R. injection R as <-.
    rewrite (config_nameServers _ _ C'). sproj. rewrite E.
    unfold nameServerCount. rewrite Nat2Z.id. apply removeAt_app_last.
  - intros Hj U.
    replace (effectiveNameServers s') with (effectiveNameServers s1).
    + destruct (B Hj U) as (j & j' & more & Ej & Ej' & Cm & K).
      exists j, j', more. auto.
    + unfold effectiveNameServers. rewrite (config_nameServers _ _ C).
      unfold config in C. now injection C as _ _ _ _ _ _ _ _ ->.
  - intros F. now apply N.
Qed.

Lemma nameServers_of_nil s :
  effectiveNameServers (set_nameServers [] s) = systemNameServers s.
Proof. reflexivity. Qed.

(** X16: [clearNameServers] returns and empties the list of name servers; in
    unicast mode with a backend it hands the backend the name servers of the
    system and then only starts or cancels queries; in multicast mode or
    without backend it changes the list and nothing else. *)
Theorem clear_name_servers_falls_back_to_system (s : State) :
  exists s',
    clearNameServers s = Done s'
    /\ m_nameServers s' = []
    /\ nameServerCount s' = 0%Z
    /\ (m_jdns s <> None -> isUnicast s = true ->
        handedNameServers (systemNameServers s) s s')
    /\ (m_jdns s = None \/ isUnicast s = false -> s' = set_nameServers [] s).
Proof.
  unfold clearNameServers, nameServersChanged.
  destruct (updateNameServers_spec (set_nameServers [] s))
    as (s' & H & C & B & N).
  exists s'. split; [exact H|].
  pose proof (config_nameServers _ _ C) as E.
  split; [exact E|]. split; [unfold nameServerCount; now rewrite E|].
  split; [|exact N].
  intros Hj U. destruct (B Hj U) as (j & j' & more & Ej & Ej' & Cm & K).
  exists j, j', more. auto.
Qed.

(** ** The network session *)

Lemma openFirst_spec configs session :
  match find Network.supported configs with
  | Some config =>
      Network.openFirst configs session
      = Some (Network.mkSession config false)
  | None => Network.openFirst configs session = session
  end.
Proof.
  induction configs as [|c configs IH]; simpl; [reflexivity|].
  now destruct (Network.supported c).
Qed.

(** X17: [openNetworkSession] opens a session on the first configuration of
    a supported bearer type (Ethernet, WLAN or unknown) among the default
    configuration, taken only when it is valid, followed by the discovered
    configurations in their order; every configuration before the one it
    opens is of an unsupported bearer type.  When no configuration is of a
    supported bearer type, it leaves the session of the engine as it is. *)
Theorem network_session_opens_first_supported
  (defaultConfig : Network.Configuration)
  (discovered : list Network.Configuration)
  (session : option Network.Session) :
  let configs := Network.availableConfigs defaultConfig discovered in
  ((forall config, In config configs -> Network.supported config = false) ->
   Network.openNetworkSession defaultConfig discovered session = session)
  /\ (forall config,
        In config configs -> Network.supported config = true ->
        exists before chosen after,
          configs = before ++ chosen :: after
          /\ Network.supported chosen = true
          /\ (forall c, In c before -> Network.supported c = false)
          /\ Network.openNetworkSession defaultConfig discovered session
             = Some (Network.mkSession chosen false))
  /\ (Network.isValid defaultConfig = true ->
      Network.supported defaultConfig = true ->
      Network.openNetworkSession defaultConfig discovered session
      = Some (Network.mkSession defaultConfig false)).
Proof.
  intros configs. unfold Network.openNetworkSession. fold configs.
  pose proof (openFirst_spec configs session) as S.
  split; [|split].
  - intros Hn. destruct (find Network.supported configs) as [c|] eqn:F;
      [|exact S].
    apply find_some in F as [F1 F2]. rewrite (Hn c F1) in F2. discriminate.
  - intros config Hin Hs.
    destruct (find Network.supported configs) as [c|] eqn:F.
    + clear Hin Hs config. rewrite S. clear S.
      revert F. generalize configs. clear.
      induction configs as [|x l IH]; simpl; [discriminate|].
      destruct (Network.supported x) eqn:Sx.
      * intros [= ->]. exists [], c, l. simpl. intuition.
      * intros F. destruct (IH F) as (before & chosen & after & E & Sc & B & O).
        exists (x :: before), chosen, after. simpl.
        split; [now rewrite E|]. split; [exact Sc|]. split; [|exact O].
        intros c0 [<-|H0]; auto.
    + eapply find_none in F; eauto. congruence.
  - intros V Sd. unfold configs, Network.availableConfigs. rewrite V.
    simpl. now rewrite Sd.
Qed.

(** ** The sub-queries of an item *)

Lemma cancelled_In item snapshot q :
  cancelled item snapshot q = true <-> In (q, item) snapshot.
Proof.
  unfold cancelled. rewrite existsb_exists. split.
  - intros ([q' p'] & Hin & E). simpl in E.
    apply andb_true_iff in E as [E1 E2].
    apply Z.eqb_eq in E1. apply Nat.eqb_eq in E2. now subst.
  - intros Hin. exists (q, item). split; [exact Hin|]. simpl.
    now rewrite Z.eqb_refl, Nat.eqb_refl.
Qed.

Lemma cancelled_cons item q0 p0 rest q :
  cancelled item ((q0, p0) :: rest) q
  = Z.eqb q0 q && Nat.eqb p0 item || cancelled item rest q.
Proof. reflexivity. Qed.

Lemma stopItemQueriesLoop_exact item snapshot : forall s s',
  stopItemQueriesLoop item snapshot s = Done s' ->
  (forall q p, In (q, p) (m_queryIdItemMap s')
               <-> In (q, p) (m_queryIdItemMap s)
                   /\ ~ In (q, item) snapshot)
  /\ (forall q, QMap.value (m_queryIdTypeMap s') q
                = if cancelled item snapshot q then None
                  else QMap.value (m_queryIdTypeMap s) q)
  /\ (forall q, In (q, item) snapshot ->
                In (QJDns.QueryCancel q) (backendCalls s')).
Proof.
  induction snapshot as [|[q0 p0] rest IH]; intros s s' H.
  - injection H as <-. split; [|split]; [tauto|reflexivity|intros q []].
  - cbn [stopItemQueriesLoop] in H.
    destruct (Nat.eqb_spec p0 item) as [->|Np].
    + apply bind_Done in H as [s1 [E H]].
      pose proof (stopItemQueriesLoop_logs _ _ _ _ H) as Lg.
      apply backendLogs_callsGrow in Lg.
      apply queryCancel_Done in E as (j & Ej & ->).
      apply IH in H as (I & T & C). sproj_in I. sproj_in T.
      split; [|split].
      * intros q p. rewrite I, In_remove. simpl.
        split.
        -- intros [[H1 H2] H3]. split; [exact H1|].
           intros [[= ?]|?]; [congruence|tauto].
        -- intros [H1 H2]. split; [split; [exact H1|]|tauto].
           intros ->. apply H2. now left.
      * intros q. rewrite T, value_remove, cancelled_cons.
        rewrite Nat.eqb_refl, andb_true_r.
        change (key_eqb q0 q) with (Z.eqb q0 q).
        destruct (Z.eqb q0 q); simpl; [|reflexivity].
        now destruct (cancelled item rest q).
      * intros q [[= -> ]|Hin]; [|now apply C].
        apply Lg. unfold backendCalls. sproj.
        apply in_or_app. right. now left.
    + apply IH in H as (I & T & C). split; [|split].
      * intros q p. rewrite I. simpl. split.
        -- intros [H1 H2]. split; [exact H1|].
           intros [[= ? ?]|?]; [congruence|tauto].
        -- intros [H1 H2]. split; [exact H1|tauto].
      * intros q. rewrite T, cancelled_cons.
        destruct (Nat.eqb_spec p0 item); [contradiction|].
        now rewrite andb_false_r.
      * intros q [[= ? ?]|Hin]; [congruence|now apply C].
Qed.

(** X18: with a backend, [stopItemQueries] returns; it takes out of
    [m_queryIdItemMap] exactly the sub-queries registered for the item, asks
    the backend to cancel each of them and forgets its recorded type; the
    recorded type of every other query id, the scans, the instance tables,
    the user queries and the items are left as they are, and nothing but
    cancellations is asked of the backend. *)
Theorem stop_item_queries_cancels_its_subqueries (s : State) (item : ptr) :
  m_jdns s <> None ->
  exists s',
    stopItemQueries item s = Done s'
    /\ (forall q p, In (q, p) (m_queryIdItemMap s')
                    <-> In (q, p) (m_queryIdItemMap s)
                        /\ ~ In (q, item) (m_queryIdItemMap s))
    /\ (forall q, In (q, item) (m_queryIdItemMap s) ->
          QMap.value (m_queryIdTypeMap s') q = None
          /\ In (QJDns.QueryCancel q) (backendCalls s'))
    /\ (forall q, ~ In (q, item) (m_queryIdItemMap s) ->
          QMap.value (m_queryIdTypeMap s') q
          = QMap.value (m_queryIdTypeMap s) q)
    /\ m_queryIdServiceMap s' = m_queryIdServiceMap s
    /\ sameTables s s'
    /\ backendLogs isCancel s s'.
Proof.
  intros Hj. destruct (stopItemQueries_total item s Hj) as [s' H].
  exists s'. split; [exact H|].
  pose proof (stopItemQueries_logs _ _ _ H) as Lg.
  pose proof (stopItemQueries_effect _ _ _ H) as (St & Sm & _).
  unfold stopItemQueries in H.
  apply stopItemQueriesLoop_exact in H as (I & T & C).
  split; [exact I|]. split; [|split; [|auto]].
  - intros q Hin. split; [|now apply C].
    rewrite T. now rewrite (proj2 (cancelled_In _ _ _) Hin).
  - intros q Hn. rewrite T.
    destruct (cancelled item (m_queryIdItemMap s) q) eqn:E; [|reflexivity].
    apply cancelled_In in E. contradiction.
Qed.

Lemma stop_item_queries_witness :
  let s := stateAfter Scenario.resolving in
  exists s',
    stopItemQueries 1 s = Done s'
    /\ (forall q p, In (q, p) (m_queryIdItemMap s')
                    <-> In (q, p) (m_queryIdItemMap s)
                        /\ ~ In (q, 1%nat) (m_queryIdItemMap s))
    /\ (forall q, In (q, 1%nat) (m_queryIdItemMap s) ->
          QMap.value (m_queryIdTypeMap s') q = None
          /\ In (QJDns.QueryCancel q) (backendCalls s'))
    /\ (forall q, ~ In (q, 1%nat) (m_queryIdItemMap s) ->
          QMap.value (m_queryIdTypeMap s') q
          = QMap.value (m_queryIdTypeMap s) q)
    /\ m_queryIdServiceMap s' = m_queryIdServiceMap s
    /\ sameTables s s'
    /\ backendLogs isCancel s s'.
Proof.
  apply stop_item_queries_cancels_its_subqueries.
  vm_compute. discriminate.
Defined.

(** ** The registry of query ids *)

Lemma backendLogs_nextId kind s s' n :
  backendLogs kind s s' -> nextId s = Some n ->
  exists n', nextId s' = Some n' /\ (n <= n')%Z.
Proof.
  intros L Hn. apply nextId_Some in Hn as (j & Ej & <-).
  destruct (backendLogs_Some _ _ _ _ Ej L) as (j' & _ & Ej' & _ & N & _).
  exists (QJDns.next_id j'). split; [|exact N].
  apply nextId_Some. eauto.
Qed.

Lemma scanRuns_later type t id s s' :
  m_queryIdServiceMap s' = m_queryIdServiceMap s ->
  QMap.value (m_queryIdTypeMap s') id = QMap.value (m_queryIdTypeMap s) id ->
  callsGrow s s' ->
  scanRuns type t id s -> scanRuns type t id s'.
Proof.
  intros E1 E2 G (A & B & C). unfold scanRuns. rewrite E1, E2. auto.
Qed.

Lemma subQueryRuns_later q s s' :
  QMap.value (m_queryIdTypeMap s') q = QMap.value (m_queryIdTypeMap s) q ->
  callsGrow s s' ->
  subQueryRuns q s -> subQueryRuns q s'.
Proof.
  intros E G (name & t & A & B & C). exists name, t. rewrite E. auto.
Qed.

Lemma Registry_of_empty s :
  m_queryIdServiceMap s = [] -> m_queryIdItemMap s = [] -> Registry s.
Proof.
  intros E1 E2. constructor.
  - intros id type Hin. rewrite E1 in Hin. destruct Hin.
  - intros q p Hin. rewrite E2 in Hin. destruct Hin.
  - intros q p Hin. rewrite E2 in Hin. destruct Hin.
  - intros q p type Hin. rewrite E2 in Hin. destruct Hin.
Qed.

(** The registry maps and the declared types are kept, the backend is
    called. *)
Lemma Registry_ext s s' :
  m_queryIdTypeMap s' = m_queryIdTypeMap s ->
  m_queryIdServiceMap s' = m_queryIdServiceMap s ->
  m_queryIdItemMap s' = m_queryIdItemMap s ->
  m_serviceTypeMap s' = m_serviceTypeMap s ->
  backendLogs anyCall s s' ->
  Registry s -> Registry s'.
Proof.
  intros E1 E2 E3 E4 L [R1 R2 R3 R4].
  pose proof (backendLogs_callsGrow _ _ _ L) as G.
  constructor.
  - intros id type Hin. rewrite E2 in Hin.
    rewrite (declaredType_ext s s') by exact E4.
    apply (scanRuns_later type _ id s); auto. now rewrite E1.
  - intros q p Hin. rewrite E3 in Hin.
    apply (subQueryRuns_later q s); eauto. now rewrite E1.
  - intros q p Hin. rewrite E3 in Hin.
    destruct (R3 _ _ Hin) as (n & Hn & Lt).
    destruct (backendLogs_nextId _ _ _ _ L Hn) as (n' & Hn' & Le).
    exists n'. split; [exact Hn'|lia].
  - intros q p type Hin. rewrite E3 in Hin. rewrite E2. eauto.
Qed.

Lemma Registry_same s s' :
  m_queryIdTypeMap s' = m_queryIdTypeMap s ->
  m_queryIdServiceMap s' = m_queryIdServiceMap s ->
  m_queryIdItemMap s' = m_queryIdItemMap s ->
  m_serviceTypeMap s' = m_serviceTypeMap s ->
  m_jdns s' = m_jdns s ->
  Registry s -> Registry s'.
Proof.
  intros E1 E2 E3 E4 E5. apply Registry_ext; auto.
  now apply backendLogs_same.
Qed.

Lemma stopItemQueries_Registry item s s' :
  Registry s -> stopItemQueries item s = Done s' -> Registry s'.
Proof.
  intros [R1 R2 R3 R4] H.
  pose proof (stopItemQueries_logs _ _ _ H) as Lg.
  pose proof (backendLogs_callsGrow _ _ _ Lg) as G.
  pose proof (stopItemQueries_effect _ _ _ H)
    as ((_ & St & _) & Sm & Sn & _).
  unfold stopItemQueries in H.
  apply stopItemQueriesLoop_exact in H as (I & T & _).
  assert (K : forall q p, In (q, p) (m_queryIdItemMap s') ->
                QMap.value (m_queryIdTypeMap s') q
                = QMap.value (m_queryIdTypeMap s) q).
  { intros q p Hin. apply I in Hin as [_ Hn]. rewrite T.
    destruct (cancelled _ _ q) eqn:E; [|reflexivity].
    apply cancelled_In in E. contradiction. }
  constructor.
  - intros id type Hin. rewrite Sm in Hin.
    rewrite (declaredType_ext s s') by exact St.
    apply (scanRuns_later type _ id s); auto.
    rewrite T. destruct (cancelled _ _ id) eqn:E; [|reflexivity].
    apply cancelled_In in E. now apply R4 with (type := type) in E.
  - intros q p Hin. pose proof (K _ _ Hin) as Kq. apply I in Hin as [Hin _].
    apply (subQueryRuns_later q s); eauto.
  - intros q p Hin. apply I in Hin as [Hin _]. rewrite Sn. eauto.
  - intros q p type Hin. apply I in Hin as [Hin _]. rewrite Sm. eauto.
Qed.

Lemma stopItemQueries_list_Registry items : forall s s',
  Registry s -> forEach stopItemQueries items s = Done s' -> Registry s'.
Proof.
  intros s s' R. apply (forEach_preserves Registry); [|exact R].
  intros x t t' _ Rt H. eapply stopItemQueries_Registry; eauto.
Qed.

Lemma relist_Registry type l s :
  Registry s ->
  Registry (updateServiceType type
              (set_serviceItemsMap (QMap.insert (m_serviceItemsMap s) type l)
                                   s)).
Proof.
  match goal with
  | |- _ -> Registry (updateServiceType type ?t) =>
      pose proof (updateServiceType_frame type t) as F
  end.
  cbv zeta in F. destruct F as (_ & F2 & _ & F4 & F5 & F6 & F7 & _).
  apply Registry_same; auto.
Qed.

Lemma update_item_Registry p f s : Registry s -> Registry (update_item p f s).
Proof. apply Registry_same; reflexivity. Qed.

Lemma clearItems_Registry type s s' :
  Registry s -> clearItems type s = Done s' -> Registry s'.
Proof.
  unfold clearItems. intros R H.
  destruct (QMap.value (m_serviceItemsMap s) type) as [l|];
    [|now injection H as <-].
  apply bind_Done in H as [s1 [E H]]. injection H as <-.
  apply relist_Registry. eapply stopItemQueries_list_Registry; eauto.
Qed.

Lemma removeItem_Registry name type s s' :
  Registry s -> removeItem name type s = Done s' -> Registry s'.
Proof.
  unfold removeItem. intros R H.
  destruct (QMap.value (m_serviceItemsMap s) type) as [l|];
    [|now injection H as <-].
  destruct (takeFirst (hasName s name) l) as [[item rest]|];
    [|now injection H as <-].
  apply bind_Done in H as [s1 [E H]]. injection H as <-.
  apply relist_Registry. eapply stopItemQueries_Registry; eauto.
Qed.

Lemma purgeLoop_Registry l : forall s l' modified s1,
  Registry s -> purgeLoop l s = Done (l', modified, s1) -> Registry s1.
Proof.
  induction l as [|item rest IH]; simpl; intros s l' modified s1 R H.
  - now injection H as <- <- <-.
  - apply bind_Done in H as [[[r m] s0] [E H]].
    apply IH in E; [|exact R].
    destruct (negb (Item.updated (item_at s0 item))).
    + destruct (_ >? _)%Z.
      * apply bind_Done in H as [s3 [E3 H]]. injection H as <- <- <-.
        eapply stopItemQueries_Registry; [|exact E3].
        now apply update_item_Registry.
      * injection H as <- <- <-. now apply update_item_Registry.
    + injection H as <- <- <-. now apply update_item_Registry.
Qed.

Lemma purgeItems_Registry type s s' :
  Registry s -> purgeItems type s = Done s' -> Registry s'.
Proof.
  unfold purgeItems. intros R H.
  destruct (QMap.value (m_serviceItemsMap s) type) as [l|];
    [|now injection H as <-].
  apply bind_Done in H as [[[r m] s1] [E H]].
  apply purgeLoop_Registry in E; [|exact R].
  destruct m; injection H as <-; [|exact E]. now apply relist_Registry.
Qed.

(** A scan is bound to the query id the backend hands out. *)
Lemma bind_Registry ex type t name s newId s1 :
  WFx ex s -> Registry s ->
  queryStart name t s = Done (newId, s1) ->
  name = type -> t = declaredType type s ->
  Registry (set_queryIdServiceMap
              (QMap.insert (m_queryIdServiceMap s1) newId type)
              (set_queryIdTypeMap
                 (QMap.insert (m_queryIdTypeMap s1) newId t) s1)).
Proof.
  intros W [R1 R2 R3 R4] H -> ->.
  apply queryStart_Done in H as (j & Ej & -> & ->). sproj.
  assert (Fs : forall id u, In (id, u) (m_queryIdServiceMap s) ->
                            id <> QJDns.next_id j).
  { intros id u Hin. destruct (wf_fresh W _ _ Hin) as (n & Hn & Lt).
    apply nextId_Some in Hn as (j' & Ej' & <-).
    assert (j' = j) by congruence. subst j'. lia. }
  assert (Fi : forall q p, In (q, p) (m_queryIdItemMap s) ->
                           q <> QJDns.next_id j).
  { intros q p Hin. destruct (R3 _ _ Hin) as (n & Hn & Lt).
    apply nextId_Some in Hn as (j' & Ej' & <-).
    assert (j' = j) by congruence. subst j'. lia. }
  match goal with |- Registry ?t => set (s' := t) end.
  assert (G : callsGrow s s').
  { intros c Hc. unfold backendCalls in *. unfold s'. sproj.
    rewrite Ej in Hc. apply in_or_app. now left. }
  assert (Tv : forall q, q <> QJDns.next_id j ->
                 QMap.value (m_queryIdTypeMap s') q
                 = QMap.value (m_queryIdTypeMap s) q).
  { intros q N. unfold s'. sproj. rewrite value_insert.
    destruct (key_eqb (QJDns.next_id j) q) eqn:K; [|reflexivity].
    apply key_eqb_eq in K. congruence. }
  constructor.
  - intros id u Hin. unfold s' in Hin. sproj_in Hin.
    change (declaredType u s') with (declaredType u s).
    apply In_insert in Hin as [[-> ->]|[N Hin]].
    + split; [|split].
      * unfold s'. sproj. apply In_insert. auto.
      * unfold s'. sproj. now rewrite value_insert, key_eqb_refl.
      * unfold backendCalls, s'. sproj. apply in_or_app. right. now left.
    + destruct (R1 _ _ Hin) as (A & B & C). split; [|split].
      * unfold s'. sproj. apply In_insert. auto.
      * rewrite Tv; auto.
      * now apply G.
  - intros q p Hin. change (In (q, p) (m_queryIdItemMap s)) in Hin.
    apply (subQueryRuns_later q s); eauto.
  - intros q p Hin. change (In (q, p) (m_queryIdItemMap s)) in Hin.
    destruct (R3 _ _ Hin) as (n & Hn & Lt).
    apply nextId_Some in Hn as (j' & Ej' & <-).
    assert (j' = j) by congruence. subst j'.
    exists (QJDns.next_id j + 1)%Z. split; [|lia].
    unfold nextId, s'. sproj. reflexivity.
  - intros q p u Hin Hs. change (In (q, p) (m_queryIdItemMap s)) in Hin.
    unfold s' in Hs. sproj_in Hs.
    apply In_insert in Hs as [[-> ->]|[N Hs]].
    + eapply Fi; eauto.
    + eapply R4; eauto.
Qed.

(** The id of a scan is taken out of the registry. *)
Lemma unbind_Registry s j id type c :
  Registry s -> m_jdns s = Some j ->
  In (id, type) (m_queryIdServiceMap s) ->
  Registry (set_queryIdServiceMap (QMap.remove (m_queryIdServiceMap s) id)
              (set_queryIdTypeMap (QMap.remove (m_queryIdTypeMap s) id)
                 (set_jdns (Some (log_call c j)) s))).
Proof.
  intros [R1 R2 R3 R4] Ej Hb.
  match goal with |- Registry ?t => set (s' := t) end.
  assert (G : callsGrow s s').
  { intros c0 Hc. unfold backendCalls in *. unfold s'. sproj.
    rewrite Ej in Hc. apply in_or_app. now left. }
  assert (Tv : forall q, q <> id ->
                 QMap.value (m_queryIdTypeMap s') q
                 = QMap.value (m_queryIdTypeMap s) q).
  { intros q N. unfold s'. sproj. rewrite value_remove.
    destruct (key_eqb id q) eqn:K; [|reflexivity].
    apply key_eqb_eq in K. congruence. }
  constructor.
  - intros i u Hin. unfold s' in Hin. sproj_in Hin.
    apply In_remove in Hin as [Hin N].
    change (declaredType u s') with (declaredType u s).
    destruct (R1 _ _ Hin) as (A & B & C). split; [|split].
    + unfold s'. sproj. apply In_remove. auto.
    + rewrite Tv; auto.
    + now apply G.
  - intros q p Hin. change (In (q, p) (m_queryIdItemMap s)) in Hin.
    apply (subQueryRuns_later q s); eauto.
    apply Tv. intros ->. eapply R4; eauto.
  - intros q p Hin. change (In (q, p) (m_queryIdItemMap s)) in Hin.
    destruct (R3 _ _ Hin) as (n & Hn & Lt). exists n. split; [|exact Lt].
    unfold nextId in *. unfold s'. sproj. rewrite Ej in Hn. exact Hn.
  - intros q p u Hin Hs. change (In (q, p) (m_queryIdItemMap s)) in Hin.
    unfold s' in Hs. sproj_in Hs. apply In_remove in Hs as [Hs _].
    eapply R4; eauto.
Qed.

Lemma startQuery_Registry ex type s s' :
  WFx ex s -> Registry s -> startQuery type s = Done s' -> Registry s'.
Proof.
  unfold startQuery. intros W R H.
  destruct (findQuery type s); [now injection H as <-|].
  apply bind_Done in H as [[id s1] [E H]]. injection H as <-.
  eapply bind_Registry; eauto.
Qed.

Lemma stopQuery_Registry type s s' :
  Registry s -> stopQuery type s = Done s' -> Registry s'.
Proof.
  unfold stopQuery. intros R H.
  destruct (findQuery type s) as [id|] eqn:Ef; [|now injection H as <-].
  apply findQuery_Some in Ef.
  apply bind_Done in H as [s1 [E H]].
  apply queryCancel_Done in E as (j & Ej & ->). sproj_in H.
  eapply clearItems_Registry; [|exact H].
  now apply unbind_Registry with (type := type).
Qed.

Lemma refreshQuery_Registry ex type s s' :
  WFx ex s -> Registry s -> refreshQuery type s = Done s' -> Registry s'.
Proof.
  unfold refreshQuery. intros W R H.
  destruct (findQuery type s) as [id|] eqn:Ef; [|now injection H as <-].
  apply findQuery_Some in Ef.
  apply bind_Done in H as [s1 [E H]].
  apply queryCancel_Done in E as (j & Ej & ->). sproj_in H.
  apply bind_Done in H as [s2 [E2 H]].
  apply bind_Done in H as [[newId s3] [E3 H]]. injection H as <-.
  pose proof (WFx_unbind ex s j id type (QJDns.QueryCancel id) W Ej Ef) as W1.
  pose proof (purgeItems_WFx _ _ _ _ W1 E2) as W2.
  pose proof (unbind_Registry s j id type (QJDns.QueryCancel id) R Ej Ef) as R1.
  pose proof (purgeItems_Registry _ _ _ R1 E2) as R2.
  apply purgeItems_frame in E2 as ((_ & F2 & _) & _).
  eapply bind_Registry; eauto.
  unfold declaredType. rewrite F2. reflexivity.
Qed.

Lemma addServiceType_Registry ex type t s :
  WFx ex s -> Registry s -> Registry (addServiceType type t s).
Proof.
  unfold addServiceType. intros W [R1 R2 R3 R4].
  destruct (QMap.contains (m_serviceItemsMap s) type) eqn:Ec;
    [now constructor|].
  match goal with |- Registry ?t => set (s' := t) end.
  constructor; auto.
  intros id u Hin. change (In (id, u) (m_queryIdServiceMap s)) in Hin.
  assert (N : type <> u).
  { intros ->. rewrite (wf_key W _ _ Hin) in Ec. discriminate. }
  replace (declaredType u s') with (declaredType u s); [now apply R1|].
  unfold declaredType, s'. sproj. rewrite value_insert.
  destruct (key_eqb type u) eqn:K; [|reflexivity].
  apply key_eqb_eq in K. contradiction.
Qed.

Lemma removeServiceType_Registry type s s' :
  Registry s -> (forall id, ~ In (id, type) (m_queryIdServiceMap s)) ->
  removeServiceType type s = Done s' -> Registry s'.
Proof.
  unfold removeServiceType. intros R Hno H.
  destruct (negb _); [now injection H as <-|].
  apply bind_Done in H as [s1 [E H]]. injection H as <-.
  pose proof (clearItems_Registry _ _ _ R E) as [R1 R2 R3 R4].
  apply clearItems_effect in E as (_ & _ & _ & Sm & _).
  match goal with |- Registry ?t => set (s' := t) end.
  constructor; auto.
  intros id u Hin. change (In (id, u) (m_queryIdServiceMap s1)) in Hin.
  assert (N : type <> u).
  { intros ->. rewrite Sm in Hin. now apply Hno in Hin. }
  replace (declaredType u s') with (declaredType u s1); [now apply R1|].
  unfold declaredType, s'. sproj. rewrite value_remove.
  destruct (key_eqb type u) eqn:K; [|reflexivity].
  apply key_eqb_eq in K. contradiction.
Qed.

(** A sub-query is registered under the query id the backend hands out. *)
Lemma register_Registry ex name t p s newId s1 :
  WFx ex s -> Registry s ->
  queryStart name t s = Done (newId, s1) ->
  isStartedSubType t ->
  Registry (registerSubQuery newId t p s1).
Proof.
  intros W [R1 R2 R3 R4] H Ht.
  apply queryStart_Done in H as (j & Ej & -> & ->).
  assert (Fs : forall id u, In (id, u) (m_queryIdServiceMap s) ->
                            id <> QJDns.next_id j).
  { intros id u Hin. destruct (wf_fresh W _ _ Hin) as (n & Hn & Lt).
    apply nextId_Some in Hn as (j' & Ej' & <-).
    assert (j' = j) by congruence. subst j'. lia. }
  assert (Fi : forall q p, In (q, p) (m_queryIdItemMap s) ->
                           q <> QJDns.next_id j).
  { intros q p0 Hin. destruct (R3 _ _ Hin) as (n & Hn & Lt).
    apply nextId_Some in Hn as (j' & Ej' & <-).
    assert (j' = j) by congruence. subst j'. lia. }
  match goal with |- Registry ?t => set (s' := t) end.
  assert (G : callsGrow s s').
  { intros c Hc. unfold backendCalls in *. unfold s', registerSubQuery. sproj.
    rewrite Ej in Hc. apply in_or_app. now left. }
  assert (Tv : forall q, q <> QJDns.next_id j ->
                 QMap.value (m_queryIdTypeMap s') q
                 = QMap.value (m_queryIdTypeMap s) q).
  { intros q N. unfold s', registerSubQuery. sproj. rewrite value_insert.
    destruct (key_eqb (QJDns.next_id j) q) eqn:K; [|reflexivity].
    apply key_eqb_eq in K. congruence. }
  assert (Nx : nextId s' = Some (QJDns.next_id j + 1)%Z)
    by (unfold nextId, s', registerSubQuery; sproj; reflexivity).
  constructor.
  - intros id u Hin. change (In (id, u) (m_queryIdServiceMap s)) in Hin.
    change (declaredType u s') with (declaredType u s).
    apply (scanRuns_later u _ id s); auto. apply Tv. eapply Fs; eauto.
  - intros q p0 Hin. unfold s', registerSubQuery in Hin. sproj_in Hin.
    apply In_insert in Hin as [[-> ->]|[N Hin]].
    + exists name, t. split; [|split; [exact Ht|]].
      * unfold s', registerSubQuery. sproj.
        now rewrite value_insert, key_eqb_refl.
      * unfold backendCalls, s', registerSubQuery. sproj.
        apply in_or_app. right. now left.
    + apply (subQueryRuns_later q s); eauto.
  - intros q p0 Hin. rewrite Nx. eexists. split; [reflexivity|].
    unfold s', registerSubQuery in Hin. sproj_in Hin.
    apply In_insert in Hin as [[-> ->]|[N Hin]]; [lia|].
    destruct (R3 _ _ Hin) as (n & Hn & Lt).
    apply nextId_Some in Hn as (j' & Ej' & <-).
    assert (j' = j) by congruence. subst j'. lia.
  - intros q p0 u Hin Hs. change (In (q, u) (m_queryIdServiceMap s)) in Hs.
    unfold s', registerSubQuery in Hin. sproj_in Hin.
    apply In_insert in Hin as [[-> ->]|[N Hin]].
    + eapply Fs; eauto.
    + eapply R4; eauto.
Qed.

(** The id of an answered sub-query is taken out of the registry. *)
Lemma finishSubQuery_Registry id s p s' :
  Registry s -> finishSubQuery id s = Done (p, s') -> Registry s'.
Proof.
  unfold finishSubQuery. intros [R1 R2 R3 R4] H.
  apply bind_Done in H as [s1 [E H]].
  apply queryCancel_Done in E as (j & Ej & ->).
  apply bind_Done in H as [p' [Ep H]]. injection H as <- <-.
  unfold deref in Ep.
  destruct (QMap.value (m_queryIdItemMap s) id) as [p0|] eqn:Ev;
    [|discriminate].
  injection Ep as <-. apply value_In in Ev.
  match goal with |- Registry ?t => set (s' := t) end.
  assert (G : callsGrow s s').
  { intros c0 Hc. unfold backendCalls in *. unfold s'. sproj.
    rewrite Ej in Hc. apply in_or_app. now left. }
  assert (Tv : forall q, q <> id ->
                 QMap.value (m_queryIdTypeMap s') q
                 = QMap.value (m_queryIdTypeMap s) q).
  { intros q N. unfold s'. sproj. rewrite value_remove.
    destruct (key_eqb id q) eqn:K; [|reflexivity].
    apply key_eqb_eq in K. congruence. }
  constructor.
  - intros i u Hin. change (In (i, u) (m_queryIdServiceMap s)) in Hin.
    change (declaredType u s') with (declaredType u s).
    apply (scanRuns_later u _ i s); auto.
    apply Tv. intros ->. eapply R4; eauto.
  - intros q p Hin. unfold s' in Hin. sproj_in Hin.
    apply In_remove in Hin as [Hin N].
    apply (subQueryRuns_later q s); eauto.
  - intros q p Hin. unfold s' in Hin. sproj_in Hin.
    apply In_remove in Hin as [Hin N].
    destruct (R3 _ _ Hin) as (n & Hn & Lt). exists n. split; [|exact Lt].
    unfold nextId in *. unfold s'. sproj. rewrite Ej in Hn. exact Hn.
  - intros q p u Hin Hs. change (In (q, u) (m_queryIdServiceMap s)) in Hs.
    unfold s' in Hin. sproj_in Hin. apply In_remove in Hin as [Hin _].
    eapply R4; eauto.
Qed.

Lemma addItem_Registry name type s :
  Registry s -> Registry (snd (addItem name type s)).
Proof.
  unfold addItem. intros R.
  destruct (QMap.value _ _) as [l|]; [|exact R].
  destruct (find _ _); [exact R|].
  unfold new_item. cbn [snd]. revert R. apply Registry_same; reflexivity.
Qed.

Lemma resolveItem_Registry item s :
  Registry s -> Registry (resolveItem item s).
Proof.
  pose proof (resolveItem_frame item s) as F. cbv zeta in F.
  destruct F as ((_ & F2 & _) & _ & F3 & F4 & F5 & _).
  apply Registry_same; auto. apply resolveItem_jdns.
Qed.

Lemma ptrBranch_Registry ex id r s item s' :
  WFx ex s -> Registry s ->
  (exists type, In (id, type) (m_queryIdServiceMap s)) ->
  ptrBranch id r s = Done (item, s') -> Registry s'.
Proof.
  unfold ptrBranch. intros W R [u Hu] H.
  assert (Hb : exists i, In (i, boundServiceType id s) (m_queryIdServiceMap s)).
  { unfold boundServiceType. destruct (In_value _ _ _ Hu) as [u' Ev].
    rewrite Ev. exists id. now apply value_In. }
  destruct (QJDns.ttl r >? 0)%Z.
  - pose proof (addItem_Registry (instanceName r) (boundServiceType id s) s R)
      as R1.
    destruct (addItem (instanceName r) (boundServiceType id s) s)
      as [it s1] eqn:Ea. cbn [snd] in R1.
    apply (addItem_effect ex) in Ea
      as (W1 & S1 & N1 & M1 & L1 & p & l & -> & Hv & Hp); auto.
    apply bind_Done in H as [[newId s2] [E2 H]].
    simpl in H. apply bind_Done in H as [[newId' s4] [E4 H]].
    injection H as <- <-.
    pose proof (register_Registry ex _ QJDns.Txt p _ _ _ W1 R1 E2) as R3.
    apply (queryStart_WFx ex) in E2
      as (W2 & N2 & N2' & S2 & M2 & I2 & T2 & Tab2 & L2 & _); auto.
    assert (W3 : WFx ex (registerSubQuery newId QJDns.Txt p s2)).
    { apply registerSubQuery_WFx; auto; try discriminate.
      - congruence.
      - rewrite Tab2. eauto. }
    eapply register_Registry; eauto.
    + apply R3. unfold isStartedSubType. auto.
    + unfold isStartedSubType. auto.
  - apply bind_Done in H as [s1 [E H]]. injection H as <- <-.
    eapply removeItem_Registry; eauto.
Qed.

Lemma txtBranch_Registry id r s item s' :
  Registry s -> txtBranch id r s = Done (item, s') -> Registry s'.
Proof.
  unfold txtBranch. intros R H.
  apply bind_Done in H as [[p s1] [E H]]. injection H as <- <-.
  apply update_item_Registry. eapply finishSubQuery_Registry; eauto.
Qed.

Lemma addressBranch_Registry id r s item s' :
  Registry s -> addressBranch id r s = Done (item, s') -> Registry s'.
Proof.
  unfold addressBranch. intros R H.
  apply bind_Done in H as [[p s1] [E H]]. injection H as <- <-.
  apply update_item_Registry. eapply finishSubQuery_Registry; eauto.
Qed.

Lemma srvBranch_Registry ex id r s item s' :
  WFx ex s -> Registry s -> srvBranch id r s = Done (item, s') -> Registry s'.
Proof.
  unfold srvBranch. intros W R H.
  apply bind_Done in H as [[p s1] [E H]].
  apply bind_Done in H as [[newId s2] [E2 H]]. injection H as <- <-.
  pose proof (finishSubQuery_Registry _ _ _ _ R E) as R1.
  apply (finishSubQuery_effect ex) in E as (W1 & _); auto.
  do 2 apply update_item_Registry.
  eapply register_Registry; eauto. unfold isStartedSubType. auto.
Qed.

Lemma handleRecord_Registry ex id type r s s' :
  WFx ex s -> Registry s ->
  (type = QJDns.Ptr -> exists u, In (id, u) (m_queryIdServiceMap s)) ->
  handleRecord id type r s = Done s' -> Registry s'.
Proof.
  unfold handleRecord. intros W R Hp H.
  apply bind_Done in H as [[item s1] [E H]]. injection H as <-.
  apply resolveItem_Registry.
  destruct (Z.eqb_spec type QJDns.Ptr) as [->|].
  { eapply ptrBranch_Registry; eauto. }
  destruct (type =? QJDns.Txt)%Z.
  { eapply txtBranch_Registry; eauto. }
  destruct (type =? QJDns.Srv)%Z.
  { eapply srvBranch_Registry; eauto. }
  destruct ((type =? QJDns.A)%Z || (type =? QJDns.Aaaa)%Z).
  { eapply addressBranch_Registry; eauto. }
  now injection E as <- <-.
Qed.

Lemma resultsReady_Registry ex id results s s' :
  WFx ex s -> Registry s -> resultsReady id results s = Done s' ->
  Registry s'.
Proof.
  unfold resultsReady. intros W R H.
  assert (Hp : recordedType id s = QJDns.Ptr ->
               exists u, In (id, u) (m_queryIdServiceMap s)).
  { unfold recordedType. intros E.
    destruct (QMap.value (m_queryIdTypeMap s) id) as [t|] eqn:Ev;
      [|discriminate]. subst t. eapply wf_ptr; eauto. }
  assert (G : WFx ex s' /\ m_queryIdServiceMap s' = m_queryIdServiceMap s
              /\ Registry s'); [|tauto].
  revert H.
  apply (forEach_preserves
           (fun t => WFx ex t
                     /\ m_queryIdServiceMap t = m_queryIdServiceMap s
                     /\ Registry t)); [|auto].
  intros r t t' _ (W1 & M1 & R1) H.
  assert (Hp' : recordedType id s = QJDns.Ptr ->
                exists u, In (id, u) (m_queryIdServiceMap t))
    by (rewrite M1; exact Hp).
  pose proof (handleRecord_Registry ex _ _ _ _ _ W1 R1 Hp' H) as R2.
  apply (handleRecord_effect ex) in H as (W2 & _ & M2); auto.
  split; [exact W2|]. split; [congruence|exact R2].
Qed.

Lemma startQueries_Registry s s' :
  WF s -> Registry s -> startQueries s = Done s' -> Registry s'.
Proof.
  unfold startQueries. intros W R H.
  assert (G : (WF s' /\ sameShape s s') /\ Registry s'); [|tauto].
  revert H.
  apply (forEach_preserves
           (fun t => (WF t /\ sameShape s t) /\ Registry t)).
  - intros x t t' Hx [[W1 S1] R1] H.
    pose proof (startQuery_Registry _ _ _ _ W1 R1 H) as R2.
    pose proof (startQuery_frame _ _ _ H) as (S2 & _).
    split; [split|exact R2]; [|eapply sameShape_trans; eauto].
    eapply WFx_weaken; [|eapply startQuery_WFx; eauto].
    + simpl. tauto.
    + destruct S1 as (_ & _ & S1 & _). rewrite S1. now apply key_contains.
  - split; [split; [exact W|apply sameShape_refl]|exact R].
Qed.

Lemma unicastLookup_Registry s s' :
  WF s -> Registry s -> unicastLookup s = Done s' -> Registry s'.
Proof.
  unfold unicastLookup. intros W R H.
  assert (G : WF s' /\ Registry s'); [|tauto].
  revert H. apply (forEach_preserves (fun t => WF t /\ Registry t)); [|auto].
  intros x t t' _ [W1 R1] H. split.
  - eapply refreshQuery_WFx; eauto.
  - eapply refreshQuery_Registry; eauto.
Qed.

Lemma updateServicesLoop_Registry queries : forall old s old' s',
  WF s -> quiet s -> Registry s ->
  updateServicesLoop queries old s = Done (old', s') -> Registry s'.
Proof.
  induction queries as [|query rest IH]; simpl; intros old s old' s' W Q R H.
  - now injection H as <- <-.
  - destruct (negb (Query.serviceType query =? "")%string); [|eauto].
    apply bind_Done in H as [s2 [E H]].
    set (s1 := addServiceType (Query.serviceType query)
                              (Query.queryType query) s) in *.
    pose proof (addServiceType_frame (Query.serviceType query)
                  (Query.queryType query) s) as F. cbv zeta in F.
    fold s1 in F. destruct F as (F1 & F2 & _ & _ & F5 & _ & F7 & _).
    assert (W1 : WF s1) by (apply addServiceType_WFx; exact W).
    assert (R1 : Registry s1) by (eapply addServiceType_Registry; eauto).
    assert (G : WF s2 /\ quiet s2 /\ Registry s2).
    { destruct (live s1) eqn:El.
      - pose proof (startQuery_frame _ _ _ E) as (S2 & _).
        split; [|split].
        + eapply WFx_weaken; [|eapply startQuery_WFx; eauto]. simpl. tauto.
        + intros L. destruct S2 as (S2 & _).
          rewrite (config_live _ _ S2) in L. congruence.
        + eapply startQuery_Registry; eauto.
      - injection E as <-. split; [exact W1|]. split; [|exact R1].
        intros _. rewrite F2. apply Q. now rewrite <- (config_live _ _ F1). }
    destruct G as (W2 & Q2 & R2). eapply IH; eauto.
Qed.

Lemma removeLeftover_Registry type s s' :
  WF s -> quiet s -> Registry s -> removeLeftover type s = Done s' ->
  Registry s'.
Proof.
  unfold removeLeftover. intros W Q R H.
  apply bind_Done in H as [s1 [E H]].
  assert (G : Registry s1
              /\ forall id, ~ In (id, type) (m_queryIdServiceMap s1)).
  { destruct (live s) eqn:El.
    - pose proof (stopQuery_frame _ _ _ _ W E) as (_ & N1 & _).
      split; [eapply stopQuery_Registry; eauto|exact N1].
    - injection E as <-. split; [exact R|].
      intros id. rewrite (Q El). tauto. }
  destruct G as [R1 N1]. eapply removeServiceType_Registry; eauto.
Qed.

Lemma updateAllServiceTypes_Registry s :
  Registry s -> Registry (updateAllServiceTypes s).
Proof.
  pose proof (updateAllServiceTypes_frame s) as F. cbv zeta in F.
  destruct F as (_ & F2 & _ & F4 & F5 & F6 & F7 & _).
  apply Registry_same; auto.
Qed.

Lemma updateServices_Registry s s' :
  WF s -> quiet s -> Registry s -> updateServices s = Done s' -> Registry s'.
Proof.
  unfold updateServices. intros W Q R H.
  apply bind_Done in H as [[old s1] [E H]].
  apply bind_Done in H as [s2 [E2 H]]. injection H as <-.
  pose proof (updateServicesLoop_Registry _ _ _ _ _ W Q R E) as R1.
  apply updateServicesLoop_effect in E as (W1 & S1 & Q1); auto.
  apply updateAllServiceTypes_Registry.
  assert (G : (WF s2 /\ quiet s2) /\ Registry s2); [|tauto].
  revert E2.
  apply (forEach_preserves (fun t => (WF t /\ quiet t) /\ Registry t));
    [|auto].
  intros x t t' _ [[Wt Qt] Rt] Ht.
  pose proof (removeLeftover_Registry _ _ _ Wt Qt Rt Ht) as Rt'.
  apply removeLeftover_effect in Ht as (Wt' & _ & Qt'); auto.
Qed.

Lemma updateNameServers_Registry s s' :
  WF s -> Registry s -> updateNameServers s = Done s' -> Registry s'.
Proof.
  unfold updateNameServers. intros W R H.
  destruct (m_jdns s) as [j|] eqn:Ej; [|now injection H as <-].
  destruct (negb (isUnicast s)); [now injection H as <-|].
  cbv zeta in H.
  match type of H with
  | (if _ then _ else Done ?X) = _ => set (s1 := X) in *
  end.
  assert (W1 : WF s1) by (now apply log_call_WF).
  assert (R1 : Registry s1).
  { revert R. apply Registry_ext; try reflexivity.
    now apply backendLogs_call. }
  destruct (m_running s1).
  - eapply unicastLookup_Registry; eauto.
  - now injection H as <-.
Qed.

Lemma stopQueries_Registry s s' :
  WF s -> stopQueries s = Done s' -> Registry s'.
Proof.
  intros W H. apply stopQueries_effect in H as (_ & _ & (_ & E & F) & _); auto.
  now apply Registry_of_empty.
Qed.

Lemma setRunning_Registry arg s s' :
  Inv s -> Registry s -> setRunning arg s = Done s' -> Registry s'.
Proof.
  unfold setRunning. intros I R H.
  destruct (Bool.eqb (m_running s) arg); [now injection H as <-|].
  sproj_in H.
  destruct (m_networkReady s); simpl in H.
  - destruct arg.
    + apply bind_Done in H as [s2 [E H]].
      assert (W1 : WF (set_running true s)).
      { eapply WFx_ext; [| | | | |exact (inv_wf I)]; reflexivity. }
      assert (R1 : Registry (set_running true s))
        by (revert R; apply Registry_same; reflexivity).
      pose proof (startQueries_Registry _ _ W1 R1 E) as R2.
      destruct (isUnicast s2); injection H as <-; [|exact R2].
      revert R2. apply Registry_same; reflexivity.
    + eapply stopQueries_Registry; [|exact H].
      eapply WFx_ext; [| | | | |exact (inv_wf I)];
        destruct (isUnicast (set_running false s)); reflexivity.
  - injection H as <-. revert R. apply Registry_same; reflexivity.
Qed.

Lemma initializeMdns_Registry initialized s ok s' :
  registryEmpty s -> tablesEmpty s -> m_jdns s = None ->
  initializeMdns initialized s = Done (ok, s') ->
  Registry s'.
Proof.
  unfold initializeMdns. intros Re T Ej H. rewrite Ej in H.
  assert (R0 : Registry s) by (apply Registry_of_empty; apply Re).
  destruct initialized; simpl in H; [|now injection H as <- <-].
  match type of H with
  | context [set_lookupReady true ?t] => set (s1 := set_lookupReady true t) in *
  end.
  assert (W1 : WF s1) by (now apply WF_of_empty).
  assert (R1 : Registry s1) by (apply Registry_of_empty; apply Re).
  apply bind_Done in H as [s2 [E2 H]].
  apply bind_Done in H as [s3 [E3 H]]. injection H as <- <-.
  assert (G2 : WF s2 /\ m_queryIdServiceMap s2 = [] /\ Registry s2).
  { destruct (isUnicast s1).
    - pose proof (updateNameServers_Registry _ _ W1 R1 E2) as R2.
      apply updateNameServers_effect in E2 as (W2 & S2 & Q2); auto.
      split; [exact W2|]. split; [apply Q2, Re|exact R2].
    - injection E2 as <-. split; [exact W1|]. split; [apply Re|exact R1]. }
  destruct G2 as (W2 & M2 & R2).
  destruct (m_running s2).
  - apply bind_Done in E3 as [s4 [E4 E3]].
    eapply updateServices_Registry in E4; eauto.
    + destruct (isUnicast s4); injection E3 as <-; [|exact E4].
      revert E4. apply Registry_same; reflexivity.
    + intros _. exact M2.
  - now injection E3 as <-.
Qed.

Lemma deinitializeMdns_Registry s s' :
  Inv s -> Registry s -> deinitializeMdns s = Done s' -> Registry s'.
Proof.
  intros I R H. destruct (m_jdns s) eqn:Ej.
  - apply deinitializeMdns_effect in H as (_ & _ & _ & _ & _ & Re & _); auto.
    apply Registry_of_empty; apply Re.
  - unfold deinitializeMdns in H. rewrite Ej in H. now injection H as <-.
Qed.

Lemma step_Registry e s s' :
  Inv s -> Registry s -> step e s = Done s' -> Registry s'.
Proof.
  intros I R H. pose proof (inv_wf I) as W. destruct e; simpl in H.
  - injection H as <-. revert R. apply Registry_same; reflexivity.
  - unfold networkSessionOpened in H.
    apply bind_Done in H as [[ok s1] [E H]].
    assert (R1 : Registry s1).
    { destruct (m_jdns s) as [j|] eqn:Ej.
      - unfold initializeMdns in E. sproj_in E. rewrite Ej in E.
        injection E as <- <-. revert R. apply Registry_same; reflexivity.
      - destruct (WF_no_backend _ W Ej) as [Re T].
        eapply initializeMdns_Registry; [| | |exact E]; auto. }
    destruct (negb ok); injection H as <-; [|exact R1].
    revert R1. apply Registry_same; reflexivity.
  - unfold networkSessionClosed in H.
    apply bind_Done in H as [s1 [E H]]. injection H as <-.
    apply deinitializeMdns_Registry in E; auto.
    revert E. apply Registry_same; reflexivity.
  - eapply setRunning_Registry; eauto.
  - unfold setLookupMode in H.
    destruct (sameMode (m_lookupMode s) arg); [now injection H as <-|].
    apply bind_Done in H as [s1 [E H]].
    destruct (m_lookupReady s) eqn:El.
    + apply bind_Done in H as [[ok s3] [E3 H]].
      apply deinitializeMdns_effect in E as (J & _ & _ & _ & _ & Re & T); auto.
      apply initializeMdns_Registry in E3; auto.
      destruct (negb ok); injection H as <-; [|exact E3].
      revert E3. apply Registry_same; reflexivity.
    + injection E as <-. injection H as <-.
      revert R. apply Registry_same; reflexivity.
  - injection H as <-. unfold setUnicastErrorThreshold.
    destruct (m_unicastErrorThreshold s =? arg)%Z; [exact R|].
    revert R. apply Registry_same; reflexivity.
  - injection H as <-. unfold setFilter.
    apply updateAllServiceTypes_Registry.
    revert R. apply Registry_same; reflexivity.
  - injection H as <-. revert R. apply Registry_same; reflexivity.
  - injection H as <-. revert R. apply Registry_same; reflexivity.
  - eapply updateNameServers_Registry; [| |exact H].
    + eapply WFx_ext; [| | | | |exact W]; reflexivity.
    + revert R. apply Registry_same; reflexivity.
  - injection H as <-. revert R. apply Registry_same; reflexivity.
  - eapply updateServices_Registry; eauto. now apply Inv_quiet.
  - injection H as <-. now apply updateAllServiceTypes_Registry.
  - eapply updateNameServers_Registry; eauto.
  - destruct (m_unicastLookupTimer s); [|now injection H as <-].
    eapply unicastLookup_Registry; eauto.
  - eapply resultsReady_Registry; eauto.
  - now injection H as <-.
Qed.

Lemma reachable_Registry s : reachable s -> Registry s.
Proof.
  apply reachable_preserves.
  - now apply Registry_of_empty.
  - apply step_Registry.
Qed.

(** X19: between two events every query id bound to a service type is that
    of a running scan: the service type has an instance table, the recorded
    type of the id is the record type the service type was registered with,
    the backend was asked to start that query, and the id is the id of no
    sub-query.  Every query id with a recorded type is bound to a service
    type or registered as a sub-query. *)
Theorem bound_ids_are_running_scans (s : State) :
  reachable s ->
  (forall id type, In (id, type) (m_queryIdServiceMap s) ->
     scanRuns type (declaredType type s) id s
     /\ QMap.contains (m_serviceItemsMap s) type = true
     /\ QMap.value (m_queryIdItemMap s) id = None)
  /\ (forall id t, QMap.value (m_queryIdTypeMap s) id = Some t ->
        (exists type, In (id, type) (m_queryIdServiceMap s))
        \/ (exists p, In (id, p) (m_queryIdItemMap s))).
Proof.
  intros R. pose proof (reachable_Registry _ R) as Rg.
  apply reachable_Inv in R. pose proof (inv_wf R) as W.
  split.
  - intros id type Hin. split; [now apply (rg_scans Rg)|].
    split; [eapply wf_key; eauto|].
    apply value_None. intros p Hp. eapply (rg_apart Rg); eauto.
  - intros id t. apply (wf_type W).
Qed.

Lemma bound_ids_witness :
  let s := stateAfter Scenario.resolving in
  (forall id type, In (id, type) (m_queryIdServiceMap s) ->
     scanRuns type (declaredType type s) id s
     /\ QMap.contains (m_serviceItemsMap s) type = true
     /\ QMap.value (m_queryIdItemMap s) id = None)
  /\ (forall id t, QMap.value (m_queryIdTypeMap s) id = Some t ->
        (exists type, In (id, type) (m_queryIdServiceMap s))
        \/ (exists p, In (id, p) (m_queryIdItemMap s))).
Proof.
  apply bound_ids_are_running_scans.
  eapply reachable_stateAfter. vm_compute. reflexivity.
Defined.

(** X20: between two events every sub-query of the registry belongs to an
    instance that is listed in an instance table, never to a removed one;
    its recorded type is TXT, SRV or A, the backend was asked to start it,
    its id is below the query counter of the backend and is bound to no
    service type. *)
Theorem subqueries_belong_to_listed_instances (s : State) (q : Z) (p : ptr) :
  reachable s -> In (q, p) (m_queryIdItemMap s) ->
  subQueryRuns q s
  /\ (exists type l, QMap.value (m_serviceItemsMap s) type = Some l /\ In p l)
  /\ (exists n, nextId s = Some n /\ (q < n)%Z)
  /\ (forall type, ~ In (q, type) (m_queryIdServiceMap s)).
Proof.
  intros R Hin. pose proof (reachable_Registry _ R) as Rg.
  apply reachable_Inv in R. pose proof (inv_wf R) as W.
  split; [eapply (rg_subs Rg); eauto|].
  split; [eapply wf_item; eauto|].
  split; [eapply (rg_fresh Rg); eauto|].
  intros type. eapply (rg_apart Rg); eauto.
Qed.

Lemma subqueries_witness :
  let s := stateAfter Scenario.resolving in
  subQueryRuns 3 s
  /\ (exists type l, QMap.value (m_serviceItemsMap s) type = Some l
                     /\ In 1%nat l)
  /\ (exists n, nextId s = Some n /\ (3 < n)%Z)
  /\ (forall type, ~ In (3%Z, type) (m_queryIdServiceMap s)).
Proof.
  apply (subqueries_belong_to_listed_instances (stateAfter Scenario.resolving)
           3 1%nat).
  - eapply reachable_stateAfter. vm_compute. reflexivity.
  - vm_compute. auto.
Defined.

(** X1: the first answer to the scan of a service type that was registered
    with the record type TXT, SRV, A or AAAA dereferences the null item at
    its first record, in every reachable state: the id of a scan is
    registered in [m_queryIdServiceMap] only, and the branch of these record
    types takes its item from [m_queryIdItemMap].  A user query that
    resolves a host name, of record type A, is such a scan. *)
Theorem answer_to_host_scan_dereferences_null (s : State) (id : Z)
  (type : string) (r : QJDns.AnswerRecord) (rest : QJDns.Response) :
  reachable s -> In (id, type) (m_queryIdServiceMap s) ->
  isSubQueryType (declaredType type s) ->
  resultsReady id (r :: rest) s = NullDeref.
Proof.
  intros R Hin T. apply reachable_Registry in R.
  destruct (rg_scans R _ _ Hin) as (_ & V & _).
  apply answer_without_item.
  - unfold recordedType. now rewrite V.
  - apply value_None. intros p Hp. eapply (rg_apart R); eauto.
Qed.

Lemma answer_to_host_scan_witness :
  resultsReady 0 [Scenario.addressRecord] (stateAfter HostLookup.startUp)
  = NullDeref.
Proof.
  apply (answer_to_host_scan_dereferences_null _ 0 "printer.local").
  - eapply reachable_stateAfter. vm_compute. reflexivity.
  - vm_compute. auto.
  - vm_compute. auto.
Defined.

(** ** Answers to sub-queries *)

Lemma finishSubQuery_run id s j p :
  m_jdns s = Some j -> QMap.value (m_queryIdItemMap s) id = Some p ->
  finishSubQuery id s
  = Done (p,
          set_queryIdItemMap (QMap.remove (m_queryIdItemMap s) id)
            (set_queryIdTypeMap (QMap.remove (m_queryIdTypeMap s) id)
               (update_item p (Item.removeOutstandingRequest id)
                  (set_jdns (Some (log_call (QJDns.QueryCancel id) j)) s)))).
Proof.
  intros Ej Ev. unfold finishSubQuery, queryCancel. now rewrite Ev, Ej.
Qed.

Lemma resolveItem_types item s :
  m_queryIdTypeMap (resolveItem item s) = m_queryIdTypeMap s.
Proof.
  pose proof (resolveItem_frame item s) as F. cbv zeta in F. tauto.
Qed.

Lemma resolveItem_calls item s :
  backendCalls (resolveItem item s) = backendCalls s.
Proof. unfold backendCalls. now rewrite resolveItem_jdns. Qed.

(** X21: in every reachable state, an answer of one record to a registered
    sub-query returns; the backend is asked to cancel the sub-query and its
    id leaves the registry.  For an SRV sub-query the engine then starts the
    address query of the host the record names, for the same item, under the
    next query id of the backend. *)
Theorem subquery_answer_is_consumed (s : State) (id : Z) (p : ptr)
  (r : QJDns.AnswerRecord) :
  reachable s -> In (id, p) (m_queryIdItemMap s) ->
  exists s',
    resultsReady id [r] s = Done s'
    /\ registered id s' = false
    /\ In (QJDns.QueryCancel id) (backendCalls s')
    /\ m_queryIdServiceMap s' = m_queryIdServiceMap s
    /\ (recordedType id s = QJDns.Srv ->
        exists n p', nextId s = Some n
                     /\ QMap.value (m_queryIdItemMap s) id = Some p'
                     /\ addressQueryRuns (QJDns.name r) p' n s').
Proof.
  intros R Hin. pose proof (reachable_Registry _ R) as Rg.
  apply reachable_Inv in R. pose proof (inv_wf R) as W.
  destruct (rg_subs Rg _ _ Hin) as (name0 & t & V & Ht & _).
  destruct (rg_fresh Rg _ _ Hin) as (n & Hn & Lt).
  pose proof Hn as Hn'. apply nextId_Some in Hn' as (j & Ej & Nj).
  destruct (In_value _ _ _ Hin) as [p' Ev].
  assert (Hs : QMap.contains (m_queryIdServiceMap s) id = false).
  { apply contains_false, value_None. intros u Hu.
    eapply (rg_apart Rg); eauto. }
  assert (Rt : recordedType id s = t) by (unfold recordedType; now rewrite V).
  pose proof (finishSubQuery_run id s j p' Ej Ev) as F.
  unfold resultsReady. rewrite Rt. cbn [forEach]. unfold handleRecord.
  assert (Out : forall item s1,
            m_queryIdItemMap s1 = QMap.remove (m_queryIdItemMap s) id ->
            m_queryIdTypeMap s1 = QMap.remove (m_queryIdTypeMap s) id ->
            m_queryIdServiceMap s1 = m_queryIdServiceMap s ->
            registered id (resolveItem item s1) = false).
  { intros item s1 E1 E2 E3. unfold registered.
    pose proof (resolveItem_frame item s1) as G. cbv zeta in G.
    destruct G as (_ & _ & G3 & G4 & G5 & _).
    rewrite G3, G4, G5, E1, E2, E3, Hs, !contains_remove, !key_eqb_refl.
    reflexivity. }
  destruct Ht as [-> | [-> | ->]];
    cbn [Z.eqb Pos.eqb QJDns.Ptr QJDns.Txt QJDns.Srv QJDns.A QJDns.Aaaa orb].
  - unfold txtBranch. rewrite F. cbn [bind]. eexists. split; [reflexivity|].
    split; [now apply Out|]. split; [|split; [|discriminate]].
    + rewrite resolveItem_calls. unfold backendCalls. sproj.
      apply in_or_app. right. now left.
    + pose proof (resolveItem_frame (Some p')
        (update_item p' (Item.setTxtRecords (QJDns.texts r))
           (set_queryIdItemMap (QMap.remove (m_queryIdItemMap s) id)
              (set_queryIdTypeMap (QMap.remove (m_queryIdTypeMap s) id)
                 (update_item p' (Item.removeOutstandingRequest id)
                    (set_jdns (Some (log_call (QJDns.QueryCancel id) j))
                       s)))))) as G.
      cbv zeta in G. destruct G as (_ & _ & G3 & _). now rewrite G3.
  - unfold srvBranch. rewrite F. cbn [bind]. unfold queryStart. sproj.
    cbn [bind]. sproj.
    match goal with
    | |- exists s', Done (resolveItem ?it ?t) = Done s' /\ _ =>
        set (s1 := t); exists (resolveItem it s1)
    end.
    split; [reflexivity|].
    assert (Nid : QJDns.next_id j <> id) by lia.
    pose proof (resolveItem_frame (Some p') s1) as G. cbv zeta in G.
    destruct G as (_ & _ & G3 & G4 & G5 & _).
    split; [|split; [|split]].
    + unfold registered. rewrite G3, G4, G5. unfold s1, registerSubQuery.
      sproj. rewrite Hs, !contains_insert, !contains_remove, !key_eqb_refl.
      destruct (key_eqb (QJDns.next_id j) id) eqn:K; [|reflexivity].
      apply key_eqb_eq in K. contradiction.
    + rewrite resolveItem_calls. unfold backendCalls, s1, registerSubQuery.
      sproj. apply in_or_app. left. apply in_or_app. right. now left.
    + now rewrite G3.
    + intros _. exists n, p'. split; [exact Hn|]. split; [exact Ev|].
      unfold addressQueryRuns. rewrite G5, G4, resolveItem_calls.
      unfold backendCalls, s1, registerSubQuery. sproj. rewrite <- Nj.
      rewrite !value_insert, !key_eqb_refl.
      split; [reflexivity|]. split; [reflexivity|].
      apply in_or_app. right. now left.
  - unfold addressBranch. rewrite F. cbn [bind]. eexists.
    split; [reflexivity|].
    split; [now apply Out|]. split; [|split; [|discriminate]].
    + rewrite resolveItem_calls. unfold backendCalls. sproj.
      apply in_or_app. right. now left.
    + pose proof (resolveItem_frame (Some p')
        (update_item p' (Item.setHostAddress (QJDns.address r))
           (set_queryIdItemMap (QMap.remove (m_queryIdItemMap s) id)
              (set_queryIdTypeMap (QMap.remove (m_queryIdTypeMap s) id)
                 (update_item p' (Item.removeOutstandingRequest id)
                    (set_jdns (Some (log_call (QJDns.QueryCancel id) j))
                       s)))))) as G.
      cbv zeta in G. destruct G as (_ & _ & G3 & _). now rewrite G3.
Qed.

Lemma subquery_answer_witness :
  let s := stateAfter Scenario.resolving in
  exists s',
    resultsReady 4 [Scenario.srvRecord] s = Done s'
    /\ registered 4 s' = false
    /\ In (QJDns.QueryCancel 4) (backendCalls s')
    /\ m_queryIdServiceMap s' = m_queryIdServiceMap s
    /\ (recordedType 4 s = QJDns.Srv ->
        exists n p', nextId s = Some n
                     /\ QMap.value (m_queryIdItemMap s) 4%Z = Some p'
                     /\ addressQueryRuns (QJDns.name Scenario.srvRecord) p' n
                                         s').
Proof.
  apply (subquery_answer_is_consumed _ 4 1%nat).
  - eapply reachable_stateAfter. vm_compute. reflexivity.
  - vm_compute. auto.
Defined.

(** ** The items of the instance tables *)

Lemma thinned_incl l : forall l', thinned l' l -> forall p, In p l' -> In p l.
Proof.
  induction l as [|x l IH]; simpl; intros l' T p Hp.
  - subst. destruct Hp.
  - destruct T as [T|T]; [right; eauto|].
    destruct l' as [|y l']; [destruct Hp|]. destruct T as [-> T].
    destruct Hp as [<-|Hp]; [now left|right; eauto].
Qed.

Lemma thinned_NoDup {B : Type} (f : ptr -> B) l : forall l',
  thinned l' l -> NoDup (map f l) -> NoDup (map f l').
Proof.
  induction l as [|x l IH]; simpl; intros l' T N.
  - subst. constructor.
  - apply NoDup_cons_iff in N as [N1 N2].
    destruct T as [T|T]; [eauto|].
    destruct l' as [|y l']; [constructor|]. destruct T as [-> T].
    simpl. constructor; [|eauto].
    intros Hin. apply N1. apply in_map_iff in Hin as (p & E & Hp).
    apply in_map_iff. exists p. split; [exact E|].
    eapply thinned_incl; eauto.
Qed.

Lemma thinned_refl l : thinned l l.
Proof. induction l as [|x l IH]; simpl; auto. Qed.

Lemma thinned_nil l : thinned [] l.
Proof. induction l as [|x l IH]; simpl; auto. Qed.

Lemma takeFirst_thinned f l : forall p rest,
  takeFirst f l = Some (p, rest) -> thinned rest l /\ In p l.
Proof.
  induction l as [|x l IH]; simpl; intros p rest H; [discriminate|].
  destruct (f x).
  - injection H as <- <-. split; [left; apply thinned_refl|now left].
  - destruct (takeFirst f l) as [[q r]|]; [|discriminate].
    injection H as <- <-. destruct (IH q r eq_refl) as [T Hq].
    split; [right; auto|now right].
Qed.

Lemma NoDup_map_NoDup {A B : Type} (f : A -> B) (l : list A) :
  NoDup (map f l) -> NoDup l.
Proof.
  induction l as [|x l IH]; simpl; intros N; constructor;
    apply NoDup_cons_iff in N as [N1 N2]; auto.
  intros Hin. apply N1. now apply in_map.
Qed.

Lemma map_nameOf_ext s s' l :
  (forall p, In p l -> nameOf s' p = nameOf s p) ->
  map (nameOf s') l = map (nameOf s) l.
Proof. intros H. apply map_ext_in. exact H. Qed.

Lemma HeapX_weaken (ex ex' : ptr -> Prop) s :
  (forall p, ex p -> ex' p) -> HeapX ex s -> HeapX ex' s.
Proof.
  intros Hw [H1 H2 H3 H4 H5]. constructor; auto.
  intros type l p q Hv Hp Hn. eapply H5; eauto.
Qed.

(** The tables, the heap and the sub-queries are kept. *)
Lemma HeapX_ext ex s s' :
  m_serviceItemsMap s' = m_serviceItemsMap s -> heap s' = heap s ->
  m_queryIdItemMap s' = m_queryIdItemMap s ->
  HeapX ex s -> HeapX ex s'.
Proof.
  intros E1 E2 E3 [H1 H2 H3 H4 H5].
  assert (Ei : forall p, item_at s' p = item_at s p)
    by (intros p; unfold item_at; now rewrite E2).
  constructor.
  - intros type l p. rewrite E1, E2. apply H1.
  - intros type l p. rewrite E1, Ei. apply H2.
  - intros type l Hv. rewrite E1 in Hv.
    rewrite (map_nameOf_ext s s'); [now apply (H3 type)|].
    intros p _. unfold nameOf. now rewrite Ei.
  - rewrite E3. exact H4.
  - intros type l p q. rewrite E1, E3, Ei. apply H5.
Qed.

Lemma item_at_update_fields p f s q :
  keepsIdentity f ->
  Item.name (item_at (update_item p f s) q) = Item.name (item_at s q)
  /\ Item.type (item_at (update_item p f s) q) = Item.type (item_at s q)
  /\ Item.outstandingRequests (item_at (update_item p f s) q)
     = Item.outstandingRequests (item_at s q).
Proof.
  intros K. rewrite item_at_update_item.
  destruct (Nat.eqb p q); [|auto].
  destruct (p <? List.length (heap s))%nat; [apply K|auto].
Qed.

Lemma update_item_length p f s :
  List.length (heap (update_item p f s)) = List.length (heap s).
Proof. unfold update_item. sproj. apply list_update_length. Qed.

Lemma update_item_HeapX ex p f s :
  keepsIdentity f -> HeapX ex s -> HeapX ex (update_item p f s).
Proof.
  intros K [H1 H2 H3 H4 H5]. constructor.
  - intros type l q. rewrite update_item_length. apply H1.
  - intros type l q Hv Hq.
    destruct (item_at_update_fields p f s q K) as (_ & -> & _). eauto.
  - intros type l Hv.
    rewrite (map_nameOf_ext s); [now apply (H3 type)|].
    intros q _. unfold nameOf. now apply item_at_update_fields.
  - exact H4.
  - intros type l q0 q Hv Hq Hn.
    destruct (item_at_update_fields p f s q0 K) as (_ & _ & ->). eauto.
Qed.

Lemma keepsIdentity_setTxtRecords x : keepsIdentity (Item.setTxtRecords x).
Proof. intros i. auto. Qed.
Lemma keepsIdentity_setHostName x : keepsIdentity (Item.setHostName x).
Proof. intros i. auto. Qed.
Lemma keepsIdentity_setHostAddress x : keepsIdentity (Item.setHostAddress x).
Proof. intros i. auto. Qed.
Lemma keepsIdentity_setPort x : keepsIdentity (Item.setPort x).
Proof. intros i. auto. Qed.
Lemma keepsIdentity_setUpdated x : keepsIdentity (Item.setUpdated x).
Proof. intros i. auto. Qed.
Lemma keepsIdentity_resetErrorCount : keepsIdentity Item.resetErrorCount.
Proof. intros i. auto. Qed.
Lemma keepsIdentity_increaseErrorCount : keepsIdentity Item.increaseErrorCount.
Proof. intros i. auto. Qed.

Lemma Heap_of_empty ex s :
  tablesEmpty s -> m_queryIdItemMap s = [] -> HeapX ex s.
Proof.
  intros T E. constructor.
  - intros type l p Hv Hp. rewrite (T _ _ Hv) in Hp. destruct Hp.
  - intros type l p Hv Hp. rewrite (T _ _ Hv) in Hp. destruct Hp.
  - intros type l Hv. rewrite (T _ _ Hv). constructor.
  - intros q p p' Hin. rewrite E in Hin. destruct Hin.
  - intros type l p q Hv Hp. rewrite (T _ _ Hv) in Hp. destruct Hp.
Qed.

Lemma stopItemQueries_HeapX ex item s s' :
  HeapX ex s -> stopItemQueries item s = Done s' ->
  HeapX (fun p => ex p \/ p = item) s'.
Proof.
  intros [H1 H2 H3 H4 H5] H.
  pose proof (stopItemQueries_effect _ _ _ H) as ((_ & _ & Si & _ & Sh) & _).
  unfold stopItemQueries in H.
  apply stopItemQueriesLoop_exact in H as (I & _).
  assert (Ei : forall p, item_at s' p = item_at s p)
    by (intros p; unfold item_at; now rewrite Sh).
  constructor.
  - intros type l p. rewrite Si, Sh. apply H1.
  - intros type l p. rewrite Si, Ei. apply H2.
  - intros type l Hv. rewrite Si in Hv.
    rewrite (map_nameOf_ext s s'); [now apply (H3 type)|].
    intros p _. unfold nameOf. now rewrite Ei.
  - intros q p p' A B. apply I in A as [A _]. apply I in B as [B _]. eauto.
  - intros type l p q Hv Hp Hn. rewrite Si in Hv. rewrite Ei, I.
    rewrite (H5 type l p q Hv Hp) by tauto.
    split; [|tauto]. intros Hin. split; [exact Hin|].
    intros Hi. apply Hn. right. eapply H4; eauto.
Qed.

Lemma stopItemQueries_list_HeapX items : forall ex s s',
  HeapX ex s -> forEach stopItemQueries items s = Done s' ->
  HeapX (fun p => ex p \/ In p items) s'.
Proof.
  induction items as [|item items IH]; intros ex s s' Hp H.
  - injection H as <-. eapply HeapX_weaken; [|exact Hp]. auto.
  - cbn [forEach] in H. apply bind_Done in H as [s1 [E H]].
    apply (stopItemQueries_HeapX ex) in E; [|exact Hp].
    apply (IH (fun p => ex p \/ p = item)) in H; [|exact E].
    eapply HeapX_weaken; [|exact H]. simpl. intuition.
Qed.

(** The list of a service type is replaced by a thinned one that drops the
    items whose sub-queries were stopped. *)
Lemma relist_HeapX (ex : ptr -> Prop) type l l' s :
  HeapX ex s ->
  QMap.value (m_serviceItemsMap s) type = Some l ->
  thinned l' l ->
  (forall p, ex p -> In p l /\ ~ In p l') ->
  Heap (updateServiceType type
          (set_serviceItemsMap (QMap.insert (m_serviceItemsMap s) type l') s)).
Proof.
  intros [H1 H2 H3 H4 H5] Hv T Hex.
  match goal with
  | |- Heap (updateServiceType type ?t) =>
      pose proof (updateServiceType_frame type t) as F; set (s1 := t) in *
  end.
  cbv zeta in F. destruct F as (_ & _ & F3 & _ & _ & F6 & _ & F8).
  apply (HeapX_ext _ s1); auto.
  assert (Ei : forall p, item_at s1 p = item_at s p) by reflexivity.
  assert (L : forall u m p, QMap.value (m_serviceItemsMap s1) u = Some m ->
                In p m ->
                exists m0, QMap.value (m_serviceItemsMap s) u = Some m0
                           /\ In p m0 /\ thinned m m0
                           /\ (u = type -> m = l')).
  { intros u m p Hu Hp. unfold s1 in Hu. sproj_in Hu.
    rewrite value_insert in Hu.
    destruct (key_eqb type u) eqn:K.
    - apply key_eqb_eq in K as <-. injection Hu as <-.
      exists l. split; [exact Hv|]. split; [eapply thinned_incl; eauto|].
      auto.
    - exists m. split; [exact Hu|]. split; [exact Hp|].
      split; [apply thinned_refl|].
      intros ->. now rewrite key_eqb_refl in K. }
  constructor.
  - intros u m p Hu Hp.
    destruct (L _ _ _ Hu Hp) as (m0 & Hv0 & Hp0 & _). eauto.
  - intros u m p Hu Hp. rewrite Ei.
    destruct (L _ _ _ Hu Hp) as (m0 & Hv0 & Hp0 & _). eauto.
  - intros u m Hu. unfold s1 in Hu. sproj_in Hu.
    rewrite value_insert in Hu.
    destruct (key_eqb type u) eqn:K.
    + apply key_eqb_eq in K as <-. injection Hu as <-.
      eapply thinned_NoDup; [exact T|]. now apply (H3 type).
    + now apply (H3 u).
  - exact H4.
  - intros u m p q Hu Hp _. rewrite Ei.
    destruct (L _ _ _ Hu Hp) as (m0 & Hv0 & Hp0 & _ & Hl).
    apply (H5 u m0 p q Hv0 Hp0). intros Hx.
    destruct (Hex p Hx) as [X1 X2].
    assert (u = type).
    { rewrite <- (H2 _ _ _ Hv0 Hp0). now apply (H2 _ _ _ Hv X1). }
    subst u. rewrite (Hl eq_refl) in Hp. contradiction.
Qed.

Lemma takeFirst_not_left f l : forall p rest,
  NoDup l -> takeFirst f l = Some (p, rest) -> ~ In p rest.
Proof.
  induction l as [|x l IH]; simpl; intros p rest N H; [discriminate|].
  apply NoDup_cons_iff in N as [N1 N2].
  destruct (f x).
  - injection H as <- <-. exact N1.
  - destruct (takeFirst f l) as [[q r]|] eqn:E; [|discriminate].
    injection H as <- <-. intros [->|Hq].
    + apply takeFirst_thinned in E as [_ E]. contradiction.
    + eapply IH; eauto.
Qed.

Lemma NoDup_snoc {A : Type} (l : list A) (x : A) :
  NoDup l -> ~ In x l -> NoDup (l ++ [x]).
Proof.
  induction l as [|y l IH]; simpl; intros N Hx.
  - constructor; [tauto|constructor].
  - apply NoDup_cons_iff in N as [N1 N2]. constructor.
    + intros Hin. apply in_app_or in Hin as [Hin|[<-|[]]]; tauto.
    + apply IH; tauto.
Qed.

Lemma clearItems_Heap type s s' :
  Heap s -> clearItems type s = Done s' -> Heap s'.
Proof.
  unfold clearItems. intros Hp H.
  destruct (QMap.value (m_serviceItemsMap s) type) as [l|] eqn:Hv;
    [|now injection H as <-].
  apply bind_Done in H as [s1 [E H]]. injection H as <-.
  pose proof (stopItemQueries_list_frame _ _ _ E) as (_ & _ & Si & _).
  apply (stopItemQueries_list_HeapX _ (fun _ => False)) in E; [|exact Hp].
  apply (relist_HeapX _ type l [] s1 E).
  - now rewrite Si.
  - apply thinned_nil.
  - intros p [[]|Hin]. split; [now apply in_rev|tauto].
Qed.

Lemma removeItem_Heap name type s s' :
  Heap s -> removeItem name type s = Done s' -> Heap s'.
Proof.
  unfold removeItem. intros Hp H.
  destruct (QMap.value (m_serviceItemsMap s) type) as [l|] eqn:Hv;
    [|now injection H as <-].
  destruct (takeFirst (hasName s name) l) as [[item rest]|] eqn:Et;
    [|now injection H as <-].
  apply bind_Done in H as [s1 [E H]]. injection H as <-.
  pose proof (stopItemQueries_effect _ _ _ E) as ((_ & _ & Si & _) & _).
  pose proof (NoDup_map_NoDup _ _ (@hp_names _ _ Hp _ _ Hv)) as Nd.
  apply (stopItemQueries_HeapX (fun _ => False)) in E; [|exact Hp].
  pose proof (takeFirst_thinned _ _ _ _ Et) as [T Hi].
  apply (relist_HeapX _ type l rest s1 E); auto.
  - now rewrite Si.
  - intros p [[]| ->]. split; [exact Hi|].
    eapply takeFirst_not_left; eauto.
Qed.

Lemma purgeLoop_HeapX (ex : ptr -> Prop) l : forall s l' modified s1,
  HeapX ex s -> NoDup l ->
  purgeLoop l s = Done (l', modified, s1) ->
  HeapX (fun p => ex p \/ (In p l /\ ~ In p l')) s1
  /\ thinned l' l
  /\ m_serviceItemsMap s1 = m_serviceItemsMap s.
Proof.
  induction l as [|item rest IH]; intros s l' modified s1 Hp Nd H.
  - injection H as <- <- <-. split; [|split; [reflexivity|reflexivity]].
    eapply HeapX_weaken; [|exact Hp]. auto.
  - cbn [purgeLoop] in H. apply NoDup_cons_iff in Nd as [Ni Nd].
    apply bind_Done in H as [[[r m] s0] [E H]].
    apply IH in E as (H0 & T0 & I0); auto.
    assert (Nr : ~ In item r)
      by (intros Hin; apply Ni; eapply thinned_incl; eauto).
    assert (Kept : forall t,
              HeapX (fun p => ex p \/ In p rest /\ ~ In p r) t ->
              HeapX (fun p => ex p \/ In p (item :: rest)
                                      /\ ~ In p (item :: r)) t).
    { intros t. apply HeapX_weaken. intros p [X|[X1 X2]]; [now left|right].
      split; [now right|]. intros [->|X3]; contradiction. }
    destruct (negb (Item.updated (item_at s0 item))).
    + destruct (_ >? _)%Z.
      * apply bind_Done in H as [s3 [E3 H]]. injection H as <- <- <-.
        pose proof (stopItemQueries_effect _ _ _ E3) as ((_ & _ & Si & _) & _).
        apply (stopItemQueries_HeapX
                 (fun p => ex p \/ In p rest /\ ~ In p r)) in E3.
        2:{ apply update_item_HeapX;
              [apply keepsIdentity_increaseErrorCount|exact H0]. }
        split; [|split].
        -- eapply HeapX_weaken; [|exact E3]. simpl.
           intros p [[X|[X1 X2]]| ->]; [now left|right; auto|right].
           split; [now left|exact Nr].
        -- simpl. now left.
        -- rewrite Si. exact I0.
      * injection H as <- <- <-. split; [|split].
        -- apply Kept. apply update_item_HeapX;
             [apply keepsIdentity_increaseErrorCount|exact H0].
        -- simpl. right. auto.
        -- exact I0.
    + injection H as <- <- <-. split; [|split].
      * apply Kept. apply update_item_HeapX;
          [apply keepsIdentity_setUpdated|exact H0].
      * simpl. right. auto.
      * exact I0.
Qed.

Lemma purgeItems_Heap type s s' :
  Heap s -> purgeItems type s = Done s' -> Heap s'.
Proof.
  unfold purgeItems. intros Hp H.
  destruct (QMap.value (m_serviceItemsMap s) type) as [l|] eqn:Hv;
    [|now injection H as <-].
  apply bind_Done in H as [[[l' m] s1] [E H]].
  pose proof (NoDup_map_NoDup _ _ (@hp_names _ _ Hp _ _ Hv)) as Nd.
  pose proof (purgeLoop_effect _ _ _ _ _ E) as (_ & _ & _ & _ & _ & _ & Hm).
  apply (purgeLoop_HeapX (fun _ => False)) in E as (H1 & T & Si); auto.
  destruct m; injection H as <-.
  - apply (relist_HeapX _ type l l' s1 H1); auto.
    + now rewrite Si.
    + intros p [[]|X]. exact X.
  - rewrite (Hm eq_refl) in H1.
    eapply HeapX_weaken; [|exact H1]. simpl. tauto.
Qed.

Lemma addItem_Heap ex name type s :
  WFx ex s -> Heap s -> Heap (snd (addItem name type s)).
Proof.
  unfold addItem. intros W Hp.
  destruct (QMap.value (m_serviceItemsMap s) type) as [l|] eqn:Hv;
    [|exact Hp].
  destruct (find (hasName s name) l) eqn:Ef; [exact Hp|].
  unfold new_item. cbn [snd].
  match goal with |- Heap ?t => set (s1 := t) end.
  set (new := List.length (heap s)).
  destruct Hp as [H1 H2 H3 H4 H5].
  assert (Old : forall p, (p < new)%nat -> item_at s1 p = item_at s p).
  { intros p Lt. unfold item_at, s1. sproj. now rewrite app_nth1. }
  assert (New : item_at s1 new
                = Item.setType type (Item.setName name Item.blank)).
  { unfold item_at, s1, new. sproj. rewrite app_nth2 by lia.
    now rewrite Nat.sub_diag. }
  assert (Len : List.length (heap s1) = S new).
  { unfold s1, new. sproj. rewrite length_app. simpl. lia. }
  assert (L : forall u m p, QMap.value (m_serviceItemsMap s1) u = Some m ->
                In p m ->
                (u = type /\ m = l ++ [new] /\ p = new)
                \/ (exists m0, QMap.value (m_serviceItemsMap s) u = Some m0
                               /\ In p m0
                               /\ (u = type -> m = l ++ [new])
                               /\ (u <> type -> m = m0))).
  { intros u m p Hu Hq. unfold s1 in Hu. sproj_in Hu.
    rewrite value_insert in Hu.
    destruct (key_eqb type u) eqn:K.
    - apply key_eqb_eq in K as <-. injection Hu as <-.
      apply in_app_or in Hq as [Hq|[<-|[]]]; [right|left; auto].
      exists l. split; [exact Hv|]. split; [exact Hq|]. split; auto.
      intros N. now destruct N.
    - right. exists m. split; [exact Hu|]. split; [exact Hq|].
      split; [|auto]. intros ->. now rewrite key_eqb_refl in K. }
  assert (Fresh : forall q, ~ In (q, new) (m_queryIdItemMap s)).
  { intros q Hin. destruct (wf_item W _ _ Hin) as (u & m & Hu & Hm).
    pose proof (H1 _ _ _ Hu Hm). unfold new in *. lia. }
  constructor.
  - intros u m p Hu Hq. rewrite Len.
    destruct (L _ _ _ Hu Hq) as [(_ & _ & ->)|(m0 & Hv0 & Hp0 & _)]; [lia|].
    pose proof (H1 _ _ _ Hv0 Hp0). unfold new. lia.
  - intros u m p Hu Hq.
    destruct (L _ _ _ Hu Hq) as [(-> & _ & ->)|(m0 & Hv0 & Hp0 & _)].
    + now rewrite New.
    + rewrite Old; [eauto|]. apply (H1 _ _ _ Hv0 Hp0).
  - intros u m Hu. unfold s1 in Hu. sproj_in Hu. rewrite value_insert in Hu.
    destruct (key_eqb type u) eqn:K.
    + apply key_eqb_eq in K as <-. injection Hu as <-.
      rewrite map_app.
      assert (E : map (nameOf s1) l = map (nameOf s) l).
      { apply map_nameOf_ext. intros p Hq. unfold nameOf.
        rewrite Old; [reflexivity|]. apply (H1 _ _ _ Hv Hq). }
      rewrite E.
      assert (En0 : nameOf s1 new = name)
        by (unfold nameOf; now rewrite New).
      unfold new in En0. cbn [map]. rewrite En0.
      apply NoDup_snoc; [now apply (H3 type)|].
      intros Hin. apply in_map_iff in Hin as (p & En & Hq).
      pose proof (find_none _ _ Ef p Hq) as Fn. unfold hasName in Fn.
      unfold nameOf in En. rewrite En, String.eqb_refl in Fn. discriminate.
    + rewrite (map_nameOf_ext s); [now apply (H3 u)|].
      intros p Hq. unfold nameOf. rewrite Old; [reflexivity|].
      apply (H1 _ _ _ Hu Hq).
  - exact H4.
  - intros u m p q Hu Hq _.
    change (m_queryIdItemMap s1) with (m_queryIdItemMap s).
    destruct (L _ _ _ Hu Hq) as [(-> & _ & ->)|(m0 & Hv0 & Hp0 & _)].
    + rewrite New. simpl. split; [intros []|]. intros Hin.
      now apply Fresh in Hin.
    + rewrite Old by (apply (H1 _ _ _ Hv0 Hp0)).
      apply (H5 _ _ _ _ Hv0 Hp0). tauto.
Qed.

Lemma In_addOutstanding id q i :
  In q (Item.outstandingRequests (Item.addOutstandingRequest id i))
  <-> q = id \/ In q (Item.outstandingRequests i).
Proof.
  unfold Item.addOutstandingRequest.
  destruct (existsb (Z.eqb id) (Item.outstandingRequests i)) eqn:E.
  - split; [auto|]. intros [->|H]; [|exact H].
    apply existsb_exists in E as (x & Hx & Ex).
    apply Z.eqb_eq in Ex. now subst.
  - simpl. rewrite in_app_iff. simpl. intuition.
Qed.

Lemma In_removeOutstanding id q i :
  In q (Item.outstandingRequests (Item.removeOutstandingRequest id i))
  <-> In q (Item.outstandingRequests i) /\ q <> id.
Proof.
  unfold Item.removeOutstandingRequest. simpl. rewrite filter_In.
  rewrite negb_true_iff, Z.eqb_neq. reflexivity.
Qed.

(** A sub-query is registered for a listed item under a fresh query id. *)
Lemma register_Heap name t p s newId s1 :
  Registry s -> Heap s ->
  queryStart name t s = Done (newId, s1) ->
  (exists type l, QMap.value (m_serviceItemsMap s) type = Some l /\ In p l) ->
  Heap (registerSubQuery newId t p s1).
Proof.
  intros Rg [H1 H2 H3 H4 H5] H (u0 & l0 & Hv0 & Hp0).
  apply queryStart_Done in H as (j & Ej & -> & ->).
  assert (Fi : forall q p0, In (q, p0) (m_queryIdItemMap s) ->
                            q <> QJDns.next_id j).
  { intros q p0 Hin. destruct (rg_fresh Rg _ _ Hin) as (n & Hn & Lt).
    apply nextId_Some in Hn as (j' & Ej' & <-).
    assert (j' = j) by congruence. subst j'. lia. }
  pose proof (H1 _ _ _ Hv0 Hp0) as Vp.
  match goal with |- Heap ?t => set (s' := t) end.
  assert (Same : forall q, q <> p -> item_at s' q = item_at s q).
  { intros q N. unfold s', registerSubQuery.
    change (item_at (update_item p (Item.addOutstandingRequest
              (QJDns.next_id j)) s) q = item_at s q).
    now apply item_at_update_other. }
  assert (At : item_at s' p
               = Item.addOutstandingRequest (QJDns.next_id j) (item_at s p)).
  { change (item_at (update_item p (Item.addOutstandingRequest
              (QJDns.next_id j)) s) p
            = Item.addOutstandingRequest (QJDns.next_id j) (item_at s p)).
    now apply item_at_update_same. }
  assert (Nm : forall q, Item.name (item_at s' q) = Item.name (item_at s q)
                         /\ Item.type (item_at s' q) = Item.type (item_at s q)).
  { intros q. destruct (Nat.eq_dec q p) as [->|N]; [|now rewrite Same].
    rewrite At. unfold Item.addOutstandingRequest.
    now destruct (existsb _ _). }
  constructor.
  - intros u l q Hu Hq.
    change (List.length (heap s'))
      with (List.length (heap (update_item p (Item.addOutstandingRequest
              (QJDns.next_id j)) s))).
    rewrite update_item_length. eapply H1; eauto.
  - intros u l q Hu Hq. destruct (Nm q) as [_ ->]. eapply H2; eauto.
  - intros u l Hu. rewrite (map_nameOf_ext s); [now apply (H3 u)|].
    intros q _. unfold nameOf. apply Nm.
  - intros q a b Ha Hb. unfold s', registerSubQuery in Ha, Hb.
    sproj_in Ha. sproj_in Hb.
    apply In_insert in Ha as [[-> ->]|[Na Ha]];
      apply In_insert in Hb as [[Eb ->]|[Nb Hb]]; try congruence.
    eapply H4; eauto.
  - intros u l q0 q Hu Hq _.
    assert (Im : In (q, q0) (m_queryIdItemMap s')
                 <-> (q = QJDns.next_id j /\ q0 = p)
                     \/ (q <> QJDns.next_id j /\ In (q, q0) (m_queryIdItemMap s))).
    { unfold s', registerSubQuery. sproj. apply In_insert. }
    rewrite Im. destruct (Nat.eq_dec q0 p) as [->|N].
    + rewrite At, In_addOutstanding, (H5 u l p q Hu Hq) by tauto.
      split.
      * intros [->|Hin]; [auto|]. right. split; [|exact Hin]. eauto.
      * intros [[-> _]|[_ Hin]]; auto.
    + rewrite Same by exact N. rewrite (H5 u l q0 q Hu Hq) by tauto.
      split.
      * intros Hin. right. split; [|exact Hin]. eauto.
      * intros [[_ ->]|[_ Hin]]; [contradiction|exact Hin].
Qed.

Lemma finishSubQuery_Heap id s p s' :
  Heap s -> finishSubQuery id s = Done (p, s') -> Heap s'.
Proof.
  unfold finishSubQuery. intros [H1 H2 H3 H4 H5] H.
  apply bind_Done in H as [s1 [E H]].
  apply queryCancel_Done in E as (j & Ej & ->).
  apply bind_Done in H as [p' [Ep H]]. injection H as <- <-.
  unfold deref in Ep.
  destruct (QMap.value (m_queryIdItemMap s) id) as [p0|] eqn:Ev;
    [|discriminate].
  injection Ep as <-. apply value_In in Ev.
  match goal with |- Heap ?t => set (s' := t) end.
  assert (Same : forall q, q <> p0 -> item_at s' q = item_at s q).
  { intros q N.
    change (item_at (update_item p0 (Item.removeOutstandingRequest id) s) q
            = item_at s q).
    now apply item_at_update_other. }
  assert (Nm : forall q, Item.name (item_at s' q) = Item.name (item_at s q)
                         /\ Item.type (item_at s' q) = Item.type (item_at s q)).
  { intros q.
    change (item_at s' q)
      with (item_at (update_item p0 (Item.removeOutstandingRequest id) s) q).
    rewrite item_at_update_item.
    destruct (Nat.eqb p0 q); [|auto].
    destruct (p0 <? List.length (heap s))%nat; auto. }
  constructor.
  - intros u l q Hu Hq.
    change (List.length (heap s'))
      with (List.length (heap (update_item p0
              (Item.removeOutstandingRequest id) s))).
    rewrite update_item_length. eapply H1; eauto.
  - intros u l q Hu Hq. destruct (Nm q) as [_ ->]. eapply H2; eauto.
  - intros u l Hu. rewrite (map_nameOf_ext s); [now apply (H3 u)|].
    intros q _. unfold nameOf. apply Nm.
  - intros q a b Ha Hb. unfold s' in Ha, Hb. sproj_in Ha. sproj_in Hb.
    apply In_remove in Ha as [Ha _]. apply In_remove in Hb as [Hb _].
    eapply H4; eauto.
  - intros u l q0 q Hu Hq _.
    assert (Im : In (q, q0) (m_queryIdItemMap s')
                 <-> In (q, q0) (m_queryIdItemMap s) /\ q <> id).
    { unfold s'. sproj. apply In_remove. }
    rewrite Im. destruct (Nat.eq_dec q0 p0) as [->|N].
    + assert (At : item_at s' p0
                   = Item.removeOutstandingRequest id (item_at s p0)).
      { change (item_at (update_item p0 (Item.removeOutstandingRequest id) s)
                        p0
                = Item.removeOutstandingRequest id (item_at s p0)).
        apply item_at_update_same. eapply H1; eauto. }
      rewrite At, In_removeOutstanding, (H5 u l p0 q Hu Hq) by tauto.
      reflexivity.
    + rewrite Same by exact N. rewrite (H5 u l q0 q Hu Hq) by tauto.
      split; [|tauto]. intros Hin. split; [exact Hin|].
      intros ->. apply N. eapply H4; eauto.
Qed.

Lemma addServiceType_Heap type t s : Heap s -> Heap (addServiceType type t s).
Proof.
  unfold addServiceType. intros Hp.
  destruct (QMap.contains (m_serviceItemsMap s) type) eqn:Ec; [exact Hp|].
  destruct Hp as [H1 H2 H3 H4 H5].
  match goal with |- Heap ?t => set (s' := t) end.
  assert (L : forall u l, QMap.value (m_serviceItemsMap s') u = Some l ->
                l = [] \/ QMap.value (m_serviceItemsMap s) u = Some l).
  { intros u l Hu. unfold s' in Hu. sproj_in Hu. rewrite value_insert in Hu.
    destruct (key_eqb type u); [left; congruence|now right]. }
  constructor.
  - intros u l p Hu Hq. destruct (L _ _ Hu) as [->|Hv]; [destruct Hq|].
    eapply H1; eauto.
  - intros u l p Hu Hq. destruct (L _ _ Hu) as [->|Hv]; [destruct Hq|].
    eapply H2; eauto.
  - intros u l Hu. destruct (L _ _ Hu) as [->|Hv]; [constructor|].
    eapply H3; eauto.
  - exact H4.
  - intros u l p q Hu Hq. destruct (L _ _ Hu) as [->|Hv]; [destruct Hq|].
    eapply H5; eauto.
Qed.

Lemma dropType_Heap type s :
  Heap s ->
  Heap (set_serviceTypeMap (QMap.remove (m_serviceTypeMap s) type)
          (set_serviceItemsMap (QMap.remove (m_serviceItemsMap s) type) s)).
Proof.
  intros [H1 H2 H3 H4 H5].
  match goal with |- Heap ?t => set (s' := t) end.
  assert (L : forall u l, QMap.value (m_serviceItemsMap s') u = Some l ->
                QMap.value (m_serviceItemsMap s) u = Some l).
  { intros u l Hu. unfold s' in Hu. sproj_in Hu. rewrite value_remove in Hu.
    destruct (key_eqb type u); [discriminate|exact Hu]. }
  constructor.
  - intros u l p Hu. apply L in Hu. eapply H1; eauto.
  - intros u l p Hu. apply L in Hu. eapply H2; eauto.
  - intros u l Hu. apply L in Hu. eapply H3; eauto.
  - exact H4.
  - intros u l p q Hu. apply L in Hu. eapply H5; eauto.
Qed.

Lemma removeServiceType_Heap type s s' :
  Heap s -> removeServiceType type s = Done s' -> Heap s'.
Proof.
  unfold removeServiceType. intros Hp H.
  destruct (negb _); [now injection H as <-|].
  apply bind_Done in H as [s1 [E H]]. injection H as <-.
  apply dropType_Heap. eapply clearItems_Heap; eauto.
Qed.

Lemma Heap_same s s' :
  m_serviceItemsMap s' = m_serviceItemsMap s -> heap s' = heap s ->
  m_queryIdItemMap s' = m_queryIdItemMap s ->
  Heap s -> Heap s'.
Proof. apply HeapX_ext. Qed.

Lemma startQuery_Heap type s s' :
  Heap s -> startQuery type s = Done s' -> Heap s'.
Proof.
  unfold startQuery. intros Hp H.
  destruct (findQuery type s); [now injection H as <-|].
  apply bind_Done in H as [[id s1] [E H]]. injection H as <-.
  apply queryStart_Done in E as (j & Ej & -> & ->).
  revert Hp. apply Heap_same; reflexivity.
Qed.

Lemma stopQuery_Heap type s s' :
  Heap s -> stopQuery type s = Done s' -> Heap s'.
Proof.
  unfold stopQuery. intros Hp H.
  destruct (findQuery type s); [|now injection H as <-].
  apply bind_Done in H as [s1 [E H]].
  apply queryCancel_Done in E as (j & Ej & ->).
  eapply clearItems_Heap; [|exact H].
  revert Hp. apply Heap_same; reflexivity.
Qed.

Lemma refreshQuery_Heap type s s' :
  Heap s -> refreshQuery type s = Done s' -> Heap s'.
Proof.
  unfold refreshQuery. intros Hp H.
  destruct (findQuery type s); [|now injection H as <-].
  apply bind_Done in H as [s1 [E H]].
  apply queryCancel_Done in E as (j & Ej & ->).
  apply bind_Done in H as [s2 [E2 H]].
  apply bind_Done in H as [[newId s3] [E3 H]]. injection H as <-.
  apply queryStart_Done in E3 as (j2 & Ej2 & -> & ->).
  apply purgeItems_Heap in E2.
  - revert E2. apply Heap_same; reflexivity.
  - revert Hp. apply Heap_same; reflexivity.
Qed.

Lemma resolveItem_Heap item s : Heap s -> Heap (resolveItem item s).
Proof.
  unfold resolveItem. intros Hp. destruct item as [p|]; [|exact Hp].
  destruct (negb _); [|exact Hp].
  do 2 (apply update_item_HeapX;
        [first [apply keepsIdentity_resetErrorCount
               |apply keepsIdentity_setUpdated]|]).
  unfold updateItem.
  match goal with
  | |- HeapX _ (updateServiceType ?u ?t) =>
      pose proof (updateServiceType_frame u t) as F
  end.
  cbv zeta in F. destruct F as (_ & _ & F3 & _ & _ & F6 & _ & F8).
  revert Hp. now apply Heap_same.
Qed.

Lemma ptrBranch_Heap ex id r s item s' :
  WFx ex s -> Registry s -> Heap s ->
  (exists type, In (id, type) (m_queryIdServiceMap s)) ->
  ptrBranch id r s = Done (item, s') -> Heap s'.
Proof.
  unfold ptrBranch. intros W R Hp [u Hu] H.
  assert (Hb : exists i, In (i, boundServiceType id s) (m_queryIdServiceMap s)).
  { unfold boundServiceType. destruct (In_value _ _ _ Hu) as [u' Ev].
    rewrite Ev. exists id. now apply value_In. }
  destruct (QJDns.ttl r >? 0)%Z.
  - pose proof (addItem_Registry (instanceName r) (boundServiceType id s) s R)
      as R1.
    pose proof (addItem_Heap ex (instanceName r) (boundServiceType id s) s
                  W Hp) as P1.
    destruct (addItem (instanceName r) (boundServiceType id s) s)
      as [it s1] eqn:Ea. cbn [snd] in R1, P1.
    apply (addItem_effect ex) in Ea
      as (W1 & S1 & N1 & M1 & L1 & p & l & -> & Hv & Hq); auto.
    apply bind_Done in H as [[newId s2] [E2 H]].
    simpl in H. apply bind_Done in H as [[newId' s4] [E4 H]].
    injection H as <- <-.
    pose proof (register_Registry ex _ QJDns.Txt p _ _ _ W1 R1 E2) as R3.
    pose proof (register_Heap _ QJDns.Txt p _ _ _ R1 P1 E2) as P3.
    apply (queryStart_WFx ex) in E2
      as (W2 & N2 & N2' & S2 & M2 & I2 & T2 & Tab2 & L2 & _); auto.
    refine (register_Heap _ _ p _ _ _ _ _ E4 _).
    + apply R3. unfold isStartedSubType. auto.
    + apply P3. eauto.
    + exists (boundServiceType id s), l. split; [|exact Hq].
      unfold registerSubQuery. sproj. now rewrite Tab2.
  - apply bind_Done in H as [s1 [E H]]. injection H as <- <-.
    eapply removeItem_Heap; eauto.
Qed.

Lemma txtBranch_Heap id r s item s' :
  Heap s -> txtBranch id r s = Done (item, s') -> Heap s'.
Proof.
  unfold txtBranch. intros Hp H.
  apply bind_Done in H as [[p s1] [E H]]. injection H as <- <-.
  apply update_item_HeapX; [apply keepsIdentity_setTxtRecords|].
  eapply finishSubQuery_Heap; eauto.
Qed.

Lemma addressBranch_Heap id r s item s' :
  Heap s -> addressBranch id r s = Done (item, s') -> Heap s'.
Proof.
  unfold addressBranch. intros Hp H.
  apply bind_Done in H as [[p s1] [E H]]. injection H as <- <-.
  apply update_item_HeapX; [apply keepsIdentity_setHostAddress|].
  eapply finishSubQuery_Heap; eauto.
Qed.

Lemma srvBranch_Heap ex id r s item s' :
  WFx ex s -> Registry s -> Heap s ->
  srvBranch id r s = Done (item, s') -> Heap s'.
Proof.
  unfold srvBranch. intros W R Hp H.
  apply bind_Done in H as [[p s1] [E H]].
  apply bind_Done in H as [[newId s2] [E2 H]]. injection H as <- <-.
  pose proof (finishSubQuery_Registry _ _ _ _ R E) as R1.
  pose proof (finishSubQuery_Heap _ _ _ _ Hp E) as P1.
  apply (finishSubQuery_effect ex) in E
    as (W1 & _ & _ & _ & _ & Tab1 & _ & Hin); auto.
  apply update_item_HeapX; [apply keepsIdentity_setPort|].
  apply update_item_HeapX; [apply keepsIdentity_setHostName|].
  eapply register_Heap; eauto.
  rewrite Tab1. eapply wf_item; eauto.
Qed.

Lemma handleRecord_Heap ex id type r s s' :
  WFx ex s -> Registry s -> Heap s ->
  (type = QJDns.Ptr -> exists u, In (id, u) (m_queryIdServiceMap s)) ->
  handleRecord id type r s = Done s' -> Heap s'.
Proof.
  unfold handleRecord. intros W R Hp Hptr H.
  apply bind_Done in H as [[item s1] [E H]]. injection H as <-.
  apply resolveItem_Heap.
  destruct (Z.eqb_spec type QJDns.Ptr) as [->|].
  { eapply ptrBranch_Heap; eauto. }
  destruct (type =? QJDns.Txt)%Z.
  { eapply txtBranch_Heap; eauto. }
  destruct (type =? QJDns.Srv)%Z.
  { eapply srvBranch_Heap; eauto. }
  destruct ((type =? QJDns.A)%Z || (type =? QJDns.Aaaa)%Z).
  { eapply addressBranch_Heap; eauto. }
  now injection E as <- <-.
Qed.

Lemma resultsReady_Heap ex id results s s' :
  WFx ex s -> Registry s -> Heap s -> resultsReady id results s = Done s' ->
  Heap s'.
Proof.
  unfold resultsReady. intros W R Hp H.
  assert (Hptr : recordedType id s = QJDns.Ptr ->
                 exists u, In (id, u) (m_queryIdServiceMap s)).
  { unfold recordedType. intros E.
    destruct (QMap.value (m_queryIdTypeMap s) id) as [t|] eqn:Ev;
      [|discriminate]. subst t. eapply wf_ptr; eauto. }
  assert (G : (WFx ex s' /\ m_queryIdServiceMap s' = m_queryIdServiceMap s
               /\ Registry s') /\ Heap s'); [|tauto].
  revert H.
  apply (forEach_preserves
           (fun t => (WFx ex t
                      /\ m_queryIdServiceMap t = m_queryIdServiceMap s
                      /\ Registry t) /\ Heap t)); [|auto].
  intros r t t' _ [(W1 & M1 & R1) P1] H.
  assert (Hp' : recordedType id s = QJDns.Ptr ->
                exists u, In (id, u) (m_queryIdServiceMap t))
    by (rewrite M1; exact Hptr).
  pose proof (handleRecord_Registry ex _ _ _ _ _ W1 R1 Hp' H) as R2.
  pose proof (handleRecord_Heap ex _ _ _ _ _ W1 R1 P1 Hp' H) as P2.
  apply (handleRecord_effect ex) in H as (W2 & _ & M2); auto.
  split; [|exact P2]. split; [exact W2|]. split; [congruence|exact R2].
Qed.

Lemma startQueries_Heap s s' : Heap s -> startQueries s = Done s' -> Heap s'.
Proof.
  unfold startQueries. intros Hp. apply (forEach_preserves Heap); [|exact Hp].
  intros x t t' _ Ht H. eapply startQuery_Heap; eauto.
Qed.

Lemma stopQueries_Heap s s' : Heap s -> stopQueries s = Done s' -> Heap s'.
Proof.
  unfold stopQueries. intros Hp. apply (forEach_preserves Heap); [|exact Hp].
  intros x t t' _ Ht H. eapply stopQuery_Heap; eauto.
Qed.

Lemma unicastLookup_Heap s s' : Heap s -> unicastLookup s = Done s' -> Heap s'.
Proof.
  unfold unicastLookup. intros Hp. apply (forEach_preserves Heap); [|exact Hp].
  intros x t t' _ Ht H. eapply refreshQuery_Heap; eauto.
Qed.

Lemma removeAllServiceTypes_Heap s s' :
  Heap s -> removeAllServiceTypes s = Done s' -> Heap s'.
Proof.
  unfold removeAllServiceTypes. intros Hp.
  apply (forEach_preserves Heap); [|exact Hp].
  intros x t t' _ Ht H. eapply removeServiceType_Heap; eauto.
Qed.

Lemma updateServicesLoop_Heap queries : forall old s old' s',
  Heap s -> updateServicesLoop queries old s = Done (old', s') -> Heap s'.
Proof.
  induction queries as [|query rest IH]; simpl; intros old s old' s' Hp H.
  - now injection H as <- <-.
  - destruct (negb (Query.serviceType query =? "")%string); [|eauto].
    apply bind_Done in H as [s2 [E H]].
    pose proof (addServiceType_Heap (Query.serviceType query)
                  (Query.queryType query) s Hp) as P1.
    eapply IH; [|exact H].
    destruct (live _).
    + eapply startQuery_Heap; eauto.
    + now injection E as <-.
Qed.

Lemma removeLeftover_Heap type s s' :
  Heap s -> removeLeftover type s = Done s' -> Heap s'.
Proof.
  unfold removeLeftover. intros Hp H.
  apply bind_Done in H as [s1 [E H]].
  eapply removeServiceType_Heap; [|exact H].
  destruct (live s).
  - eapply stopQuery_Heap; eauto.
  - now injection E as <-.
Qed.

Lemma updateAllServiceTypes_Heap s : Heap s -> Heap (updateAllServiceTypes s).
Proof.
  pose proof (updateAllServiceTypes_frame s) as F. cbv zeta in F.
  destruct F as (_ & _ & F3 & _ & _ & F6 & _ & F8).
  now apply Heap_same.
Qed.

Lemma updateServices_Heap s s' :
  Heap s -> updateServices s = Done s' -> Heap s'.
Proof.
  unfold updateServices. intros Hp H.
  apply bind_Done in H as [[old s1] [E H]].
  apply bind_Done in H as [s2 [E2 H]]. injection H as <-.
  apply updateAllServiceTypes_Heap.
  apply updateServicesLoop_Heap in E; [|exact Hp].
  revert E2. apply (forEach_preserves Heap); [|exact E].
  intros x t t' _ Ht H. eapply removeLeftover_Heap; eauto.
Qed.

Lemma updateNameServers_Heap s s' :
  Heap s -> updateNameServers s = Done s' -> Heap s'.
Proof.
  unfold updateNameServers. intros Hp H.
  destruct (m_jdns s) as [j|] eqn:Ej; [|now injection H as <-].
  destruct (negb (isUnicast s)); [now injection H as <-|].
  cbv zeta in H.
  match type of H with
  | (if _ then _ else Done ?X) = _ => set (s1 := X) in *
  end.
  assert (P1 : Heap s1) by (revert Hp; apply Heap_same; reflexivity).
  destruct (m_running s1).
  - eapply unicastLookup_Heap; eauto.
  - now injection H as <-.
Qed.

Lemma setRunning_Heap arg s s' :
  Heap s -> setRunning arg s = Done s' -> Heap s'.
Proof.
  unfold setRunning. intros Hp H.
  destruct (Bool.eqb (m_running s) arg); [now injection H as <-|].
  sproj_in H.
  destruct (m_networkReady s); simpl in H.
  - destruct arg.
    + apply bind_Done in H as [s2 [E H]].
      apply startQueries_Heap in E;
        [|revert Hp; apply Heap_same; reflexivity].
      destruct (isUnicast s2); injection H as <-; [|exact E].
      revert E. apply Heap_same; reflexivity.
    + eapply stopQueries_Heap; [|exact H].
      revert Hp. apply Heap_same;
        destruct (isUnicast (set_running false s)); reflexivity.
  - injection H as <-. revert Hp. apply Heap_same; reflexivity.
Qed.

Lemma initializeMdns_Heap initialized s ok s' :
  Heap s -> initializeMdns initialized s = Done (ok, s') -> Heap s'.
Proof.
  unfold initializeMdns. intros Hp H.
  destruct (m_jdns s); [now injection H as <- <-|].
  destruct initialized; simpl in H; [|now injection H as <- <-].
  match type of H with
  | context [set_lookupReady true ?t] => set (s1 := set_lookupReady true t) in *
  end.
  assert (P1 : Heap s1) by (revert Hp; apply Heap_same; reflexivity).
  apply bind_Done in H as [s2 [E2 H]].
  apply bind_Done in H as [s3 [E3 H]]. injection H as <- <-.
  assert (P2 : Heap s2).
  { destruct (isUnicast s1).
    - eapply updateNameServers_Heap; eauto.
    - now injection E2 as <-. }
  destruct (m_running s2).
  - apply bind_Done in E3 as [s4 [E4 E3]].
    apply updateServices_Heap in E4; [|exact P2].
    destruct (isUnicast s4); injection E3 as <-; [|exact E4].
    revert E4. apply Heap_same; reflexivity.
  - now injection E3 as <-.
Qed.

Lemma deinitializeMdns_Heap s s' :
  Inv s -> Heap s -> deinitializeMdns s = Done s' -> Heap s'.
Proof.
  intros I Hp H. destruct (m_jdns s) eqn:Ej.
  - apply deinitializeMdns_effect in H as (_ & _ & _ & _ & _ & Re & T); auto.
    apply Heap_of_empty; [exact T|apply Re].
  - unfold deinitializeMdns in H. rewrite Ej in H. now injection H as <-.
Qed.

Lemma step_Heap e s s' :
  Inv s -> Registry s -> Heap s -> step e s = Done s' -> Heap s'.
Proof.
  intros I R Hp H. pose proof (inv_wf I) as W. destruct e; simpl in H.
  - injection H as <-. revert Hp. apply Heap_same; reflexivity.
  - unfold networkSessionOpened in H.
    apply bind_Done in H as [[ok s1] [E H]].
    apply initializeMdns_Heap in E;
      [|revert Hp; apply Heap_same; reflexivity].
    destruct (negb ok); injection H as <-; [|exact E].
    revert E. apply Heap_same; reflexivity.
  - unfold networkSessionClosed in H.
    apply bind_Done in H as [s1 [E H]]. injection H as <-.
    apply deinitializeMdns_Heap in E; auto.
    revert E. apply Heap_same; reflexivity.
  - eapply setRunning_Heap; eauto.
  - unfold setLookupMode in H.
    destruct (sameMode (m_lookupMode s) arg); [now injection H as <-|].
    apply bind_Done in H as [s1 [E H]].
    destruct (m_lookupReady s) eqn:El.
    + apply bind_Done in H as [[ok s3] [E3 H]].
      apply deinitializeMdns_Heap in E; auto.
      apply initializeMdns_Heap in E3;
        [|revert E; apply Heap_same; reflexivity].
      destruct (negb ok); injection H as <-; [|exact E3].
      revert E3. apply Heap_same; reflexivity.
    + injection E as <-. injection H as <-.
      revert Hp. apply Heap_same; reflexivity.
  - injection H as <-. unfold setUnicastErrorThreshold.
    destruct (m_unicastErrorThreshold s =? arg)%Z; [exact Hp|].
    revert Hp. apply Heap_same; reflexivity.
  - injection H as <-. unfold setFilter.
    apply updateAllServiceTypes_Heap.
    revert Hp. apply Heap_same; reflexivity.
  - injection H as <-. revert Hp. apply Heap_same; reflexivity.
  - injection H as <-. revert Hp. apply Heap_same; reflexivity.
  - eapply updateNameServers_Heap; [|exact H].
    revert Hp. apply Heap_same; reflexivity.
  - injection H as <-. revert Hp. apply Heap_same; reflexivity.
  - eapply updateServices_Heap; eauto.
  - injection H as <-. now apply updateAllServiceTypes_Heap.
  - eapply updateNameServers_Heap; eauto.
  - destruct (m_unicastLookupTimer s); [|now injection H as <-].
    eapply unicastLookup_Heap; eauto.
  - eapply resultsReady_Heap; eauto.
  - now injection H as <-.
Qed.

Lemma reachable_Heap s : reachable s -> Heap s.
Proof.
  intros H.
  assert (G : Registry s /\ Heap s); [|tauto].
  revert s H. apply reachable_preserves.
  - split.
    + apply reachable_Registry. apply reachable_initialState.
    + apply Heap_of_empty; [|reflexivity]. intros type l Hv. discriminate.
  - intros e s s' I [R Hp] H. split.
    + eapply step_Registry; eauto.
    + eapply step_Heap; eauto.
Qed.

(* ================================================================== *)
(** * The items of the instance tables, in every reachable state        *)
(* ================================================================== *)

Lemma find_all_false {A : Type} (f : A -> bool) l :
  (forall x, In x l -> f x = false) -> find f l = None.
Proof.
  induction l as [|x l IH]; simpl; intros H; [reflexivity|].
  rewrite (H x) by now left. apply IH. intros y Hy. apply H. now right.
Qed.

Lemma find_same {A : Type} (f g : A -> bool) l :
  (forall x, f x = g x) -> find f l = find g l.
Proof.
  intros H. induction l as [|x l IH]; simpl; [reflexivity|].
  rewrite H, IH. reflexivity.
Qed.

Lemma takeFirst_unique_name s name l : forall p rest,
  NoDup (map (nameOf s) l) ->
  takeFirst (hasName s name) l = Some (p, rest) ->
  find (hasName s name) rest = None.
Proof.
  induction l as [|x l IH]; simpl; intros p rest N H; [discriminate|].
  apply NoDup_cons_iff in N as [N1 N2].
  destruct (hasName s name x) eqn:Ex.
  - injection H as <- <-. apply find_all_false. intros y Hy.
    unfold hasName in *. apply String.eqb_eq in Ex.
    destruct (String.eqb_spec (Item.name (item_at s y)) name) as [Ey|];
      [|reflexivity].
    exfalso. apply N1. apply in_map_iff. exists y. split; [|exact Hy].
    unfold nameOf. congruence.
  - destruct (takeFirst (hasName s name) l) as [[q r]|] eqn:E; [|discriminate].
    injection H as <- <-. simpl. rewrite Ex. eauto.
Qed.

Lemma takeFirst_other_name s name name' l : forall p rest,
  name' <> name ->
  takeFirst (hasName s name) l = Some (p, rest) ->
  find (hasName s name') rest = find (hasName s name') l.
Proof.
  induction l as [|x l IH]; simpl; intros p rest Nn H; [discriminate|].
  destruct (hasName s name x) eqn:Ex.
  - injection H as <- <-. unfold hasName in *. apply String.eqb_eq in Ex.
    destruct (String.eqb_spec (Item.name (item_at s x)) name');
      [congruence|reflexivity].
  - destruct (takeFirst (hasName s name) l) as [[q r]|] eqn:E; [|discriminate].
    injection H as <- <-. simpl.
    destruct (hasName s name' x); [reflexivity|eauto].
Qed.

(** X22: in every reachable state an instance table lists distinct items
    that are allocated, have different names and carry the service type of
    the table, so that an item is listed in one table only.  The purge pass
    and the search by name therefore work on distinct objects. *)
Theorem instance_tables_list_distinct_items (s : State) (type : string)
  (l : list ptr) :
  reachable s -> QMap.value (m_serviceItemsMap s) type = Some l ->
  distinctItems s l
  /\ NoDup (map (nameOf s) l)
  /\ (forall p, In p l -> Item.type (item_at s p) = type)
  /\ (forall type' l' p,
        QMap.value (m_serviceItemsMap s) type' = Some l' ->
        In p l -> In p l' -> type' = type).
Proof.
  intros R Hv. apply reachable_Heap in R.
  pose proof (@hp_names _ _ R _ _ Hv) as Nn.
  split; [split|split; [exact Nn|split]].
  - eapply NoDup_map_NoDup; eauto.
  - intros p Hp. eapply (@hp_valid _ _ R); eauto.
  - intros p Hp. eapply (@hp_type _ _ R); eauto.
  - intros type' l' p Hv' Hp Hp'.
    rewrite <- (@hp_type _ _ R _ _ _ Hv Hp).
    now rewrite <- (@hp_type _ _ R _ _ _ Hv' Hp').
Qed.

Lemma instance_tables_witness :
  let s := stateAfter Scenario.resolving in
  distinctItems s [0; 1]%nat
  /\ NoDup (map (nameOf s) [0; 1]%nat)
  /\ (forall p, In p [0; 1]%nat
                -> Item.type (item_at s p) = Scenario.httpType)
  /\ (forall type' l' p,
        QMap.value (m_serviceItemsMap s) type' = Some l' ->
        In p [0; 1]%nat -> In p l' -> type' = Scenario.httpType).
Proof.
  apply (instance_tables_list_distinct_items
           (stateAfter Scenario.resolving) Scenario.httpType [0; 1]%nat).
  - eapply reachable_stateAfter. vm_compute. reflexivity.
  - vm_compute. reflexivity.
Defined.

(** X23: in every reachable state [removeItem] returns; afterwards
    [getItem] finds no item of that name under that service type, because
    the names of a table are distinct, and it finds under every other name
    or service type what it found before. *)
Theorem remove_item_removes_that_instance (s : State) (name type : string) :
  reachable s ->
  exists s',
    removeItem name type s = Done s'
    /\ getItem name type s' = None
    /\ (forall name' type', name' <> name \/ type' <> type ->
          getItem name' type' s' = getItem name' type' s).
Proof.
  intros R. pose proof (reachable_Heap _ R) as Hp.
  apply reachable_Inv in R. pose proof (inv_wf R) as W.
  unfold removeItem, getItem.
  destruct (QMap.value (m_serviceItemsMap s) type) as [l|] eqn:Hv.
  2:{ exists s. rewrite Hv. auto. }
  destruct (takeFirst (hasName s name) l) as [[item rest]|] eqn:Et.
  2:{ exists s. rewrite Hv. split; [reflexivity|].
      split; [now apply takeFirst_None|auto]. }
  assert (Hj : m_jdns s <> None).
  { intros Ej. destruct (WF_no_backend _ W Ej) as [_ T].
    rewrite (T _ _ Hv) in Et. discriminate. }
  destruct (stopItemQueries_total item s Hj) as [s1 E]. rewrite E.
  cbn [bind]. eexists. split; [reflexivity|].
  pose proof (stopItemQueries_effect _ _ _ E) as ((_ & _ & Si & _ & Hh) & _).
  match goal with
  | |- context [updateServiceType type ?t] =>
      pose proof (updateServiceType_frame type t) as F; cbv zeta in F;
      destruct F as (_ & _ & F3 & _ & _ & _ & _ & F8); sproj_in F3; sproj_in F8;
      set (s2 := updateServiceType type t) in *
  end.
  assert (Hn : forall n p, hasName s2 n p = hasName s n p).
  { intros n p. unfold hasName, item_at. now rewrite F8, Hh. }
  split.
  - rewrite F3, value_insert, key_eqb_refl.
    rewrite (find_same _ (hasName s name)) by (intros x; apply Hn).
    eapply takeFirst_unique_name; [|exact Et].
    exact (@hp_names _ _ Hp _ _ Hv).
  - intros name' type' Hne. rewrite F3, value_insert, Si.
    destruct (key_eqb type type') eqn:K.
    + apply key_eqb_eq in K. subst type'. rewrite Hv.
      rewrite (find_same _ (hasName s name')) by (intros x; apply Hn).
      eapply takeFirst_other_name; [|exact Et]. tauto.
    + destruct (QMap.value (m_serviceItemsMap s) type'); [|reflexivity].
      apply find_same. intros x. apply Hn.
Qed.

Lemma remove_item_witness :
  let s := stateAfter Scenario.resolving in
  exists s',
    removeItem "myprinter" Scenario.httpType s = Done s'
    /\ getItem "myprinter" Scenario.httpType s' = None
    /\ (forall name' type',
          name' <> "myprinter"%string \/ type' <> Scenario.httpType ->
          getItem name' type' s' = getItem name' type' s).
Proof.
  apply (remove_item_removes_that_instance (stateAfter Scenario.resolving)).
  eapply reachable_stateAfter. vm_compute. reflexivity.
Defined.

(** X24: in every reachable state the outstanding requests of a listed item
    are the ids of the sub-queries the registry holds for it, and each of
    them is a sub-query the backend was asked to start. *)
Theorem outstanding_requests_are_registered_subqueries (s : State)
  (type : string) (l : list ptr) (p : ptr) (q : Z) :
  reachable s -> QMap.value (m_serviceItemsMap s) type = Some l -> In p l ->
  (In q (Item.outstandingRequests (item_at s p))
   <-> QMap.value (m_queryIdItemMap s) q = Some p)
  /\ (In q (Item.outstandingRequests (item_at s p)) -> subQueryRuns q s).
Proof.
  intros R Hv Hin. pose proof (reachable_Heap _ R) as Hp.
  apply reachable_Registry in R.
  assert (M : In q (Item.outstandingRequests (item_at s p))
              <-> In (q, p) (m_queryIdItemMap s)).
  { apply (@hp_mirror _ _ Hp _ _ _ q Hv Hin). tauto. }
  split.
  - rewrite M. split.
    + intros Hq. destruct (In_value _ _ _ Hq) as [p' Ev]. rewrite Ev.
      f_equal. apply value_In in Ev. eapply (@hp_fun _ _ Hp); eauto.
    + apply value_In.
  - intros Hq. apply M in Hq. eapply (rg_subs R); eauto.
Qed.

Lemma outstanding_requests_witness :
  let s := stateAfter Scenario.resolving in
  (In 4%Z (Item.outstandingRequests (item_at s 1))
   <-> QMap.value (m_queryIdItemMap s) 4%Z = Some 1%nat)
  /\ (In 4%Z (Item.outstandingRequests (item_at s 1)) -> subQueryRuns 4 s).
Proof.
  apply (outstanding_requests_are_registered_subqueries
           (stateAfter Scenario.resolving) Scenario.httpType [0; 1]%nat).
  - eapply reachable_stateAfter. vm_compute. reflexivity.
  - vm_compute. reflexivity.
  - simpl. auto.
Defined.

(** X25: in every reachable state a sub-query of the registry points to one
    item; the item is allocated, is listed in the instance table of its own
    service type, and has the id of the sub-query among its outstanding
    requests. *)
Theorem registered_subquery_has_a_live_item (s : State) (q : Z) (p : ptr) :
  reachable s -> In (q, p) (m_queryIdItemMap s) ->
  QMap.value (m_queryIdItemMap s) q = Some p
  /\ (p < List.length (heap s))%nat
  /\ In q (Item.outstandingRequests (item_at s p))
  /\ (exists l, QMap.value (m_serviceItemsMap s) (Item.type (item_at s p))
                = Some l /\ In p l).
Proof.
  intros R Hin. pose proof (reachable_Heap _ R) as Hp.
  apply reachable_Inv in R. pose proof (inv_wf R) as W.
  destruct (wf_item W _ _ Hin) as (type & l & Hv & Hl).
  split; [|split; [|split]].
  - destruct (In_value _ _ _ Hin) as [p' Ev]. rewrite Ev. f_equal.
    apply value_In in Ev. eapply (@hp_fun _ _ Hp); eauto.
  - eapply (@hp_valid _ _ Hp); eauto.
  - apply (@hp_mirror _ _ Hp _ _ _ q Hv Hl); tauto.
  - rewrite (@hp_type _ _ Hp _ _ _ Hv Hl). eauto.
Qed.

Lemma registered_subquery_witness :
  let s := stateAfter Scenario.resolving in
  QMap.value (m_queryIdItemMap s) 4%Z = Some 1%nat
  /\ (1 < List.length (heap s))%nat
  /\ In 4%Z (Item.outstandingRequests (item_at s 1))
  /\ (exists l, QMap.value (m_serviceItemsMap s) (Item.type (item_at s 1))
                = Some l /\ In 1%nat l).
Proof.
  apply (registered_subquery_has_a_live_item
           (stateAfter Scenario.resolving) 4 1%nat).
  - eapply reachable_stateAfter. vm_compute. reflexivity.
  - vm_compute. auto.
Defined.

(** ** What an answer to a sub-query stores *)

Lemma resolveItem_item_at p s q :
  (p < List.length (heap s))%nat ->
  item_at (resolveItem (Some p) s) q
  = if Nat.eqb p q then settled (item_at s p) else item_at s q.
Proof.
  intros V. unfold resolveItem, settled.
  destruct (negb (Item.hasOutstandingRequests (item_at s p))).
  - pose proof (updateServiceType_frame (Item.type (item_at s p)) s) as F.
    cbv zeta in F. destruct F as (_ & _ & _ & _ & _ & _ & _ & F8).
    unfold updateItem.
    set (s1 := updateServiceType (Item.type (item_at s p)) s) in *.
    assert (A : forall x, item_at s1 x = item_at s x)
      by (intros x; unfold item_at; now rewrite F8).
    rewrite !item_at_update_item, update_item_length, F8, A.
    apply Nat.ltb_lt in V. rewrite V.
    destruct (Nat.eqb_spec p q) as [->|]; reflexivity.
  - destruct (Nat.eqb_spec p q) as [->|]; reflexivity.
Qed.

Lemma item_at_set_queryIdItemMap x s p :
  item_at (set_queryIdItemMap x s) p = item_at s p.
Proof. reflexivity. Qed.

Lemma item_at_set_queryIdTypeMap x s p :
  item_at (set_queryIdTypeMap x s) p = item_at s p.
Proof. reflexivity. Qed.

Lemma item_at_set_jdns x s p : item_at (set_jdns x s) p = item_at s p.
Proof. reflexivity. Qed.

Ltac heap_len :=
  repeat first [rewrite update_item_length | rewrite list_update_length
               | progress sproj].

Ltac item_len :=
  repeat first [rewrite item_at_update_item | rewrite update_item_length
               | rewrite list_update_length
               | rewrite item_at_set_queryIdItemMap
               | rewrite item_at_set_queryIdTypeMap
               | rewrite item_at_set_jdns | progress sproj].

Lemma answer_item s j id p t r :
  m_jdns s = Some j ->
  QMap.value (m_queryIdItemMap s) id = Some p ->
  (p < List.length (heap s))%nat ->
  QMap.value (m_queryIdTypeMap s) id = Some t ->
  isStartedSubType t ->
  exists s',
    resultsReady id [r] s = Done s'
    /\ forall q,
         item_at s' q
         = if Nat.eqb p q
           then settled (answered t r (QJDns.next_id j)
                           (Item.removeOutstandingRequest id (item_at s p)))
           else item_at s q.
Proof.
  intros Ej Ev V Et Ht.
  assert (Rt : recordedType id s = t) by (unfold recordedType; now rewrite Et).
  pose proof (finishSubQuery_run id s j p Ej Ev) as F.
  apply Nat.ltb_lt in V.
  unfold resultsReady. rewrite Rt. cbn [forEach]. unfold handleRecord.
  destruct Ht as [-> | [-> | ->]];
    cbn [Z.eqb Pos.eqb QJDns.Ptr QJDns.Txt QJDns.Srv QJDns.A QJDns.Aaaa orb].
  - unfold txtBranch. rewrite F. cbn [bind]. eexists. split; [reflexivity|].
    intros q. rewrite resolveItem_item_at
      by (heap_len; now apply Nat.ltb_lt).
    item_len.
    rewrite Nat.eqb_refl, V.
    unfold answered. cbn [Z.eqb Pos.eqb QJDns.Txt QJDns.Srv].
    destruct (Nat.eqb p q); reflexivity.
  - unfold srvBranch. rewrite F. cbn [bind]. unfold queryStart. sproj.
    cbn [bind]. eexists. split; [reflexivity|].
    intros q. unfold registerSubQuery.
    rewrite resolveItem_item_at
      by (heap_len; now apply Nat.ltb_lt).
    item_len.
    rewrite Nat.eqb_refl, V.
    unfold answered. cbn [Z.eqb Pos.eqb QJDns.Txt QJDns.Srv].
    destruct (Nat.eqb p q); reflexivity.
  - unfold addressBranch. rewrite F. cbn [bind]. eexists.
    split; [reflexivity|].
    intros q. rewrite resolveItem_item_at
      by (heap_len; now apply Nat.ltb_lt).
    item_len.
    rewrite Nat.eqb_refl, V.
    unfold answered. cbn [Z.eqb Pos.eqb QJDns.Txt QJDns.Srv QJDns.A].
    destruct (Nat.eqb p q); reflexivity.
Qed.

Lemma settled_fields i :
  Item.name (settled i) = Item.name i
  /\ Item.type (settled i) = Item.type i
  /\ Item.txtRecords (settled i) = Item.txtRecords i
  /\ Item.hostName (settled i) = Item.hostName i
  /\ Item.hostAddress (settled i) = Item.hostAddress i
  /\ Item.port (settled i) = Item.port i
  /\ Item.outstandingRequests (settled i) = Item.outstandingRequests i.
Proof.
  unfold settled. destruct (negb (Item.hasOutstandingRequests i));
    repeat split; reflexivity.
Qed.

Lemma settled_marks i :
  (Item.outstandingRequests i = [] ->
   Item.updated (settled i) = true /\ Item.errorCount (settled i) = 0%Z)
  /\ (Item.outstandingRequests i <> [] -> settled i = i).
Proof.
  unfold settled, Item.hasOutstandingRequests.
  destruct (Item.outstandingRequests i); simpl; split; intros H;
    try congruence; auto.
Qed.

Lemma addOutstanding_fields n i :
  Item.name (Item.addOutstandingRequest n i) = Item.name i
  /\ Item.type (Item.addOutstandingRequest n i) = Item.type i
  /\ Item.updated (Item.addOutstandingRequest n i) = Item.updated i
  /\ Item.errorCount (Item.addOutstandingRequest n i) = Item.errorCount i.
Proof.
  unfold Item.addOutstandingRequest. destruct (existsb _ _); auto.
Qed.

Ltac fill_marks M1 M2 :=
  try match goal with
      | H : Item.outstandingRequests _ = [] |- _ => now apply M1 in H
      | H : Item.outstandingRequests _ <> [] |- _ =>
          now rewrite (M2 H)
      end.

(** X26: in every reachable state, an answer of one record to a registered
    sub-query returns and stores the data of the record in the item of the
    sub-query, and in no other item: the texts of a TXT record, the host
    name and the port of an SRV record, the address of an address record.
    The name and the type of the item stay; the id leaves its outstanding
    requests, and the address query an SRV answer starts enters them; an
    item left without outstanding requests is marked updated and its error
    count is reset, any other item keeps its mark and its count. *)
Theorem subquery_answer_fills_its_item (s : State) (id : Z) (p : ptr)
  (r : QJDns.AnswerRecord) :
  reachable s -> In (id, p) (m_queryIdItemMap s) ->
  exists s',
    resultsReady id [r] s = Done s'
    /\ Item.name (item_at s' p) = Item.name (item_at s p)
    /\ Item.type (item_at s' p) = Item.type (item_at s p)
    /\ (recordedType id s = QJDns.Txt ->
        Item.txtRecords (item_at s' p) = QJDns.texts r)
    /\ (recordedType id s = QJDns.Srv ->
        Item.hostName (item_at s' p) = QJDns.name r
        /\ Item.port (item_at s' p) = QJDns.port r)
    /\ (recordedType id s = QJDns.A ->
        Item.hostAddress (item_at s' p) = QJDns.address r)
    /\ (forall q,
          In q (Item.outstandingRequests (item_at s' p))
          <-> (In q (Item.outstandingRequests (item_at s p)) /\ q <> id)
              \/ (recordedType id s = QJDns.Srv /\ nextId s = Some q))
    /\ (Item.outstandingRequests (item_at s' p) = [] ->
        Item.updated (item_at s' p) = true
        /\ Item.errorCount (item_at s' p) = 0%Z)
    /\ (Item.outstandingRequests (item_at s' p) <> [] ->
        Item.updated (item_at s' p) = Item.updated (item_at s p)
        /\ Item.errorCount (item_at s' p) = Item.errorCount (item_at s p))
    /\ (forall p', p' <> p -> item_at s' p' = item_at s p').
Proof.
  intros R Hin. pose proof (reachable_Registry _ R) as Rg.
  pose proof (reachable_Heap _ R) as Hp.
  apply reachable_Inv in R. pose proof (inv_wf R) as W.
  destruct (rg_subs Rg _ _ Hin) as (name0 & t & Et & Ht & _).
  destruct (rg_fresh Rg _ _ Hin) as (n & Hn & _).
  pose proof Hn as Hn'. apply nextId_Some in Hn' as (j & Ej & Nj).
  destruct (wf_item W _ _ Hin) as (type & l & Hv & Hl).
  pose proof (@hp_valid _ _ Hp _ _ _ Hv Hl) as V.
  assert (Ev : QMap.value (m_queryIdItemMap s) id = Some p).
  { destruct (In_value _ _ _ Hin) as [p' Ev]. rewrite Ev. f_equal.
    apply value_In in Ev. eapply (@hp_fun _ _ Hp); eauto. }
  assert (Rt : recordedType id s = t) by (unfold recordedType; now rewrite Et).
  destruct (answer_item s j id p t r Ej Ev V Et Ht) as (s' & E & A).
  exists s'. split; [exact E|].
  rewrite (A p), Nat.eqb_refl, Rt, Hn, Nj.
  set (i := item_at s p).
  set (i1 := Item.removeOutstandingRequest id i).
  set (i2 := answered t r n i1).
  destruct (settled_fields i2) as (S1 & S2 & S3 & S4 & S5 & S6 & S7).
  destruct (settled_marks i2) as (M1 & M2). rewrite S7 in *.
  destruct (addOutstanding_fields n i1) as (A1 & A2 & A3 & A4).
  pose proof (In_addOutstanding n) as Ia.
  pose proof (In_removeOutstanding id) as Ir. fold i in Ir.
  rewrite S1, S2, S3, S4, S5, S6.
  assert (G : forall p', p' <> p -> item_at s' p' = item_at s p').
  { intros p' N. rewrite A. apply not_eq_sym, Nat.eqb_neq in N.
    now rewrite N. }
  destruct Ht as [-> | [-> | ->]]; unfold i2, answered in *;
    cbn [Z.eqb Pos.eqb QJDns.Ptr QJDns.Txt QJDns.Srv QJDns.A] in *;
    cbn [Item.name Item.type Item.txtRecords Item.hostName Item.hostAddress
         Item.port Item.outstandingRequests Item.setTxtRecords
         Item.setHostName Item.setPort Item.setHostAddress] in *.
  - repeat split; try discriminate; auto; fill_marks M1 M2.
    + intros Hq. left. now apply Ir.
    + intros [Hq|[Hq _]]; [now apply Ir|discriminate].
  - rewrite A1, A2. repeat split; try discriminate; auto; fill_marks M1 M2;
      auto.
    + intros Hq. apply Ia in Hq as [->|Hq]; [right; auto|left].
      now apply Ir.
    + intros [Hq|[_ Hq]]; apply Ia;
        [right; now apply Ir|left; congruence].
  - repeat split; try discriminate; auto; fill_marks M1 M2.
    + intros Hq. left. now apply Ir.
    + intros [Hq|[Hq _]]; [now apply Ir|discriminate].
Qed.

Lemma subquery_answer_fills_witness :
  let s := stateAfter Scenario.resolving in
  exists s',
    resultsReady 4 [Scenario.srvRecord] s = Done s'
    /\ Item.name (item_at s' 1) = Item.name (item_at s 1)
    /\ Item.type (item_at s' 1) = Item.type (item_at s 1)
    /\ (recordedType 4 s = QJDns.Txt ->
        Item.txtRecords (item_at s' 1) = QJDns.texts Scenario.srvRecord)
    /\ (recordedType 4 s = QJDns.Srv ->
        Item.hostName (item_at s' 1) = QJDns.name Scenario.srvRecord
        /\ Item.port (item_at s' 1) = QJDns.port Scenario.srvRecord)
    /\ (recordedType 4 s = QJDns.A ->
        Item.hostAddress (item_at s' 1) = QJDns.address Scenario.srvRecord)
    /\ (forall q,
          In q (Item.outstandingRequests (item_at s' 1))
          <-> (In q (Item.outstandingRequests (item_at s 1)) /\ q <> 4%Z)
              \/ (recordedType 4 s = QJDns.Srv /\ nextId s = Some q))
    /\ (Item.outstandingRequests (item_at s' 1) = [] ->
        Item.updated (item_at s' 1) = true
        /\ Item.errorCount (item_at s' 1) = 0%Z)
    /\ (Item.outstandingRequests (item_at s' 1) <> [] ->
        Item.updated (item_at s' 1) = Item.updated (item_at s 1)
        /\ Item.errorCount (item_at s' 1) = Item.errorCount (item_at s 1))
    /\ (forall p', p' <> 1%nat -> item_at s' p' = item_at s p').
Proof.
  apply (subquery_answer_fills_its_item (stateAfter Scenario.resolving)
           4 1%nat).
  - eapply reachable_stateAfter. vm_compute. reflexivity.
  - vm_compute. auto.
Defined.

(* ================================================================== *)
(** * The scans of a running engine                                     *)
(* ================================================================== *)

Lemma allTypesScanned_same s s' :
  live s' = live s ->
  (forall t, QMap.contains (m_serviceItemsMap s') t
             = QMap.contains (m_serviceItemsMap s) t) ->
  (forall u, scanned u s -> scanned u s') ->
  allTypesScanned s -> allTypesScanned s'.
Proof.
  intros E1 E2 E3 A L type C. apply E3. apply A; congruence.
Qed.

Lemma allTypesScanned_idle s : live s = false -> allTypesScanned s.
Proof. intros E L. congruence. Qed.

Lemma scanned_same s s' :
  m_queryIdServiceMap s' = m_queryIdServiceMap s ->
  forall u, scanned u s -> scanned u s'.
Proof. intros E u. unfold scanned. now rewrite E. Qed.

Lemma refreshQuery_scanned type s s' :
  WF s -> refreshQuery type s = Done s' ->
  forall u, scanned u s -> scanned u s'.
Proof.
  unfold refreshQuery. intros W H u [id Hin].
  destruct (findQuery type s) as [id0|] eqn:Ef;
    [|injection H as <-; now exists id].
  apply findQuery_Some in Ef.
  apply bind_Done in H as [s1 [E H]].
  apply queryCancel_Done in E as (j & Ej & ->).
  apply bind_Done in H as [s2 [E2 H]].
  apply bind_Done in H as [[newId s3] [E3 H]]. injection H as <-.
  apply purgeItems_frame in E2 as (_ & M2 & N2).
  apply queryStart_Done in E3 as (j2 & Ej2 & -> & ->).
  sproj_in M2.
  assert (Hn2 : nextId s2 = Some (QJDns.next_id j2))
    by (apply nextId_Some; eauto).
  rewrite N2 in Hn2. unfold nextId in Hn2. sproj_in Hn2. simpl in Hn2.
  injection Hn2 as Hn2.
  unfold scanned. sproj. rewrite M2.
  destruct (Z.eq_dec id id0) as [->|N].
  - assert (u = type) by (eapply (wf_fun W); eauto). subst u.
    exists (QJDns.next_id j2). apply In_insert. auto.
  - exists id. apply In_insert. right. split.
    + destruct (wf_fresh W _ _ Hin) as (n & Hn & Lt).
      apply nextId_Some in Hn as (j' & Ej' & <-).
      assert (j' = j) by congruence. subst j'. lia.
    + apply In_remove. auto.
Qed.

Lemma unicastLookup_scanned s s' :
  WF s -> unicastLookup s = Done s' ->
  forall u, scanned u s -> scanned u s'.
Proof.
  unfold unicastLookup. intros W H.
  assert (G : WF s' /\ forall u, scanned u s -> scanned u s'); [|tauto].
  revert H.
  apply (forEach_preserves
           (fun t => WF t /\ forall u, scanned u s -> scanned u t)); [|auto].
  intros x t t' _ [W1 B1] H. split.
  - eapply refreshQuery_WFx; eauto.
  - intros u Hu. eapply refreshQuery_scanned; eauto.
Qed.

Lemma updateNameServers_scanned s s' :
  WF s -> updateNameServers s = Done s' ->
  forall u, scanned u s -> scanned u s'.
Proof.
  unfold updateNameServers. intros W H.
  destruct (m_jdns s) as [j|] eqn:Ej; [|now injection H as <-].
  destruct (negb (isUnicast s)); [now injection H as <-|].
  cbv zeta in H.
  match type of H with
  | (if _ then _ else Done ?X) = _ => set (s1 := X) in *
  end.
  assert (W1 : WF s1) by (now apply log_call_WF).
  destruct (m_running s1).
  - intros u Hu. eapply unicastLookup_scanned; eauto.
  - now injection H as <-.
Qed.

Lemma unicastLookup_scans s s' :
  WF s -> allTypesScanned s -> unicastLookup s = Done s' ->
  allTypesScanned s'.
Proof.
  intros W A H. pose proof (unicastLookup_scanned _ _ W H) as B.
  apply unicastLookup_effect in H as (_ & (C & _ & K & _)); auto.
  revert A. apply allTypesScanned_same; auto.
  now rewrite (config_live _ _ C).
Qed.

Lemma updateNameServers_scans s s' :
  WF s -> allTypesScanned s -> updateNameServers s = Done s' ->
  allTypesScanned s'.
Proof.
  unfold updateNameServers. intros W A H.
  destruct (m_jdns s) as [j|] eqn:Ej; [|now injection H as <-].
  destruct (negb (isUnicast s)); [now injection H as <-|].
  cbv zeta in H.
  match type of H with
  | (if _ then _ else Done ?X) = _ => set (s1 := X) in *
  end.
  assert (W1 : WF s1) by (now apply log_call_WF).
  assert (A1 : allTypesScanned s1)
    by (revert A; apply allTypesScanned_same; auto).
  destruct (m_running s1).
  - eapply unicastLookup_scans; eauto.
  - now injection H as <-.
Qed.

Lemma stopQuery_others type s s' :
  WF s -> stopQuery type s = Done s' ->
  forall id u, u <> type -> In (id, u) (m_queryIdServiceMap s) ->
               In (id, u) (m_queryIdServiceMap s').
Proof.
  unfold stopQuery. intros W H id u Nu Hin.
  destruct (findQuery type s) as [id0|] eqn:Ef; [|now injection H as <-].
  apply findQuery_Some in Ef.
  apply bind_Done in H as [s1 [E H]].
  apply queryCancel_Done in E as (j & Ej & ->).
  apply clearItems_effect in H as (_ & _ & _ & M & _). rewrite M. sproj.
  apply In_remove. split; [exact Hin|]. intros ->. apply Nu.
  eapply (wf_fun W); eauto.
Qed.

Lemma removeLeftover_others type s s' :
  WF s -> removeLeftover type s = Done s' ->
  forall id u, u <> type -> In (id, u) (m_queryIdServiceMap s) ->
               In (id, u) (m_queryIdServiceMap s').
Proof.
  unfold removeLeftover. intros W H id u Nu Hin.
  apply bind_Done in H as [s1 [E H]].
  apply removeServiceType_frame in H as (_ & M & _). rewrite M.
  destruct (live s).
  - eapply stopQuery_others; eauto.
  - now injection E as <-.
Qed.

Lemma removeLeftovers_others l : forall s s',
  WF s -> quiet s -> forEach removeLeftover l s = Done s' ->
  forall id u, ~ In u l -> In (id, u) (m_queryIdServiceMap s) ->
               In (id, u) (m_queryIdServiceMap s').
Proof.
  induction l as [|x l IH]; intros s s' W Q H id u Nu Hin.
  - now injection H as <-.
  - cbn [forEach] in H. apply bind_Done in H as [s1 [E H]].
    pose proof (removeLeftover_others _ _ _ W E id u) as K.
    apply removeLeftover_effect in E as (W1 & _ & Q1); auto.
    eapply IH; eauto.
    + intros Hu. apply Nu. now right.
    + apply K; [|exact Hin]. intros ->. apply Nu. now left.
Qed.

Lemma updateServicesLoop_scans queries : forall old s old' s',
  WF s -> Registry s -> live s = true ->
  updateServicesLoop queries old s = Done (old', s') ->
  (forall id u, In (id, u) (m_queryIdServiceMap s) ->
                In (id, u) (m_queryIdServiceMap s'))
  /\ (forall t, declaredIn queries t = true -> scanned t s').
Proof.
  induction queries as [|query rest IH]; intros old s old' s' W R L H.
  - injection H as <- <-. split; [auto|].
    intros t D. unfold declaredIn in D. simpl in D.
    rewrite andb_false_r in D. discriminate.
  - cbn [updateServicesLoop] in H.
    destruct (String.eqb_spec (Query.serviceType query) "") as [Eq|Nq];
      cbn [negb] in H.
    + destruct (IH _ _ _ _ W R L H) as [K B]. split; [exact K|].
      intros t D. apply B. unfold declaredIn in *. cbn [existsb] in D.
      apply andb_prop in D as [D1 D2]. rewrite D1. cbn [andb].
      apply orb_prop in D2 as [D2|D2]; [|exact D2].
      apply String.eqb_eq in D2. subst t. rewrite Eq in D1. discriminate.
    + apply bind_Done in H as [s2 [E H]].
      set (s1 := addServiceType (Query.serviceType query)
                                (Query.queryType query) s) in *.
      pose proof (addServiceType_frame (Query.serviceType query)
                    (Query.queryType query) s) as F. cbv zeta in F.
      fold s1 in F. destruct F as (F1 & F2 & _ & _ & F5 & _ & F7 & _).
      assert (W1 : WF s1) by (apply addServiceType_WFx; exact W).
      assert (R1 : Registry s1) by (eapply addServiceType_Registry; eauto).
      rewrite (config_live _ _ F1), L in E.
      pose proof (startQuery_Registry _ _ _ _ W1 R1 E) as R2.
      pose proof (startQuery_frame _ _ _ E) as ((C2 & _) & _).
      apply startQuery_scan in E as (W2 & _ & K2 & B2 & _); auto.
      2:{ apply (rg_scans R1). }
      assert (L2 : live s2 = true)
        by (rewrite (config_live _ _ C2), (config_live _ _ F1); exact L).
      destruct (IH _ _ _ _ W2 R2 L2 H) as [K B]. split.
      * intros id u Hin. apply K, K2. now rewrite F2.
      * intros t D. unfold declaredIn in *. cbn [existsb] in D.
        apply andb_prop in D as [D1 D2].
        apply orb_prop in D2 as [D2|D2].
        -- apply String.eqb_eq in D2. subst t.
           destruct B2 as [id B2]. exists id. now apply K.
        -- apply B. now rewrite D1, D2.
Qed.

Lemma updateServices_scans s s' :
  WF s -> quiet s -> Registry s -> live s = true ->
  updateServices s = Done s' ->
  forall type, QMap.contains (m_serviceItemsMap s') type = true ->
               scanned type s'.
Proof.
  intros W Q R L H type C.
  pose proof (updateServices_tables _ _ H) as [T _]. rewrite T in C.
  unfold updateServices in H.
  apply bind_Done in H as [[old s1] [E H]].
  apply bind_Done in H as [s2 [E2 H]]. injection H as <-.
  pose proof (updateServicesLoop_tables _ _ _ _ _ E) as (_ & O1 & _).
  pose proof (updateServicesLoop_scans _ _ _ _ _ W R L E) as [_ B].
  destruct (B type C) as [id Hin].
  apply updateServicesLoop_effect in E as (W1 & _ & Q1); auto.
  pose proof (updateAllServiceTypes_frame s2) as F. cbv zeta in F.
  destruct F as (_ & _ & _ & _ & F5 & _).
  exists id. rewrite F5.
  eapply removeLeftovers_others; eauto.
  intros Hk. apply In_keys, contains_true in Hk.
  rewrite O1, C, andb_false_r in Hk. discriminate.
Qed.

Lemma initializeMdns_scans initialized s s' :
  registryEmpty s -> tablesEmpty s -> m_jdns s = None ->
  initializeMdns initialized s = Done (true, s') ->
  allTypesScanned s'.
Proof.
  unfold initializeMdns. intros Re T Ej H. rewrite Ej in H.
  destruct initialized; simpl in H; [|discriminate].
  match type of H with
  | context [set_lookupReady true ?t] => set (s1 := set_lookupReady true t) in *
  end.
  assert (W1 : WF s1) by (now apply WF_of_empty).
  assert (R1 : Registry s1) by (apply Registry_of_empty; apply Re).
  apply bind_Done in H as [s2 [E2 H]].
  apply bind_Done in H as [s3 [E3 H]]. injection H as <-.
  assert (G2 : WF s2 /\ m_queryIdServiceMap s2 = [] /\ Registry s2).
  { destruct (isUnicast s1).
    - pose proof (updateNameServers_Registry _ _ W1 R1 E2) as R2.
      apply updateNameServers_effect in E2 as (W2 & S2 & Q2); auto.
      split; [exact W2|]. split; [apply Q2, Re|exact R2].
    - injection E2 as <-. split; [exact W1|]. split; [apply Re|exact R1]. }
  destruct G2 as (W2 & M2 & R2).
  assert (Q2 : quiet s2) by (intros _; exact M2).
  destruct (m_running s2) eqn:Er.
  - apply bind_Done in E3 as [s4 [E4 E3]].
    pose proof (updateServices_effect _ _ W2 Q2 E4) as (_ & (C4 & _) & _).
    assert (G : allTypesScanned s4).
    { intros L. rewrite (config_live _ _ C4) in L.
      eapply updateServices_scans; eauto. }
    destruct (isUnicast s4); injection E3 as <-; [|exact G].
    revert G. apply allTypesScanned_same; auto.
  - injection E3 as <-. apply allTypesScanned_idle.
    unfold live. now rewrite Er.
Qed.

Lemma setRunning_scans arg s s' :
  Inv s -> Registry s -> allTypesScanned s ->
  setRunning arg s = Done s' -> allTypesScanned s'.
Proof.
  unfold setRunning. intros I R A H.
  destruct (Bool.eqb (m_running s) arg) eqn:Eb; [now injection H as <-|].
  sproj_in H.
  destruct (m_networkReady s) eqn:En; simpl in H.
  - destruct arg.
    + apply bind_Done in H as [s2 [E H]].
      assert (W1 : WF (set_running true s)).
      { eapply WFx_ext; [| | | | |exact (inv_wf I)]; reflexivity. }
      assert (R1 : Registry (set_running true s))
        by (revert R; apply Registry_same; reflexivity).
      unfold startQueries in E.
      apply startQueries_scans in E as (_ & _ & _ & B2 & I2 & _); auto.
      2:{ apply (rg_scans R1). }
      2:{ intros u. apply key_contains. }
      assert (G : allTypesScanned s2).
      { intros _ type C. apply B2. rewrite I2 in C.
        apply In_keys. now apply contains_true. }
      destruct (isUnicast s2); injection H as <-; [|exact G].
      revert G. apply allTypesScanned_same; auto.
    + apply stopQueries_effect in H as (_ & ((C & _) & _)).
      * apply allTypesScanned_idle. rewrite (config_live _ _ C).
        unfold live. destruct (isUnicast _); reflexivity.
      * eapply WFx_ext; [| | | | |exact (inv_wf I)];
          destruct (isUnicast (set_running false s)); reflexivity.
  - injection H as <-. apply allTypesScanned_idle. unfold live. sproj.
    rewrite En. apply andb_false_r.
Qed.

Lemma afterInitialize_scans ok s :
  (ok = true -> allTypesScanned s) ->
  allTypesScanned (if negb ok then set_networkReady false s else s).
Proof.
  intros A. destruct ok; simpl; [auto|].
  apply allTypesScanned_idle. unfold live. sproj. apply andb_false_r.
Qed.

Lemma step_scans e s s' :
  Inv s -> Registry s /\ allTypesScanned s -> step e s = Done s' ->
  allTypesScanned s'.
Proof.
  intros I [R A] H. pose proof (inv_wf I) as W. destruct e; simpl in H.
  - injection H as <-. revert A. apply allTypesScanned_same; auto.
  - unfold networkSessionOpened in H.
    apply bind_Done in H as [[ok s1] [E H]].
    assert (G : ok = true -> allTypesScanned s1).
    { intros ->. destruct (m_jdns s) as [j|] eqn:Ej.
      - unfold initializeMdns in E. sproj_in E. rewrite Ej in E.
        injection E as <-. revert A. apply allTypesScanned_same; auto.
        unfold live. sproj.
        assert (m_networkReady s = true) as ->; [|reflexivity].
        apply (inv_network I). congruence.
      - destruct (WF_no_backend _ W Ej) as [Re T].
        eapply initializeMdns_scans; [| | |exact E]; auto. }
    apply afterInitialize_scans in G.
    destruct (negb ok); now injection H as <-.
  - unfold networkSessionClosed in H.
    apply bind_Done in H as [s1 [E H]]. injection H as <-.
    apply allTypesScanned_idle. unfold live. sproj. apply andb_false_r.
  - eapply setRunning_scans; eauto.
  - unfold setLookupMode in H.
    destruct (sameMode (m_lookupMode s) arg); [now injection H as <-|].
    apply bind_Done in H as [s1 [E H]].
    destruct (m_lookupReady s) eqn:El.
    + apply bind_Done in H as [[ok s3] [E3 H]].
      apply deinitializeMdns_effect in E as (J & _ & _ & _ & _ & Re & T); auto.
      assert (G : ok = true -> allTypesScanned s3).
      { intros ->. eapply initializeMdns_scans; [| | |exact E3]; auto. }
      apply afterInitialize_scans in G.
      destruct (negb ok); now injection H as <-.
    + injection E as <-. injection H as <-.
      revert A. apply allTypesScanned_same; auto.
  - injection H as <-. unfold setUnicastErrorThreshold.
    destruct (m_unicastErrorThreshold s =? arg)%Z; [exact A|].
    revert A. apply allTypesScanned_same; auto.
  - injection H as <-. unfold setFilter.
    pose proof (updateAllServiceTypes_frame (set_filter arg s)) as F.
    cbv zeta in F. destruct F as (F1 & _ & F3 & _ & F5 & _).
    revert A. apply allTypesScanned_same.
    + exact (config_live _ _ F1).
    + intros t. unfold updateFilter. now rewrite F3.
    + now apply scanned_same.
  - injection H as <-. revert A. apply allTypesScanned_same; auto.
  - injection H as <-. revert A. apply allTypesScanned_same; auto.
  - assert (W1 : WF (set_nameServers arg s)).
    { eapply WFx_ext; [| | | | |exact W]; reflexivity. }
    assert (A1 : allTypesScanned (set_nameServers arg s))
      by (revert A; apply allTypesScanned_same; auto).
    eapply updateNameServers_scans; eauto.
  - injection H as <-. revert A. apply allTypesScanned_same; auto.
  - pose proof (updateServices_effect _ _ W (Inv_quiet _ I) H)
      as (_ & (C & _) & _).
    intros L. rewrite (config_live _ _ C) in L.
    eapply updateServices_scans; eauto. now apply Inv_quiet.
  - injection H as <-.
    pose proof (updateAllServiceTypes_frame s) as F.
    cbv zeta in F. destruct F as (F1 & _ & F3 & _ & F5 & _).
    revert A. apply allTypesScanned_same.
    + exact (config_live _ _ F1).
    + intros t. unfold updateFilter. now rewrite F3.
    + now apply scanned_same.
  - eapply updateNameServers_scans; eauto.
  - destruct (m_unicastLookupTimer s); [|now injection H as <-].
    eapply unicastLookup_scans; eauto.
  - pose proof (resultsReady_effect _ _ _ _ _ W H) as (_ & (C & _ & K & _) & M).
    revert A. apply allTypesScanned_same; auto.
    + now rewrite (config_live _ _ C).
    + now apply scanned_same.
  - now injection H as <-.
Qed.

Lemma reachable_scans s : reachable s -> allTypesScanned s.
Proof.
  intros H.
  assert (G : Registry s /\ allTypesScanned s); [|tauto].
  revert s H. apply reachable_preserves.
  - split.
    + apply reachable_Registry. apply reachable_initialState.
    + apply allTypesScanned_idle. reflexivity.
  - intros e s s' I [R A] H. split.
    + eapply step_Registry; eauto.
    + eapply step_scans; eauto.
Qed.

(** X27: in every reachable state of an engine that runs on an open
    network, every service type that has an instance table is scanned under
    exactly one query id, for the record type it was registered with, and
    the backend was asked to start that query. *)
Theorem running_engine_scans_every_registered_type (s : State)
  (type : string) :
  reachable s -> m_running s = true -> m_networkReady s = true ->
  QMap.contains (m_serviceItemsMap s) type = true ->
  exists id,
    scanRuns type (declaredType type s) id s
    /\ (forall id', In (id', type) (m_queryIdServiceMap s) -> id' = id).
Proof.
  intros R Er En C. pose proof (reachable_scans _ R) as A.
  pose proof (reachable_Registry _ R) as Rg.
  apply reachable_Inv in R. pose proof (inv_wf R) as W.
  destruct (A (eq_trans (f_equal2 andb Er En) eq_refl) type C) as [id Hin].
  exists id. split; [now apply (rg_scans Rg)|].
  intros id' Hin'. eapply (wf_uniq W); eauto.
Qed.

Lemma running_engine_witness :
  let s := stateAfter Scenario.resolving in
  exists id,
    scanRuns Scenario.httpType (declaredType Scenario.httpType s) id s
    /\ (forall id', In (id', Scenario.httpType) (m_queryIdServiceMap s) ->
                    id' = id).
Proof.
  apply (running_engine_scans_every_registered_type
           (stateAfter Scenario.resolving) Scenario.httpType).
  - eapply reachable_stateAfter. vm_compute. reflexivity.
  - vm_compute. reflexivity.
  - vm_compute. reflexivity.
  - vm_compute. reflexivity.
Defined.

(** ** The unicast refresh *)

Lemma refreshQuery_rebinds type s s' :
  WF s -> refreshQuery type s = Done s' ->
  (forall id u, u <> type -> In (id, u) (m_queryIdServiceMap s) ->
                In (id, u) (m_queryIdServiceMap s'))
  /\ (forall id, In (id, type) (m_queryIdServiceMap s) ->
        In (QJDns.QueryCancel id) (backendCalls s')
        /\ exists id', nextId s = Some id'
                       /\ In (id', type) (m_queryIdServiceMap s')).
Proof.
  intros W H. pose proof (refreshQuery_logs _ _ _ H) as Lg.
  apply backendLogs_callsGrow in Lg.
  unfold refreshQuery in H.
  destruct (findQuery type s) as [id0|] eqn:Ef.
  2:{ injection H as <-. split; [auto|]. intros id Hin.
      exfalso. eapply findQuery_None; eauto. }
  apply findQuery_Some in Ef.
  apply bind_Done in H as [s1 [E H]].
  apply queryCancel_Done in E as (j & Ej & ->).
  apply bind_Done in H as [s2 [E2 H]].
  apply bind_Done in H as [[newId s3] [E3 H]]. injection H as <-.
  pose proof (purgeItems_logs _ _ _ E2) as Lp.
  apply backendLogs_callsGrow in Lp.
  apply purgeItems_frame in E2 as (_ & M2 & N2).
  apply queryStart_Done in E3 as (j2 & Ej2 & -> & ->).
  sproj_in M2.
  assert (Hn2 : nextId s2 = Some (QJDns.next_id j2))
    by (apply nextId_Some; eauto).
  rewrite N2 in Hn2. unfold nextId in Hn2. sproj_in Hn2. simpl in Hn2.
  injection Hn2 as Hn2.
  assert (Fr : forall id u, In (id, u) (m_queryIdServiceMap s) ->
                            id <> QJDns.next_id j2).
  { intros id u Hin. destruct (wf_fresh W _ _ Hin) as (n & Hn & Lt).
    apply nextId_Some in Hn as (j' & Ej' & <-).
    assert (j' = j) by congruence. subst j'. lia. }
  sproj. rewrite M2. split.
  - intros id u Nu Hin. apply In_insert. right. split; [eauto|].
    apply In_remove. split; [exact Hin|]. intros ->. apply Nu.
    eapply (wf_fun W); eauto.
  - intros id Hin. assert (id = id0) by (eapply (wf_uniq W); eauto).
    subst id. split.
    + assert (Hc : In (QJDns.QueryCancel id0) (backendCalls s2)).
      { apply Lp. unfold backendCalls. sproj. apply in_or_app. right.
        now left. }
      unfold backendCalls in Hc. rewrite Ej2 in Hc.
      unfold backendCalls. sproj. apply in_or_app. now left.
    + exists (QJDns.next_id j2). split.
      * unfold nextId. rewrite Ej. simpl. now rewrite Hn2.
      * apply In_insert. auto.
Qed.

Lemma refreshQuery_counter s type t t' :
  (forall n, nextId s = Some n ->
             exists n', nextId t = Some n' /\ (n <= n')%Z) ->
  refreshQuery type t = Done t' ->
  forall n, nextId s = Some n -> exists n', nextId t' = Some n' /\ (n <= n')%Z.
Proof.
  intros Mo H n Hn. destruct (Mo n Hn) as (n1 & Hn1 & Le1).
  apply refreshQuery_logs in H.
  destruct (backendLogs_nextId _ _ _ _ H Hn1) as (n2 & Hn2 & Le2).
  exists n2. split; [exact Hn2|lia].
Qed.

Lemma restarted_stable s id u type t t' :
  WF t ->
  (forall n, nextId s = Some n ->
             exists n', nextId t = Some n' /\ (n <= n')%Z) ->
  refreshQuery type t = Done t' ->
  restarted s id u t -> restarted s id u t'.
Proof.
  intros W Mo H [Hc (id' & n & Hn & Le & Hin)].
  pose proof (refreshQuery_logs _ _ _ H) as Lg.
  apply backendLogs_callsGrow in Lg.
  destruct (refreshQuery_rebinds _ _ _ W H) as [K1 K2].
  split; [now apply Lg|].
  destruct (String.eqb_spec u type) as [->|Nu].
  - destruct (K2 _ Hin) as (_ & id'' & Hn'' & Hin'').
    destruct (Mo _ Hn) as (n' & Hn' & Le').
    rewrite Hn' in Hn''. injection Hn'' as <-.
    exists n', n. auto.
  - exists id', n. auto.
Qed.

Lemma refreshLoop_restarts s l : forall t t',
  WF s -> WF t ->
  (forall n, nextId s = Some n ->
             exists n', nextId t = Some n' /\ (n <= n')%Z) ->
  (forall id u, In (id, u) (m_queryIdServiceMap s) ->
                In (id, u) (m_queryIdServiceMap t) \/ restarted s id u t) ->
  forEach refreshQuery l t = Done t' ->
  (forall id u, restarted s id u t -> restarted s id u t')
  /\ (forall id u, In (id, u) (m_queryIdServiceMap s) -> In u l ->
                   restarted s id u t').
Proof.
  induction l as [|x l IH]; intros t t' Ws W Mo Q H.
  - injection H as <-. split; [auto|]. intros id u _ [].
  - cbn [forEach] in H. apply bind_Done in H as [t1 [E H]].
    pose proof (refreshQuery_WFx _ _ _ _ W E) as W1.
    pose proof (refreshQuery_counter _ _ _ _ Mo E) as Mo1.
    pose proof (fun id u => restarted_stable s id u _ _ _ W Mo E) as St1.
    destruct (refreshQuery_rebinds _ _ _ W E) as [K1 K2].
    assert (R1 : forall id, In (id, x) (m_queryIdServiceMap s) ->
                            restarted s id x t1).
    { intros id Hin. destruct (Q _ _ Hin) as [Hin'|Hr]; [|auto].
      destruct (K2 _ Hin') as (Hc & id' & Hn' & Hb). split; [exact Hc|].
      destruct (wf_fresh W _ _ Hin') as (n1 & Hn1 & _).
      destruct (nextId s) as [n|] eqn:Hn.
      - destruct (Mo n eq_refl) as (n' & Hn'' & Le).
        exists id', n. split; [reflexivity|]. split; [|exact Hb].
        congruence.
      - destruct (wf_fresh Ws _ _ Hin) as (n0 & Hn0 & _). congruence. }
    assert (Q1 : forall id u, In (id, u) (m_queryIdServiceMap s) ->
                   In (id, u) (m_queryIdServiceMap t1) \/ restarted s id u t1).
    { intros id u Hin. destruct (String.eqb_spec u x) as [->|Nu].
      - right. auto.
      - destruct (Q _ _ Hin) as [Hin'|Hr]; [left|right]; auto. }
    destruct (IH _ _ Ws W1 Mo1 Q1 H) as [St D]. split.
    + intros id u Hr. auto.
    + intros id u Hin [<-|Hu]; auto.
Qed.

Lemma refreshQuery_no_new type s s' :
  refreshQuery type s = Done s' ->
  forall u, scanned u s' -> scanned u s.
Proof.
  unfold refreshQuery. intros H u [id Hin].
  destruct (findQuery type s) as [id0|] eqn:Ef;
    [|injection H as <-; now exists id].
  apply findQuery_Some in Ef.
  apply bind_Done in H as [s1 [E H]].
  apply queryCancel_Done in E as (j & Ej & ->).
  apply bind_Done in H as [s2 [E2 H]].
  apply bind_Done in H as [[newId s3] [E3 H]]. injection H as <-.
  apply purgeItems_frame in E2 as (_ & M2 & _).
  apply queryStart_Done in E3 as (j2 & Ej2 & -> & ->).
  sproj_in M2. sproj_in Hin. rewrite M2 in Hin.
  apply In_insert in Hin as [[_ ->]|[_ Hin]]; [now exists id0|].
  apply In_remove in Hin as [Hin _]. now exists id.
Qed.

Lemma unicastLookup_returns s :
  WF s -> exists s', unicastLookup s = Done s'.
Proof.
  intros W. destruct (m_jdns s) as [j|] eqn:Ej.
  - apply unicastLookup_total. congruence.
  - destruct (WF_no_backend _ W Ej) as [(_ & Em & _) _].
    unfold unicastLookup.
    destruct (forEach_total (fun t => m_queryIdServiceMap t = [])
                refreshQuery (QMap.keys (m_serviceItemsMap s))) with (s := s)
      as [s' [E _]]; eauto.
    intros x t _ Et. exists t. split; [|exact Et].
    unfold refreshQuery, findQuery. now rewrite Et.
Qed.

(** X28: in every reachable state the unicast refresh ([unicastLookup])
    returns and restarts every scan: the backend is asked to cancel the
    query id of the scan, the id is no longer bound, and the service type
    is scanned under a later id, for the record type it was registered
    with.  No other service type gets a scan, and the service types of the
    instance table and their record types stay. *)
Theorem unicast_refresh_restarts_every_scan (s : State) :
  reachable s ->
  exists s',
    unicastLookup s = Done s'
    /\ (forall id type, In (id, type) (m_queryIdServiceMap s) ->
          In (QJDns.QueryCancel id) (backendCalls s')
          /\ ~ In (id, type) (m_queryIdServiceMap s')
          /\ exists id', (id < id')%Z
                         /\ scanRuns type (declaredType type s) id' s')
    /\ (forall type, scanned type s' -> scanned type s)
    /\ (forall type, QMap.contains (m_serviceItemsMap s') type
                     = QMap.contains (m_serviceItemsMap s) type)
    /\ m_serviceTypeMap s' = m_serviceTypeMap s.
Proof.
  intros R. pose proof (reachable_Registry _ R) as Rg.
  apply reachable_Inv in R. pose proof (inv_wf R) as W.
  destruct (unicastLookup_returns s W) as [s' H]. exists s'.
  split; [exact H|].
  pose proof (unicastLookup_Registry _ _ W Rg H) as Rg'.
  pose proof (unicastLookup_effect _ _ W H) as (W' & (_ & T & K & _)).
  split; [|split; [|split; [exact K|exact T]]].
  - intros id type Hin.
    assert (Hk : In type (QMap.keys (m_serviceItemsMap s))).
    { apply In_keys, contains_true. eapply (wf_key W); eauto. }
    unfold unicastLookup in H.
    apply (refreshLoop_restarts s) in H as [_ D]; auto.
    2:{ intros n Hn. exists n. split; [exact Hn|lia]. }
    destruct (D _ _ Hin Hk) as [Hc (id' & n & Hn & Le & Hb)].
    destruct (wf_fresh W _ _ Hin) as (n0 & Hn0 & Lt).
    assert (n0 = n) by congruence. subst n0.
    split; [exact Hc|]. split.
    + intros Hold. assert (id = id') by (eapply (wf_uniq W'); eauto). lia.
    + exists id'. split; [lia|].
      rewrite <- (declaredType_ext s s') by exact T.
      now apply (rg_scans Rg').
  - revert H. unfold unicastLookup.
    apply (forEach_preserves
             (fun t => forall type, scanned type t -> scanned type s));
      [|auto].
    intros x t t' _ IHt E type Hs. apply IHt.
    eapply refreshQuery_no_new; eauto.
Qed.

Lemma unicast_refresh_witness :
  let s := stateAfter Unicast.startUp in
  exists s',
    unicastLookup s = Done s'
    /\ (forall id type, In (id, type) (m_queryIdServiceMap s) ->
          In (QJDns.QueryCancel id) (backendCalls s')
          /\ ~ In (id, type) (m_queryIdServiceMap s')
          /\ exists id', (id < id')%Z
                         /\ scanRuns type (declaredType type s) id' s')
    /\ (forall type, scanned type s' -> scanned type s)
    /\ (forall type, QMap.contains (m_serviceItemsMap s') type
                     = QMap.contains (m_serviceItemsMap s) type)
    /\ m_serviceTypeMap s' = m_serviceTypeMap s.
Proof.
  apply (unicast_refresh_restarts_every_scan (stateAfter Unicast.startUp)).
  eapply reachable_stateAfter. vm_compute. reflexivity.
Defined.
